(** * Kinetica record protocol: Avro primitives, date/time packing, records
    and schemas.

    A shallow embedding of [src/protocol/avro.c], [dt.c], [record.c] and
    [schema.c], with the properties the specification states about them.

    Conventions of the embedding.
    - A byte is a [Z] in [0, 256); a buffer is a [list Z].
    - A pointer into a buffer is the [Z] offset from the buffer's base, so
      [*pos - buf] of the C code is [pos] itself and [max] is the offset one
      past the window.
    - Fixed-width C integers are [Z] with the wrap-around written out
      ([wrap64u], [wrap64s], [wrap32u], [wrap32s]).
    - A function returning an [AvroErrorCode] and updating [*pos] returns a
      [result]: [Ok a pos'] for [ERR_NONE] with the outputs it stored, and
      [Err e] otherwise.  The C code leaves [*pos] at an unspecified place on
      error and no caller reads it then, so [Err] does not carry it.
      [Undef] marks an execution that has left defined behaviour (a static
      table read outside its bounds). *)

From Stdlib Require Import String ZArith List Bool Lia.
Import ListNotations.
Local Open Scope Z_scope.
Set Warnings "-register-all".

(* ------------------------------------------------------------------------- *)
(** ** Machine integers *)

Definition wrap64u (z : Z) : Z := z mod 2 ^ 64.
Definition wrap64s (z : Z) : Z := (z + 2 ^ 63) mod 2 ^ 64 - 2 ^ 63.
Definition wrap32u (z : Z) : Z := z mod 2 ^ 32.
Definition wrap32s (z : Z) : Z := (z + 2 ^ 31) mod 2 ^ 32 - 2 ^ 31.

Definition INT64_MIN : Z := - 2 ^ 63.
Definition INT64_MAX : Z := 2 ^ 63 - 1.
Definition INT32_MIN : Z := - 2 ^ 31.
Definition INT32_MAX : Z := 2 ^ 31 - 1.
Definition INT16_MIN : Z := - 2 ^ 15.
Definition INT16_MAX : Z := 2 ^ 15 - 1.
Definition INT8_MIN : Z := - 2 ^ 7.
Definition INT8_MAX : Z := 2 ^ 7 - 1.

Definition is_int64 (z : Z) : Prop := INT64_MIN <= z <= INT64_MAX.

(** [buf[p]]; every access in the code is guarded by a bounds test against
    [max], the default is never observed inside the window. *)
Definition byte_at (buf : list Z) (p : Z) : Z := nth (Z.to_nat p) buf 0.

(** [memcpy(buf + p, bs, length bs)]. *)
Definition store (buf : list Z) (p : Z) (bs : list Z) : list Z :=
  firstn (Z.to_nat p) buf ++ bs ++ skipn (Z.to_nat p + length bs) buf.

(** [len] bytes of [buf] starting at [p]. *)
Definition slice (buf : list Z) (p len : Z) : list Z :=
  firstn (Z.to_nat len) (skipn (Z.to_nat p) buf).

Definition zlength (l : list Z) : Z := Z.of_nat (length l).

(* ------------------------------------------------------------------------- *)
(** ** avro.c *)

Module Avro.

Inductive AvroErrorCode : Set := ERR_NONE | ERR_OOM | ERR_EOF | ERR_OVERFLOW.

Inductive result (A : Type) : Type :=
| Ok (a : A) (pos : Z)
| Err (e : AvroErrorCode)
| Undef.
Arguments Ok {A} a pos.
Arguments Err {A} e.
Arguments Undef {A}.

(** [AVRO_RETURN_ERROR(s)] followed by the rest of the function. *)
Definition bind {A B : Type} (r : result A) (k : A -> Z -> result B) : result B :=
  match r with
  | Ok a pos => k a pos
  | Err e => Err e
  | Undef => Undef
  end.

Notation "'let*' ( a , p ) ':=' r 'in' k" :=
  (bind r (fun a p => k))
  (at level 10, a name, p name, r at level 100, k at level 200).

(** [(l << 1) ^ (l >> 63)] stored into a [uint64_t]. *)
Definition zigzag64 (l : Z) : Z :=
  wrap64u (Z.lxor (wrap64s (Z.shiftl l 1)) (Z.shiftr l 63)).

(** [(int64_t)((value >> 1) ^ -(value & 1))] for a [uint64_t value]. *)
Definition unzigzag64 (value : Z) : Z :=
  wrap64s (Z.lxor (Z.shiftr value 1) (wrap64u (- Z.land value 1))).

(** [(int32_t)((value >> 1) ^ -(value & 1))] for a [uint32_t value]. *)
Definition unzigzag32 (value : Z) : Z :=
  wrap32s (Z.lxor (Z.shiftr value 1) (wrap32u (- Z.land value 1))).

(** The do-while loop of [read_long].  [rem] is [max_offset - offset], so
    [rem = 0] is the test [offset == max_offset]; the error returned there is
    [ERR_OVERFLOW] when [offset == 10] and [ERR_EOF] otherwise. *)
Fixpoint read_long_loop (buf : list Z) (pos : Z) (rem : nat)
         (offset value : Z) : result Z :=
  match rem with
  | O => Err (if offset =? 10 then ERR_OVERFLOW else ERR_EOF)
  | S rem' =>
      let b := byte_at buf (pos + offset) in
      let value' :=
        wrap64u (Z.lor value (wrap64s (Z.shiftl (Z.land b 127) (7 * offset)))) in
      let offset' := offset + 1 in
      if Z.land b 128 =? 0
      then Ok (unzigzag64 value') (pos + offset')
      else read_long_loop buf pos rem' offset' value'
  end.

Definition read_long (buf : list Z) (pos max : Z) : result Z :=
  let max_offset := if max - pos <? 10 then max - pos else 10 in
  read_long_loop buf pos (Z.to_nat max_offset) 0 0.

(** The loop of [read_int]: the accumulator is a [uint32_t], the shifted
    seven bits are computed in [int64_t] and truncated by the assignment. *)
Fixpoint read_int_loop (buf : list Z) (pos : Z) (rem : nat)
         (offset value : Z) : result Z :=
  match rem with
  | O => Err (if offset =? 5 then ERR_OVERFLOW else ERR_EOF)
  | S rem' =>
      let b := byte_at buf (pos + offset) in
      let value' :=
        wrap32u (Z.lor value (wrap64s (Z.shiftl (Z.land b 127) (7 * offset)))) in
      let offset' := offset + 1 in
      if Z.land b 128 =? 0
      then Ok (unzigzag32 value') (pos + offset')
      else read_int_loop buf pos rem' offset' value'
  end.

(** The seven payload bits of the first [k] bytes at [pos], least
    significant group first: what the loops of [read_int] and [read_long]
    accumulate before truncation. *)
Fixpoint varint_payload (buf : list Z) (pos : Z) (k : nat) : Z :=
  match k with
  | O => 0
  | S k' =>
      varint_payload buf pos k'
      + Z.land (byte_at buf (pos + Z.of_nat k')) 127 * 2 ^ (7 * Z.of_nat k')
  end.

Definition read_int (buf : list Z) (pos max : Z) : result Z :=
  let max_offset := if max - pos <? 5 then max - pos else 5 in
  read_int_loop buf pos (Z.to_nat max_offset) 0 0.

(** [read_size]: [Py_ssize_t] and [PY_LONG_LONG] have the same width on the
    64-bit targets modelled here, the range test is compiled away. *)
Definition read_size (buf : list Z) (pos max : Z) : result Z :=
  read_long buf pos max.

Definition read_boolean (buf : list Z) (pos max : Z) : result Z :=
  if pos + 1 >? max then Err ERR_EOF
  else
    let temp_b := byte_at buf pos in
    if negb (temp_b =? 0) && negb (temp_b =? 1) then Err ERR_OVERFLOW
    else Ok temp_b (pos + 1).

Definition read_bytes_len (buf : list Z) (pos max : Z) : result Z :=
  let* (temp_len, pos) := read_size buf pos max in
  if temp_len <? 0 then Err ERR_OVERFLOW
  else if pos + temp_len >? max then Err ERR_EOF
  else Ok temp_len pos.

(** [read_bytes_data]: the bytes copied out and the advanced cursor. *)
Definition read_bytes_data (buf : list Z) (pos len : Z) : list Z * Z :=
  (slice buf pos len, pos + len).

Definition read_double (buf : list Z) (pos max : Z) : result (list Z) :=
  if pos + 8 >? max then Err ERR_EOF else Ok (slice buf pos 8) (pos + 8).

Definition read_float (buf : list Z) (pos max : Z) : result (list Z) :=
  if pos + 4 >? max then Err ERR_EOF else Ok (slice buf pos 4) (pos + 4).

Definition is_digit (c : Z) : bool := (48 <=? c) && (c <=? 57).

(** The while loop of [read_digits]; the recursion is on the bytes left in
    the window ([rem] is [max - pos]), which is the test [*pos < max].
    Returns [(temp_i, temp_digits, pos)] at loop exit. *)
Fixpoint read_digits_loop (buf : list Z) (rem : nat) (max_digits : Z)
         (pos temp_i temp_digits : Z) : Z * Z * Z :=
  match rem with
  | O => (temp_i, temp_digits, pos)
  | S rem' =>
      if (temp_digits <=? max_digits) && is_digit (byte_at buf pos)
      then read_digits_loop buf rem' max_digits (pos + 1)
             (wrap64s (wrap64s (temp_i * 10) + (byte_at buf pos - 48)))
             (wrap32u (temp_digits + 1))
      else (temp_i, temp_digits, pos)
  end.

(** [read_digits]: on success the outputs are [(i, digits)]. *)
Definition read_digits (buf : list Z) (pos max : Z)
           (min_digits max_digits min_value max_value : Z) : result (Z * Z) :=
  let '(temp_i, temp_digits, pos') :=
    read_digits_loop buf (Z.to_nat (max - pos)) max_digits pos 0 0 in
  if temp_digits <? min_digits
  then Err (if pos' =? max then ERR_EOF else ERR_OVERFLOW)
  else if (temp_i <? min_value) || (temp_i >? max_value) then Err ERR_OVERFLOW
  else Ok (temp_i, temp_digits) pos'.

Definition is_space (c : Z) : bool :=
  (c =? 32) || (c =? 9) || (c =? 10) || (c =? 11) || (c =? 12) || (c =? 13).

Fixpoint skip_whitespace_loop (buf : list Z) (rem : nat) (pos : Z) : Z :=
  match rem with
  | O => pos
  | S rem' =>
      if is_space (byte_at buf pos)
      then skip_whitespace_loop buf rem' (pos + 1)
      else pos
  end.

Definition skip_whitespace (buf : list Z) (pos max min_chars : Z) : result unit :=
  let org := pos in
  let pos' := skip_whitespace_loop buf (Z.to_nat (max - pos)) pos in
  if org + min_chars >? pos'
  then Err (if pos' =? max then ERR_EOF else ERR_OVERFLOW)
  else Ok tt pos'.

(** The call sites that ignore the error code of [skip_whitespace(.., 0)]
    only use the advanced cursor. *)
Definition skip_whitespace0 (buf : list Z) (pos max : Z) : Z :=
  skip_whitespace_loop buf (Z.to_nat (max - pos)) pos.

Definition skip_char (buf : list Z) (pos max expected : Z) : result unit :=
  if pos >=? max then Err ERR_EOF
  else if negb (byte_at buf pos =? expected) then Err ERR_OVERFLOW
  else Ok tt (pos + 1).

(** The while loop of [size_long]: the number of times [n >>= 7] runs.  A
    [uint64_t] is below 128 after nine shifts; [None] is the fuel running
    out, which does not happen ([write_long_loop_total],
    [size_long_loop_write]). *)
Fixpoint size_long_loop (fuel : nat) (n len : Z) : option Z :=
  if Z.land n (Z.lnot 127) =? 0 then Some len
  else match fuel with
       | O => None
       | S fuel' => size_long_loop fuel' (Z.shiftr n 7) (len + 1)
       end.

Definition size_long (l : Z) : Z :=
  match size_long_loop 9 (zigzag64 l) 0 with
  | Some len => len + 1
  | None => 0
  end.

(** The loop of [write_long] filling [buf[10]], and the final byte. *)
Fixpoint write_long_loop (fuel : nat) (n : Z) : option (list Z) :=
  if Z.land n (Z.lnot 127) =? 0 then Some [n mod 256]
  else match fuel with
       | O => None
       | S fuel' =>
           option_map (cons (Z.lor (Z.land (n mod 256) 127) 128))
                      (write_long_loop fuel' (Z.shiftr n 7))
       end.

(** The contents of [buf[0 .. bytes_written)] in [write_long]. *)
Definition write_long_bytes (l : Z) : list Z :=
  match write_long_loop 9 (zigzag64 l) with
  | Some bs => bs
  | None => []
  end.

(** Writers return the updated buffer together with the cursor. *)
Definition write_long (buf : list Z) (pos max : Z) (l : Z) : result (list Z) :=
  let bs := write_long_bytes l in
  let bytes_written := zlength bs in
  if pos + bytes_written >? max then Err ERR_EOF
  else Ok (store buf pos bs) (pos + bytes_written).

Definition write_int (buf : list Z) (pos max : Z) (i : Z) : result (list Z) :=
  write_long buf pos max i.

Definition write_size (buf : list Z) (pos max : Z) (l : Z) : result (list Z) :=
  write_long buf pos max l.

Definition write_boolean (buf : list Z) (pos max : Z) (b : Z) : result (list Z) :=
  if pos >=? max then Err ERR_EOF
  else Ok (store buf pos [if b =? 0 then 0 else 1]) (pos + 1).

Definition write_bytes (buf : list Z) (pos max : Z) (b : list Z) (len : Z)
  : result (list Z) :=
  let* (buf, pos) := write_size buf pos max len in
  if pos + len >? max then Err ERR_EOF
  else Ok (store buf pos (firstn (Z.to_nat len) b)) (pos + len).

Definition write_char (buf : list Z) (pos max : Z) (c : Z) : result (list Z) :=
  if pos >=? max then Err ERR_EOF
  else Ok (store buf pos [c]) (pos + 1).

(** First loop of [write_digits]: [while (zeroes > 0 && temp)].  An [int]
    is zero after ten divisions by ten, so the fuel given by [write_digits]
    is never exhausted ([quot10_fuel]). *)
Fixpoint write_digits_count1 (fuel : nat) (zeroes digits temp : Z) : Z * Z * Z :=
  match fuel with
  | O => (zeroes, digits, temp)
  | S fuel' =>
      if (zeroes >? 0) && negb (temp =? 0)
      then write_digits_count1 fuel' (zeroes - 1) (digits + 1) (Z.quot temp 10)
      else (zeroes, digits, temp)
  end.

(** Second loop: [while (temp) { ++digits; temp /= 10; }]. *)
Fixpoint write_digits_count2 (fuel : nat) (digits temp : Z) : Z :=
  match fuel with
  | O => digits
  | S fuel' =>
      if negb (temp =? 0)
      then write_digits_count2 fuel' (digits + 1) (Z.quot temp 10)
      else digits
  end.

(** Third loop: the digits of [temp], stored from [digit_pos] downwards. *)
Fixpoint write_digits_store (fuel : nat) (buf : list Z) (digit_pos temp : Z)
  : list Z * Z :=
  match fuel with
  | O => (buf, digit_pos)
  | S fuel' =>
      if negb (temp =? 0)
      then write_digits_store fuel' (store buf digit_pos [(Z.rem temp 10 + 48) mod 256])
             (digit_pos - 1) (Z.quot temp 10)
      else (buf, digit_pos)
  end.

(** Fourth loop: [while (zeroes > 0)] stores the padding ['0']s. *)
Fixpoint write_digits_pad (zeroes : nat) (buf : list Z) (digit_pos : Z) : list Z :=
  match zeroes with
  | O => buf
  | S zeroes' => write_digits_pad zeroes' (store buf digit_pos [48]) (digit_pos - 1)
  end.

Definition write_digits (buf : list Z) (pos max : Z) (min_digits i : Z)
  : result (list Z) :=
  let '(zeroes, digits, temp) := write_digits_count1 11 min_digits 0 i in
  let digits := write_digits_count2 11 digits temp in
  let digits := digits + zeroes in
  if pos + digits >=? max then Err ERR_EOF
  else
    let pos := pos + digits in
    let '(buf, digit_pos) := write_digits_store 11 buf (pos - 1) i in
    Ok (write_digits_pad (Z.to_nat zeroes) buf digit_pos) pos.

Definition write_double (buf : list Z) (pos max : Z) (d : list Z) : result (list Z) :=
  if pos + 8 >? max then Err ERR_EOF
  else Ok (store buf pos d) (pos + 8).

Definition write_float (buf : list Z) (pos max : Z) (f : list Z) : result (list Z) :=
  if pos + 4 >? max then Err ERR_EOF
  else Ok (store buf pos f) (pos + 4).

End Avro.

(* ------------------------------------------------------------------------- *)
(** ** dt.h, dt.c *)

Module DT.

Definition MIN_YEAR : Z := 1000.
Definition MIN_EPOCH_MS : Z := -30610224000000.
Definition MAX_YEAR : Z := 2900.
Definition MAX_EPOCH_MS : Z := 29379542399999.

Definition BITS_PER_YEAR : Z := 11.
Definition BITS_PER_MONTH : Z := 4.
Definition BITS_PER_DAY : Z := 5.
Definition BITS_PER_HOUR : Z := 5.
Definition BITS_PER_MINUTE : Z := 6.
Definition BITS_PER_SEC : Z := 6.
Definition BITS_PER_MSEC : Z := 10.
Definition BITS_PER_YDAY : Z := 9.
Definition BITS_PER_WDAY : Z := 3.

Definition DATE_BASE_YEAR : Z := 1900.
Definition DATE_DEFAULT : Z := -1887301620.
Definition DATE_SHIFT_YEAR : Z := 32 - BITS_PER_YEAR.
Definition DATE_SHIFT_MONTH : Z := DATE_SHIFT_YEAR - BITS_PER_MONTH.
Definition DATE_SHIFT_DAY : Z := DATE_SHIFT_MONTH - BITS_PER_DAY.
Definition DATE_SHIFT_YDAY : Z := DATE_SHIFT_DAY - BITS_PER_YDAY.
Definition DATE_SHIFT_WDAY : Z := DATE_SHIFT_YDAY - BITS_PER_WDAY.

(** [(int32_t)((1 << bits) - 1) << shift]. *)
Definition mask32 (bits shift : Z) : Z := wrap32s (Z.shiftl (Z.shiftl 1 bits - 1) shift).
(** [(int64_t)((1 << bits) - 1) << shift]. *)
Definition mask64 (bits shift : Z) : Z := wrap64s (Z.shiftl (Z.shiftl 1 bits - 1) shift).

Definition DATE_MASK_YEAR : Z := mask32 BITS_PER_YEAR DATE_SHIFT_YEAR.
Definition DATE_MASK_MONTH : Z := mask32 BITS_PER_MONTH DATE_SHIFT_MONTH.
Definition DATE_MASK_DAY : Z := mask32 BITS_PER_DAY DATE_SHIFT_DAY.
Definition DATE_MASK_YDAY : Z := mask32 BITS_PER_YDAY DATE_SHIFT_YDAY.
Definition DATE_MASK_WDAY : Z := mask32 BITS_PER_WDAY DATE_SHIFT_WDAY.
Definition DATE_YEAR (d : Z) : Z :=
  Z.shiftr (Z.land d DATE_MASK_YEAR) DATE_SHIFT_YEAR + DATE_BASE_YEAR.
Definition DATE_MONTH (d : Z) : Z := Z.shiftr (Z.land d DATE_MASK_MONTH) DATE_SHIFT_MONTH.
Definition DATE_DAY (d : Z) : Z := Z.shiftr (Z.land d DATE_MASK_DAY) DATE_SHIFT_DAY.
Definition DATE_YDAY (d : Z) : Z := Z.shiftr (Z.land d DATE_MASK_YDAY) DATE_SHIFT_YDAY.
Definition DATE_WDAY (d : Z) : Z := Z.shiftr (Z.land d DATE_MASK_WDAY) DATE_SHIFT_WDAY.

Definition TIME_SHIFT_HOUR : Z := 31 - BITS_PER_HOUR.
Definition TIME_SHIFT_MINUTE : Z := TIME_SHIFT_HOUR - BITS_PER_MINUTE.
Definition TIME_SHIFT_SEC : Z := TIME_SHIFT_MINUTE - BITS_PER_SEC.
Definition TIME_SHIFT_MSEC : Z := TIME_SHIFT_SEC - BITS_PER_MSEC.
Definition TIME_MASK_HOUR : Z := mask32 BITS_PER_HOUR TIME_SHIFT_HOUR.
Definition TIME_MASK_MINUTE : Z := mask32 BITS_PER_MINUTE TIME_SHIFT_MINUTE.
Definition TIME_MASK_SEC : Z := mask32 BITS_PER_SEC TIME_SHIFT_SEC.
Definition TIME_MASK_MSEC : Z := mask32 BITS_PER_MSEC TIME_SHIFT_MSEC.
Definition TIME_HOUR (t : Z) : Z := Z.shiftr (Z.land t TIME_MASK_HOUR) TIME_SHIFT_HOUR.
Definition TIME_MINUTE (t : Z) : Z := Z.shiftr (Z.land t TIME_MASK_MINUTE) TIME_SHIFT_MINUTE.
Definition TIME_SEC (t : Z) : Z := Z.shiftr (Z.land t TIME_MASK_SEC) TIME_SHIFT_SEC.
Definition TIME_MSEC (t : Z) : Z := Z.shiftr (Z.land t TIME_MASK_MSEC) TIME_SHIFT_MSEC.

Definition DT_BASE_YEAR : Z := 1900.
Definition DT_DEFAULT : Z := -8105898787127426688.
Definition DT_SHIFT_YEAR : Z := 64 - BITS_PER_YEAR.
Definition DT_SHIFT_MONTH : Z := DT_SHIFT_YEAR - BITS_PER_MONTH.
Definition DT_SHIFT_DAY : Z := DT_SHIFT_MONTH - BITS_PER_DAY.
Definition DT_SHIFT_HOUR : Z := DT_SHIFT_DAY - BITS_PER_HOUR.
Definition DT_SHIFT_MINUTE : Z := DT_SHIFT_HOUR - BITS_PER_MINUTE.
Definition DT_SHIFT_SEC : Z := DT_SHIFT_MINUTE - BITS_PER_SEC.
Definition DT_SHIFT_MSEC : Z := DT_SHIFT_SEC - BITS_PER_MSEC.
Definition DT_SHIFT_YDAY : Z := DT_SHIFT_MSEC - BITS_PER_YDAY.
Definition DT_SHIFT_WDAY : Z := DT_SHIFT_YDAY - BITS_PER_WDAY.
Definition DT_MASK_YEAR : Z := mask64 BITS_PER_YEAR DT_SHIFT_YEAR.
Definition DT_MASK_MONTH : Z := mask64 BITS_PER_MONTH DT_SHIFT_MONTH.
Definition DT_MASK_DAY : Z := mask64 BITS_PER_DAY DT_SHIFT_DAY.
Definition DT_MASK_HOUR : Z := mask64 BITS_PER_HOUR DT_SHIFT_HOUR.
Definition DT_MASK_MINUTE : Z := mask64 BITS_PER_MINUTE DT_SHIFT_MINUTE.
Definition DT_MASK_SEC : Z := mask64 BITS_PER_SEC DT_SHIFT_SEC.
Definition DT_MASK_MSEC : Z := mask64 BITS_PER_MSEC DT_SHIFT_MSEC.
Definition DT_MASK_YDAY : Z := mask64 BITS_PER_YDAY DT_SHIFT_YDAY.
Definition DT_MASK_WDAY : Z := mask64 BITS_PER_WDAY DT_SHIFT_WDAY.
Definition DT_YEAR (dt : Z) : Z := Z.shiftr (Z.land dt DT_MASK_YEAR) DT_SHIFT_YEAR + DT_BASE_YEAR.
Definition DT_MONTH (dt : Z) : Z := Z.shiftr (Z.land dt DT_MASK_MONTH) DT_SHIFT_MONTH.
Definition DT_DAY (dt : Z) : Z := Z.shiftr (Z.land dt DT_MASK_DAY) DT_SHIFT_DAY.
Definition DT_HOUR (dt : Z) : Z := Z.shiftr (Z.land dt DT_MASK_HOUR) DT_SHIFT_HOUR.
Definition DT_MINUTE (dt : Z) : Z := Z.shiftr (Z.land dt DT_MASK_MINUTE) DT_SHIFT_MINUTE.
Definition DT_SEC (dt : Z) : Z := Z.shiftr (Z.land dt DT_MASK_SEC) DT_SHIFT_SEC.
Definition DT_MSEC (dt : Z) : Z := Z.shiftr (Z.land dt DT_MASK_MSEC) DT_SHIFT_MSEC.
Definition DT_YDAY (dt : Z) : Z := Z.shiftr (Z.land dt DT_MASK_YDAY) DT_SHIFT_YDAY.
Definition DT_WDAY (dt : Z) : Z := Z.shiftr (Z.land dt DT_MASK_WDAY) DT_SHIFT_WDAY.

Definition BASE_EPOCH_MS : Z := -62162035200000.
Definition CENTURIES_PER_CYCLE : Z := 4.
Definition YEARS_PER_CYCLE : Z := 400.
Definition YEARS_PER_CENTURY : Z := 100.
Definition YEARS_PER_LEAP : Z := 4.
Definition MONTHS_PER_YEAR : Z := 12.
Definition DAYS_PER_CYCLE : Z := 146097.
Definition DAYS_PER_CENTURY : Z := 36524.
Definition DAYS_PER_LEAP : Z := 1461.
Definition DAYS_PER_YEAR : Z := 365.
Definition DAYS_PER_WEEK : Z := 7.
Definition MINUTES_PER_HOUR : Z := 60.
Definition SEC_PER_MINUTE : Z := 60.
Definition MSEC_PER_DAY : Z := 86400000.
Definition MSEC_PER_HOUR : Z := 3600000.
Definition MSEC_PER_MINUTE : Z := 60000.
Definition MSEC_PER_SEC : Z := 1000.

(** [table[i]] for a static table: [None] is an access outside the table,
    which is undefined behaviour in C. *)
Definition table_get (table : list Z) (i : Z) : option Z :=
  if i <? 0 then None else nth_error table (Z.to_nat i).

(** Reading of a table whose index the code has normalised to the bounds
    of the table for every packed month up to 14; a read outside, undefined
    in C, gives 0 here. *)
Definition table_at (table : list Z) (i : Z) : Z := nth (Z.to_nat i) table 0.

Definition days_before_month_march : list Z :=
  [0; 31; 61; 92; 122; 153; 184; 214; 245; 275; 306; 337].

(** [datetime_to_epoch_ms]; [/] and [%] of C truncate, as [Z.quot] and
    [Z.rem] do. *)
Definition datetime_to_epoch_ms (datetime : Z) : Z :=
  let year := DT_YEAR datetime in
  let month := DT_MONTH datetime - 3 in
  let '(month, year) :=
    if month <? 0 then (month + MONTHS_PER_YEAR, year - 1) else (month, year) in
  wrap64s
    (BASE_EPOCH_MS
     + (year * DAYS_PER_YEAR
        + Z.quot year YEARS_PER_LEAP
        - Z.quot year YEARS_PER_CENTURY
        + Z.quot year YEARS_PER_CYCLE
        + table_at days_before_month_march month
        + DT_DAY datetime - 1) * MSEC_PER_DAY
     + DT_HOUR datetime * MSEC_PER_HOUR
     + DT_MINUTE datetime * MSEC_PER_MINUTE
     + DT_SEC datetime * MSEC_PER_SEC
     + DT_MSEC datetime).

Definition days_in_month_march : list Z :=
  [31; 30; 31; 30; 31; 31; 30; 31; 30; 31; 31; 29].

(** [for (month = 0; days_in_month[month] <= days; ++month)
        days -= days_in_month[month];]
    by recursion on the rest of the table. *)
Fixpoint month_walk (table : list Z) (month days : Z) : Z * Z :=
  match table with
  | [] => (month, days)
  | d :: table' =>
      if d <=? days then month_walk table' (month + 1) (days - d)
      else (month, days)
  end.

Definition epoch_ms_to_datetime (epoch_ms : Z) : Z :=
  let base_ms := epoch_ms - BASE_EPOCH_MS in
  let days := Z.quot base_ms MSEC_PER_DAY in
  let milliseconds := Z.rem base_ms MSEC_PER_DAY in
  let day_of_week := Z.rem (days + 3) DAYS_PER_WEEK in
  let cycles_since_base := Z.quot days DAYS_PER_CYCLE in
  let days := Z.rem days DAYS_PER_CYCLE in
  let centuries_since_cycle := Z.quot days DAYS_PER_CENTURY in
  let centuries_since_cycle :=
    if centuries_since_cycle =? CENTURIES_PER_CYCLE
    then centuries_since_cycle - 1 else centuries_since_cycle in
  let days := days - centuries_since_cycle * DAYS_PER_CENTURY in
  let leaps_since_century := Z.quot days DAYS_PER_LEAP in
  let days := days - leaps_since_century * DAYS_PER_LEAP in
  let years_since_leap := Z.quot days DAYS_PER_YEAR in
  let years_since_leap :=
    if years_since_leap =? YEARS_PER_LEAP
    then years_since_leap - 1 else years_since_leap in
  let days := days - years_since_leap * DAYS_PER_YEAR in
  let is_leap_year :=
    Z.b2z ((years_since_leap =? 0)
           && (negb (leaps_since_century =? 0) || (centuries_since_cycle =? 0))) in
  let day_of_year := days + 59 + is_leap_year in
  let day_of_year :=
    if day_of_year >=? DAYS_PER_YEAR + is_leap_year
    then day_of_year - (DAYS_PER_YEAR + is_leap_year) else day_of_year in
  let year :=
    cycles_since_base * YEARS_PER_CYCLE
    + centuries_since_cycle * YEARS_PER_CENTURY
    + leaps_since_century * YEARS_PER_LEAP
    + years_since_leap in
  let '(month, days) := month_walk days_in_month_march 0 days in
  let month := month + 3 in
  let '(month, year) :=
    if month >? MONTHS_PER_YEAR then (month - MONTHS_PER_YEAR, year + 1)
    else (month, year) in
  wrap64s
    (Z.shiftl (year - DT_BASE_YEAR) DT_SHIFT_YEAR
     + Z.shiftl month DT_SHIFT_MONTH
     + Z.shiftl (days + 1) DT_SHIFT_DAY
     + Z.shiftl (Z.quot milliseconds MSEC_PER_HOUR) DT_SHIFT_HOUR
     + Z.shiftl (Z.rem (Z.quot milliseconds MSEC_PER_MINUTE) MINUTES_PER_HOUR) DT_SHIFT_MINUTE
     + Z.shiftl (Z.rem (Z.quot milliseconds MSEC_PER_SEC) SEC_PER_MINUTE) DT_SHIFT_SEC
     + Z.shiftl (Z.rem milliseconds MSEC_PER_SEC) DT_SHIFT_MSEC
     + Z.shiftl (day_of_year + 1) DT_SHIFT_YDAY
     + Z.shiftl (day_of_week + 1) DT_SHIFT_WDAY).

(** Outcome of [compute_days]: the tables are indexed by [month - 1] with no
    test on [month], so the outcome has a third case besides the two return
    values. *)
Inductive days_result : Set :=
| Days_undefined                                (* table read out of bounds *)
| Days_invalid                                  (* return 0 *)
| Days_ok (day_of_year day_of_week : Z).        (* return 1 *)

Definition days_in_month : list Z := [31; 29; 31; 30; 31; 30; 31; 31; 30; 31; 30; 31].
Definition days_before_month : list Z :=
  [0; 31; 60; 91; 121; 152; 182; 213; 244; 274; 305; 335].
Definition day_of_week_offset : list Z := [0; 3; 2; 5; 0; 3; 5; 1; 4; 6; 2; 4].

Definition compute_days (year month day : Z) : days_result :=
  if (year <? MIN_YEAR) || (year >? MAX_YEAR) then Days_invalid
  else
    let m := month - 1 in
    match table_get days_in_month m with
    | None => Days_undefined
    | Some dim =>
        if day >? dim then Days_invalid
        else
          let not_leap_year :=
            negb (Z.rem year 4 =? 0)
            || ((Z.rem year 100 =? 0) && negb (Z.rem year 400 =? 0)) in
          if not_leap_year && (month =? 2) && (day =? 29) then Days_invalid
          else
            match table_get days_before_month m, table_get day_of_week_offset m with
            | Some before, Some offset =>
                let '(day_of_year, y) :=
                  if month <? 3 then (before + day, year - 1)
                  else (before - Z.b2z not_leap_year + day, year) in
                Days_ok day_of_year
                        (Z.rem (day + offset + y + Z.quot y 4 - Z.quot y 100
                                + Z.quot y 400) 7 + 1)
            | _, _ => Days_undefined
            end
    end.

(** Outcome of [encode_date] and [encode_datetime]: [Enc_ok v] is return
    value 1 with [v] stored through the output pointer, [Enc_invalid] is
    return value 0 with nothing stored. *)
Inductive encode_result : Set :=
| Enc_undefined
| Enc_invalid
| Enc_ok (packed : Z).

Definition encode_date (year month day : Z) : encode_result :=
  match compute_days year month day with
  | Days_undefined => Enc_undefined
  | Days_invalid => Enc_invalid
  | Days_ok day_of_year day_of_week =>
      Enc_ok (wrap32s
                (Z.shiftl (year - DATE_BASE_YEAR) DATE_SHIFT_YEAR
                 + Z.shiftl month DATE_SHIFT_MONTH
                 + Z.shiftl day DATE_SHIFT_DAY
                 + Z.shiftl day_of_year DATE_SHIFT_YDAY
                 + Z.shiftl day_of_week DATE_SHIFT_WDAY))
  end.

Definition encode_datetime (year month day hour minute second millisecond : Z)
  : encode_result :=
  match compute_days year month day with
  | Days_undefined => Enc_undefined
  | Days_invalid => Enc_invalid
  | Days_ok day_of_year day_of_week =>
      Enc_ok (wrap64s
                (Z.shiftl (year - DT_BASE_YEAR) DT_SHIFT_YEAR
                 + Z.shiftl month DT_SHIFT_MONTH
                 + Z.shiftl day DT_SHIFT_DAY
                 + Z.shiftl hour DT_SHIFT_HOUR
                 + Z.shiftl minute DT_SHIFT_MINUTE
                 + Z.shiftl second DT_SHIFT_SEC
                 + Z.shiftl millisecond DT_SHIFT_MSEC
                 + Z.shiftl day_of_year DT_SHIFT_YDAY
                 + Z.shiftl day_of_week DT_SHIFT_WDAY))
  end.

Definition encode_time (hour minute second millisecond : Z) : Z :=
  wrap32s
    (Z.shiftl hour TIME_SHIFT_HOUR
     + Z.shiftl minute TIME_SHIFT_MINUTE
     + Z.shiftl second TIME_SHIFT_SEC
     + Z.shiftl millisecond TIME_SHIFT_MSEC).

End DT.

(* ------------------------------------------------------------------------- *)
(** ** Python exceptions raised by the protocol module (common.c) *)

Module Py.

Inductive exc_type : Set :=
| PyExc_EOFError | PyExc_ValueError | PyExc_TypeError | PyExc_OverflowError
| PyExc_MemoryError | PyExc_IndexError
| PyExc_Host.          (* whatever a host-runtime conversion raised *)

(** The pending exception: its type and message. *)
Definition exception : Type := exc_type * String.string.

Definition handle_read_error (error : Avro.AvroErrorCode) : option exception :=
  match error with
  | Avro.ERR_NONE => None
  | Avro.ERR_OOM => Some (PyExc_MemoryError, ""%string)
  | Avro.ERR_EOF => Some (PyExc_EOFError, "incomplete binary data"%string)
  | Avro.ERR_OVERFLOW => Some (PyExc_ValueError, "invalid binary data"%string)
  end.

Definition handle_write_error (error : Avro.AvroErrorCode) : option exception :=
  match error with
  | Avro.ERR_NONE => None
  | Avro.ERR_OOM => Some (PyExc_MemoryError, ""%string)
  | Avro.ERR_EOF => Some (PyExc_EOFError, "insufficient buffer size"%string)
  | Avro.ERR_OVERFLOW => Some (PyExc_ValueError, "invalid value"%string)
  end.

(** The window [pos, max) from which [Record.decode] and [Schema.decode]
    read: the whole buffer, or the range argument after
    [CHECK_STRING(start >= 0 && start <= buffer.len, ...)] and
    [CHECK_STRING(length >= 0 && start + length <= buffer.len, ...)].  The
    sum is a [Py_ssize_t] sum: when it does not fit 64 bits the test has no
    defined value. *)
Inductive window_result : Type :=
| Window (pos max : Z)
| Window_raised (e : exception)
| Window_undef.

Definition decode_window (buffer : list Z) (arg_range : option (Z * Z))
  : window_result :=
  match arg_range with
  | Some (start, length) =>
      if negb ((start >=? 0) && (start <=? zlength buffer))
      then Window_raised (PyExc_ValueError, "start index out of range"%string)
      else if length <? 0
      then Window_raised (PyExc_ValueError, "length out of range"%string)
      else if start + length >? INT64_MAX then Window_undef
      else if negb (start + length <=? zlength buffer)
      then Window_raised (PyExc_ValueError, "length out of range"%string)
      else Window start (start + length)
  | None => Window 0 (zlength buffer)
  end.

End Py.

(* ------------------------------------------------------------------------- *)
(** ** record.h, record.c *)

Module Rec.
Import Avro DT.

Inductive ColumnDataType : Set :=
| CDT_BYTES | CDT_CHAR1 | CDT_CHAR2 | CDT_CHAR4 | CDT_CHAR8
| CDT_CHAR16 | CDT_CHAR32 | CDT_CHAR64 | CDT_CHAR128 | CDT_CHAR256
| CDT_DATE | CDT_DATETIME | CDT_DOUBLE | CDT_FLOAT
| CDT_INT | CDT_INT8 | CDT_INT16 | CDT_LONG
| CDT_STRING | CDT_TIME | CDT_TIMESTAMP.

Record ColumnDef : Set := mkColumnDef {
  data_type : ColumnDataType;
  is_nullable : bool                    (* char, 0 or 1 *)
}.

(** The [ColumnValueBase] union.  Its eight bytes are read through [c], [d],
    [f], [i] or [l] ([long] and [long long] are both 64 bits wide on the
    targets modelled, little-endian), or hold the pointer [data].
    [V_word w] is the union holding the signed 64-bit word [w]; the all-zero
    union [V_word 0] is also the null pointer.  [V_data d] is the union
    holding a pointer to a buffer with contents [d]. *)
Inductive ColumnValueBase : Set :=
| V_word (w : Z)
| V_data (d : list Z).

Record ColumnValue : Set := mkColumnValue {
  value : ColumnValueBase;
  len : Z
}.

(** The part of a [RecordType] object the codec reads: [column_defs].
    [type_id] stands for the identity of the object, since the code compares
    record types by pointer. *)
Record RecordType : Set := mkRecordType {
  type_id : Z;
  column_defs : list ColumnDef
}.

(** A [Record] object ([Record] is a keyword of Rocq).  The list [values] of
    cached host objects is not part of the codec state modelled here. *)
Record Record_t : Set := mkRecord {
  type : RecordType;
  size : Z;
  column_values : list ColumnValue
}.

(** [Py_SIZE(record)]. *)
Definition column_count (record : Record_t) : nat := length (column_values record).

Definition default_def : ColumnDef := mkColumnDef CDT_BYTES false.
Definition default_value : ColumnValue := mkColumnValue (V_word 0) 0.

Definition def_at (record : Record_t) (i : nat) : ColumnDef :=
  nth i (column_defs (type record)) default_def.
Definition value_at (record : Record_t) (i : nat) : ColumnValue :=
  nth i (column_values record) default_value.

Fixpoint list_set {A : Type} (l : list A) (i : nat) (a : A) : list A :=
  match l, i with
  | [], _ => []
  | _ :: l', O => a :: l'
  | x :: l', S i' => x :: list_set l' i' a
  end.

Definition set_value_at (record : Record_t) (i : nat) (cv : ColumnValue) : Record_t :=
  mkRecord (type record) (size record) (list_set (column_values record) i cv).

(** Little-endian bytes of a word and back. *)
Fixpoint le_split (n : nat) (w : Z) : list Z :=
  match n with
  | O => []
  | S n' => w mod 256 :: le_split n' (w / 256)
  end.

Fixpoint le_combine (bs : list Z) : Z :=
  match bs with
  | [] => 0
  | b :: bs' => b + 256 * le_combine bs'
  end.

(** The views of the union. *)
Definition value_l (v : ColumnValueBase) : Z :=
  match v with V_word w => w | V_data _ => 0 end.
Definition value_i : ColumnValueBase -> Z := value_l.
Definition value_bytes (v : ColumnValueBase) : list Z :=
  le_split 8 (wrap64u (value_l v)).
Definition value_data (v : ColumnValueBase) : list Z :=
  match v with V_data d => d | V_word _ => [] end.

(** Storing [bs] over the first bytes of the union ([c], [d] and [f]). *)
Definition set_bytes (v : ColumnValueBase) (bs : list Z) : ColumnValueBase :=
  V_word (wrap64s (le_combine (bs ++ skipn (length bs) (value_bytes v)))).

(** [Record_new]: [tp_alloc] returns zero-filled memory, then every [len] is
    set to [- is_nullable]. *)
Definition Record_new (arg_type : RecordType) : Record_t :=
  mkRecord arg_type 0
           (map (fun def => mkColumnValue (V_word 0) (- Z.b2z (is_nullable def)))
                (column_defs arg_type)).

(** *** Column clear functions *)

(** [free] and the reference counts of the cached host values leave no trace
    in the model; the two flavours of [from_python] then coincide. *)
Definition clear_bytes_column (self : Record_t) (index : nat) (from_python : bool)
  : Record_t :=
  set_value_at self index
    (mkColumnValue (V_word 0) (- Z.b2z (is_nullable (def_at self index)))).

Definition clear_simple_column (self : Record_t) (index : nat) (from_python : bool)
  : Record_t :=
  set_value_at self index
    (mkColumnValue (V_word 0) (- Z.b2z (is_nullable (def_at self index)))).

Definition clear_string_column := clear_bytes_column.

Definition clear_column (dt : ColumnDataType) : Record_t -> nat -> bool -> Record_t :=
  match dt with
  | CDT_BYTES => clear_bytes_column
  | CDT_CHAR1 | CDT_CHAR2 | CDT_CHAR4 | CDT_CHAR8 => clear_simple_column
  | CDT_CHAR16 | CDT_CHAR32 | CDT_CHAR64 | CDT_CHAR128 | CDT_CHAR256 =>
      clear_string_column
  | CDT_DATE | CDT_DATETIME | CDT_DOUBLE | CDT_FLOAT
  | CDT_INT | CDT_INT8 | CDT_INT16 | CDT_LONG => clear_simple_column
  | CDT_STRING => clear_string_column
  | CDT_TIME | CDT_TIMESTAMP => clear_simple_column
  end.

(** *** Column reading functions

    Each takes the [ColumnValue] to fill and returns the filled one.
    [MALLOC] is taken to succeed. *)

Definition read_bytes_column (buf : list Z) (pos max : Z) (cv : ColumnValue)
  : result ColumnValue :=
  let* (len, pos) := read_bytes_len buf pos max in
  let '(data, pos) := read_bytes_data buf pos len in
  Ok (mkColumnValue (V_data data) len) pos.

Definition read_char_column_small (size : Z) (buf : list Z) (pos max : Z)
           (cv : ColumnValue) : result ColumnValue :=
  let* (len, pos) := read_bytes_len buf pos max in
  if len >? size then Err ERR_OVERFLOW
  else
    let '(data, pos) := read_bytes_data buf pos len in
    Ok (mkColumnValue (set_bytes (value cv) data) len) pos.

Definition read_char1_column := read_char_column_small 1.
Definition read_char2_column := read_char_column_small 2.
Definition read_char4_column := read_char_column_small 4.
Definition read_char8_column := read_char_column_small 8.

Definition read_char_column_large (size : Z) (buf : list Z) (pos max : Z)
           (cv : ColumnValue) : result ColumnValue :=
  let* (len, pos) := read_bytes_len buf pos max in
  if len >? size then Err ERR_OVERFLOW
  else
    let '(data, pos) := read_bytes_data buf pos len in
    Ok (mkColumnValue (V_data data) len) pos.

Definition read_char16_column := read_char_column_large 16.
Definition read_char32_column := read_char_column_large 32.
Definition read_char64_column := read_char_column_large 64.
Definition read_char128_column := read_char_column_large 128.
Definition read_char256_column := read_char_column_large 256.

Definition of_encode (r : encode_result) (pos : Z) : result ColumnValue :=
  match r with
  | Enc_ok packed => Ok (mkColumnValue (V_word packed) 0) pos
  | Enc_invalid => Err ERR_OVERFLOW
  | Enc_undefined => Undef
  end.

Definition read_date_column (buf : list Z) (pos max : Z) (cv : ColumnValue)
  : result ColumnValue :=
  let* (len, pos) := read_bytes_len buf pos max in
  let max := pos + len in
  let pos := skip_whitespace0 buf pos max in
  let* (year, pos) := read_digits buf pos max 4 4 1000 2900 in
  let* (_, pos) := skip_char buf pos max 45 in
  let* (month, pos) := read_digits buf pos max 2 2 1 12 in
  let* (_, pos) := skip_char buf pos max 45 in
  let* (day, pos) := read_digits buf pos max 2 2 1 31 in
  let pos := skip_whitespace0 buf pos max in
  if negb (pos =? max) then Err ERR_OVERFLOW
  else of_encode (encode_date (fst year) (fst month) (fst day)) pos.

(** The rescaling of the fractional seconds in [read_datetime_column]. *)
Definition scale_fraction6 (millisecond digits : Z) : Z :=
  if digits <? 3 then
    if digits =? 2 then millisecond * 10 else millisecond * 100
  else if digits >? 3 then
    if digits =? 4 then Z.quot millisecond 10
    else if digits =? 5 then Z.quot millisecond 100
    else Z.quot millisecond 1000
  else millisecond.

(** The rescaling in [read_time_column], which has no branch for more than
    three digits. *)
Definition scale_fraction3 (millisecond digits : Z) : Z :=
  if digits <? 3 then
    if digits =? 2 then millisecond * 10 else millisecond * 100
  else millisecond.

Definition read_datetime_column (buf : list Z) (pos max : Z) (cv : ColumnValue)
  : result ColumnValue :=
  let* (len, pos) := read_bytes_len buf pos max in
  let max := pos + len in
  let pos := skip_whitespace0 buf pos max in
  let* (year, pos) := read_digits buf pos max 4 4 1000 2900 in
  let* (_, pos) := skip_char buf pos max 45 in
  let* (month, pos) := read_digits buf pos max 2 2 1 12 in
  let* (_, pos) := skip_char buf pos max 45 in
  let* (day, pos) := read_digits buf pos max 2 2 1 31 in
  let* (_, pos) :=
    (if pos <? max then skip_whitespace buf pos max 1 else Ok tt pos) in
  if pos =? max
  then of_encode (encode_datetime (fst year) (fst month) (fst day) 0 0 0 0) pos
  else
    let* (hour, pos) := read_digits buf pos max 1 2 0 23 in
    let* (_, pos) := skip_char buf pos max 58 in
    let* (minute, pos) := read_digits buf pos max 2 2 0 59 in
    let* (_, pos) := skip_char buf pos max 58 in
    let* (second, pos) := read_digits buf pos max 2 2 0 59 in
    let* (millisecond, pos) :=
      (if (pos <? max) && (byte_at buf pos =? 46)
       then
         let* (ms, pos) := read_digits buf (pos + 1) max 1 6 0 999999 in
         Ok (scale_fraction6 (fst ms) (snd ms)) pos
       else Ok 0 pos) in
    let pos := skip_whitespace0 buf pos max in
    if negb (pos =? max) then Err ERR_OVERFLOW
    else of_encode (encode_datetime (fst year) (fst month) (fst day)
                                    (fst hour) (fst minute) (fst second) millisecond)
                   pos.

Definition read_double_column (buf : list Z) (pos max : Z) (cv : ColumnValue)
  : result ColumnValue :=
  let* (d, pos) := read_double buf pos max in
  Ok (mkColumnValue (set_bytes (value cv) d) 0) pos.

Definition read_float_column (buf : list Z) (pos max : Z) (cv : ColumnValue)
  : result ColumnValue :=
  let* (f, pos) := read_float buf pos max in
  Ok (mkColumnValue (set_bytes (value cv) f) 0) pos.

Definition read_int_column (buf : list Z) (pos max : Z) (cv : ColumnValue)
  : result ColumnValue :=
  let* (i, pos) := read_int buf pos max in
  Ok (mkColumnValue (V_word i) 0) pos.

Definition read_int_column_small (min_value max_value : Z)
           (buf : list Z) (pos max : Z) (cv : ColumnValue) : result ColumnValue :=
  let* (v, pos) := read_int buf pos max in
  if (v <? min_value) || (v >? max_value) then Err ERR_OVERFLOW
  else Ok (mkColumnValue (V_word v) 0) pos.

Definition read_int8_column := read_int_column_small INT8_MIN INT8_MAX.
Definition read_int16_column := read_int_column_small INT16_MIN INT16_MAX.

Definition read_long_column (buf : list Z) (pos max : Z) (cv : ColumnValue)
  : result ColumnValue :=
  let* (l, pos) := read_long buf pos max in
  Ok (mkColumnValue (V_word l) 0) pos.

Definition read_time_column (buf : list Z) (pos max : Z) (cv : ColumnValue)
  : result ColumnValue :=
  let* (len, pos) := read_bytes_len buf pos max in
  let max := pos + len in
  let pos := skip_whitespace0 buf pos max in
  let* (hour, pos) := read_digits buf pos max 1 2 0 23 in
  let* (_, pos) := skip_char buf pos max 58 in
  let* (minute, pos) := read_digits buf pos max 2 2 0 59 in
  let* (_, pos) := skip_char buf pos max 58 in
  let* (second, pos) := read_digits buf pos max 2 2 0 59 in
  let* (millisecond, pos) :=
    (if (pos <? max) && (byte_at buf pos =? 46)
     then
       let* (ms, pos) := read_digits buf (pos + 1) max 1 3 0 999999 in
       Ok (scale_fraction3 (fst ms) (snd ms)) pos
     else Ok 0 pos) in
  let pos := skip_whitespace0 buf pos max in
  if negb (pos =? max) then Err ERR_OVERFLOW
  else
    Ok (mkColumnValue
          (V_word (encode_time (fst hour) (fst minute) (fst second) millisecond)) 0)
       pos.

Definition read_timestamp_column (buf : list Z) (pos max : Z) (cv : ColumnValue)
  : result ColumnValue :=
  let* (v, pos) := read_long buf pos max in
  if (v <? MIN_EPOCH_MS) || (v >? MAX_EPOCH_MS) then Err ERR_OVERFLOW
  else Ok (mkColumnValue (V_word (epoch_ms_to_datetime v)) 0) pos.

Definition read_column (dt : ColumnDataType)
  : list Z -> Z -> Z -> ColumnValue -> result ColumnValue :=
  match dt with
  | CDT_BYTES => read_bytes_column
  | CDT_CHAR1 => read_char1_column
  | CDT_CHAR2 => read_char2_column
  | CDT_CHAR4 => read_char4_column
  | CDT_CHAR8 => read_char8_column
  | CDT_CHAR16 => read_char16_column
  | CDT_CHAR32 => read_char32_column
  | CDT_CHAR64 => read_char64_column
  | CDT_CHAR128 => read_char128_column
  | CDT_CHAR256 => read_char256_column
  | CDT_DATE => read_date_column
  | CDT_DATETIME => read_datetime_column
  | CDT_DOUBLE => read_double_column
  | CDT_FLOAT => read_float_column
  | CDT_INT => read_int_column
  | CDT_INT8 => read_int8_column
  | CDT_INT16 => read_int16_column
  | CDT_LONG => read_long_column
  | CDT_STRING => read_bytes_column
  | CDT_TIME => read_time_column
  | CDT_TIMESTAMP => read_timestamp_column
  end.

(** Exit of the column loop of [read_record]. *)
Inductive loop_exit : Type :=
| Loop_done (record : Record_t) (pos : Z)                       (* i == column_count *)
| Loop_error (error : AvroErrorCode) (i : nat) (record : Record_t)  (* goto error *)
| Loop_undef.

(** The [for (; i < column_count; ++i)] loop of [read_record]; [n] is
    [column_count - i]. *)
Fixpoint read_record_loop (buf : list Z) (max : Z) (n : nat) (i : nat)
         (record : Record_t) (pos : Z) : loop_exit :=
  match n with
  | O => Loop_done record pos
  | S n' =>
      let column_def := def_at record i in
      let column_value := value_at record i in
      let read_value (pos : Z) :=
        match read_column (data_type column_def) buf pos max column_value with
        | Ok cv pos => read_record_loop buf max n' (S i) (set_value_at record i cv) pos
        | Err error => Loop_error error i record
        | Undef => Loop_undef
        end in
      if is_nullable column_def then
        match read_long buf pos max with
        | Ok is_null pos =>
            if is_null =? 1
            then read_record_loop buf max n' (S i)
                   (set_value_at record i (mkColumnValue (value column_value) (-1))) pos
            else if negb (is_null =? 0) then Loop_error ERR_OVERFLOW i record
            else read_value pos
        | Err error => Loop_error error i record
        | Undef => Loop_undef
        end
      else read_value pos
  end.

(** The clean-up loop at label [error]:
    [for (; i > 0; --i) clear_column[column_defs[i].data_type](record, i, 0);] *)
Fixpoint read_record_cleanup (i : nat) (record : Record_t) : Record_t :=
  match i with
  | O => record
  | S i' =>
      read_record_cleanup i'
        (clear_column (data_type (def_at record i)) record i false)
  end.

(** [read_record]: the error code (or the advanced cursor) together with the
    record as the call leaves it. *)
Inductive read_record_result : Type :=
| Read_ok (record : Record_t) (pos : Z)
| Read_error (error : AvroErrorCode) (record : Record_t)
| Read_undef.

Definition read_record (buf : list Z) (pos max : Z) (record : Record_t)
  : read_record_result :=
  let record := mkRecord (type record) 0 (column_values record) in
  match read_record_loop buf max (column_count record) 0 record pos with
  | Loop_done record pos => Read_ok record pos
  | Loop_error error i record => Read_error error (read_record_cleanup i record)
  | Loop_undef => Read_undef
  end.

(** *** Column sizing functions *)

Definition size_bytes_column (cv : ColumnValue) : Z := size_long (len cv) + len cv.
Definition size_date_column (cv : ColumnValue) : Z := 11.
Definition size_datetime_column (cv : ColumnValue) : Z := 24.
Definition size_double_column (cv : ColumnValue) : Z := 8.
Definition size_float_column (cv : ColumnValue) : Z := 4.
Definition size_int_column (cv : ColumnValue) : Z := size_long (value_i (value cv)).
Definition size_long_column (cv : ColumnValue) : Z := size_long (value_l (value cv)).
Definition size_time_column (cv : ColumnValue) : Z := 13.
Definition size_timestamp_column (cv : ColumnValue) : Z :=
  size_long (datetime_to_epoch_ms (value_l (value cv))).

Definition size_column (dt : ColumnDataType) : ColumnValue -> Z :=
  match dt with
  | CDT_BYTES | CDT_CHAR1 | CDT_CHAR2 | CDT_CHAR4 | CDT_CHAR8
  | CDT_CHAR16 | CDT_CHAR32 | CDT_CHAR64 | CDT_CHAR128 | CDT_CHAR256 =>
      size_bytes_column
  | CDT_DATE => size_date_column
  | CDT_DATETIME => size_datetime_column
  | CDT_DOUBLE => size_double_column
  | CDT_FLOAT => size_float_column
  | CDT_INT | CDT_INT8 | CDT_INT16 => size_int_column
  | CDT_LONG => size_long_column
  | CDT_STRING => size_bytes_column
  | CDT_TIME => size_time_column
  | CDT_TIMESTAMP => size_timestamp_column
  end.

(** The loop of [size_record] over the columns, definitions and values side
    by side. *)
Fixpoint size_columns (defs : list ColumnDef) (vals : list ColumnValue) (size : Z) : Z :=
  match defs, vals with
  | column_def :: defs', column_value :: vals' =>
      if is_nullable column_def then
        if len column_value <? 0 then size_columns defs' vals' (size + 1)
        else size_columns defs' vals'
               (size + 1 + size_column (data_type column_def) column_value)
      else size_columns defs' vals'
             (size + size_column (data_type column_def) column_value)
  | _, _ => size
  end.

(** [size_record]: the size and the record with the size cached. *)
Definition size_record (record : Record_t) : Z * Record_t :=
  if negb (size record =? 0) then (size record, record)
  else
    let size := size_columns (column_defs (type record)) (column_values record) 0 in
    (size, mkRecord (type record) size (column_values record)).

(** *** Column writing functions *)

Definition write_bytes_column (buf : list Z) (pos max : Z) (cv : ColumnValue)
  : result (list Z) :=
  write_bytes buf pos max (value_data (value cv)) (len cv).

Definition write_char_column_small (buf : list Z) (pos max : Z) (cv : ColumnValue)
  : result (list Z) :=
  write_bytes buf pos max (value_bytes (value cv)) (len cv).

Definition write_date_column (buf : list Z) (pos max : Z) (cv : ColumnValue)
  : result (list Z) :=
  let date := value_i (value cv) in
  let date := if date =? 0 then DATE_DEFAULT else date in
  let* (buf, pos) := write_size buf pos max 10 in
  let* (buf, pos) := write_digits buf pos max 4 (DATE_YEAR date) in
  let* (buf, pos) := write_char buf pos max 45 in
  let* (buf, pos) := write_digits buf pos max 2 (DATE_MONTH date) in
  let* (buf, pos) := write_char buf pos max 45 in
  write_digits buf pos max 2 (DATE_DAY date).

Definition write_datetime_column (buf : list Z) (pos max : Z) (cv : ColumnValue)
  : result (list Z) :=
  let datetime := value_l (value cv) in
  let datetime := if datetime =? 0 then DT_DEFAULT else datetime in
  let* (buf, pos) := write_size buf pos max 23 in
  let* (buf, pos) := write_digits buf pos max 4 (DT_YEAR datetime) in
  let* (buf, pos) := write_char buf pos max 45 in
  let* (buf, pos) := write_digits buf pos max 2 (DT_MONTH datetime) in
  let* (buf, pos) := write_char buf pos max 45 in
  let* (buf, pos) := write_digits buf pos max 2 (DT_DAY datetime) in
  let* (buf, pos) := write_char buf pos max 32 in
  let* (buf, pos) := write_digits buf pos max 2 (DT_HOUR datetime) in
  let* (buf, pos) := write_char buf pos max 58 in
  let* (buf, pos) := write_digits buf pos max 2 (DT_MINUTE datetime) in
  let* (buf, pos) := write_char buf pos max 58 in
  let* (buf, pos) := write_digits buf pos max 2 (DT_SEC datetime) in
  let* (buf, pos) := write_char buf pos max 46 in
  write_digits buf pos max 3 (DT_MSEC datetime).

Definition write_double_column (buf : list Z) (pos max : Z) (cv : ColumnValue)
  : result (list Z) :=
  write_double buf pos max (firstn 8 (value_bytes (value cv))).

Definition write_float_column (buf : list Z) (pos max : Z) (cv : ColumnValue)
  : result (list Z) :=
  write_float buf pos max (firstn 4 (value_bytes (value cv))).

Definition write_int_column (buf : list Z) (pos max : Z) (cv : ColumnValue)
  : result (list Z) :=
  write_int buf pos max (value_i (value cv)).

Definition write_long_column (buf : list Z) (pos max : Z) (cv : ColumnValue)
  : result (list Z) :=
  write_long buf pos max (value_l (value cv)).

Definition write_time_column (buf : list Z) (pos max : Z) (cv : ColumnValue)
  : result (list Z) :=
  let time := value_i (value cv) in
  let* (buf, pos) := write_size buf pos max 12 in
  let* (buf, pos) := write_digits buf pos max 2 (TIME_HOUR time) in
  let* (buf, pos) := write_char buf pos max 58 in
  let* (buf, pos) := write_digits buf pos max 2 (TIME_MINUTE time) in
  let* (buf, pos) := write_char buf pos max 58 in
  let* (buf, pos) := write_digits buf pos max 2 (TIME_SEC time) in
  let* (buf, pos) := write_char buf pos max 46 in
  write_digits buf pos max 3 (TIME_MSEC time).

Definition write_timestamp_column (buf : list Z) (pos max : Z) (cv : ColumnValue)
  : result (list Z) :=
  let datetime := value_l (value cv) in
  let datetime := if datetime =? 0 then DT_DEFAULT else datetime in
  write_long buf pos max (datetime_to_epoch_ms datetime).

Definition write_column (dt : ColumnDataType)
  : list Z -> Z -> Z -> ColumnValue -> result (list Z) :=
  match dt with
  | CDT_BYTES => write_bytes_column
  | CDT_CHAR1 | CDT_CHAR2 | CDT_CHAR4 | CDT_CHAR8 => write_char_column_small
  | CDT_CHAR16 | CDT_CHAR32 | CDT_CHAR64 | CDT_CHAR128 | CDT_CHAR256 =>
      write_bytes_column
  | CDT_DATE => write_date_column
  | CDT_DATETIME => write_datetime_column
  | CDT_DOUBLE => write_double_column
  | CDT_FLOAT => write_float_column
  | CDT_INT | CDT_INT8 | CDT_INT16 => write_int_column
  | CDT_LONG => write_long_column
  | CDT_STRING => write_bytes_column
  | CDT_TIME => write_time_column
  | CDT_TIMESTAMP => write_timestamp_column
  end.

(** The column loop of [write_record]. *)
Fixpoint write_columns (defs : list ColumnDef) (vals : list ColumnValue)
         (buf : list Z) (pos max : Z) : result (list Z) :=
  match defs, vals with
  | column_def :: defs', column_value :: vals' =>
      if is_nullable column_def then
        if len column_value <? 0 then
          let* (buf, pos) := write_long buf pos max 1 in
          write_columns defs' vals' buf pos max
        else
          let* (buf, pos) := write_long buf pos max 0 in
          let* (buf, pos) :=
            write_column (data_type column_def) buf pos max column_value in
          write_columns defs' vals' buf pos max
      else
        let* (buf, pos) :=
          write_column (data_type column_def) buf pos max column_value in
        write_columns defs' vals' buf pos max
  | _, _ => Ok buf pos
  end.

Definition write_record (buf : list Z) (pos max : Z) (record : Record_t)
  : result (list Z) :=
  write_columns (column_defs (type record)) (column_values record) buf pos max.

(** [Record.encode]: the bytes object, or the exception raised.
    [PyBytes_FromStringAndSize(NULL, size)] gives [size] bytes of unspecified
    content, modelled as zeros. *)
Inductive encode_outcome : Type :=
| Encoded (bytes : list Z)
| Encode_raised (e : Py.exception)
| Encode_undef.

Definition Record_encode (self : Record_t) : encode_outcome :=
  let '(size, self) := size_record self in
  let result := repeat 0 (Z.to_nat size) in
  let pos := 0 in
  let max := pos + size in
  match write_record result pos max self with
  | Ok result _ => Encoded result
  | Err e =>
      match Py.handle_write_error e with
      | Some exc => Encode_raised exc
      | None => Encoded result
      end
  | Undef => Encode_undef
  end.

(** [Record.decode]: argument checking, clearing of every column, then
    [read_record].  The record is updated in place, so the outcome carries
    the record as the call leaves it, also when an exception is raised. *)
Inductive decode_outcome : Type :=
| Decoded (self : Record_t)
| Decode_raised (e : Py.exception) (self : Record_t)
| Decode_undef.

Fixpoint clear_all (n : nat) (i : nat) (self : Record_t) : Record_t :=
  match n with
  | O => self
  | S n' => clear_all n' (S i) (clear_column (data_type (def_at self i)) self i true)
  end.

Definition Record_decode (self : Record_t) (buffer : list Z)
           (arg_range : option (Z * Z)) : decode_outcome :=
  match Py.decode_window buffer arg_range with
  | Py.Window_raised exc => Decode_raised exc self
  | Py.Window_undef => Decode_undef
  | Py.Window pos max =>
      let self := clear_all (column_count self) 0 self in
      match read_record buffer pos max self with
      | Read_ok self _ => Decoded self
      | Read_error error self =>
          match Py.handle_read_error error with
          | Some exc => Decode_raised exc self
          | None => Decoded self
          end
      | Read_undef => Decode_undef
      end
  end.

End Rec.

(* ------------------------------------------------------------------------- *)
(** ** schema.h, schema.c, bufferrange.h *)

Module Sch.
Import Avro Py Rec.

Inductive SchemaDataType : Set :=
| SDT_NULLABLE | SDT_BOOLEAN | SDT_BYTES | SDT_DOUBLE | SDT_FLOAT | SDT_INT
| SDT_LONG | SDT_STRING | SDT_ARRAY | SDT_MAP | SDT_RECORD | SDT_OBJECT
| SDT_OBJECT_ARRAY.

(** Host values the schema engine consumes and produces, and the [Schema]
    object itself.  A [str] is carried as its UTF-8 bytes, a [float] as its
    IEEE 754 bit pattern. *)
Inductive PyObject : Type :=
| Py_None
| Py_Bool (b : bool)
| Py_Long (z : Z)
| Py_Float (bits : Z)
| Py_Bytes (b : list Z)
| Py_Unicode (utf8 : list Z)
| Py_List (items : list PyObject)
| Py_Tuple (items : list PyObject)
| Py_Dict (items : list (PyObject * PyObject))
| Py_BufferRange (start length : Z)
| Py_Schema (s : Schema)
| Py_RecordType (t : RecordType)
| Py_Record (r : Record_t)
with Schema : Type :=
| mkSchema (data_type : SchemaDataType) (name : PyObject)
           (default_value : PyObject) (fields : list Schema).

Definition data_type (s : Schema) : SchemaDataType :=
  match s with mkSchema dt _ _ _ => dt end.
Definition name (s : Schema) : PyObject :=
  match s with mkSchema _ n _ _ => n end.
Definition default_value (s : Schema) : PyObject :=
  match s with mkSchema _ _ d _ => d end.
Definition fields (s : Schema) : list Schema :=
  match s with mkSchema _ _ _ f => f end.

Definition is_none (v : PyObject) : bool :=
  match v with Py_None => true | _ => false end.

(** The operations of the host runtime the schema engine calls on arbitrary
    objects.  [None] is the call failing with an exception set. *)
Class HostRuntime : Type := {
  PyObject_IsTrue : PyObject -> option bool;
  PyObject_Bytes : PyObject -> option (list Z);
  PyNumber_Float : PyObject -> option Z;
  PyNumber_Long : PyObject -> option Z;
  (** [PyObject_Str] followed by [PyUnicode_AsUTF8String]. *)
  PyObject_Str_UTF8 : PyObject -> option (list Z);
  PySequence_Fast : PyObject -> option (list PyObject);
  PyMapping_Check : PyObject -> bool;
  PyMapping_Items : PyObject -> option (list PyObject);
  PyMapping_Length : PyObject -> option Z;
  PyMapping_HasKey : PyObject -> PyObject -> bool;
  PyObject_GetItem : PyObject -> PyObject -> option PyObject;
  (** [PyUnicode_FromStringAndSize]: fails on bytes that are not UTF-8. *)
  PyUnicode_FromStringAndSize : list Z -> option PyObject;
  (** [PyDict_SetItem] on the items of a dict. *)
  PyDict_SetItem : list (PyObject * PyObject) -> PyObject -> PyObject
                   -> option (list (PyObject * PyObject));
  (** Whether [PyList_New(size)] finds the memory for a list of [size]
      items, for a size that is not negative; [false] is [NULL] with
      [MemoryError] set. *)
  PyList_New : Z -> bool;
  (** The C conversion [(float)d] on bit patterns. *)
  double_to_float : Z -> Z;
  float_to_double : Z -> Z
}.

Definition host_error : exception := (PyExc_Host, ""%string).

(** [PyLong_AsLong] and [PyLong_AsLongLong] on a Python int. *)
Definition PyLong_AsLong (z : Z) : option Z :=
  if (INT64_MIN <=? z) && (z <=? INT64_MAX) then Some z else None.

(** *** Reading *)

Inductive read_result : Type :=
| R_ok (v : PyObject) (pos : Z)
| R_error (e : exception)
| R_undef
| R_fuel.

(** [CHECK(handle_read_error(r), error)] followed by the continuation. *)
Definition on_read {A : Type} (r : result A) (k : A -> Z -> read_result) : read_result :=
  match r with
  | Ok a pos => k a pos
  | Err e =>
      match handle_read_error e with
      | Some exc => R_error exc
      | None => R_undef
      end
  | Undef => R_undef
  end.

Definition bind_read (r : read_result) (k : PyObject -> Z -> read_result) : read_result :=
  match r with
  | R_ok v pos => k v pos
  | other => other
  end.

Section Reading.
Context {host : HostRuntime}.

(** The function the dispatch table recurses through: [read_schema]. *)
Variable rec : Schema -> list Z -> Z -> Z -> read_result.

Definition read_nullable_schema (schema : Schema) (buf : list Z) (pos max : Z)
  : read_result :=
  on_read (read_long buf pos max) (fun is_null pos =>
    if is_null =? 1 then R_ok Py_None pos
    else if is_null =? 0 then
      match fields schema with
      | field :: _ => rec field buf pos max
      | [] => R_undef
      end
    else R_error (PyExc_ValueError, "invalid binary data"%string)).

Definition read_boolean_schema (schema : Schema) (buf : list Z) (pos max : Z)
  : read_result :=
  on_read (read_boolean buf pos max) (fun value pos =>
    R_ok (Py_Bool (negb (value =? 0))) pos).

Definition read_bytes_schema (schema : Schema) (buf : list Z) (pos max : Z)
  : read_result :=
  on_read (read_bytes_len buf pos max) (fun len pos =>
    let '(data, pos) := read_bytes_data buf pos len in
    R_ok (Py_Bytes data) pos).

Definition read_double_schema (schema : Schema) (buf : list Z) (pos max : Z)
  : read_result :=
  on_read (read_double buf pos max) (fun value pos =>
    R_ok (Py_Float (le_combine value)) pos).

Definition read_float_schema (schema : Schema) (buf : list Z) (pos max : Z)
  : read_result :=
  on_read (read_float buf pos max) (fun value pos =>
    R_ok (Py_Float (float_to_double (le_combine value))) pos).

Definition read_int_schema (schema : Schema) (buf : list Z) (pos max : Z)
  : read_result :=
  on_read (read_int buf pos max) (fun value pos => R_ok (Py_Long value) pos).

Definition read_long_schema (schema : Schema) (buf : list Z) (pos max : Z)
  : read_result :=
  on_read (read_long buf pos max) (fun value pos => R_ok (Py_Long value) pos).

Definition read_string_schema (schema : Schema) (buf : list Z) (pos max : Z)
  : read_result :=
  on_read (read_bytes_len buf pos max) (fun len pos =>
    let '(data, pos) := read_bytes_data buf pos len in
    match PyUnicode_FromStringAndSize data with
    | Some result => R_ok result pos
    | None => R_error host_error
    end).

(** [PyList_New(size)] returning a list: a negative size is refused by every
    host, with [SystemError]. *)
Definition list_new (size : Z) : bool := (0 <=? size) && PyList_New size.

(** The inner loop [while (block_count > 0)] of the array readers, reading
    one item per iteration with [read_item] and appending it to the list
    built so far. *)
Fixpoint read_block (read_item : list Z -> Z -> Z -> read_result)
         (block_count : nat) (buf : list Z) (pos max : Z)
         (result : list PyObject) : read_result :=
  match block_count with
  | O => R_ok (Py_List result) pos
  | S block_count' =>
      match read_item buf pos max with
      | R_ok item pos =>
          read_block read_item block_count' buf pos max (result ++ [item])
      | other => other
      end
  end.

Definition list_items (v : PyObject) : list PyObject :=
  match v with Py_List items => items | _ => [] end.

(** The outer loop [while (1)] of the array readers, entered with the block
    count just read; [result] holds the [i] items read so far.  From the
    second block on the list is allocated anew for [i + block_count] items
    before the items of the block are read; the sum [i + block_count] is a
    [Py_ssize_t] sum, undefined when it overflows.  Every iteration reads at least
    one byte, so the fuel [max - pos + 1] given by the callers is never
    exhausted ([read_blocks_fuel]). *)
Fixpoint read_blocks (read_item : list Z -> Z -> Z -> read_result)
         (fuel : nat) (buf : list Z) (pos max : Z)
         (block_count : Z) (result : list PyObject) : read_result :=
  match fuel with
  | O => R_fuel
  | S fuel' =>
      if block_count =? 0 then R_ok (Py_List result) pos
      else
        let continue (block_count pos : Z) :=
          let i := Z.of_nat (length result) in
          if negb (i =? 0) && (i + block_count >? INT64_MAX) then R_undef
          else if negb (i =? 0) && negb (list_new (i + block_count))
          then R_error host_error
          else
            bind_read
              (read_block read_item (Z.to_nat block_count) buf pos max result)
              (fun result pos =>
                 on_read (read_size buf pos max) (fun block_count pos =>
                   read_blocks read_item fuel' buf pos max block_count
                               (list_items result))) in
        if block_count <? 0 then
          on_read (read_long buf pos max) (fun size pos =>
            continue (wrap64s (- block_count)) pos)
        else continue block_count pos
  end.

(** The common shape of [read_array_schema] and [read_object_array_schema]:
    the first count, the list allocated for it, then the blocks. *)
Definition read_array_with (read_item : list Z -> Z -> Z -> read_result)
           (buf : list Z) (pos max : Z) : read_result :=
  on_read (read_size buf pos max) (fun block_count pos =>
    let count :=
      if block_count >=? 0 then block_count else wrap64s (- block_count) in
    if negb (list_new count) then R_error host_error
    else read_blocks read_item (S (Z.to_nat (max - pos))) buf pos max block_count []).

Definition read_array_schema (schema : Schema) (buf : list Z) (pos max : Z)
  : read_result :=
  match fields schema with
  | field :: _ => read_array_with (rec field) buf pos max
  | [] => R_undef
  end.

(** One entry of a map block: the key, the value, [PyDict_SetItem]. *)
Definition read_map_entry (schema field : Schema) (buf : list Z) (pos max : Z)
           (result : list (PyObject * PyObject))
  : read_result :=
  bind_read (read_string_schema schema buf pos max) (fun key pos =>
    bind_read (rec field buf pos max) (fun value pos =>
      match PyDict_SetItem result key value with
      | Some result => R_ok (Py_Dict result) pos
      | None => R_error host_error
      end)).

Definition dict_items (v : PyObject) : list (PyObject * PyObject) :=
  match v with Py_Dict items => items | _ => [] end.

Fixpoint read_map_block (schema field : Schema) (count : nat)
         (buf : list Z) (pos max : Z) (result : list (PyObject * PyObject))
  : read_result :=
  match count with
  | O => R_ok (Py_Dict result) pos
  | S count' =>
      bind_read (read_map_entry schema field buf pos max result)
        (fun result pos =>
           read_map_block schema field count' buf pos max (dict_items result))
  end.

Fixpoint read_map_blocks (schema field : Schema) (fuel : nat)
         (buf : list Z) (pos max : Z) (result : list (PyObject * PyObject))
  : read_result :=
  match fuel with
  | O => R_fuel
  | S fuel' =>
      on_read (read_size buf pos max) (fun count pos =>
        if count =? 0 then R_ok (Py_Dict result) pos
        else
          let continue (count pos : Z) :=
            bind_read
              (read_map_block schema field (Z.to_nat count) buf pos max result)
              (fun result pos =>
                 read_map_blocks schema field fuel' buf pos max (dict_items result)) in
          if count <? 0 then
            on_read (read_long buf pos max) (fun size pos =>
              continue (wrap64s (- count)) pos)
          else continue count pos)
  end.

Definition read_map_schema (schema : Schema) (buf : list Z) (pos max : Z)
  : read_result :=
  match fields schema with
  | field :: _ =>
      read_map_blocks schema field (S (Z.to_nat (max - pos))) buf pos max []
  | [] => R_undef
  end.

Fixpoint read_record_fields (flds : list Schema) (buf : list Z) (pos max : Z)
         (result : list (PyObject * PyObject)) : read_result :=
  match flds with
  | [] => R_ok (Py_Dict result) pos
  | field :: flds' =>
      bind_read (rec field buf pos max) (fun value pos =>
        match PyDict_SetItem result (name field) value with
        | Some result => read_record_fields flds' buf pos max result
        | None => R_error host_error
        end)
  end.

Definition read_record_schema (schema : Schema) (buf : list Z) (pos max : Z)
  : read_result :=
  read_record_fields (fields schema) buf pos max [].

(** [read_object_schema]: [BufferRange_create] is called with [*pos - buf] and [len], where [buf]
    is the base of the buffer given to [decode]; offsets here are taken from
    that base, so [*pos - buf] is [pos]. *)
Definition read_object_schema (schema : Schema) (buf : list Z) (pos max : Z)
  : read_result :=
  on_read (read_bytes_len buf pos max) (fun len pos =>
    R_ok (Py_BufferRange pos len) (pos + len)).

Definition read_object_array_schema (schema : Schema) (buf : list Z) (pos max : Z)
  : read_result :=
  read_array_with (read_object_schema schema) buf pos max.

Definition read_schema_types (dt : SchemaDataType)
  : Schema -> list Z -> Z -> Z -> read_result :=
  match dt with
  | SDT_NULLABLE => read_nullable_schema
  | SDT_BOOLEAN => read_boolean_schema
  | SDT_BYTES => read_bytes_schema
  | SDT_DOUBLE => read_double_schema
  | SDT_FLOAT => read_float_schema
  | SDT_INT => read_int_schema
  | SDT_LONG => read_long_schema
  | SDT_STRING => read_string_schema
  | SDT_ARRAY => read_array_schema
  | SDT_MAP => read_map_schema
  | SDT_RECORD => read_record_schema
  | SDT_OBJECT => read_object_schema
  | SDT_OBJECT_ARRAY => read_object_array_schema
  end.

End Reading.

(** [read_schema]: the dispatch through [read_schema_types].  [depth] bounds
    the nesting of the calls, which follow the schema tree downwards. *)
Fixpoint read_schema {host : HostRuntime} (depth : nat) (schema : Schema)
         (buf : list Z) (pos max : Z) : read_result :=
  match depth with
  | O => R_fuel
  | S depth' =>
      read_schema_types (read_schema depth') (data_type schema) schema buf pos max
  end.

(** [Schema.decode]: the window is the whole buffer, or the range given. *)
Inductive decode_outcome : Type :=
| Decoded (v : PyObject)
| Decode_raised (e : exception)
| Decode_undef
| Decode_fuel.

Definition Schema_decode {host : HostRuntime} (depth : nat) (self : Schema)
           (buffer : list Z) (arg_range : option (Z * Z)) : decode_outcome :=
  match decode_window buffer arg_range with
  | Window_raised exc => Decode_raised exc
  | Window_undef => Decode_undef
  | Window pos max =>
      match read_schema depth self buffer pos max with
      | R_ok result _ => Decoded result
      | R_error e => Decode_raised e
      | R_undef => Decode_undef
      | R_fuel => Decode_fuel
      end
  end.

(** *** Preparation *)

(** One step of the path reported by a failed preparation.  The C code
    formats the path as text, the innermost step first, the steps joined by
    [" of "]. *)
Inductive path_step : Type :=
| Array_item (i : Z)                    (* "array item %zd" *)
| Map_key (key : PyObject)              (* "map key %S" *)
| Value_of_map_key (key : PyObject)     (* "value of map key %S" *)
| Record_field (key : PyObject)         (* "record field %S" *)
| Value_of_record_field (key : PyObject) (* "value of record field %S" *)
| Object                                (* "object" *)
| Array_object (i : Z).                 (* "array object %zd" *)

Definition path_t : Type := list path_step.

(** [*path = *path ? format("%S of <step>", *path) : format("<step>")]. *)
Definition extend (path : option path_t) (step : path_step) : option path_t :=
  match path with
  | Some p => Some (p ++ [step])
  | None => Some [step]
  end.

(** Result of a preparation function: the prepared object and [*size], or
    [NULL] with the exception set, [*path] and [*size] as they are left. *)
Inductive prepare_result : Type :=
| Prepared (prepared : PyObject) (size : Z)
| Prepare_error (e : exception) (path : option path_t) (size : Z)
| Prepare_undef
| Prepare_fuel.

(** [RecordType] objects are compared by identity. *)
Definition same_type (a b : RecordType) : bool := type_id a =? type_id b.

(** [(count > 0 ? 1 : 0)]. *)
Definition terminator (count : Z) : Z := if count >? 0 then 1 else 0.

Section Preparing.
Context {host : HostRuntime}.

(** The function the dispatch table recurses through: [prepare_schema]. *)
Variable rec : Schema -> PyObject -> Z -> prepare_result.

Definition prepare_nullable_schema (schema : Schema) (value : PyObject) (size : Z)
  : prepare_result :=
  let size := size + 1 in
  if is_none value then Prepared Py_None size
  else
    match fields schema with
    | field :: _ => rec field value size
    | [] => Prepare_undef
    end.

Definition prepare_boolean_schema (schema : Schema) (value : PyObject) (size : Z)
  : prepare_result :=
  match PyObject_IsTrue value with
  | None => Prepare_error host_error None size
  | Some result => Prepared (Py_Bool result) (size + 1)
  end.

Definition prepare_bytes_schema (schema : Schema) (value : PyObject) (size : Z)
  : prepare_result :=
  match PyObject_Bytes value with
  | None => Prepare_error host_error None size
  | Some result =>
      let len := zlength result in
      Prepared (Py_Bytes result) (size + (size_long len + len))
  end.

Definition prepare_double_schema (schema : Schema) (value : PyObject) (size : Z)
  : prepare_result :=
  match PyNumber_Float value with
  | None => Prepare_error host_error None size
  | Some result => Prepared (Py_Float result) (size + 8)
  end.

Definition prepare_float_schema (schema : Schema) (value : PyObject) (size : Z)
  : prepare_result :=
  match PyNumber_Float value with
  | None => Prepare_error host_error None size
  | Some result => Prepared (Py_Float result) (size + 4)
  end.

Definition prepare_int_schema (schema : Schema) (value : PyObject) (size : Z)
  : prepare_result :=
  match PyNumber_Long value with
  | None => Prepare_error host_error None size
  | Some result =>
      match PyLong_AsLong result with
      | None => Prepare_error (PyExc_OverflowError, ""%string) None size
      | Some temp =>
          if negb ((temp >=? INT32_MIN) && (temp <=? INT32_MAX))
          then Prepare_error (PyExc_OverflowError, "value out of range"%string) None size
          else Prepared (Py_Long result) (size + size_long temp)
      end
  end.

Definition prepare_long_schema (schema : Schema) (value : PyObject) (size : Z)
  : prepare_result :=
  match PyNumber_Long value with
  | None => Prepare_error host_error None size
  | Some result =>
      match PyLong_AsLong result with
      | None => Prepare_error (PyExc_OverflowError, ""%string) None size
      | Some temp =>
          if negb ((temp >=? INT64_MIN) && (temp <=? INT64_MAX))
          then Prepare_error (PyExc_OverflowError, "value out of range"%string) None size
          else Prepared (Py_Long result) (size + size_long temp)
      end
  end.

Definition prepare_string_schema (schema : Schema) (value : PyObject) (size : Z)
  : prepare_result :=
  match PyObject_Str_UTF8 value with
  | None => Prepare_error host_error None size
  | Some result =>
      let len := zlength result in
      Prepared (Py_Bytes result) (size + (size_long len + len))
  end.

(** Exit of an item loop: all items prepared, or the jump to an error
    label with the index reached. *)
Inductive items_result : Type :=
| Items_ok (items : list PyObject) (size : Z)
| Items_error (i : Z) (e : exception) (path : option path_t) (size : Z)
| Items_undef
| Items_fuel.

(** The loop of [prepare_array_schema] from index [i] on. *)
Fixpoint prepare_array_items (field : Schema) (values : list PyObject)
         (i : Z) (size : Z) : items_result :=
  match values with
  | [] => Items_ok [] size
  | value :: values' =>
      match rec field value size with
      | Prepared item size =>
          match prepare_array_items field values' (i + 1) size with
          | Items_ok items size => Items_ok (item :: items) size
          | other => other
          end
      | Prepare_error e path size => Items_error i e path size
      | Prepare_undef => Items_undef
      | Prepare_fuel => Items_fuel
      end
  end.

Definition prepare_array_schema (schema : Schema) (value : PyObject) (size : Z)
  : prepare_result :=
  match PySequence_Fast value with
  | None => Prepare_error (PyExc_TypeError, "value must be iterable"%string) None size
  | Some value_seq =>
      let count := Z.of_nat (length value_seq) in
      match fields schema with
      | [] => Prepare_undef
      | field :: _ =>
          match prepare_array_items field value_seq 0 size with
          | Items_ok result size =>
              Prepared (Py_List result) (size + (size_long count + terminator count))
          | Items_error i e path size =>
              Prepare_error e (extend path (Array_item i)) size
          | Items_undef => Prepare_undef
          | Items_fuel => Prepare_fuel
          end
      end
  end.

(** Exit of the loop of [prepare_map_schema]; the three error labels
    differ in what they do to the path. *)
Inductive entries_result : Type :=
| Entries_ok (entries : list PyObject) (size : Z)
| Entries_error (e : exception) (path : option path_t) (size : Z)
| Entries_undef
| Entries_fuel.

Fixpoint prepare_map_entries (schema field : Schema) (items : list PyObject)
         (size : Z) : entries_result :=
  match items with
  | [] => Entries_ok [] size
  | item :: items' =>
      match item with
      | Py_Tuple [key; value] =>
          match prepare_string_schema schema key size with
          | Prepared prepared_key size =>
              match rec field value size with
              | Prepared value size =>
                  match prepare_map_entries schema field items' size with
                  | Entries_ok entries size =>
                      Entries_ok (prepared_key :: value :: entries) size
                  | other => other
                  end
              | Prepare_error e path size =>
                  Entries_error e (extend path (Value_of_map_key prepared_key)) size
              | Prepare_undef => Entries_undef
              | Prepare_fuel => Entries_fuel
              end
          | Prepare_error e _ size => Entries_error e (Some [Map_key key]) size
          | Prepare_undef => Entries_undef
          | Prepare_fuel => Entries_fuel
          end
      | _ =>
          Entries_error (PyExc_TypeError, "value contains invalid mapping"%string)
                        None size
      end
  end.

Definition prepare_map_schema (schema : Schema) (value : PyObject) (size : Z)
  : prepare_result :=
  if negb (PyMapping_Check value)
  then Prepare_error (PyExc_TypeError, "value must be mapping"%string) None size
  else
    match PyMapping_Items value with
    | None => Prepare_error host_error None size
    | Some items_seq =>
        let count := Z.of_nat (length items_seq) in
        match fields schema with
        | [] => Prepare_undef
        | field :: _ =>
            match prepare_map_entries schema field items_seq size with
            | Entries_ok result size =>
                Prepared (Py_List result) (size + (size_long count + terminator count))
            | Entries_error e path size => Prepare_error e path size
            | Entries_undef => Prepare_undef
            | Entries_fuel => Prepare_fuel
            end
        end
    end.

(** Exit of the loop of [prepare_record_schema]: the prepared field values
    together with [count], the keys of the mapping not yet accounted for. *)
Inductive fields_result : Type :=
| Fields_ok (values : list PyObject) (count : Z) (size : Z)
| Fields_error (e : exception) (path : option path_t) (size : Z)
| Fields_undef
| Fields_fuel.

Definition has_default (field : Schema) : bool :=
  match data_type field with
  | SDT_NULLABLE => true
  | _ => negb (is_none (default_value field))
  end.

Fixpoint prepare_record_fields (flds : list Schema) (value : PyObject)
         (count : Z) (size : Z) : fields_result :=
  match flds with
  | [] => Fields_ok [] count size
  | field :: flds' =>
      let key := name field in
      let continue (r : prepare_result) (count : Z) :=
        match r with
        | Prepared prepared_field_value size =>
            match prepare_record_fields flds' value count size with
            | Fields_ok values count size =>
                Fields_ok (prepared_field_value :: values) count size
            | other => other
            end
        | Prepare_error e path size =>
            Fields_error e (extend path (Value_of_record_field key)) size
        | Prepare_undef => Fields_undef
        | Prepare_fuel => Fields_fuel
        end in
      if PyMapping_HasKey value key then
        match PyObject_GetItem value key with
        | None => Fields_error host_error (Some [Record_field key]) size
        | Some field_value =>
            if is_none field_value then
              if negb (has_default field)
              then Fields_error (PyExc_ValueError, "required"%string)
                                (Some [Record_field key]) size
              else continue (rec field (default_value field) size) (count - 1)
            else continue (rec field field_value size) (count - 1)
        end
      else if negb (has_default field)
      then Fields_error (PyExc_ValueError, "not found"%string)
                        (Some [Record_field key]) size
      else continue (rec field (default_value field) size) count
  end.

Definition prepare_record_schema (schema : Schema) (value : PyObject) (size : Z)
  : prepare_result :=
  if negb (PyMapping_Check value)
  then Prepare_error (PyExc_TypeError, "value must be mapping"%string) None size
  else
    match PyMapping_Length value with
    | None => Prepare_error host_error None size
    | Some count =>
        match prepare_record_fields (fields schema) value count size with
        | Fields_ok result count size =>
            if negb (count =? 0)
            then Prepare_error (PyExc_ValueError, "extraneous fields provided"%string)
                               None size
            else Prepared (Py_List result) size
        | Fields_error e path size => Prepare_error e path size
        | Fields_undef => Prepare_undef
        | Fields_fuel => Prepare_fuel
        end
    end.

(** The test on the size of the tuple in [prepare_object_schema] is
    [CHECK_STRING(tuple_size, ...)]: any non-empty tuple passes, and item 1
    of a one-element tuple is then read out of bounds. *)
Definition prepare_object_schema (schema : Schema) (value : PyObject) (size : Z)
  : prepare_result :=
  match value with
  | Py_Tuple [] => Prepared value (size + 1)
  | Py_Tuple [_] => Prepare_undef
  | Py_Tuple (type :: object :: _) =>
      match type with
      | Py_Schema type_schema =>
          match rec type_schema object 0 with
          | Prepared object object_size =>
              Prepared
                (Py_Tuple [type; Py_Tuple [Py_Long object_size; object]])
                (size + (object_size + size_long object_size))
          | Prepare_error e path _ => Prepare_error e (extend path Object) size
          | Prepare_undef => Prepare_undef
          | Prepare_fuel => Prepare_fuel
          end
      | Py_RecordType record_type =>
          match object with
          | Py_Record record =>
              if negb (same_type (Rec.type record) record_type)
              then Prepare_error
                     (PyExc_ValueError, "object has incorrect RecordType"%string)
                     (Some [Object]) size
              else
                let record_size := fst (size_record record) in
                Prepared (Py_Tuple [type; object])
                         (size + (record_size + size_long record_size))
          | _ =>
              Prepare_error (PyExc_TypeError, "object must be Record"%string)
                            (Some [Object]) size
          end
      | _ =>
          Prepare_error (PyExc_TypeError, "type must be Schema or RecordType"%string)
                        None size
      end
  | _ => Prepare_error (PyExc_TypeError, "value must be tuple"%string) None size
  end.

(** The loop of [prepare_object_array_schema] when the type is a schema. *)
Fixpoint prepare_schema_objects (type : PyObject) (type_schema : Schema)
         (objects : list PyObject) (i : Z) (size : Z) : items_result :=
  match objects with
  | [] => Items_ok [] size
  | object :: objects' =>
      match rec type_schema object 0 with
      | Prepared object object_size =>
          match prepare_schema_objects type type_schema objects' (i + 1)
                  (size + (object_size + size_long object_size)) with
          | Items_ok items size =>
              Items_ok (Py_Tuple [Py_Long object_size; object] :: items) size
          | other => other
          end
      | Prepare_error e path _ => Items_error i e path size
      | Prepare_undef => Items_undef
      | Prepare_fuel => Items_fuel
      end
  end.

(** The loop when the type is a record type. *)
Fixpoint prepare_record_objects (record_type : RecordType)
         (objects : list PyObject) (i : Z) (size : Z) : items_result :=
  match objects with
  | [] => Items_ok [] size
  | object :: objects' =>
      match object with
      | Py_Record record =>
          if negb (same_type (Rec.type record) record_type)
          then Items_error i
                 (PyExc_ValueError, "object has incorrect RecordType"%string) None size
          else
            let record_size := fst (size_record record) in
            match prepare_record_objects record_type objects' (i + 1)
                    (size + (record_size + size_long record_size)) with
            | Items_ok items size => Items_ok (object :: items) size
            | other => other
            end
      | _ => Items_error i (PyExc_TypeError, "object must be Record"%string) None size
      end
  end.

Definition prepare_object_array_schema (schema : Schema) (value : PyObject) (size : Z)
  : prepare_result :=
  match value with
  | Py_Tuple [] => Prepared value (size + 1)
  | Py_Tuple [type; objects] =>
      let finish (count : Z) (r : items_result) :=
        match r with
        | Items_ok prepared size =>
            Prepared (Py_Tuple [type; Py_List prepared])
                     (size + (size_long count + terminator count))
        | Items_error i e path size =>
            Prepare_error e (extend path (Array_object i)) size
        | Items_undef => Prepare_undef
        | Items_fuel => Prepare_fuel
        end in
      let with_objects (loop : list PyObject -> Z -> Z -> items_result) :=
        match PySequence_Fast objects with
        | None =>
            Prepare_error (PyExc_TypeError, "object list must be iterable"%string)
                          None size
        | Some object_seq =>
            finish (Z.of_nat (length object_seq)) (loop object_seq 0 size)
        end in
      match type with
      | Py_Schema type_schema =>
          with_objects (prepare_schema_objects type type_schema)
      | Py_RecordType record_type =>
          with_objects (prepare_record_objects record_type)
      | _ =>
          Prepare_error (PyExc_TypeError, "type must be Schema or RecordType"%string)
                        None size
      end
  | Py_Tuple _ =>
      Prepare_error (PyExc_TypeError, "value must contain type and object list"%string)
                    None size
  | _ => Prepare_error (PyExc_TypeError, "value must be tuple"%string) None size
  end.

Definition prepare_schema_types (dt : SchemaDataType)
  : Schema -> PyObject -> Z -> prepare_result :=
  match dt with
  | SDT_NULLABLE => prepare_nullable_schema
  | SDT_BOOLEAN => prepare_boolean_schema
  | SDT_BYTES => prepare_bytes_schema
  | SDT_DOUBLE => prepare_double_schema
  | SDT_FLOAT => prepare_float_schema
  | SDT_INT => prepare_int_schema
  | SDT_LONG => prepare_long_schema
  | SDT_STRING => prepare_string_schema
  | SDT_ARRAY => prepare_array_schema
  | SDT_MAP => prepare_map_schema
  | SDT_RECORD => prepare_record_schema
  | SDT_OBJECT => prepare_object_schema
  | SDT_OBJECT_ARRAY => prepare_object_array_schema
  end.

End Preparing.

(** [prepare_schema].  A call passes either a child of the schema or a
    component of the value on, so the nesting of the calls is finite;
    [depth] bounds it, and [Prepare_fuel] is the bound being too small. *)
Fixpoint prepare_schema {host : HostRuntime} (depth : nat) (schema : Schema)
         (value : PyObject) (size : Z) : prepare_result :=
  match depth with
  | O => Prepare_fuel
  | S depth' =>
      prepare_schema_types (prepare_schema depth') (data_type schema) schema value size
  end.

(** *** Writing *)

(** Result of a writing function: 1 with the buffer and cursor, or 0 with
    the exception set.  [Write_undef] is a prepared object of a shape the
    access macros of the function do not expect. *)
Inductive write_result : Type :=
| Written (buf : list Z) (pos : Z)
| Write_error (e : exception)
| Write_undef
| Write_fuel.

(** [CHECK(handle_write_error(r), error)] followed by the continuation. *)
Definition on_write (r : result (list Z)) (k : list Z -> Z -> write_result)
  : write_result :=
  match r with
  | Ok buf pos => k buf pos
  | Err e =>
      match handle_write_error e with
      | Some exc => Write_error exc
      | None => Write_undef
      end
  | Undef => Write_undef
  end.

Definition bind_write (r : write_result) (k : list Z -> Z -> write_result)
  : write_result :=
  match r with
  | Written buf pos => k buf pos
  | other => other
  end.

Section Writing.
Context {host : HostRuntime}.

(** The function the dispatch table recurses through: [write_schema]. *)
Variable rec : Schema -> list Z -> Z -> Z -> PyObject -> write_result.

Definition write_nullable_schema (schema : Schema) (buf : list Z) (pos max : Z)
           (value : PyObject) : write_result :=
  if is_none value then on_write (write_long buf pos max 1) Written
  else
    on_write (write_long buf pos max 0) (fun buf pos =>
      match fields schema with
      | field :: _ => rec field buf pos max value
      | [] => Write_undef
      end).

Definition write_boolean_schema (schema : Schema) (buf : list Z) (pos max : Z)
           (value : PyObject) : write_result :=
  match value with
  | Py_Bool true => on_write (write_boolean buf pos max 1) Written
  | _ => on_write (write_boolean buf pos max 0) Written
  end.

Definition write_bytes_schema (schema : Schema) (buf : list Z) (pos max : Z)
           (value : PyObject) : write_result :=
  match value with
  | Py_Bytes b => on_write (write_bytes buf pos max b (zlength b)) Written
  | _ => Write_undef
  end.

Definition write_double_schema (schema : Schema) (buf : list Z) (pos max : Z)
           (value : PyObject) : write_result :=
  match value with
  | Py_Float bits => on_write (write_double buf pos max (le_split 8 bits)) Written
  | _ => Write_undef
  end.

Definition write_float_schema (schema : Schema) (buf : list Z) (pos max : Z)
           (value : PyObject) : write_result :=
  match value with
  | Py_Float bits =>
      on_write (write_float buf pos max (le_split 4 (double_to_float bits))) Written
  | _ => Write_undef
  end.

(** [PyLong_AsLong] fails with -1 on an int outside the range of [long]. *)
Definition write_int_schema (schema : Schema) (buf : list Z) (pos max : Z)
           (value : PyObject) : write_result :=
  match value with
  | Py_Long z =>
      on_write (write_int buf pos max
                  (match PyLong_AsLong z with Some i => i | None => -1 end)) Written
  | _ => Write_undef
  end.

Definition write_long_schema (schema : Schema) (buf : list Z) (pos max : Z)
           (value : PyObject) : write_result :=
  match value with
  | Py_Long z =>
      on_write (write_long buf pos max
                  (match PyLong_AsLong z with Some l => l | None => -1 end)) Written
  | _ => Write_undef
  end.

Fixpoint write_array_items (field : Schema) (items : list PyObject)
         (buf : list Z) (pos max : Z) : write_result :=
  match items with
  | [] => Written buf pos
  | item :: items' =>
      bind_write (rec field buf pos max item) (fun buf pos =>
        write_array_items field items' buf pos max)
  end.

Definition write_array_schema (schema : Schema) (buf : list Z) (pos max : Z)
           (value : PyObject) : write_result :=
  match value with
  | Py_List items =>
      let count := Z.of_nat (length items) in
      on_write (write_size buf pos max count) (fun buf pos =>
        if count =? 0 then Written buf pos
        else
          match fields schema with
          | [] => Write_undef
          | field :: _ =>
              bind_write (write_array_items field items buf pos max) (fun buf pos =>
                on_write (write_size buf pos max 0) Written)
          end)
  | _ => Write_undef
  end.

(** The loop of [write_map_schema] over the prepared list of keys and
    values, two items at a time. *)
Fixpoint write_map_entries (schema field : Schema) (items : list PyObject)
         (buf : list Z) (pos max : Z) : write_result :=
  match items with
  | [] => Written buf pos
  | [_] => Write_undef
  | key :: value :: items' =>
      bind_write (write_bytes_schema schema buf pos max key) (fun buf pos =>
        bind_write (rec field buf pos max value) (fun buf pos =>
          write_map_entries schema field items' buf pos max))
  end.

Definition write_map_schema (schema : Schema) (buf : list Z) (pos max : Z)
           (value : PyObject) : write_result :=
  match value with
  | Py_List items =>
      let count := Z.of_nat (length items) in
      on_write (write_size buf pos max (Z.quot count 2)) (fun buf pos =>
        if count =? 0 then Written buf pos
        else
          match fields schema with
          | [] => Write_undef
          | field :: _ =>
              bind_write (write_map_entries schema field items buf pos max)
                (fun buf pos => on_write (write_size buf pos max 0) Written)
          end)
  | _ => Write_undef
  end.

Fixpoint write_record_fields (flds : list Schema) (values : list PyObject)
         (buf : list Z) (pos max : Z) : write_result :=
  match flds, values with
  | [], _ => Written buf pos
  | field :: flds', value :: values' =>
      bind_write (rec field buf pos max value) (fun buf pos =>
        write_record_fields flds' values' buf pos max)
  | _ :: _, [] => Write_undef
  end.

Definition write_record_schema (schema : Schema) (buf : list Z) (pos max : Z)
           (value : PyObject) : write_result :=
  match value with
  | Py_List values => write_record_fields (fields schema) values buf pos max
  | _ => Write_undef
  end.

(** An embedded object whose type is a schema: its size, then the object. *)
Definition write_sized_object (type_schema : Schema) (object_tuple : PyObject)
           (buf : list Z) (pos max : Z) : write_result :=
  match object_tuple with
  | Py_Tuple [Py_Long object_size; object] =>
      on_write (write_size buf pos max object_size) (fun buf pos =>
        rec type_schema buf pos max object)
  | _ => Write_undef
  end.

(** An embedded record: [size_record], then [write_record]. *)
Definition write_sized_record (object : PyObject) (buf : list Z) (pos max : Z)
  : write_result :=
  match object with
  | Py_Record record =>
      let '(size, record) := size_record record in
      on_write (write_size buf pos max size) (fun buf pos =>
        on_write (write_record buf pos max record) Written)
  | _ => Write_undef
  end.

Definition write_object_schema (schema : Schema) (buf : list Z) (pos max : Z)
           (value : PyObject) : write_result :=
  match value with
  | Py_Tuple [] => on_write (write_size buf pos max 0) Written
  | Py_Tuple [type; object] =>
      match type with
      | Py_Schema type_schema => write_sized_object type_schema object buf pos max
      | _ => write_sized_record object buf pos max
      end
  | _ => Write_undef
  end.

Fixpoint write_schema_objects (type_schema : Schema) (objects : list PyObject)
         (buf : list Z) (pos max : Z) : write_result :=
  match objects with
  | [] => Written buf pos
  | object_tuple :: objects' =>
      bind_write (write_sized_object type_schema object_tuple buf pos max)
        (fun buf pos => write_schema_objects type_schema objects' buf pos max)
  end.

Fixpoint write_record_objects (objects : list PyObject)
         (buf : list Z) (pos max : Z) : write_result :=
  match objects with
  | [] => Written buf pos
  | object :: objects' =>
      bind_write (write_sized_record object buf pos max)
        (fun buf pos => write_record_objects objects' buf pos max)
  end.

Definition write_object_array_schema (schema : Schema) (buf : list Z) (pos max : Z)
           (value : PyObject) : write_result :=
  match value with
  | Py_Tuple [] => on_write (write_size buf pos max 0) Written
  | Py_Tuple [type; Py_List objects] =>
      let count := Z.of_nat (length objects) in
      on_write (write_size buf pos max count) (fun buf pos =>
        if count =? 0 then Written buf pos
        else
          bind_write
            (match type with
             | Py_Schema type_schema =>
                 write_schema_objects type_schema objects buf pos max
             | _ => write_record_objects objects buf pos max
             end)
            (fun buf pos => on_write (write_size buf pos max 0) Written))
  | _ => Write_undef
  end.

Definition write_schema_types (dt : SchemaDataType)
  : Schema -> list Z -> Z -> Z -> PyObject -> write_result :=
  match dt with
  | SDT_NULLABLE => write_nullable_schema
  | SDT_BOOLEAN => write_boolean_schema
  | SDT_BYTES => write_bytes_schema
  | SDT_DOUBLE => write_double_schema
  | SDT_FLOAT => write_float_schema
  | SDT_INT => write_int_schema
  | SDT_LONG => write_long_schema
  | SDT_STRING => write_bytes_schema
  | SDT_ARRAY => write_array_schema
  | SDT_MAP => write_map_schema
  | SDT_RECORD => write_record_schema
  | SDT_OBJECT => write_object_schema
  | SDT_OBJECT_ARRAY => write_object_array_schema
  end.

End Writing.

Fixpoint write_schema {host : HostRuntime} (depth : nat) (schema : Schema)
         (buf : list Z) (pos max : Z) (value : PyObject) : write_result :=
  match depth with
  | O => Write_fuel
  | S depth' =>
      write_schema_types (write_schema depth') (data_type schema) schema
                         buf pos max value
  end.

(** [Schema.encode].  When [prepare_schema] returns [NULL], the function
    leaves through [error] only inside [if (path)]; with [path] still [NULL]
    control continues to the allocation and to [write_schema] with
    [prepared == NULL], which the writing functions dereference.
    [Encode_write_null size] is that call being made, on a buffer of [size]
    bytes. *)
Inductive encode_outcome : Type :=
| Encoded (bytes : list Z)
| Encode_raised (e : exception) (prefix : option path_t)
| Encode_write_null (size : Z)
| Encode_undef
| Encode_fuel.

Definition Schema_encode {host : HostRuntime} (depth : nat) (self : Schema)
           (value : PyObject) : encode_outcome :=
  let write (prepared : option PyObject) (size : Z) :=
    let result := repeat 0 (Z.to_nat size) in
    let pos := 0 in
    let max := pos + size in
    match prepared with
    | None => Encode_write_null size
    | Some prepared =>
        match write_schema depth self result pos max prepared with
        | Written result _ => Encoded result
        | Write_error e => Encode_raised e None
        | Write_undef => Encode_undef
        | Write_fuel => Encode_fuel
        end
    end in
  match prepare_schema depth self value 0 with
  | Prepared prepared size => write (Some prepared) size
  | Prepare_error e (Some path) _ => Encode_raised e (Some path)
  | Prepare_error e None size => write None size
  | Prepare_undef => Encode_undef
  | Prepare_fuel => Encode_fuel
  end.

End Sch.

(* ------------------------------------------------------------------------- *)
(** ** The calendar of the specification *)

Module Calendar.

(** Leap rule: divisible by 4, except centuries not divisible by 400. *)
Definition leap_year (year : Z) : bool :=
  (year mod 4 =? 0) && (negb (year mod 100 =? 0) || (year mod 400 =? 0)).

Definition days_in_month (month year : Z) : Z :=
  if month =? 2 then (if leap_year year then 29 else 28)
  else if (month =? 4) || (month =? 6) || (month =? 9) || (month =? 11) then 30
  else 31.

(** Year in [1000, 2900], month in [1, 12], day in
    [1, days-in-month(month, year)]. *)
Definition valid_date (year month day : Z) : bool :=
  (1000 <=? year) && (year <=? 2900)
  && (1 <=? month) && (month <=? 12)
  && (1 <=? day) && (day <=? days_in_month month year).

End Calendar.

(* ------------------------------------------------------------------------- *)
(** ** record.c: reading a column from Python *)

Module Get.
Import Avro DT Py Rec Sch.

(** The host values the column accessors return: the objects of [Sch], and
    the [datetime.date], [datetime.datetime] and [datetime.time] objects
    built through the datetime C API. *)
Inductive value_object : Type :=
| Obj (v : PyObject)
| Date_object (year month day : Z)
| DateTime_object (year month day hour minute second usecond : Z)
| Time_object (hour minute second usecond : Z).

(** The argument checks of the datetime constructors of the host. *)
Definition check_date_args (year month day : Z) : bool :=
  (1 <=? year) && (year <=? 9999) && (1 <=? month) && (month <=? 12)
  && (1 <=? day) && (day <=? Calendar.days_in_month month year).

Definition check_time_args (hour minute second usecond : Z) : bool :=
  (0 <=? hour) && (hour <=? 23) && (0 <=? minute) && (minute <=? 59)
  && (0 <=? second) && (second <=? 59) && (0 <=? usecond) && (usecond <=? 999999).

(** [None] is the constructor returning [NULL] with [ValueError] set. *)
Definition PyDate_FromDate (year month day : Z) : option value_object :=
  if check_date_args year month day then Some (Date_object year month day)
  else None.

Definition PyDateTime_FromDateAndTime (year month day hour minute second usecond : Z)
  : option value_object :=
  if check_date_args year month day && check_time_args hour minute second usecond
  then Some (DateTime_object year month day hour minute second usecond)
  else None.

Definition PyTime_FromTime (hour minute second usecond : Z) : option value_object :=
  if check_time_args hour minute second usecond
  then Some (Time_object hour minute second usecond)
  else None.

(** Outcome of a [GetColumnFunc]: the object and the cell as the call leaves
    it, [NULL] with an exception set, or a read of memory the cell does not
    own. *)
Inductive get_result : Type :=
| Got (result : value_object) (column_value : ColumnValue)
| Get_raised
| Get_undef.

Definition of_host (r : option value_object) (column_value : ColumnValue)
  : get_result :=
  match r with
  | Some result => Got result column_value
  | None => Get_raised
  end.

(** The [len] bytes the pointer [value.data] points to.  The null pointer
    (the all-zero union) may only be read for no byte. *)
Definition data_bytes (column_value : ColumnValue) : option (list Z) :=
  match value column_value with
  | V_data d =>
      if len column_value <=? zlength d
      then Some (firstn (Z.to_nat (len column_value)) d)
      else None
  | V_word w =>
      if (w =? 0) && (len column_value =? 0) then Some [] else None
  end.

Section Accessors.
Context {host : HostRuntime}.

(** [get_bytes_column]: the bytes object is built from the buffer, which is
    then freed; the cell keeps a pointer into the object. *)
Definition get_bytes_column (column_value : ColumnValue) : get_result :=
  match data_bytes column_value with
  | Some data =>
      Got (Obj (Py_Bytes data)) (mkColumnValue (V_data data) (len column_value))
  | None => Get_undef
  end.

Definition get_char_column_small (column_value : ColumnValue) : get_result :=
  match PyUnicode_FromStringAndSize
          (firstn (Z.to_nat (len column_value)) (value_bytes (value column_value))) with
  | Some result => Got (Obj result) column_value
  | None => Get_raised
  end.

Definition get_date_column (column_value : ColumnValue) : get_result :=
  let date := value_i (value column_value) in
  let date := if date =? 0 then DATE_DEFAULT else date in
  of_host (PyDate_FromDate (DATE_YEAR date) (DATE_MONTH date) (DATE_DAY date))
          column_value.

Definition get_datetime_column (column_value : ColumnValue) : get_result :=
  let datetime := value_l (value column_value) in
  let datetime := if datetime =? 0 then DT_DEFAULT else datetime in
  of_host (PyDateTime_FromDateAndTime
             (DT_YEAR datetime) (DT_MONTH datetime) (DT_DAY datetime)
             (DT_HOUR datetime) (DT_MINUTE datetime) (DT_SEC datetime)
             (DT_MSEC datetime * 1000))
          column_value.

Definition get_double_column (column_value : ColumnValue) : get_result :=
  Got (Obj (Py_Float (le_combine (value_bytes (value column_value))))) column_value.

Definition get_float_column (column_value : ColumnValue) : get_result :=
  Got (Obj (Py_Float
              (float_to_double
                 (le_combine (firstn 4 (value_bytes (value column_value)))))))
      column_value.

Definition get_int_column (column_value : ColumnValue) : get_result :=
  Got (Obj (Py_Long (value_i (value column_value)))) column_value.

Definition get_long_column (column_value : ColumnValue) : get_result :=
  Got (Obj (Py_Long (value_l (value column_value)))) column_value.

(** [get_string_column]: the str is decoded from the buffer, the buffer is
    freed, and the cell keeps the UTF-8 form cached in the str, with its
    length. *)
Definition get_string_column (column_value : ColumnValue) : get_result :=
  match data_bytes column_value with
  | Some data =>
      match PyUnicode_FromStringAndSize data with
      | Some (Py_Unicode utf8) =>
          Got (Obj (Py_Unicode utf8)) (mkColumnValue (V_data utf8) (zlength utf8))
      | Some _ => Get_undef
      | None => Get_raised
      end
  | None => Get_undef
  end.

Definition get_time_column (column_value : ColumnValue) : get_result :=
  let time := value_i (value column_value) in
  of_host (PyTime_FromTime (TIME_HOUR time) (TIME_MINUTE time) (TIME_SEC time)
                           (TIME_MSEC time * 1000))
          column_value.

Definition get_timestamp_column (column_value : ColumnValue) : get_result :=
  let datetime := value_l (value column_value) in
  let datetime := if datetime =? 0 then DT_DEFAULT else datetime in
  Got (Obj (Py_Long (datetime_to_epoch_ms datetime))) column_value.

Definition get_column (dt : ColumnDataType) : ColumnValue -> get_result :=
  match dt with
  | CDT_BYTES => get_bytes_column
  | CDT_CHAR1 | CDT_CHAR2 | CDT_CHAR4 | CDT_CHAR8 => get_char_column_small
  | CDT_CHAR16 | CDT_CHAR32 | CDT_CHAR64 | CDT_CHAR128 | CDT_CHAR256 =>
      get_string_column
  | CDT_DATE => get_date_column
  | CDT_DATETIME => get_datetime_column
  | CDT_DOUBLE => get_double_column
  | CDT_FLOAT => get_float_column
  | CDT_INT | CDT_INT8 | CDT_INT16 => get_int_column
  | CDT_LONG => get_long_column
  | CDT_STRING => get_string_column
  | CDT_TIME => get_time_column
  | CDT_TIMESTAMP => get_timestamp_column
  end.

(** A [Record] object as Python sees it: the cells of [Rec.Record_t] and the
    list [values] of the host values already built, [None] for a slot that
    is still [NULL]. *)
Record Record_object : Type := mkRecordObject {
  raw : Record_t;
  values : list (option value_object)
}.

(** [Record_new], with the list [PyList_New(column_count)] it ends with. *)
Definition Record_new (arg_type : RecordType) : Record_object :=
  mkRecordObject (Rec.Record_new arg_type)
                 (repeat None (length (column_defs arg_type))).

Inductive get_outcome : Type :=
| Value (result : value_object) (self : Record_object)
| Raised (e : exception) (self : Record_object)
| Get_undefined.

(** [_Record_get_value]; the index is valid. *)
Definition _Record_get_value (self : Record_object) (index : nat) : get_outcome :=
  match nth index (values self) None with
  | Some result => Value result self
  | None =>
      let column_value := value_at (raw self) index in
      let got :=
        if len column_value <? 0 then Got (Obj Py_None) column_value
        else get_column (Rec.data_type (def_at (raw self) index)) column_value in
      match got with
      | Got result column_value =>
          Value result
                (mkRecordObject (set_value_at (raw self) index column_value)
                                (list_set (values self) index (Some result)))
      | Get_raised => Raised host_error self
      | Get_undef => Get_undefined
      end
  end.

(** [Record_item], the [sq_item] slot: [record[index]] for an index that is
    not negative. *)
Definition Record_item (self : Record_object) (index : Z) : get_outcome :=
  if negb ((index >=? 0) && (index <? Z.of_nat (column_count (raw self))))
  then Raised (PyExc_IndexError, "column index out of range"%string) self
  else _Record_get_value self (Z.to_nat index).

End Accessors.

End Get.

(* ------------------------------------------------------------------------- *)
(** ** Predicates used by the statements *)

(** The [BufferRange]s a decoded value holds: the value itself, the items
    of a list or tuple and the values of a dict, at any depth, as
    [(start, length)]. *)
Fixpoint ranges_of (v : Sch.PyObject) : list (Z * Z) :=
  match v with
  | Sch.Py_BufferRange start length => [(start, length)]
  | Sch.Py_List items | Sch.Py_Tuple items => flat_map ranges_of items
  | Sch.Py_Dict items =>
      flat_map (fun entry => match entry with (_, value) => ranges_of value end)
               items
  | _ => []
  end.

(** Offset [j] lies in the bytes the range [r] designates. *)
Definition inside (r : Z * Z) (j : Z) : Prop :=
  fst r <= j < fst r + snd r.

(** [r = (start, length)] is the payload of an Avro bytes value met between
    the offsets [lo] and [hi] of [buffer], all offsets counted from the base
    of [buffer]: the length header decoded at some offset [p >= lo] ends at
    [start] and announces [length] bytes, and these end by [hi].  [max] is
    the end of the window being decoded. *)
Definition payload_at (buffer : list Z) (max lo hi : Z) (r : Z * Z) : Prop :=
  exists p,
    lo <= p
    /\ Avro.read_bytes_len buffer p max = Avro.Ok (snd r) (fst r)
    /\ fst r + snd r <= hi.

(** The payloads [rs] are met in this order between [lo] and [hi]: the
    header of each one starts at or after the end of the payload before
    it. *)
Fixpoint payload_chain (buffer : list Z) (max lo hi : Z) (rs : list (Z * Z))
  : Prop :=
  match rs with
  | [] => lo <= hi
  | (start, length) :: rs' =>
      exists p,
        lo <= p
        /\ Avro.read_bytes_len buffer p max = Avro.Ok length start
        /\ payload_chain buffer max (start + length) hi rs'
  end.

Definition range_object (r : Z * Z) : Sch.PyObject :=
  Sch.Py_BufferRange (fst r) (snd r).

(** [buffer'] is as long as [buffer] and has its bytes at every offset of
    [lo, hi) that is inside none of the payloads [rs]. *)
Definition agree_outside (rs : list (Z * Z)) (lo hi : Z)
           (buffer buffer' : list Z) : Prop :=
  zlength buffer' = zlength buffer
  /\ forall j, lo <= j < hi -> (forall r, In r rs -> ~ inside r j) ->
               byte_at buffer' j = byte_at buffer j.

(** What a part of the decoding that went from [pos] to [pos'] and met the
    payloads [rs] on the way establishes: the cursor stays in the window,
    every payload lies in the part gone through, and the same part
    [replays] on every buffer with other bytes inside these payloads
    only. *)
Definition goes_past (buf : list Z) (max pos pos' : Z) (rs : list (Z * Z))
           (replays : list Z -> Prop) : Prop :=
  pos <= pos' <= max
  /\ Forall (payload_at buf max pos pos') rs
  /\ forall buf', agree_outside rs pos pos' buf buf' -> replays buf'.

(** A reader that goes past the payloads it meets without looking into
    them: when it succeeds on a window of the buffer, every [BufferRange] of
    the result is a payload of the part gone through, and the result and the
    cursor are the same on every buffer with other bytes inside these
    payloads only. *)
Definition skips_payloads (read : list Z -> Z -> Z -> Sch.read_result) : Prop :=
  forall buf pos max v pos',
    0 <= pos <= max -> max <= zlength buf ->
    read buf pos max = Sch.R_ok v pos' ->
    goes_past buf max pos pos' (ranges_of v)
              (fun buf' => read buf' pos max = Sch.R_ok v pos').

(** The two laws of the host runtime the statements on decoded values rest
    on: a dict holds, after [PyDict_SetItem], the value put and values it
    held before, and [PyUnicode_FromStringAndSize] returns a [str]. *)
Definition dict_law {host : Sch.HostRuntime} : Prop :=
  forall items key value items',
    Sch.PyDict_SetItem items key value = Some items' ->
    forall k y, In (k, y) items' -> y = value \/ exists k', In (k', y) items.

Definition str_law {host : Sch.HostRuntime} : Prop :=
  forall data v,
    Sch.PyUnicode_FromStringAndSize data = Some v ->
    exists utf8, v = Sch.Py_Unicode utf8.

(** The number of nested [read_schema] calls the schema asks for. *)
Fixpoint height (s : Sch.Schema) : nat :=
  match s with
  | Sch.mkSchema _ _ _ fields =>
      S ((fix heights (l : list Sch.Schema) : nat :=
            match l with
            | [] => O
            | field :: l' => Nat.max (height field) (heights l')
            end) fields)
  end.

(** A record whose encoding fits a window of exactly [size_record] bytes:
    [write_record] on any window of at least that size advances the cursor
    by that size. *)
Definition record_fits (record : Rec.Record_t) : Prop :=
  0 <= fst (Rec.size_record record)
  /\ forall buf pos max,
       0 <= pos -> pos + fst (Rec.size_record record) <= max -> max <= zlength buf ->
       exists buf',
         Rec.write_record buf pos max (snd (Rec.size_record record))
         = Avro.Ok buf' (pos + fst (Rec.size_record record))
         /\ zlength buf' = zlength buf.

(** Every record embedded in a prepared object fits. *)
Inductive records_fit : Sch.PyObject -> Prop :=
| fit_record r : record_fits r -> records_fit (Sch.Py_Record r)
| fit_list items : Forall records_fit items -> records_fit (Sch.Py_List items)
| fit_tuple items : Forall records_fit items -> records_fit (Sch.Py_Tuple items)
| fit_none : records_fit Sch.Py_None
| fit_bool b : records_fit (Sch.Py_Bool b)
| fit_long z : records_fit (Sch.Py_Long z)
| fit_float bits : records_fit (Sch.Py_Float bits)
| fit_bytes b : records_fit (Sch.Py_Bytes b)
| fit_unicode utf8 : records_fit (Sch.Py_Unicode utf8)
| fit_dict items : records_fit (Sch.Py_Dict items)
| fit_range start length : records_fit (Sch.Py_BufferRange start length)
| fit_schema s : records_fit (Sch.Py_Schema s)
| fit_record_type t : records_fit (Sch.Py_RecordType t).

(** The write result [r] is success on a buffer as long as [buf], with the
    cursor at [pos']. *)
Definition writes_to (r : Sch.write_result) (buf : list Z) (pos' : Z) : Prop :=
  exists buf', r = Sch.Written buf' pos' /\ zlength buf' = zlength buf.

(** A preparation function and a writing function agree on the size: every
    prepared object is written, into any window that has the room, in
    exactly the bytes the preparation added to [*size]. *)
Definition agree (prepare : Sch.Schema -> Sch.PyObject -> Z -> Sch.prepare_result)
           (write : Sch.Schema -> list Z -> Z -> Z -> Sch.PyObject -> Sch.write_result)
  : Prop :=
  forall schema value size prepared size',
    prepare schema value size = Sch.Prepared prepared size' ->
    (Sch.is_none prepared = true -> Sch.is_none value = true)
    /\ (records_fit prepared ->
        size <= size'
        /\ forall buf pos max,
             0 <= pos -> pos + (size' - size) <= max -> max <= zlength buf ->
             writes_to (write schema buf pos max prepared) buf (pos + (size' - size))).

(** What the item loops of the prepare and write passes establish: the
    number of prepared items, no size added for no items, and the agreement
    of the sizes for the items as a whole. *)
Definition loop_agrees (n : nat) (items : list Sch.PyObject) (size size' : Z)
           (write : list Z -> Z -> Z -> Sch.write_result) : Prop :=
  length items = n
  /\ (n = 0%nat -> size' = size)
  /\ (Forall records_fit items ->
      size <= size'
      /\ forall buf pos max,
           0 <= pos -> pos + (size' - size) <= max -> max <= zlength buf ->
           writes_to (write buf pos max) buf (pos + (size' - size))).

(** The zero or empty value of each column kind, as Python shows it: empty
    bytes, the empty string, the number 0, and for the date and time kinds
    the first instant the formats of dt.h can hold. *)
Definition zero_value (dt : Rec.ColumnDataType) : Get.value_object :=
  match dt with
  | Rec.CDT_BYTES => Get.Obj (Sch.Py_Bytes [])
  | Rec.CDT_CHAR1 | Rec.CDT_CHAR2 | Rec.CDT_CHAR4 | Rec.CDT_CHAR8
  | Rec.CDT_CHAR16 | Rec.CDT_CHAR32 | Rec.CDT_CHAR64 | Rec.CDT_CHAR128
  | Rec.CDT_CHAR256 | Rec.CDT_STRING => Get.Obj (Sch.Py_Unicode [])
  | Rec.CDT_DATE => Get.Date_object 1000 1 1
  | Rec.CDT_DATETIME => Get.DateTime_object 1000 1 1 0 0 0 0
  | Rec.CDT_DOUBLE | Rec.CDT_FLOAT => Get.Obj (Sch.Py_Float 0)
  | Rec.CDT_INT | Rec.CDT_INT8 | Rec.CDT_INT16 | Rec.CDT_LONG =>
      Get.Obj (Sch.Py_Long 0)
  | Rec.CDT_TIME => Get.Time_object 0 0 0 0
  | Rec.CDT_TIMESTAMP => Get.Obj (Sch.Py_Long (-30610224000000))
  end.

(** What a column of a record nothing was assigned to reads as. *)
Definition unset_value (column_def : Rec.ColumnDef) : Get.value_object :=
  if Rec.is_nullable column_def then Get.Obj Sch.Py_None
  else zero_value (Rec.data_type column_def).

(** The states a new record of type [t] goes through when columns are read
    from it, in any order and any number of times. *)
Inductive read_only {host : Sch.HostRuntime} (t : Rec.RecordType)
  : Get.Record_object -> Prop :=
| read_only_new : read_only t (Get.Record_new t)
| read_only_item self index result self' :
    read_only t self ->
    Get.Record_item self index = Get.Value result self' ->
    read_only t self'.

(** The state of a record columns have been read from: a slot of [values]
    is empty over the cell [Record_new] made, or it holds the value the
    column reads as. *)
Definition untouched (t : Rec.RecordType) (self : Get.Record_object) : Prop :=
  Rec.type (Get.raw self) = t
  /\ length (Rec.column_values (Get.raw self)) = length (Rec.column_defs t)
  /\ length (Get.values self) = length (Rec.column_defs t)
  /\ forall i, (i < length (Rec.column_defs t))%nat ->
       (nth i (Get.values self) None = None
        /\ Rec.value_at (Get.raw self) i = Rec.value_at (Rec.Record_new t) i)
       \/ nth i (Get.values self) None
          = Some (unset_value (nth i (Rec.column_defs t) Rec.default_def)).

(** Zig-zag decoding as the Avro specification defines it, on a code
    [n >= 0]: the even codes 0, 2, 4, ... stand for 0, 1, 2, ... and the odd
    codes 1, 3, 5, ... for -1, -2, -3, ...  This definition follows the
    format, not the code; [unzigzag32_decode] compares it with the
    expression of [read_int]. *)
Definition zigzag_decode (n : Z) : Z :=
  if Z.even n then n / 2 else - ((n + 1) / 2).

(** The column kinds written as an Avro int, long, float or double. *)
Definition plain_kind (dt : Rec.ColumnDataType) : bool :=
  match dt with
  | Rec.CDT_INT | Rec.CDT_INT8 | Rec.CDT_INT16 | Rec.CDT_LONG | Rec.CDT_TIMESTAMP
  | Rec.CDT_DOUBLE | Rec.CDT_FLOAT => true
  | _ => false
  end.

(** The column kinds written as text, ending in a [write_digits] call. *)
Definition textual_kind (dt : Rec.ColumnDataType) : bool :=
  match dt with
  | Rec.CDT_DATE | Rec.CDT_DATETIME | Rec.CDT_TIME => true
  | _ => false
  end.

(** A writer's result is success or [ERR_EOF]. *)
Definition ok_or_eof {A : Type} (r : Avro.result A) : Prop :=
  match r with
  | Avro.Ok _ _ => True
  | Avro.Err e => e = Avro.ERR_EOF
  | Avro.Undef => False
  end.

(* ------------------------------------------------------------------------- *)
(** ** The calendar arithmetic of dt.c, taken apart

    The two epoch conversions compute a day count and the fields of a date
    in the middle of larger expressions.  These definitions name those
    parts, term for term, so that statements can speak about them; the
    lemmas [datetime_to_epoch_ms_days] and [epoch_ms_to_datetime_days] tie
    them back to the functions of [DT]. *)

Module Epoch.
Import DT.

(** The day count inside [datetime_to_epoch_ms]: days since 1 March 0000. *)
Definition days_of_civil (year month day : Z) : Z :=
  let month := month - 3 in
  let '(month, year) :=
    if month <? 0 then (month + MONTHS_PER_YEAR, year - 1) else (month, year) in
  year * DAYS_PER_YEAR
  + Z.quot year YEARS_PER_LEAP
  - Z.quot year YEARS_PER_CENTURY
  + Z.quot year YEARS_PER_CYCLE
  + table_at days_before_month_march month
  + day - 1.

(** What [epoch_ms_to_datetime] derives from the day count [days]: the
    year, the month, the day of the month, and the two fields it packs as
    [day_of_year + 1] and [day_of_week + 1]. *)
Definition civil_of_days (days : Z) : Z * Z * Z * Z * Z :=
  let day_of_week := Z.rem (days + 3) DAYS_PER_WEEK in
  let cycles_since_base := Z.quot days DAYS_PER_CYCLE in
  let days := Z.rem days DAYS_PER_CYCLE in
  let centuries_since_cycle := Z.quot days DAYS_PER_CENTURY in
  let centuries_since_cycle :=
    if centuries_since_cycle =? CENTURIES_PER_CYCLE
    then centuries_since_cycle - 1 else centuries_since_cycle in
  let days := days - centuries_since_cycle * DAYS_PER_CENTURY in
  let leaps_since_century := Z.quot days DAYS_PER_LEAP in
  let days := days - leaps_since_century * DAYS_PER_LEAP in
  let years_since_leap := Z.quot days DAYS_PER_YEAR in
  let years_since_leap :=
    if years_since_leap =? YEARS_PER_LEAP
    then years_since_leap - 1 else years_since_leap in
  let days := days - years_since_leap * DAYS_PER_YEAR in
  let is_leap_year :=
    Z.b2z ((years_since_leap =? 0)
           && (negb (leaps_since_century =? 0) || (centuries_since_cycle =? 0))) in
  let day_of_year := days + 59 + is_leap_year in
  let day_of_year :=
    if day_of_year >=? DAYS_PER_YEAR + is_leap_year
    then day_of_year - (DAYS_PER_YEAR + is_leap_year) else day_of_year in
  let year :=
    cycles_since_base * YEARS_PER_CYCLE
    + centuries_since_cycle * YEARS_PER_CENTURY
    + leaps_since_century * YEARS_PER_LEAP
    + years_since_leap in
  let '(month, days) := month_walk days_in_month_march 0 days in
  let month := month + 3 in
  let '(month, year) :=
    if month >? MONTHS_PER_YEAR then (month - MONTHS_PER_YEAR, year + 1)
    else (month, year) in
  (year, month, days + 1, day_of_year + 1, day_of_week + 1).

(** The value [epoch_ms_to_datetime] packs from the fields of the date and
    the milliseconds of the day. *)
Definition pack_datetime (fields : Z * Z * Z * Z * Z) (milliseconds : Z) : Z :=
  let '(year, month, day, yday, wday) := fields in
  wrap64s
    (Z.shiftl (year - DT_BASE_YEAR) DT_SHIFT_YEAR
     + Z.shiftl month DT_SHIFT_MONTH
     + Z.shiftl day DT_SHIFT_DAY
     + Z.shiftl (Z.quot milliseconds MSEC_PER_HOUR) DT_SHIFT_HOUR
     + Z.shiftl (Z.rem (Z.quot milliseconds MSEC_PER_MINUTE) MINUTES_PER_HOUR) DT_SHIFT_MINUTE
     + Z.shiftl (Z.rem (Z.quot milliseconds MSEC_PER_SEC) SEC_PER_MINUTE) DT_SHIFT_SEC
     + Z.shiftl (Z.rem milliseconds MSEC_PER_SEC) DT_SHIFT_MSEC
     + Z.shiftl yday DT_SHIFT_YDAY
     + Z.shiftl wday DT_SHIFT_WDAY).

(** [compute_days] past its test of the year. *)
Definition compute_days_body (year month day : Z) : days_result :=
  let m := month - 1 in
  match table_get days_in_month m with
  | None => Days_undefined
  | Some dim =>
      if day >? dim then Days_invalid
      else
        let not_leap_year :=
          negb (Z.rem year 4 =? 0)
          || ((Z.rem year 100 =? 0) && negb (Z.rem year 400 =? 0)) in
        if not_leap_year && (month =? 2) && (day =? 29) then Days_invalid
        else
          match table_get days_before_month m, table_get day_of_week_offset m with
          | Some before, Some offset =>
              let '(day_of_year, y) :=
                if month <? 3 then (before + day, year - 1)
                else (before - Z.b2z not_leap_year + day, year) in
              Days_ok day_of_year
                      (Z.rem (day + offset + y + Z.quot y 4 - Z.quot y 100
                              + Z.quot y 400) 7 + 1)
          | _, _ => Days_undefined
          end
  end.

(** What holds of every day [r] of one cycle of 400 years: the date
    [civil_of_days] gives for it counts back to [r], is a date of the
    calendar, lies in the year the bounds of the valid range ask for, and
    has the day of the year and of the week [compute_days] gives it. *)
Definition day_ok (r : Z) : bool :=
  let '(y, m, d, yd, wd) := civil_of_days r in
  (days_of_civil y m d =? r)
  && (0 <=? y) && (y <=? 400)
  && (1 <=? m) && (m <=? 12)
  && (1 <=? d) && (d <=? Calendar.days_in_month m y)
  && ((3 <=? m) || (1 <=? y))
  && ((r <? 72989) || (200 <=? y))
  && ((36829 <? r) || (y <=? 100))
  && match compute_days_body y m d with
     | Days_ok yd' wd' => (yd' =? yd) && (wd' =? wd) && (1 <=? yd) && (yd <=? 366)
     | _ => false
     end.

End Epoch.

(* ------------------------------------------------------------------------- *)
(** ** A reference host runtime

    The properties below hold for every [HostRuntime].  This instance, a
    small model of the conversions on the host values modelled here, serves
    to run the embedding on concrete values. *)

Module Host.
Import Sch.

Fixpoint bytes_eqb (a b : list Z) : bool :=
  match a, b with
  | [], [] => true
  | x :: a', y :: b' => (x =? y) && bytes_eqb a' b'
  | _, _ => false
  end.

Definition key_eqb (a b : PyObject) : bool :=
  match a, b with
  | Py_Unicode x, Py_Unicode y => bytes_eqb x y
  | Py_Bytes x, Py_Bytes y => bytes_eqb x y
  | Py_Long x, Py_Long y => x =? y
  | _, _ => false
  end.

Fixpoint dict_get (items : list (PyObject * PyObject)) (key : PyObject)
  : option PyObject :=
  match items with
  | [] => None
  | (k, v) :: items' => if key_eqb k key then Some v else dict_get items' key
  end.

Fixpoint dict_set (items : list (PyObject * PyObject)) (key value : PyObject)
  : list (PyObject * PyObject) :=
  match items with
  | [] => [(key, value)]
  | (k, v) :: items' =>
      if key_eqb k key then (k, value) :: items'
      else (k, v) :: dict_set items' key value
  end.

#[export] Instance reference_host : HostRuntime := {
  PyObject_IsTrue v :=
    Some (match v with
          | Py_None => false
          | Py_Bool b => b
          | Py_Long z => negb (z =? 0)
          | Py_Bytes [] | Py_Unicode [] | Py_List [] | Py_Tuple [] | Py_Dict [] => false
          | _ => true
          end);
  PyObject_Bytes v := match v with Py_Bytes b => Some b | _ => None end;
  PyNumber_Float v := match v with Py_Float bits => Some bits | _ => None end;
  PyNumber_Long v :=
    match v with
    | Py_Long z => Some z
    | Py_Bool b => Some (Z.b2z b)
    | _ => None
    end;
  PyObject_Str_UTF8 v := match v with Py_Unicode utf8 => Some utf8 | _ => None end;
  PySequence_Fast v :=
    match v with
    | Py_List items | Py_Tuple items => Some items
    | _ => None
    end;
  PyMapping_Check v := match v with Py_Dict _ => true | _ => false end;
  PyMapping_Items v :=
    match v with
    | Py_Dict items => Some (map (fun kv => Py_Tuple [fst kv; snd kv]) items)
    | _ => None
    end;
  PyMapping_Length v :=
    match v with
    | Py_Dict items => Some (Z.of_nat (length items))
    | _ => None
    end;
  PyMapping_HasKey v key :=
    match v with
    | Py_Dict items => match dict_get items key with Some _ => true | None => false end
    | _ => false
    end;
  PyObject_GetItem v key :=
    match v with Py_Dict items => dict_get items key | _ => None end;
  PyUnicode_FromStringAndSize data := Some (Py_Unicode data);
  PyDict_SetItem items key value := Some (dict_set items key value);
  PyList_New size := size <=? INT64_MAX / 8;
  double_to_float bits := bits mod 2 ^ 32;
  float_to_double bits := bits
}.

End Host.

(* ------------------------------------------------------------------------- *)
(** ** Record types, records and schemas used as concrete inputs *)

Module Inputs.
Import Avro DT Py Rec Sch.

Definition date_type (nullable : bool) : RecordType :=
  mkRecordType 1 [mkColumnDef CDT_DATE nullable].
Definition datetime_type : RecordType := mkRecordType 2 [mkColumnDef CDT_DATETIME false].
Definition time_type : RecordType := mkRecordType 3 [mkColumnDef CDT_TIME false].
Definition int_date_type : RecordType :=
  mkRecordType 4 [mkColumnDef CDT_INT false; mkColumnDef CDT_DATE false].

(** The record of [date_type] holding 2024-02-29. *)
Definition leap_day (nullable : bool) : Record_t :=
  mkRecord (date_type nullable) 0 [mkColumnValue (V_word 260428261) 0].

Definition eof_on_write : exception :=
  (PyExc_EOFError, "insufficient buffer size"%string).

Definition two_ints : RecordType :=
  mkRecordType 5 [mkColumnDef CDT_INT false; mkColumnDef CDT_INT false].
Definition nullable_ints : RecordType :=
  mkRecordType 6 [mkColumnDef CDT_INT true; mkColumnDef CDT_INT true;
                  mkColumnDef CDT_INT true].

Definition eof_on_read : exception :=
  (PyExc_EOFError, "incomplete binary data"%string).

Definition object_schema : Schema := mkSchema SDT_OBJECT Py_None Py_None [].
Definition int_schema : Schema := mkSchema SDT_INT Py_None Py_None [].
Definition bytes_schema : Schema := mkSchema SDT_BYTES Py_None Py_None [].
Definition int_array_schema : Schema :=
  mkSchema SDT_ARRAY Py_None Py_None [int_schema].

(** The record [leap_day] embedded as the value of an [object] schema. *)
Definition embedded_leap_day : PyObject :=
  Py_Tuple [Py_RecordType (date_type false); Py_Record (leap_day false)].

(** A record of two plain columns, embedded as the value of an [object]
    schema. *)
Definition two_ints_record : Record_t :=
  mkRecord two_ints 0 [mkColumnValue (V_word 1) 0; mkColumnValue (V_word 2) 0].
Definition embedded_ints : PyObject :=
  Py_Tuple [Py_RecordType two_ints; Py_Record two_ints_record].

End Inputs.

(* ------------------------------------------------------------------------- *)
(** ** Tactics *)

(** Evaluate the reads of the static tables at a known index. *)
Ltac table_lookup :=
  repeat match goal with
         | |- context [DT.table_get ?t ?i] =>
             let v := eval vm_compute in (DT.table_get t i) in
             change (DT.table_get t i) with v
         end.

(** [t] is an integer literal. *)
Ltac literal t :=
  match t with
  | Z0 => idtac
  | Z.pos _ => idtac
  | Z.neg _ => idtac
  end.

(** Evaluate the tests, the differences and the table reads of the goal
    whose operands are literals. *)
Ltac closed_tests :=
  repeat match goal with
         | |- context [?a <? ?b] =>
             literal a; literal b;
             let v := eval vm_compute in (a <? b) in change (a <? b) with v
         | |- context [?a <=? ?b] =>
             literal a; literal b;
             let v := eval vm_compute in (a <=? b) in change (a <=? b) with v
         | |- context [?a >? ?b] =>
             literal a; literal b;
             let v := eval vm_compute in (a >? b) in change (a >? b) with v
         | |- context [?a =? ?b] =>
             literal a; literal b;
             let v := eval vm_compute in (a =? b) in change (a =? b) with v
         | |- context [?a - ?b] =>
             literal a; literal b;
             let v := eval vm_compute in (a - b) in change (a - b) with v
         | |- context [?a + ?b] =>
             literal a; literal b;
             let v := eval vm_compute in (a + b) in change (a + b) with v
         | |- context [DT.table_at ?t ?i] =>
             literal i;
             let v := eval vm_compute in (DT.table_at t i) in
             change (DT.table_at t i) with v
         end.

(** Case analysis on every integer test of the goal and the hypotheses. *)
Ltac split_tests :=
  repeat match goal with
         | |- context [?a >? ?b] => destruct (Z.gtb_spec a b)
         | |- context [?a <? ?b] => destruct (Z.ltb_spec a b)
         | |- context [?a <=? ?b] => destruct (Z.leb_spec a b)
         | |- context [?a =? ?b] => destruct (Z.eqb_spec a b)
         | H : context [?a <=? ?b] |- _ => destruct (Z.leb_spec a b)
         | H : context [?a =? ?b] |- _ => destruct (Z.eqb_spec a b)
         end.

(** Split a chain of [AVRO_RETURN_ERROR] steps in hypothesis [H] into its
    successful steps. *)
Ltac split_binds H :=
  repeat match type of H with
         | Avro.bind ?r _ = _ =>
             let buf := fresh "buf" in
             let p := fresh "p" in
             let e := fresh "e" in
             let Hstep := fresh "Hstep" in
             destruct r as [buf p|e|] eqn:Hstep;
             cbn [Avro.bind] in H; [|try discriminate H..]
         end.

(** Turn every successful writer call among the hypotheses into the position
    it returns, given the advance lemmas of [write_long], [write_char] and
    [write_digits]. *)
Ltac advance_steps long char digits :=
  repeat match goal with
         | H : Avro.write_long _ _ _ _ = Avro.Ok _ _ |- _ => apply long in H
         | H : Avro.write_size _ _ _ _ = Avro.Ok _ _ |- _ =>
             unfold Avro.write_size in H; apply long in H
         | H : Avro.write_char _ _ _ _ = Avro.Ok _ _ |- _ => apply char in H
         | H : Avro.write_digits _ _ _ _ _ = Avro.Ok _ _ |- _ => apply digits in H
         end.


(* ------------------------------------------------------------------------- *)
(** * Properties *)

Import Avro.

(** ** Machine arithmetic *)

Lemma wrap64u_range z : 0 <= wrap64u z < 2 ^ 64.
Proof. unfold wrap64u. apply Z.mod_pos_bound. lia. Qed.

Lemma wrap64u_small z : 0 <= z < 2 ^ 64 -> wrap64u z = z.
Proof. intros. unfold wrap64u. apply Z.mod_small; lia. Qed.

Lemma wrap64s_small z : - 2 ^ 63 <= z < 2 ^ 63 -> wrap64s z = z.
Proof. intros. unfold wrap64s. rewrite Z.mod_small; lia. Qed.

Lemma wrap64u_wrap64s z : wrap64u (wrap64s z) = wrap64u z.
Proof.
  unfold wrap64u, wrap64s.
  rewrite Zminus_mod_idemp_l. f_equal. lia.
Qed.

Lemma wrap64u_land z : wrap64u z = Z.land z (Z.ones 64).
Proof. unfold wrap64u. rewrite Z.land_ones by lia. reflexivity. Qed.

Lemma wrap64u_lor a b : wrap64u (Z.lor a b) = Z.lor (wrap64u a) (wrap64u b).
Proof. rewrite !wrap64u_land. apply Z.land_lor_distr_l. Qed.

Lemma wrap64u_lxor a b : wrap64u (Z.lxor a b) = Z.lxor (wrap64u a) (wrap64u b).
Proof.
  rewrite !wrap64u_land. apply Z.bits_inj'. intros n Hn.
  rewrite !Z.land_spec, !Z.lxor_spec, !Z.land_spec.
  destruct (Z.testbit a n), (Z.testbit b n), (Z.testbit (Z.ones 64) n); reflexivity.
Qed.

Lemma testbit_small v j i : 0 <= v < 2 ^ j -> j <= i -> Z.testbit v i = false.
Proof.
  intros Hv Hi. destruct (Z.eq_dec v 0) as [->|Hnz].
  - apply Z.bits_0.
  - apply Z.bits_above_log2; [lia|].
    assert (Z.log2 v < j); [|lia].
    apply Z.log2_lt_pow2; lia.
Qed.

Lemma lor_disjoint_shift v y j :
  0 <= j -> 0 <= v < 2 ^ j -> Z.lor v (Z.shiftl y j) = v + y * 2 ^ j.
Proof.
  intros Hj Hv.
  rewrite <- Z.shiftl_mul_pow2 by lia.
  rewrite Z.add_nocarry_lxor.
  - symmetry. apply Z.lxor_lor.
    apply Z.bits_inj'. intros i Hi. rewrite Z.land_spec, Z.bits_0.
    destruct (Z_lt_le_dec i j).
    + rewrite (Z.shiftl_spec_low y j i) by lia. apply andb_false_r.
    + rewrite (testbit_small v j i) by lia. reflexivity.
  - apply Z.bits_inj'. intros i Hi. rewrite Z.land_spec, Z.bits_0.
    destruct (Z_lt_le_dec i j).
    + rewrite (Z.shiftl_spec_low y j i) by lia. apply andb_false_r.
    + rewrite (testbit_small v j i) by lia. reflexivity.
Qed.

Lemma land_lnot127 n : 0 <= n -> (Z.land n (Z.lnot 127) =? 0) = (n <? 128).
Proof.
  intros Hn. rewrite <- Z.ldiff_land.
  change 127 with (Z.ones 7). rewrite Z.ldiff_ones_r by lia.
  rewrite Z.shiftr_div_pow2, Z.shiftl_mul_pow2 by lia.
  change (2 ^ 7) with 128.
  destruct (Z.ltb_spec n 128).
  - rewrite Z.div_small by lia. reflexivity.
  - apply Z.eqb_neq. assert (1 <= n / 128) by (apply Z.div_le_lower_bound; lia). lia.
Qed.

Lemma land_127 n : Z.land n 127 = n mod 128.
Proof. change 127 with (Z.ones 7). rewrite Z.land_ones by lia. reflexivity. Qed.

Lemma land_128_cont n : Z.land (Z.lor (Z.land n 127) 128) 128 = 128.
Proof.
  rewrite Z.land_lor_distr_l. rewrite <- Z.land_assoc.
  change (Z.land 127 128) with 0. rewrite Z.land_0_r. reflexivity.
Qed.

Lemma land_128_small n : 0 <= n < 128 -> Z.land n 128 = 0.
Proof.
  intros. apply Z.bits_inj'. intros i Hi. rewrite Z.land_spec, Z.bits_0.
  destruct (Z.eq_dec i 7) as [->|].
  - rewrite (testbit_small n 7 7); [reflexivity| change (2^7) with 128; lia | lia].
  - replace (Z.testbit 128 i) with false; [apply andb_false_r|].
    change 128 with (2 ^ 7). symmetry. apply Z.pow2_bits_false. lia.
Qed.

(** ** Variable-length integers *)

Lemma accumulate_step v m k :
  0 <= k -> 0 <= v < 2 ^ (7 * k) -> 0 <= m -> v + m * 2 ^ (7 * k) < 2 ^ 64 ->
  wrap64u (Z.lor v (wrap64s (Z.shiftl m (7 * k)))) = v + m * 2 ^ (7 * k).
Proof.
  intros Hk Hv Hm Hlt.
  rewrite wrap64u_lor, wrap64u_wrap64s.
  assert (Hp : 0 < 2 ^ (7 * k)) by (apply Z.pow_pos_nonneg; lia).
  rewrite (wrap64u_small v) by lia.
  assert (Hs : Z.shiftl m (7 * k) = m * 2 ^ (7 * k)) by (apply Z.shiftl_mul_pow2; lia).
  rewrite (wrap64u_small (Z.shiftl m (7 * k))) by (rewrite Hs; nia).
  apply lor_disjoint_shift; lia.
Qed.

Lemma write_read_loop : forall fuel n bs,
  0 <= n -> write_long_loop fuel n = Some bs ->
  forall buf pos rem k v,
    0 <= k -> 0 <= v < 2 ^ (7 * k) -> v + n * 2 ^ (7 * k) < 2 ^ 64 ->
    (length bs <= rem)%nat ->
    (forall j, (j < length bs)%nat ->
               byte_at buf (pos + k + Z.of_nat j) = nth j bs 0) ->
    read_long_loop buf pos rem k v
    = Ok (unzigzag64 (v + n * 2 ^ (7 * k))) (pos + k + zlength bs).
Proof.
  induction fuel as [|fuel IH]; intros n bs Hn Hw buf pos rem k v Hk Hv Hlt Hrem Hbuf;
    cbn [write_long_loop] in Hw; rewrite land_lnot127 in Hw by assumption;
    destruct (Z.ltb_spec n 128) as [Hsmall|Hbig]; try discriminate.
  1,2: injection Hw as <-; destruct rem as [|rem]; [cbn in Hrem; lia|];
       cbn [read_long_loop];
       specialize (Hbuf 0%nat ltac:(cbn; lia)); cbn [nth] in Hbuf;
       rewrite Z.add_0_r in Hbuf; rewrite Hbuf;
       rewrite (Z.mod_small n 256) by lia;
       rewrite land_128_small by lia; cbn [Z.eqb];
       rewrite land_127, (Z.mod_small n 128) by lia;
       rewrite accumulate_step by lia;
       unfold zlength; cbn [length]; f_equal; lia.
  destruct (write_long_loop fuel (Z.shiftr n 7)) as [bs'|] eqn:Hw'; [|discriminate].
  cbn in Hw. injection Hw as <-.
  destruct rem as [|rem]; [cbn in Hrem; lia|].
  cbn [read_long_loop].
  pose proof (Hbuf 0%nat ltac:(cbn; lia)) as Hb0. cbn [nth] in Hb0.
  rewrite Z.add_0_r in Hb0. rewrite Hb0.
  rewrite land_128_cont. cbn [Z.eqb].
  assert (Hl : Z.land (Z.lor (Z.land (n mod 256) 127) 128) 127 = n mod 128).
  { rewrite Z.land_lor_distr_l. change (Z.land 128 127) with 0.
    rewrite Z.lor_0_r, <- Z.land_assoc. change (Z.land 127 127) with 127.
    rewrite land_127.
    pose proof (Z.div_mod n 256 ltac:(lia)) as H256.
    pose proof (Z.mod_pos_bound n 256 ltac:(lia)).
    rewrite H256 at 2.
    replace (256 * (n / 256) + n mod 256) with (n mod 256 + (2 * (n / 256)) * 128) by lia.
    apply eq_sym, Z.mod_add. lia. }
  rewrite Hl.
  assert (Hp : 0 < 2 ^ (7 * k)) by (apply Z.pow_pos_nonneg; lia).
  assert (Hp1 : 2 ^ (7 * (k + 1)) = 128 * 2 ^ (7 * k)).
  { replace (7 * (k + 1)) with (7 + 7 * k) by lia.
    rewrite Z.pow_add_r by lia. reflexivity. }
  pose proof (Z.mod_pos_bound n 128 ltac:(lia)) as Hmod.
  pose proof (Z.div_mod n 128 ltac:(lia)) as Hdm.
  assert (Hq : 0 <= n / 128) by (apply Z.div_pos; lia).
  rewrite accumulate_step by nia.
  rewrite Z.shiftr_div_pow2 in Hw' by lia. change (2 ^ 7) with 128 in Hw'.
  rewrite (IH (n / 128) bs' Hq Hw' buf pos rem (k + 1)); try lia.
  - unfold zlength. cbn [length]. rewrite Hp1. f_equal; [f_equal; nia|lia].
  - rewrite Hp1. nia.
  - cbn in Hrem. lia.
  - intros j Hj. specialize (Hbuf (S j) ltac:(cbn; lia)). cbn [nth] in Hbuf.
    rewrite <- Hbuf. f_equal. lia.
Qed.

Lemma mod_shift a m k : 0 <= a - k * m < m -> a mod m = a - k * m.
Proof. intros H. symmetry. apply Z.mod_unique with (q := k); lia. Qed.

Lemma lxor_ones64 m : 0 <= m < 2 ^ 64 -> Z.lxor m (Z.ones 64) = Z.ones 64 - m.
Proof.
  intros Hm. rewrite Z.sub_nocarry_ldiff.
  - apply Z.bits_inj'. intros i Hi.
    rewrite Z.lxor_spec, Z.ldiff_spec.
    destruct (Z_lt_le_dec i 64).
    + rewrite Z.ones_spec_low by lia. rewrite xorb_true_r. reflexivity.
    + rewrite Z.ones_spec_high by lia. rewrite (testbit_small m 64 i) by lia.
      reflexivity.
  - apply Z.bits_inj'. intros i Hi. rewrite Z.ldiff_spec, Z.bits_0.
    destruct (Z_lt_le_dec i 64).
    + rewrite Z.ones_spec_low by lia. apply andb_false_r.
    + rewrite (testbit_small m 64 i) by lia. reflexivity.
Qed.

Lemma lxor_ones32 m : 0 <= m < 2 ^ 32 -> Z.lxor m (Z.ones 32) = Z.ones 32 - m.
Proof.
  intros Hm. rewrite Z.sub_nocarry_ldiff.
  - apply Z.bits_inj'. intros i Hi.
    rewrite Z.lxor_spec, Z.ldiff_spec.
    destruct (Z_lt_le_dec i 32).
    + rewrite Z.ones_spec_low by lia. rewrite xorb_true_r. reflexivity.
    + rewrite Z.ones_spec_high by lia. rewrite (testbit_small m 32 i) by lia.
      reflexivity.
  - apply Z.bits_inj'. intros i Hi. rewrite Z.ldiff_spec, Z.bits_0.
    destruct (Z_lt_le_dec i 32).
    + rewrite Z.ones_spec_low by lia. apply andb_false_r.
    + rewrite (testbit_small m 32 i) by lia. reflexivity.
Qed.

Lemma land_1 v : Z.land v 1 = v mod 2.
Proof. change 1 with (Z.ones 1) at 1. rewrite Z.land_ones by lia. reflexivity. Qed.

Lemma shiftr_1 v : Z.shiftr v 1 = v / 2.
Proof. rewrite Z.shiftr_div_pow2 by lia. reflexivity. Qed.

(** The zig-zag code of a 64-bit value, arithmetically. *)
Lemma zigzag64_spec l :
  is_int64 l -> zigzag64 l = if l <? 0 then - 2 * l - 1 else 2 * l.
Proof.
  unfold is_int64, INT64_MIN, INT64_MAX, zigzag64. intros Hl.
  rewrite wrap64u_lxor, wrap64u_wrap64s, <- wrap64u_lxor.
  rewrite Z.shiftl_mul_pow2, Z.shiftr_div_pow2 by lia.
  change (2 ^ 1) with 2.
  destruct (Z.ltb_spec l 0).
  - replace (l / 2 ^ 63) with (-1).
    2:{ apply Z.div_unique with (r := l + 2 ^ 63); lia. }
    rewrite Z.lxor_m1_r. unfold Z.lnot, wrap64u.
    rewrite Z.mod_small; lia.
  - rewrite Z.div_small by lia. rewrite Z.lxor_0_r.
    unfold wrap64u. rewrite Z.mod_small; lia.
Qed.

Lemma zigzag64_range l : 0 <= zigzag64 l < 2 ^ 64.
Proof. apply wrap64u_range. Qed.

Lemma unzigzag64_zigzag64 l : is_int64 l -> unzigzag64 (zigzag64 l) = l.
Proof.
  intros Hl. rewrite (zigzag64_spec l Hl).
  unfold is_int64, INT64_MIN, INT64_MAX in Hl. unfold unzigzag64.
  rewrite land_1, shiftr_1.
  destruct (Z.ltb_spec l 0).
  - replace ((- 2 * l - 1) mod 2) with 1.
    2:{ apply Z.mod_unique with (q := - l - 1); lia. }
    replace ((- 2 * l - 1) / 2) with (- l - 1).
    2:{ apply Z.div_unique with (r := 1); lia. }
    change (wrap64u (- (1))) with (Z.ones 64).
    rewrite lxor_ones64 by lia.
    unfold wrap64s. change (Z.ones 64) with (2 ^ 64 - 1).
    rewrite (mod_shift _ _ 1); lia.
  - replace ((2 * l) mod 2) with 0.
    2:{ apply Z.mod_unique with (q := l); lia. }
    replace (2 * l / 2) with l.
    2:{ apply Z.div_unique with (r := 0); lia. }
    change (wrap64u (- 0)) with 0. rewrite Z.lxor_0_r.
    apply wrap64s_small. lia.
Qed.

(** The loop of [write_long] never runs out of its nine iterations. *)
Lemma write_long_loop_total : forall fuel n,
  0 <= n < 2 ^ (7 * (Z.of_nat fuel + 1)) ->
  exists bs, write_long_loop fuel n = Some bs
             /\ (1 <= length bs <= fuel + 1)%nat.
Proof.
  induction fuel as [|fuel IH]; intros n Hn; cbn [write_long_loop];
    rewrite land_lnot127 by lia; destruct (Z.ltb_spec n 128) as [Hs|Hb].
  - eexists; split; [reflexivity|cbn; lia].
  - change (2 ^ (7 * (Z.of_nat 0 + 1))) with 128 in Hn. lia.
  - eexists; split; [reflexivity|cbn; lia].
  - destruct (IH (Z.shiftr n 7)) as (bs & Hbs & Hlen).
    + rewrite Z.shiftr_div_pow2 by lia. change (2 ^ 7) with 128.
      split; [apply Z.div_pos; lia|].
      apply Z.div_lt_upper_bound; [lia|].
      replace (7 * (Z.of_nat (S fuel) + 1)) with (7 + 7 * (Z.of_nat fuel + 1)) in Hn by lia.
      rewrite Z.pow_add_r in Hn by lia. change (2 ^ 7) with 128 in Hn. lia.
    + rewrite Hbs. eexists; split; [reflexivity|cbn; lia].
Qed.

Lemma write_long_bytes_spec l :
  write_long_loop 9 (zigzag64 l) = Some (write_long_bytes l)
  /\ (1 <= length (write_long_bytes l) <= 10)%nat.
Proof.
  unfold write_long_bytes.
  destruct (write_long_loop_total 9 (zigzag64 l)) as (bs & Hbs & Hlen).
  - pose proof (zigzag64_range l). split; [lia|].
    eapply Z.lt_le_trans; [apply H|]. apply Z.pow_le_mono_r; lia.
  - rewrite Hbs. auto.
Qed.

(** [size_long] counts the bytes [write_long] produces. *)
Lemma size_long_loop_write : forall fuel n len,
  size_long_loop fuel n len
  = option_map (fun bs => len + zlength bs - 1) (write_long_loop fuel n).
Proof.
  induction fuel as [|fuel IH]; intros n len; cbn [size_long_loop write_long_loop];
    destruct (Z.land n (Z.lnot 127) =? 0).
  1,2,3: cbn; try (f_equal; lia); reflexivity.
  rewrite IH. destruct (write_long_loop fuel (Z.shiftr n 7)); cbn; [|reflexivity].
  f_equal. unfold zlength. cbn [length]. lia.
Qed.

Lemma size_long_write_long_bytes l : size_long l = zlength (write_long_bytes l).
Proof.
  unfold size_long. rewrite size_long_loop_write.
  destruct (write_long_bytes_spec l) as [-> _]. cbn. lia.
Qed.

Lemma byte_at_store buf pos bs j :
  0 <= pos <= zlength buf -> (j < length bs)%nat ->
  byte_at (store buf pos bs) (pos + Z.of_nat j) = nth j bs 0.
Proof.
  unfold zlength, byte_at, store. intros Hpos Hj.
  replace (Z.to_nat (pos + Z.of_nat j)) with (Z.to_nat pos + j)%nat by lia.
  rewrite app_nth2; rewrite length_firstn, Nat.min_l by lia; [|lia].
  replace (Z.to_nat pos + j - Z.to_nat pos)%nat with j by lia.
  rewrite app_nth1 by lia. reflexivity.
Qed.

Lemma read_long_loop_cont : forall rem buf pos k v,
  (forall j, k <= j < k + Z.of_nat rem -> Z.land (byte_at buf (pos + j)) 128 <> 0) ->
  read_long_loop buf pos rem k v
  = Err (if k + Z.of_nat rem =? 10 then ERR_OVERFLOW else ERR_EOF).
Proof.
  induction rem as [|rem IH]; intros buf pos k v Hc; cbn [read_long_loop].
  - rewrite Z.add_0_r. reflexivity.
  - pose proof (Hc k ltac:(lia)) as Hk. apply Z.eqb_neq in Hk. rewrite Hk.
    rewrite IH.
    + replace (k + 1 + Z.of_nat rem) with (k + Z.of_nat (S rem)) by lia. reflexivity.
    + intros j Hj. apply Hc. lia.
Qed.

Lemma read_long_write_long l buf pos max :
  is_int64 l -> 0 <= pos -> max <= zlength buf -> pos + size_long l <= max ->
  exists buf',
    write_long buf pos max l = Ok buf' (pos + size_long l)
    /\ forall max', pos + size_long l <= max' ->
                    read_long buf' pos max' = Ok l (pos + size_long l).
Proof.
  intros Hl Hpos Hmax Hroom.
  destruct (write_long_bytes_spec l) as [Hw Hlen].
  rewrite size_long_write_long_bytes in *.
  exists (store buf pos (write_long_bytes l)). split.
  - unfold write_long. destruct (Z.gtb_spec (pos + zlength (write_long_bytes l)) max); [lia|].
    reflexivity.
  - intros max' Hmax'. unfold read_long.
    pose proof (zigzag64_range l) as Hz.
    rewrite (write_read_loop 9 (zigzag64 l) (write_long_bytes l)); try lia; try assumption.
    + rewrite Z.mul_1_r, Z.add_0_l, unzigzag64_zigzag64 by assumption.
      f_equal. lia.
    + unfold zlength in *. destruct (Z.ltb_spec (max' - pos) 10); lia.
    + intros j Hj. rewrite Z.add_0_r. apply byte_at_store; [unfold zlength in *; lia|assumption].
Qed.

Lemma varint_payload_range buf pos k :
  0 <= varint_payload buf pos k < 2 ^ (7 * Z.of_nat k).
Proof.
  induction k as [|k IH].
  - cbn. lia.
  - cbn [varint_payload]. rewrite land_127.
    pose proof (Z.mod_pos_bound (byte_at buf (pos + Z.of_nat k)) 128 ltac:(lia)).
    assert (0 < 2 ^ (7 * Z.of_nat k)) by (apply Z.pow_pos_nonneg; lia).
    replace (7 * Z.of_nat (S k)) with (7 + 7 * Z.of_nat k) by lia.
    rewrite Z.pow_add_r by lia. change (2 ^ 7) with 128. nia.
Qed.

Lemma pow2_7k_le k : (k <= 4)%nat -> 2 ^ (7 * Z.of_nat k) <= 2 ^ 28.
Proof. intros. apply Z.pow_le_mono_r; lia. Qed.

Lemma read_int_step buf pos k :
  (k <= 4)%nat ->
  wrap32u (Z.lor (wrap32u (varint_payload buf pos k))
                 (wrap64s (Z.shiftl (Z.land (byte_at buf (pos + Z.of_nat k)) 127)
                                    (7 * Z.of_nat k))))
  = wrap32u (varint_payload buf pos (S k)).
Proof.
  intros Hk. pose proof (varint_payload_range buf pos k) as Hr.
  pose proof (pow2_7k_le k Hk) as Hp.
  assert (Hp0 : 0 < 2 ^ (7 * Z.of_nat k)) by (apply Z.pow_pos_nonneg; lia).
  unfold wrap32u at 2. rewrite Z.mod_small by lia.
  set (m := Z.land (byte_at buf (pos + Z.of_nat k)) 127).
  assert (Hm : 0 <= m < 128).
  { subst m. rewrite land_127. apply Z.mod_pos_bound. lia. }
  assert (Hs : Z.shiftl m (7 * Z.of_nat k) = m * 2 ^ (7 * Z.of_nat k))
    by (apply Z.shiftl_mul_pow2; lia).
  rewrite wrap64s_small by (rewrite Hs; nia).
  rewrite lor_disjoint_shift by lia.
  reflexivity.
Qed.

Lemma read_int_loop_sound : forall rem buf pos k r pos',
  (k + rem <= 5)%nat ->
  read_int_loop buf pos rem (Z.of_nat k) (wrap32u (varint_payload buf pos k))
  = Ok r pos' ->
  exists n, (k < n <= k + rem)%nat
            /\ pos' = pos + Z.of_nat n
            /\ r = unzigzag32 (wrap32u (varint_payload buf pos n)).
Proof.
  induction rem as [|rem IH]; intros buf pos k r pos' Hk Hrd; cbn [read_int_loop] in Hrd.
  - discriminate.
  - rewrite read_int_step in Hrd by lia.
    destruct (Z.land (byte_at buf (pos + Z.of_nat k)) 128 =? 0).
    + injection Hrd as <- <-. exists (S k). repeat split; try lia.
    + replace (Z.of_nat k + 1) with (Z.of_nat (S k)) in Hrd by lia.
      apply IH in Hrd; [|lia]. destruct Hrd as (n & Hn & Hp & Hv).
      exists n. repeat split; try lia; assumption.
Qed.

Lemma read_int_loop_accept : forall rem buf pos k n,
  (k + rem <= 5)%nat -> (k < n <= k + rem)%nat ->
  (forall i, (k <= i < n - 1)%nat -> Z.land (byte_at buf (pos + Z.of_nat i)) 128 <> 0) ->
  Z.land (byte_at buf (pos + Z.of_nat (n - 1))) 128 = 0 ->
  read_int_loop buf pos rem (Z.of_nat k) (wrap32u (varint_payload buf pos k))
  = Ok (unzigzag32 (wrap32u (varint_payload buf pos n))) (pos + Z.of_nat n).
Proof.
  induction rem as [|rem IH]; intros buf pos k n Hk Hn Hc Hlast; [lia|].
  cbn [read_int_loop]. rewrite read_int_step by lia.
  destruct (Nat.eq_dec n (S k)) as [->|Hne].
  - replace (S k - 1)%nat with k in Hlast by lia. rewrite Hlast. cbn [Z.eqb].
    f_equal. lia.
  - pose proof (Hc k ltac:(lia)) as Hck. apply Z.eqb_neq in Hck. rewrite Hck.
    replace (Z.of_nat k + 1) with (Z.of_nat (S k)) by lia.
    apply IH; try lia; try assumption.
    intros i Hi. apply Hc. lia.
Qed.

Lemma size_long_range l : 1 <= size_long l <= 10.
Proof.
  rewrite size_long_write_long_bytes.
  destruct (write_long_bytes_spec l) as [_ H]. unfold zlength. lia.
Qed.

(** C7.  [read_long] decodes every 64-bit value: for every [l] of the
    [int64] range, [write_long] stores [size_long l] (at most ten) bytes
    wherever they fit and [read_long] on them returns [l] and the cursor
    behind them; ten bytes that all carry the continuation bit are
    [ERR_OVERFLOW]; a window that ends after fewer than ten such bytes is
    [ERR_EOF]. *)
Theorem read_long_all_values (l : Z) (buf : list Z) (pos max : Z) :
  is_int64 l -> 0 <= pos -> max <= zlength buf ->
  (pos + size_long l <= max ->
   exists buf',
     write_long buf pos max l = Ok buf' (pos + size_long l)
     /\ forall max', pos + size_long l <= max' ->
                     read_long buf' pos max' = Ok l (pos + size_long l))
  /\ 1 <= size_long l <= 10
  /\ (pos + 10 <= max ->
      (forall j, 0 <= j < 10 -> Z.land (byte_at buf (pos + j)) 128 <> 0) ->
      read_long buf pos max = Err ERR_OVERFLOW)
  /\ (pos <= max < pos + 10 ->
      (forall j, 0 <= j < max - pos -> Z.land (byte_at buf (pos + j)) 128 <> 0) ->
      read_long buf pos max = Err ERR_EOF).
Proof.
  intros Hl Hpos Hmax. repeat split.
  - intros Hroom. apply read_long_write_long; assumption.
  - apply size_long_range.
  - apply size_long_range.
  - intros Hten Hc. unfold read_long.
    destruct (Z.ltb_spec (max - pos) 10); [lia|].
    rewrite read_long_loop_cont; [reflexivity|].
    intros j Hj. apply Hc. lia.
  - intros Hshort Hc. unfold read_long.
    destruct (Z.ltb_spec (max - pos) 10); [|lia].
    rewrite read_long_loop_cont.
    + rewrite Z2Nat.id by lia. destruct (Z.eqb_spec (0 + (max - pos)) 10); [lia|reflexivity].
    + intros j Hj. apply Hc. lia.
Qed.

Lemma read_long_all_values_witness :
  (exists buf',
      write_long (repeat 255 10) 0 10 INT64_MIN = Ok buf' 10
      /\ read_long buf' 0 10 = Ok INT64_MIN 10)
  /\ read_long (repeat 255 10) 0 10 = Err ERR_OVERFLOW.
Proof.
  destruct (read_long_all_values INT64_MIN (repeat 255 10) 0 10)
    as (Hrt & _ & Hov & _).
  - unfold is_int64, INT64_MIN, INT64_MAX. lia.
  - lia.
  - vm_compute. discriminate.
  - split.
    + destruct Hrt as (buf' & Hw & Hr); [vm_compute; discriminate|].
      exists buf'. split; [exact Hw|]. apply Hr. vm_compute. discriminate.
    + apply Hov; [lia|]. intros j Hj.
      assert (Hcases : j = 0 \/ j = 1 \/ j = 2 \/ j = 3 \/ j = 4 \/ j = 5
                       \/ j = 6 \/ j = 7 \/ j = 8 \/ j = 9) by lia.
      repeat (destruct Hcases as [->|Hcases]; [vm_compute; discriminate|]).
      subst j. vm_compute. discriminate.
Defined.

Lemma wrap32u_small z : 0 <= z < 2 ^ 32 -> wrap32u z = z.
Proof. intros H. unfold wrap32u. apply Z.mod_small. assumption. Qed.

Lemma wrap32s_small z : - 2 ^ 31 <= z < 2 ^ 31 -> wrap32s z = z.
Proof. intros H. unfold wrap32s. rewrite Z.mod_small; lia. Qed.

(** The expression of [read_int], [(int32_t)((value >> 1) ^ -(value & 1))],
    is the zig-zag decoding of the 32-bit [value]. *)
Lemma unzigzag32_decode u :
  0 <= u < 2 ^ 32 ->
  unzigzag32 u = zigzag_decode u /\ INT32_MIN <= zigzag_decode u <= INT32_MAX.
Proof.
  intros Hu. unfold unzigzag32, zigzag_decode, INT32_MIN, INT32_MAX.
  rewrite land_1, shiftr_1.
  change (2 ^ 32) with 4294967296 in *. change (2 ^ 31) with 2147483648.
  pose proof (Z.div_mod u 2 ltac:(lia)) as Hdm.
  pose proof (Z.mod_pos_bound u 2 ltac:(lia)) as Hmod.
  rewrite Zeven_mod.
  destruct (Z.eqb_spec (u mod 2) 0) as [He|Ho].
  - rewrite He. change (wrap32u (- 0)) with 0. rewrite Z.lxor_0_r.
    rewrite wrap32s_small by (change (2 ^ 31) with 2147483648; lia). lia.
  - assert (H1 : u mod 2 = 1) by lia. rewrite H1.
    change (wrap32u (- (1))) with (Z.ones 32).
    rewrite lxor_ones32 by (change (2 ^ 32) with 4294967296; lia).
    change (Z.ones 32) with 4294967295.
    replace ((u + 1) / 2) with (u / 2 + 1)
      by (apply (Z.div_unique_pos (u + 1) 2 (u / 2 + 1) 0); lia).
    unfold wrap32s. change (2 ^ 31) with 2147483648. change (2 ^ 32) with 4294967296.
    rewrite (mod_shift _ _ 1) by lia. lia.
Qed.

Lemma accumulate_step32 v m k :
  0 <= k -> 0 <= v < 2 ^ (7 * k) -> 0 <= m -> v + m * 2 ^ (7 * k) < 2 ^ 32 ->
  wrap32u (Z.lor v (wrap64s (Z.shiftl m (7 * k)))) = v + m * 2 ^ (7 * k).
Proof.
  intros Hk Hv Hm Hlt.
  assert (Hp : 0 < 2 ^ (7 * k)) by (apply Z.pow_pos_nonneg; lia).
  assert (Hs : Z.shiftl m (7 * k) = m * 2 ^ (7 * k)) by (apply Z.shiftl_mul_pow2; lia).
  rewrite wrap64s_small
    by (rewrite Hs; change (2 ^ 32) with 4294967296 in Hlt;
        change (2 ^ 63) with 9223372036854775808; nia).
  rewrite lor_disjoint_shift by lia.
  apply wrap32u_small. lia.
Qed.

(** The bytes [write_long] produces for a value whose zig-zag code fits 32
    bits, read by the loop of [read_int]. *)
Lemma write_read_int_loop : forall fuel n bs,
  0 <= n -> write_long_loop fuel n = Some bs ->
  forall buf pos rem k v,
    0 <= k -> 0 <= v < 2 ^ (7 * k) -> v + n * 2 ^ (7 * k) < 2 ^ 32 ->
    (length bs <= rem)%nat ->
    (forall j, (j < length bs)%nat ->
               byte_at buf (pos + k + Z.of_nat j) = nth j bs 0) ->
    read_int_loop buf pos rem k v
    = Ok (unzigzag32 (v + n * 2 ^ (7 * k))) (pos + k + zlength bs).
Proof.
  induction fuel as [|fuel IH]; intros n bs Hn Hw buf pos rem k v Hk Hv Hlt Hrem Hbuf;
    cbn [write_long_loop] in Hw; rewrite land_lnot127 in Hw by assumption;
    destruct (Z.ltb_spec n 128) as [Hsmall|Hbig]; try discriminate.
  1,2: injection Hw as <-; destruct rem as [|rem]; [cbn in Hrem; lia|];
       cbn [read_int_loop];
       specialize (Hbuf 0%nat ltac:(cbn; lia)); cbn [nth] in Hbuf;
       rewrite Z.add_0_r in Hbuf; rewrite Hbuf;
       rewrite (Z.mod_small n 256) by lia;
       rewrite land_128_small by lia; cbn [Z.eqb];
       rewrite land_127, (Z.mod_small n 128) by lia;
       rewrite accumulate_step32 by lia;
       unfold zlength; cbn [length]; f_equal; lia.
  destruct (write_long_loop fuel (Z.shiftr n 7)) as [bs'|] eqn:Hw'; [|discriminate].
  cbn in Hw. injection Hw as <-.
  destruct rem as [|rem]; [cbn in Hrem; lia|].
  cbn [read_int_loop].
  pose proof (Hbuf 0%nat ltac:(cbn; lia)) as Hb0. cbn [nth] in Hb0.
  rewrite Z.add_0_r in Hb0. rewrite Hb0.
  rewrite land_128_cont. cbn [Z.eqb].
  assert (Hl : Z.land (Z.lor (Z.land (n mod 256) 127) 128) 127 = n mod 128).
  { rewrite Z.land_lor_distr_l. change (Z.land 128 127) with 0.
    rewrite Z.lor_0_r, <- Z.land_assoc. change (Z.land 127 127) with 127.
    rewrite land_127.
    pose proof (Z.div_mod n 256 ltac:(lia)) as H256.
    pose proof (Z.mod_pos_bound n 256 ltac:(lia)).
    rewrite H256 at 2.
    replace (256 * (n / 256) + n mod 256) with (n mod 256 + (2 * (n / 256)) * 128) by lia.
    apply eq_sym, Z.mod_add. lia. }
  rewrite Hl.
  assert (Hp : 0 < 2 ^ (7 * k)) by (apply Z.pow_pos_nonneg; lia).
  assert (Hp1 : 2 ^ (7 * (k + 1)) = 128 * 2 ^ (7 * k)).
  { replace (7 * (k + 1)) with (7 + 7 * k) by lia.
    rewrite Z.pow_add_r by lia. reflexivity. }
  pose proof (Z.mod_pos_bound n 128 ltac:(lia)) as Hmod.
  pose proof (Z.div_mod n 128 ltac:(lia)) as Hdm.
  assert (Hq : 0 <= n / 128) by (apply Z.div_pos; lia).
  rewrite accumulate_step32 by nia.
  rewrite Z.shiftr_div_pow2 in Hw' by lia. change (2 ^ 7) with 128 in Hw'.
  rewrite (IH (n / 128) bs' Hq Hw' buf pos rem (k + 1)); try lia.
  - unfold zlength. cbn [length]. rewrite Hp1. f_equal; [f_equal; nia|lia].
  - rewrite Hp1. nia.
  - cbn in Hrem. lia.
  - intros j Hj. specialize (Hbuf (S j) ltac:(cbn; lia)). cbn [nth] in Hbuf.
    rewrite <- Hbuf. f_equal. lia.
Qed.

(** The zig-zag code of a 32-bit value fits 32 bits, and decodes to it. *)
Lemma zigzag64_int32 i :
  INT32_MIN <= i <= INT32_MAX ->
  0 <= zigzag64 i < 2 ^ 32 /\ zigzag_decode (zigzag64 i) = i.
Proof.
  unfold INT32_MIN, INT32_MAX. intros Hi.
  change (2 ^ 31) with 2147483648 in Hi.
  assert (Hl : is_int64 i).
  { unfold is_int64, INT64_MIN, INT64_MAX.
    change (2 ^ 63) with 9223372036854775808. lia. }
  rewrite (zigzag64_spec i Hl). unfold zigzag_decode. rewrite Zeven_mod.
  change (2 ^ 32) with 4294967296.
  destruct (Z.ltb_spec i 0).
  - split; [lia|].
    replace ((- 2 * i - 1) mod 2) with 1
      by (apply Z.mod_unique with (q := - i - 1); lia).
    cbn [Z.eqb].
    replace ((- 2 * i - 1 + 1) / 2) with (- i)
      by (apply Z.div_unique with (r := 0); lia).
    lia.
  - split; [lia|].
    replace ((2 * i) mod 2) with 0 by (apply Z.mod_unique with (q := i); lia).
    cbn [Z.eqb]. apply eq_sym, Z.div_unique with (r := 0); lia.
Qed.

Lemma write_long_loop_length : forall fuel n bs k,
  0 <= n < 2 ^ (7 * Z.of_nat (S k)) -> write_long_loop fuel n = Some bs ->
  (length bs <= S k)%nat.
Proof.
  induction fuel as [|fuel IH]; intros n bs k Hn Hw;
    cbn [write_long_loop] in Hw; rewrite land_lnot127 in Hw by lia;
    destruct (Z.ltb_spec n 128) as [Hsmall|Hbig]; try discriminate.
  1,2: injection Hw as <-; cbn; lia.
  destruct (write_long_loop fuel (Z.shiftr n 7)) as [bs'|] eqn:Hw'; [|discriminate].
  cbn in Hw. injection Hw as <-. cbn [length].
  destruct k as [|k].
  { change (2 ^ (7 * Z.of_nat 1)) with 128 in Hn. lia. }
  apply le_n_S. apply (IH (Z.shiftr n 7) bs' k); [|assumption].
  rewrite Z.shiftr_div_pow2 by lia. change (2 ^ 7) with 128.
  split; [apply Z.div_pos; lia|].
  apply Z.div_lt_upper_bound; [lia|].
  replace (7 * Z.of_nat (S (S k))) with (7 + 7 * Z.of_nat (S k)) in Hn by lia.
  rewrite Z.pow_add_r in Hn by lia. change (2 ^ 7) with 128 in Hn. lia.
Qed.

Lemma size_long_int32 i : INT32_MIN <= i <= INT32_MAX -> 1 <= size_long i <= 5.
Proof.
  intros Hi. destruct (zigzag64_int32 i Hi) as [Hz _].
  destruct (write_long_bytes_spec i) as [Hw Hlen].
  rewrite size_long_write_long_bytes. unfold zlength.
  pose proof (write_long_loop_length 9 (zigzag64 i) (write_long_bytes i) 4) as H5.
  change (2 ^ (7 * Z.of_nat 5)) with 34359738368 in H5.
  change (2 ^ 32) with 4294967296 in Hz.
  specialize (H5 ltac:(lia) Hw). lia.
Qed.

(** [read_int] gives back every 32-bit value [write_int] has written. *)
Lemma read_int_write_int i buf pos max :
  INT32_MIN <= i <= INT32_MAX -> 0 <= pos -> max <= zlength buf ->
  pos + size_long i <= max ->
  exists buf',
    write_int buf pos max i = Ok buf' (pos + size_long i)
    /\ forall max', pos + size_long i <= max' ->
                    read_int buf' pos max' = Ok i (pos + size_long i).
Proof.
  intros Hi Hpos Hmax Hroom.
  destruct (write_long_bytes_spec i) as [Hw Hlen].
  destruct (zigzag64_int32 i Hi) as [Hz Hdec].
  pose proof (size_long_int32 i Hi) as H5.
  rewrite size_long_write_long_bytes in *.
  exists (store buf pos (write_long_bytes i)). split.
  - unfold write_int, write_long.
    destruct (Z.gtb_spec (pos + zlength (write_long_bytes i)) max); [lia|].
    reflexivity.
  - intros max' Hmax'. unfold read_int.
    rewrite (write_read_int_loop 9 (zigzag64 i) (write_long_bytes i)); try lia; try assumption.
    + rewrite Z.mul_1_r, Z.add_0_l.
      destruct (unzigzag32_decode (zigzag64 i) Hz) as [-> _]. rewrite Hdec.
      f_equal. lia.
    + unfold zlength in *. destruct (Z.ltb_spec (max' - pos) 5); lia.
    + intros j Hj. rewrite Z.add_0_r.
      apply byte_at_store; [unfold zlength in *; lia|assumption].
Qed.

(** What the loop of [read_int] returns, from any offset [k]: success at
    the first byte with the continuation bit clear, an error when every
    byte it may look at has the bit set. *)
Lemma read_int_loop_spec : forall rem buf pos k,
  (k + rem <= 5)%nat ->
  match read_int_loop buf pos rem (Z.of_nat k) (wrap32u (varint_payload buf pos k)) with
  | Ok r pos' =>
      exists n, (k < n <= k + rem)%nat
        /\ (forall i, (k <= i < n - 1)%nat ->
              Z.land (byte_at buf (pos + Z.of_nat i)) 128 <> 0)
        /\ Z.land (byte_at buf (pos + Z.of_nat (n - 1))) 128 = 0
        /\ pos' = pos + Z.of_nat n
        /\ r = unzigzag32 (wrap32u (varint_payload buf pos n))
  | Err e =>
      (forall i, (k <= i < k + rem)%nat ->
         Z.land (byte_at buf (pos + Z.of_nat i)) 128 <> 0)
      /\ e = (if (k + rem =? 5)%nat then ERR_OVERFLOW else ERR_EOF)
  | Undef => False
  end.
Proof.
  induction rem as [|rem IH]; intros buf pos k Hk; cbn [read_int_loop].
  - split; [intros i Hi; lia|].
    rewrite Nat.add_0_r.
    destruct (Nat.eqb_spec k 5) as [->|Hne]; [reflexivity|].
    destruct (Z.eqb_spec (Z.of_nat k) 5); [lia|reflexivity].
  - rewrite read_int_step by lia.
    destruct (Z.eqb_spec (Z.land (byte_at buf (pos + Z.of_nat k)) 128) 0) as [Hz|Hnz].
    + exists (S k). replace (S k - 1)%nat with k by lia.
      repeat split; try lia; try assumption.
    + replace (Z.of_nat k + 1) with (Z.of_nat (S k)) by lia.
      specialize (IH buf pos (S k) ltac:(lia)).
      destruct (read_int_loop buf pos rem (Z.of_nat (S k))
                  (wrap32u (varint_payload buf pos (S k)))) as [r pos'|e|].
      * destruct IH as (n & Hn & Hc & Hlast & Hp & Hr).
        exists n. repeat split; try lia; try assumption.
        intros i Hi. destruct (Nat.eq_dec i k) as [->|Hik]; [assumption|].
        apply Hc. lia.
      * destruct IH as [Hc He]. split.
        -- intros i Hi. destruct (Nat.eq_dec i k) as [->|Hik]; [assumption|].
           apply Hc. lia.
        -- rewrite He. replace (S k + rem)%nat with (k + S rem)%nat by lia.
           reflexivity.
      * exact IH.
Qed.

(** C10.  [read_int] succeeds exactly when one of the first five bytes of
    the window has the continuation bit clear.  It then consumes the bytes
    up to the first such byte, at most five, and returns the zig-zag
    decoding ([zigzag_decode], the definition of the format) of their
    seven-bit groups reduced modulo 2^32, a value of the [int32] range.  In
    particular five bytes of which the fifth has the continuation bit clear
    are accepted whatever payload bits the fifth carries: the bits above the
    32nd are dropped, not reported as [ERR_OVERFLOW].  When every byte it may
    look at has the continuation bit set the result is [ERR_OVERFLOW] for
    five bytes and [ERR_EOF] for a shorter window.  Every 32-bit value
    written by [write_int] takes at most five bytes and is read back. *)
Theorem read_int_truncates (buf : list Z) (pos max : Z) :
  (forall n : nat,
      (1 <= n <= 5)%nat -> pos + Z.of_nat n <= max ->
      (forall i, (i < n - 1)%nat -> Z.land (byte_at buf (pos + Z.of_nat i)) 128 <> 0) ->
      Z.land (byte_at buf (pos + Z.of_nat (n - 1))) 128 = 0 ->
      read_int buf pos max
      = Ok (zigzag_decode (varint_payload buf pos n mod 2 ^ 32)) (pos + Z.of_nat n))
  /\ (forall r pos',
      read_int buf pos max = Ok r pos' ->
      exists n : nat,
        (1 <= n <= 5)%nat /\ pos + Z.of_nat n <= max
        /\ (forall i, (i < n - 1)%nat ->
              Z.land (byte_at buf (pos + Z.of_nat i)) 128 <> 0)
        /\ Z.land (byte_at buf (pos + Z.of_nat (n - 1))) 128 = 0
        /\ pos' = pos + Z.of_nat n
        /\ r = zigzag_decode (varint_payload buf pos n mod 2 ^ 32)
        /\ INT32_MIN <= r <= INT32_MAX)
  /\ (forall e,
      read_int buf pos max = Err e ->
      (forall i : nat, (i < 5)%nat -> Z.of_nat i < max - pos ->
         Z.land (byte_at buf (pos + Z.of_nat i)) 128 <> 0)
      /\ e = (if max - pos <? 5 then ERR_EOF else ERR_OVERFLOW))
  /\ read_int buf pos max <> Undef
  /\ (forall i,
      INT32_MIN <= i <= INT32_MAX -> 0 <= pos -> max <= zlength buf ->
      pos + size_long i <= max ->
      size_long i <= 5
      /\ exists buf',
           write_int buf pos max i = Ok buf' (pos + size_long i)
           /\ forall max', pos + size_long i <= max' ->
                           read_int buf' pos max' = Ok i (pos + size_long i)).
Proof.
  set (rem := Z.to_nat (if max - pos <? 5 then max - pos else 5)).
  assert (Hrem : (0 + rem <= 5)%nat).
  { subst rem. destruct (Z.ltb_spec (max - pos) 5); lia. }
  pose proof (read_int_loop_spec rem buf pos 0 Hrem) as Hspec.
  change (wrap32u (varint_payload buf pos 0)) with 0 in Hspec.
  change (Z.of_nat 0) with 0 in Hspec.
  assert (Hdec : forall n,
             unzigzag32 (wrap32u (varint_payload buf pos n))
             = zigzag_decode (varint_payload buf pos n mod 2 ^ 32)
             /\ INT32_MIN <= zigzag_decode (varint_payload buf pos n mod 2 ^ 32)
                <= INT32_MAX).
  { intros n. apply unzigzag32_decode. apply Z.mod_pos_bound. lia. }
  split; [|split; [|split; [|split]]].
  - intros n Hn Hroom Hc Hlast. unfold read_int. fold rem.
    destruct (Hdec n) as [<- _].
    apply (read_int_loop_accept rem buf pos 0 n); try assumption.
    + subst rem. destruct (Z.ltb_spec (max - pos) 5); lia.
    + intros i Hi. apply Hc. lia.
  - intros r pos' Hrd. unfold read_int in Hrd. fold rem in Hrd.
    rewrite Hrd in Hspec. destruct Hspec as (n & Hn & Hc & Hlast & Hp & Hr).
    exists n. destruct (Hdec n) as [Hd Hrange]. rewrite Hd in Hr.
    repeat split; try lia; try assumption.
    all: try (subst rem; destruct (Z.ltb_spec (max - pos) 5); lia).
    all: try (intros i Hi; apply Hc; lia).
    all: subst r; apply Hrange.
  - intros e Hrd. unfold read_int in Hrd. fold rem in Hrd.
    rewrite Hrd in Hspec. destruct Hspec as [Hc He]. split.
    + intros i Hi Hwin. apply Hc. subst rem.
      destruct (Z.ltb_spec (max - pos) 5); lia.
    + rewrite He. subst rem. cbn [Nat.add].
      destruct (Z.ltb_spec (max - pos) 5).
      * destruct (Nat.eqb_spec (Z.to_nat (max - pos)) 5); [lia|reflexivity].
      * reflexivity.
  - unfold read_int. fold rem. intros Hu. rewrite Hu in Hspec. exact Hspec.
  - intros i Hi Hpos Hmax Hroom. split; [apply size_long_int32; assumption|].
    apply read_int_write_int; assumption.
Qed.

Lemma read_int_truncates_witness :
  varint_payload [255; 255; 255; 255; 127] 0 5 = 2 ^ 35 - 1
  /\ read_int [255; 255; 255; 255; 127] 0 5 = Ok (- 2 ^ 31) 5
  /\ read_int [255; 255; 255; 255; 15] 0 5 = Ok (- 2 ^ 31) 5.
Proof.
  split; [reflexivity|]. split.
  - destruct (read_int_truncates [255; 255; 255; 255; 127] 0 5) as [Hacc _].
    rewrite (Hacc 5%nat); [reflexivity | lia | lia | | reflexivity].
    intros i Hi.
    assert (Hcases : i = 0%nat \/ i = 1%nat \/ i = 2%nat \/ i = 3%nat) by lia.
    repeat (destruct Hcases as [->|Hcases]; [vm_compute; discriminate|]).
    subst i. vm_compute. discriminate.
  - destruct (read_int_truncates [255; 255; 255; 255; 15] 0 5) as [Hacc _].
    rewrite (Hacc 5%nat); [reflexivity | lia | lia | | reflexivity].
    intros i Hi.
    assert (Hcases : i = 0%nat \/ i = 1%nat \/ i = 2%nat \/ i = 3%nat) by lia.
    repeat (destruct Hcases as [->|Hcases]; [vm_compute; discriminate|]).
    subst i. vm_compute. discriminate.
Defined.

(** ** Dates *)


Import DT Calendar.

Lemma not_leap_year_code year :
  0 <= year ->
  negb (Z.rem year 4 =? 0) || ((Z.rem year 100 =? 0) && negb (Z.rem year 400 =? 0))
  = negb (leap_year year).
Proof.
  intros Hy. unfold leap_year.
  rewrite !Z.rem_mod_nonneg by lia.
  destruct (year mod 4 =? 0), (year mod 100 =? 0), (year mod 400 =? 0); reflexivity.
Qed.

(** What [compute_days] decides when the month is one of the twelve: the
    year and the upper bound of the day are tested, the lower bound of the
    day is not. *)
Lemma compute_days_month year month day :
  1 <= month <= 12 ->
  (year < 1000 \/ 2900 < year \/ days_in_month month year < day ->
   compute_days year month day = Days_invalid)
  /\ (1000 <= year <= 2900 -> day <= days_in_month month year ->
      exists day_of_year day_of_week,
        compute_days year month day = Days_ok day_of_year day_of_week).
Proof.
  intros Hm. unfold compute_days, MIN_YEAR, MAX_YEAR.
  destruct (Z.ltb_spec year 1000) as [Hlo|Hlo]; cbn [orb].
  { split; [reflexivity|lia]. }
  destruct (Z.gtb_spec year 2900) as [Hhi|Hhi].
  { split; [reflexivity|lia]. }
  rewrite not_leap_year_code by lia.
  unfold days_in_month.
  assert (Hcases : month = 1 \/ month = 2 \/ month = 3 \/ month = 4 \/ month = 5
                   \/ month = 6 \/ month = 7 \/ month = 8 \/ month = 9
                   \/ month = 10 \/ month = 11 \/ month = 12) by lia.
  destruct (leap_year year);
    repeat (destruct Hcases as [->|Hcases]; [| ]); try subst month;
    table_lookup; cbn [negb andb orb Z.eqb Z.ltb Z.compare Pos.eqb Pos.compare Pos.compare_cont];
    split_tests; cbn [negb andb orb]; split; intros Hv;
    try discriminate; try lia; try reflexivity; eauto.
Qed.

Lemma compute_days_valid year month day :
  1 <= month <= 12 -> 1 <= day ->
  (valid_date year month day = false -> compute_days year month day = Days_invalid)
  /\ (valid_date year month day = true ->
      exists day_of_year day_of_week,
        compute_days year month day = Days_ok day_of_year day_of_week).
Proof.
  intros Hm Hd. destruct (compute_days_month year month day Hm) as [Hbad Hgood].
  unfold valid_date. split; intros Hv.
  - apply Hbad.
    destruct (Z.leb_spec 1000 year); [|lia].
    destruct (Z.leb_spec year 2900); [|lia].
    destruct (Z.leb_spec 1 month); [|lia].
    destruct (Z.leb_spec month 12); [|lia].
    destruct (Z.leb_spec 1 day); [|lia].
    destruct (Z.leb_spec day (days_in_month month year)); [discriminate|lia].
  - repeat (apply andb_prop in Hv; destruct Hv as [Hv ?]).
    repeat match goal with
           | H : (_ <=? _) = true |- _ => apply Z.leb_le in H
           end.
    apply Hgood; lia.
Qed.

(** C4, as stated, fails: [encode_date] and [encode_datetime] test neither
    the month nor the lower bound of the day.  Day 0 of January 2000 is
    packed, and month 13 (or 0) indexes the month tables outside their
    bounds. *)
Lemma encode_date_unvalidated_inputs :
  valid_date 2000 1 0 = false
  /\ encode_date 2000 1 0 = Enc_ok 209846278
  /\ encode_datetime 2000 1 0 0 0 0 0 = Enc_ok 901282875427520704
  /\ valid_date 2000 13 1 = false
  /\ encode_date 2000 13 1 = Enc_undefined
  /\ encode_datetime 2000 0 1 0 0 0 0 = Enc_undefined.
Proof. repeat split; vm_compute; reflexivity. Qed.

(** C4, amended.  A year outside [1000, 2900] is rejected whatever the month
    and day are.  For a month in [1, 12], which dt.h requires of the caller,
    [encode_date] and [encode_datetime] return false and produce no value
    exactly when the year is outside [1000, 2900] or the day exceeds the
    days of the month (29 February only in leap years); otherwise they
    produce a packed value, also for a day below 1, and no table is read out
    of bounds.  For a day of at least 1 the rejected triples are those that
    are no date of the calendar with a year in [1000, 2900]. *)
Theorem encode_date_validates (year month day hour minute second millisecond : Z) :
  (year < 1000 \/ 2900 < year ->
   encode_date year month day = Enc_invalid
   /\ encode_datetime year month day hour minute second millisecond = Enc_invalid)
  /\ (1 <= month <= 12 ->
      (year < 1000 \/ 2900 < year \/ days_in_month month year < day ->
       encode_date year month day = Enc_invalid
       /\ encode_datetime year month day hour minute second millisecond
          = Enc_invalid)
      /\ (1000 <= year <= 2900 -> day <= days_in_month month year ->
          exists date datetime,
            encode_date year month day = Enc_ok date
            /\ encode_datetime year month day hour minute second millisecond
               = Enc_ok datetime)
      /\ (1 <= day ->
          (valid_date year month day = false ->
           encode_date year month day = Enc_invalid
           /\ encode_datetime year month day hour minute second millisecond
              = Enc_invalid)
          /\ (valid_date year month day = true ->
              exists date datetime,
                encode_date year month day = Enc_ok date
                /\ encode_datetime year month day hour minute second millisecond
                   = Enc_ok datetime))).
Proof.
  split.
  - intros Hy. unfold encode_date, encode_datetime, compute_days, MIN_YEAR, MAX_YEAR.
    destruct (Z.ltb_spec year 1000); [split; reflexivity|].
    destruct (Z.gtb_spec year 2900); [split; reflexivity|lia].
  - intros Hm.
    destruct (compute_days_month year month day Hm) as [Hbad Hgood].
    unfold encode_date, encode_datetime. split; [|split].
    + intros Hv. rewrite (Hbad Hv). split; reflexivity.
    + intros Hy Hd. destruct (Hgood Hy Hd) as (doy & dow & ->). eauto.
    + intros Hd.
      destruct (compute_days_valid year month day Hm Hd) as [Hbad' Hgood'].
      split; intros Hv.
      * rewrite (Hbad' Hv). split; reflexivity.
      * destruct (Hgood' Hv) as (doy & dow & ->). eauto.
Qed.

Lemma encode_date_validates_witness :
  (encode_date 2023 2 29 = Enc_invalid
   /\ encode_datetime 2023 2 29 12 30 15 500 = Enc_invalid)
  /\ (encode_date 2024 4 31 = Enc_invalid
      /\ encode_datetime 2024 4 31 12 30 15 500 = Enc_invalid)
  /\ (exists date datetime,
         encode_date 2024 2 29 = Enc_ok date
         /\ encode_datetime 2024 2 29 12 30 15 500 = Enc_ok datetime)
  /\ (exists date datetime,
         encode_date 2024 2 (-3) = Enc_ok date
         /\ encode_datetime 2024 2 (-3) 12 30 15 500 = Enc_ok datetime)
  /\ encode_date 999 0 0 = Enc_invalid.
Proof.
  split; [|split; [|split; [|split]]].
  - destruct (encode_date_validates 2023 2 29 12 30 15 500) as [_ H].
    destruct (H ltac:(lia)) as (_ & _ & Hday).
    apply Hday; [lia | reflexivity].
  - destruct (encode_date_validates 2024 4 31 12 30 15 500) as [_ H].
    destruct (H ltac:(lia)) as (Hbad & _).
    apply Hbad. right. right. vm_compute. reflexivity.
  - destruct (encode_date_validates 2024 2 29 12 30 15 500) as [_ H].
    destruct (H ltac:(lia)) as (_ & _ & Hday).
    apply Hday; [lia | reflexivity].
  - destruct (encode_date_validates 2024 2 (-3) 12 30 15 500) as [_ H].
    destruct (H ltac:(lia)) as (_ & Hgood & _).
    apply Hgood; [lia|]. vm_compute. discriminate.
  - destruct (encode_date_validates 999 0 0 0 0 0 0) as [H _].
    apply H. left. lia.
Defined.

(** ** Records *)


Import Py Rec Inputs.

(** ** Records *)

Lemma length_list_set {A} (l : list A) : forall i a, length (list_set l i a) = length l.
Proof.
  induction l as [|x l IH]; intros i a; destruct i; cbn [list_set length];
    try reflexivity.
  rewrite IH. reflexivity.
Qed.

Lemma nth_list_set_eq {A} (l : list A) : forall i a d,
  (i < length l)%nat -> nth i (list_set l i a) d = a.
Proof.
  induction l as [|x l IH]; intros i a d Hi; [cbn in Hi; lia|].
  destruct i; cbn [list_set nth]; [reflexivity|]. apply IH. cbn in Hi. lia.
Qed.

Lemma nth_list_set_neq {A} (l : list A) : forall i j a d,
  i <> j -> nth j (list_set l i a) d = nth j l d.
Proof.
  induction l as [|x l IH]; intros i j a d Hne; [destruct i; reflexivity|].
  destruct i, j; cbn [list_set nth]; try reflexivity; try lia.
  apply IH. lia.
Qed.

Lemma Record_new_cell (t : RecordType) i :
  value_at (Record_new t) i
  = mkColumnValue (V_word 0)
                  (if (i <? length (column_defs t))%nat
                   then - Z.b2z (is_nullable (nth i (column_defs t) default_def))
                   else 0).
Proof.
  unfold value_at, Record_new. cbn [column_values].
  destruct (Nat.ltb_spec i (length (column_defs t))).
  - change default_value
      with ((fun def => mkColumnValue (V_word 0) (- Z.b2z (is_nullable def)))
              default_def).
    rewrite map_nth. reflexivity.
  - rewrite nth_overflow by (rewrite length_map; assumption). reflexivity.
Qed.

Section Unset.
Context {host : Sch.HostRuntime}.
Hypothesis empty_str : Sch.PyUnicode_FromStringAndSize [] = Some (Sch.Py_Unicode []).
Hypothesis zero_float : Sch.float_to_double 0 = 0.

(** Every accessor is defined on the zeroed cell of a column that is not
    nullable, and returns the zero or empty value of its kind. *)
Lemma get_column_zero_result dt :
  match Get.get_column dt (mkColumnValue (V_word 0) 0) with
  | Get.Got result _ => result = zero_value dt
  | _ => False
  end.
Proof.
  destruct dt; cbn [Get.get_column zero_value];
    unfold Get.get_bytes_column, Get.get_char_column_small, Get.get_string_column,
      Get.get_date_column, Get.get_datetime_column, Get.get_double_column,
      Get.get_float_column, Get.get_int_column, Get.get_long_column,
      Get.get_time_column, Get.get_timestamp_column;
    cbn [value len];
    try change (Get.data_bytes (mkColumnValue (V_word 0) 0)) with (Some (@nil Z));
    try change (firstn (Z.to_nat 0) (value_bytes (V_word 0))) with (@nil Z);
    try change (le_combine (firstn 4 (value_bytes (V_word 0)))) with 0;
    try change (le_combine (value_bytes (V_word 0))) with 0;
    cbn iota beta; rewrite ?empty_str, ?zero_float;
    vm_compute; reflexivity.
Qed.

Lemma get_column_zero dt :
  exists column_value,
    Get.get_column dt (mkColumnValue (V_word 0) 0)
    = Get.Got (zero_value dt) column_value.
Proof.
  pose proof (get_column_zero_result dt) as H.
  destruct (Get.get_column dt (mkColumnValue (V_word 0) 0)) as [r cv| |];
    try contradiction.
  subst r. exists cv. reflexivity.
Qed.

Lemma untouched_new t : untouched t (Get.Record_new t).
Proof.
  unfold untouched, Get.Record_new. cbn [Get.raw Get.values].
  split; [reflexivity|]. split; [cbn; apply length_map|].
  split; [apply repeat_length|].
  intros i Hi. left. split; [|reflexivity].
  apply nth_repeat.
Qed.

Lemma untouched_item t self index :
  untouched t self ->
  0 <= index < Z.of_nat (length (column_defs t)) ->
  exists self',
    Get.Record_item self index
    = Get.Value (unset_value (nth (Z.to_nat index) (column_defs t) default_def)) self'
    /\ untouched t self'.
Proof.
  intros (Ht & Hcells & Hvals & Hall) Hindex.
  unfold Get.Record_item, column_count. rewrite Hcells.
  destruct (Z.geb_spec index 0); [|lia].
  destruct (Z.ltb_spec index (Z.of_nat (length (column_defs t)))); [|lia].
  cbn [andb negb].
  set (i := Z.to_nat index).
  assert (Hi : (i < length (column_defs t))%nat) by (subst i; lia).
  unfold Get._Record_get_value.
  destruct (Hall i Hi) as [[Hnone Hcell]|Hsome].
  - rewrite Hnone, Hcell, Record_new_cell.
    destruct (Nat.ltb_spec i (length (column_defs t))); [|lia].
    unfold def_at. rewrite Ht. unfold unset_value.
    set (column_def := nth i (column_defs t) default_def).
    assert (Hinv : forall result column_value,
               result = (if is_nullable column_def then Get.Obj Sch.Py_None
                         else zero_value (Rec.data_type column_def)) ->
               untouched t
                 (Get.mkRecordObject
                    (set_value_at (Get.raw self) i column_value)
                    (list_set (Get.values self) i (Some result)))).
    { intros result column_value Hres.
      unfold untouched, set_value_at. cbn [Get.raw Get.values type column_values].
      split; [exact Ht|]. rewrite !length_list_set.
      split; [exact Hcells|]. split; [exact Hvals|].
      intros j Hj. destruct (Nat.eq_dec j i) as [->|Hne].
      - right. rewrite nth_list_set_eq by lia. unfold unset_value.
        fold column_def. rewrite Hres. reflexivity.
      - rewrite nth_list_set_neq by lia.
        destruct (Hall j Hj) as [[Hn Hc]|Hs]; [left|right; exact Hs].
        split; [exact Hn|].
        unfold value_at in *. cbn [column_values].
        rewrite nth_list_set_neq by lia. exact Hc. }
    destruct (is_nullable column_def) eqn:Hnull; cbn [Z.b2z Z.opp len Z.ltb Z.compare].
    + eexists. split; [reflexivity|]. apply Hinv. reflexivity.
    + destruct (get_column_zero (Rec.data_type column_def)) as (cv & ->).
      eexists. split; [reflexivity|]. apply Hinv. reflexivity.
  - rewrite Hsome. exists self. split; [reflexivity|].
    repeat split; assumption.
Qed.

Lemma read_only_untouched t self : read_only t self -> untouched t self.
Proof.
  induction 1 as [|self index result self' Hro IH Hitem].
  - apply untouched_new.
  - destruct IH as (Ht & Hcells & Hvals & Hall).
    destruct (Z_lt_ge_dec index 0) as [Hneg|Hpos].
    { unfold Get.Record_item in Hitem.
      destruct (Z.geb_spec index 0); [lia|]. discriminate. }
    destruct (Z_lt_ge_dec index (Z.of_nat (length (column_defs t)))) as [Hin|Hout].
    + destruct (untouched_item t self index) as (self2 & Heq & Hinv).
      { repeat split; assumption. }
      { lia. }
      rewrite Heq in Hitem. injection Hitem as _ <-. exact Hinv.
    + unfold Get.Record_item, column_count in Hitem. rewrite Hcells in Hitem.
      destruct (Z.ltb_spec index (Z.of_nat (length (column_defs t)))); [lia|].
      rewrite andb_false_r in Hitem. discriminate.
Qed.

End Unset.

(** C9.  In a record fresh from [Record_new] there is one cell per column of
    the record type; the cell of a nullable column is null ([len = -1]), the
    cell of any other column has [len = 0], and every payload is the zeroed
    union.  Reading a column of such a record through [Record_item] is
    defined and raises nothing: a nullable column reads as [None], any other
    as the zero or empty value of its kind, and this stays so after any
    number of reads of any columns; an index outside the record raises
    [IndexError].  The host is asked for two things only: the empty string
    for no bytes, and the double 0.0 for the float 0.0. *)
Theorem Record_new_cells {host : Sch.HostRuntime} (t : RecordType) :
  Sch.PyUnicode_FromStringAndSize [] = Some (Sch.Py_Unicode []) ->
  Sch.float_to_double 0 = 0 ->
  column_count (Record_new t) = length (column_defs t)
  /\ type (Record_new t) = t
  /\ (forall i, (i < length (column_defs t))%nat ->
        let column_def := nth i (column_defs t) default_def in
        let cell := value_at (Record_new t) i in
        value cell = V_word 0
        /\ (is_nullable column_def = true -> len cell = -1)
        /\ (is_nullable column_def = false -> len cell = 0))
  /\ (forall self index,
        read_only t self ->
        (0 <= index < Z.of_nat (length (column_defs t)) ->
         exists self',
           Get.Record_item self index
           = Get.Value
               (unset_value (nth (Z.to_nat index) (column_defs t) default_def))
               self')
        /\ (index < 0 \/ Z.of_nat (length (column_defs t)) <= index ->
            Get.Record_item self index
            = Get.Raised (PyExc_IndexError, "column index out of range"%string)
                         self)).
Proof.
  intros empty_str zero_float.
  split; [|split; [|split]].
  - unfold column_count, Record_new. cbn. apply length_map.
  - reflexivity.
  - intros i Hi. cbv zeta. rewrite Record_new_cell.
    destruct (Nat.ltb_spec i (length (column_defs t))); [|lia].
    cbn [value len]. repeat split; intros ->; reflexivity.
  - intros self index Hro.
    pose proof (read_only_untouched empty_str zero_float t self Hro) as Hinv.
    split.
    + intros Hindex.
      destruct (untouched_item empty_str zero_float t self index Hinv Hindex)
        as (self' & Heq & _).
      exists self'. exact Heq.
    + intros Hout. destruct Hinv as (Ht & Hcells & Hvals & Hall).
      unfold Get.Record_item, column_count. rewrite Hcells.
      destruct Hout as [Hneg|Hbig].
      * destruct (Z.geb_spec index 0); [lia|]. reflexivity.
      * destruct (Z.ltb_spec index (Z.of_nat (length (column_defs t)))); [lia|].
        rewrite andb_false_r. reflexivity.
Qed.

Lemma Record_new_cells_witness :
  let t := mkRecordType 7 [mkColumnDef CDT_STRING true; mkColumnDef CDT_DATE false;
                           mkColumnDef CDT_TIMESTAMP false] in
  len (value_at (Record_new t) 0) = -1
  /\ len (value_at (Record_new t) 1) = 0
  /\ value (value_at (Record_new t) 1) = V_word 0
  /\ (exists self',
         Get.Record_item (host := Host.reference_host) (Get.Record_new t) 1
         = Get.Value (Get.Date_object 1000 1 1) self')
  /\ Get.Record_item (host := Host.reference_host) (Get.Record_new t) 3
     = Get.Raised (PyExc_IndexError, "column index out of range"%string)
                  (Get.Record_new t).
Proof.
  intros t.
  destruct (Record_new_cells (host := Host.reference_host) t eq_refl eq_refl)
    as (_ & _ & H & Hread).
  pose proof (H 0%nat ltac:(cbn; lia)) as (_ & H0 & _).
  pose proof (H 1%nat ltac:(cbn; lia)) as (H1v & _ & H1).
  split; [apply H0; reflexivity|]. split; [apply H1; reflexivity|].
  split; [exact H1v|]. split.
  - destruct (Hread (Get.Record_new t) 1 (read_only_new t)) as [Hin _].
    destruct (Hin ltac:(cbn; lia)) as (self' & Heq).
    exists self'. exact Heq.
  - destruct (Hread (Get.Record_new t) 3 (read_only_new t)) as [_ Hout].
    apply Hout. right. cbn. lia.
Defined.


Lemma size_columns_shift : forall defs vals size a,
  size_columns defs vals (size + a) = size_columns defs vals size + a.
Proof.
  induction defs as [|d defs IH]; intros vals size a; destruct vals as [|v vals];
    cbn [size_columns]; try reflexivity.
  destruct (is_nullable d); [destruct (len v <? 0)|];
    rewrite <- IH; f_equal; lia.
Qed.

(** The first counting loop of [write_digits] moves zeroes to digits. *)
Lemma write_digits_count1_sum : forall fuel zeroes digits temp,
  let '(zeroes', digits', _) := write_digits_count1 fuel zeroes digits temp in
  zeroes' + digits' = zeroes + digits /\ (0 <= zeroes -> 0 <= zeroes').
Proof.
  induction fuel as [|fuel IH]; intros zeroes digits temp; cbn [write_digits_count1].
  - split; lia.
  - destruct (Z.gtb_spec zeroes 0); cbn [andb]; [|split; lia].
    destruct (negb (temp =? 0)); [|split; lia].
    specialize (IH (zeroes - 1) (digits + 1) (Z.quot temp 10)).
    destruct (write_digits_count1 fuel (zeroes - 1) (digits + 1) (Z.quot temp 10))
      as [[z d] t].
    destruct IH as [Hsum Hnn]. split; lia.
Qed.

Lemma write_digits_count2_le : forall fuel digits temp,
  digits <= write_digits_count2 fuel digits temp.
Proof.
  induction fuel as [|fuel IH]; intros digits temp; cbn [write_digits_count2]; [lia|].
  destruct (negb (temp =? 0)); [|lia].
  specialize (IH (digits + 1) (Z.quot temp 10)). lia.
Qed.

(** A successful [write_digits] writes at least [min_digits] characters and
    stops short of [max]. *)
Lemma write_digits_advance buf pos max min_digits i buf' pos' :
  write_digits buf pos max min_digits i = Ok buf' pos' ->
  pos + min_digits <= pos' < max.
Proof.
  unfold write_digits.
  pose proof (write_digits_count1_sum 11 min_digits 0 i) as Hsum.
  destruct (write_digits_count1 11 min_digits 0 i) as [[zeroes digits] temp].
  pose proof (write_digits_count2_le 11 digits temp) as Hle.
  set (n := write_digits_count2 11 digits temp + zeroes) in *.
  destruct (Z.geb_spec (pos + n) max); [discriminate|].
  destruct (write_digits_store _ _ _ _). intros Hw. injection Hw as _ <-. lia.
Qed.

Lemma write_long_advance buf pos max l buf' pos' :
  write_long buf pos max l = Ok buf' pos' -> pos' = pos + size_long l /\ pos' <= max.
Proof.
  unfold write_long. rewrite size_long_write_long_bytes.
  destruct (Z.gtb_spec (pos + zlength (write_long_bytes l)) max); [discriminate|].
  intros Hw. injection Hw as _ <-. lia.
Qed.

Lemma write_char_advance buf pos max c buf' pos' :
  write_char buf pos max c = Ok buf' pos' -> pos' = pos + 1.
Proof.
  unfold write_char. destruct (pos >=? max); [discriminate|].
  intros H. injection H as _ <-. reflexivity.
Qed.

Lemma write_bytes_advance buf pos max b len buf' pos' :
  write_bytes buf pos max b len = Ok buf' pos' -> pos' = pos + (size_long len + len).
Proof.
  unfold write_bytes, write_size. intros H. split_binds H.
  apply write_long_advance in Hstep. destruct (_ >? _); [discriminate|].
  injection H as _ <-. lia.
Qed.

(** Every column writer advances the cursor by at least the size its
    sizing function reports. *)
Lemma write_column_advance dt cv buf pos max buf' pos' :
  write_column dt buf pos max cv = Ok buf' pos' ->
  pos + size_column dt cv <= pos'.
Proof.
  intros H.
  destruct dt; cbn [write_column size_column] in H |- *;
    unfold write_bytes_column, write_char_column_small, size_bytes_column,
      write_int_column, write_long_column, write_int, size_int_column,
      size_long_column, write_double_column, write_float_column, write_double,
      write_float, size_double_column, size_float_column, size_date_column,
      size_datetime_column, size_time_column, write_date_column,
      write_datetime_column, write_time_column, write_timestamp_column,
      size_timestamp_column in *;
    try (apply write_bytes_advance in H; lia);
    try (apply write_long_advance in H; lia);
    try (destruct (_ >? _); [discriminate|]; injection H as _ <-; lia).
  - (* date *)
    split_binds H.
    advance_steps write_long_advance write_char_advance write_digits_advance.
    change (size_long 10) with 1 in *. lia.
  - (* datetime *)
    split_binds H.
    advance_steps write_long_advance write_char_advance write_digits_advance.
    change (size_long 23) with 1 in *. lia.
  - (* time *)
    split_binds H.
    advance_steps write_long_advance write_char_advance write_digits_advance.
    change (size_long 12) with 1 in *. lia.
  - (* timestamp *)
    destruct (Z.eqb_spec (value_l (value cv)) 0) as [Hz|Hnz].
    + rewrite Hz. apply write_long_advance in H.
      change (size_long (DT.datetime_to_epoch_ms 0))
        with (size_long (DT.datetime_to_epoch_ms DT.DT_DEFAULT)). lia.
    + apply write_long_advance in H. lia.
Qed.

(** A textual column writer stops short of [max]. *)
Lemma write_textual_column_short dt cv buf pos max buf' pos' :
  textual_kind dt = true ->
  write_column dt buf pos max cv = Ok buf' pos' -> pos' < max.
Proof.
  intros Hk H.
  destruct dt; try discriminate; cbn [write_column] in H;
    unfold write_date_column, write_datetime_column, write_time_column in H;
    split_binds H; apply write_digits_advance in H; lia.
Qed.

Lemma write_columns_advance : forall defs vals buf pos max buf' pos',
  write_columns defs vals buf pos max = Ok buf' pos' ->
  pos + size_columns defs vals 0 <= pos'.
Proof.
  induction defs as [|d defs IH]; intros vals buf pos max buf' pos' H;
    destruct vals as [|v vals]; cbn [write_columns size_columns] in *;
    try (injection H as _ <-; lia).
  destruct (is_nullable d); [destruct (len v <? 0)|];
    split_binds H;
    advance_steps write_long_advance write_char_advance write_digits_advance;
    repeat match goal with
           | Hc : write_column _ _ _ _ _ = Ok _ _ |- _ =>
               apply write_column_advance in Hc
           end;
    apply IH in H; rewrite !size_columns_shift;
    change (size_long 1) with 1 in *; change (size_long 0) with 1 in *; lia.
Qed.

Lemma write_columns_textual_last : forall defs vals d v buf pos max buf' pos',
  length defs = length vals ->
  textual_kind (Rec.data_type d) = true ->
  (is_nullable d = true -> 0 <= len v) ->
  write_columns (defs ++ [d]) (vals ++ [v]) buf pos max = Ok buf' pos' ->
  pos' < max.
Proof.
  induction defs as [|d0 defs IH]; intros vals d v buf pos max buf' pos' Hlen Hk Hnn H;
    destruct vals as [|v0 vals]; try discriminate Hlen.
  - cbn [app write_columns] in H.
    destruct (is_nullable d).
    + destruct (Z.ltb_spec (len v) 0); [specialize (Hnn eq_refl); lia|].
      split_binds H. injection H as _ <-.
      eapply write_textual_column_short; eassumption.
    + split_binds H. injection H as _ <-.
      eapply write_textual_column_short; eassumption.
  - cbn [app write_columns] in H. injection Hlen as Hlen.
    destruct (is_nullable d0); [destruct (len v0 <? 0)|];
      split_binds H; eapply IH; eassumption.
Qed.

Lemma ok_or_eof_bind {A B} (r : result A) (k : A -> Z -> result B) :
  ok_or_eof r -> (forall a p, ok_or_eof (k a p)) -> ok_or_eof (bind r k).
Proof. destruct r; cbn; auto. Qed.

Lemma ok_or_eof_write_long buf pos max l : ok_or_eof (write_long buf pos max l).
Proof. unfold write_long. destruct (_ >? _); cbn; auto. Qed.

Lemma ok_or_eof_write_char buf pos max c : ok_or_eof (write_char buf pos max c).
Proof. unfold write_char. destruct (_ >=? _); cbn; auto. Qed.

Lemma ok_or_eof_write_digits buf pos max m i : ok_or_eof (write_digits buf pos max m i).
Proof.
  unfold write_digits. destruct (write_digits_count1 11 m 0 i) as [[z d] t].
  destruct (_ >=? _); [reflexivity|].
  match goal with
  | |- context [write_digits_store ?f ?b ?p ?t] =>
      destruct (write_digits_store f b p t)
  end.
  exact I.
Qed.

Lemma ok_or_eof_write_bytes buf pos max b len : ok_or_eof (write_bytes buf pos max b len).
Proof.
  unfold write_bytes, write_size. apply ok_or_eof_bind; [apply ok_or_eof_write_long|].
  intros a p. destruct (_ >? _); cbn; auto.
Qed.

Create HintDb writers.

#[local] Hint Resolve ok_or_eof_write_long ok_or_eof_write_char
  ok_or_eof_write_digits ok_or_eof_write_bytes : writers.

Lemma ok_or_eof_write_column dt buf pos max cv :
  ok_or_eof (write_column dt buf pos max cv).
Proof.
  destruct dt; cbn [write_column];
    unfold write_bytes_column, write_char_column_small, write_int_column,
      write_long_column, write_int, write_double_column, write_float_column,
      write_double, write_float, write_date_column, write_datetime_column,
      write_time_column, write_timestamp_column, write_size;
    repeat (apply ok_or_eof_bind; [auto with writers|intros ? ?]);
    auto with writers;
    destruct (_ >? _); cbn; auto.
Qed.

Lemma ok_or_eof_write_columns : forall defs vals buf pos max,
  ok_or_eof (write_columns defs vals buf pos max).
Proof.
  induction defs as [|d defs IH]; intros vals buf pos max; destruct vals as [|v vals];
    cbn [write_columns]; try exact I.
  destruct (is_nullable d); [destruct (len v <? 0)|];
    repeat (apply ok_or_eof_bind;
            [first [apply ok_or_eof_write_long | apply ok_or_eof_write_column]
            |intros ? ?]);
    apply IH.
Qed.

(** [Record.encode] fails on every record whose last column holds a date, a
    datetime or a time: the digits of the last field would end at [max]. *)
Lemma Record_encode_textual_last record defs vals d v :
  size record = 0 ->
  column_defs (type record) = defs ++ [d] ->
  column_values record = vals ++ [v] ->
  length defs = length vals ->
  textual_kind (Rec.data_type d) = true ->
  (is_nullable d = true -> 0 <= len v) ->
  Record_encode record = Encode_raised eof_on_write.
Proof.
  intros Hsize Hdefs Hvals Hlen Hk Hnn.
  unfold Record_encode, size_record. rewrite Hsize. cbn [Z.eqb negb].
  unfold write_record. cbn [type column_values]. rewrite Hdefs, Hvals.
  set (n := size_columns (defs ++ [d]) (vals ++ [v]) 0).
  pose proof (ok_or_eof_write_columns (defs ++ [d]) (vals ++ [v])
                (repeat 0 (Z.to_nat n)) 0 (0 + n)) as Hres.
  destruct (write_columns (defs ++ [d]) (vals ++ [v]) (repeat 0 (Z.to_nat n)) 0 (0 + n))
    as [buf' pos'|e|] eqn:Hw.
  - pose proof (write_columns_advance _ _ _ _ _ _ _ Hw).
    pose proof (write_columns_textual_last _ _ _ _ _ _ _ _ _ Hlen Hk Hnn Hw).
    subst n. lia.
  - cbn in Hres. subst e. reflexivity.
  - destruct Hres.
Qed.

(** [write_digits] never writes the last byte of its window: after a
    successful call the cursor is strictly before [max]. *)
Lemma write_digits_leaves_a_byte buf pos max min_digits i buf' pos' :
  write_digits buf pos max min_digits i = Ok buf' pos' -> pos' < max.
Proof.
  unfold write_digits.
  destruct (write_digits_count1 11 min_digits 0 i) as [[zeroes digits] temp].
  set (n := write_digits_count2 11 digits temp + zeroes).
  destruct (Z.geb_spec (pos + n) max); [discriminate|].
  destruct (write_digits_store _ _ _ _). intros Hw. injection Hw as _ <-. lia.
Qed.

(** An [int] is zero after ten divisions by ten: the counting loops of
    [write_digits] leave through their test, not through the fuel. *)
Lemma quot10_fuel i :
  INT32_MIN <= i <= INT32_MAX ->
  Z.quot (Z.quot (Z.quot (Z.quot (Z.quot (Z.quot (Z.quot (Z.quot (Z.quot
    (Z.quot i 10) 10) 10) 10) 10) 10) 10) 10) 10) 10 = 0.
Proof.
  unfold INT32_MIN, INT32_MAX. intros Hi.
  rewrite !Z.quot_quot by lia. apply Z.quot_small_iff; lia.
Qed.

(** C1, at the failing input.  [Record.encode] of a record whose last column
    holds a date, a datetime or a time allocates [size_record] bytes and
    then raises [EOFError]: the last [write_digits] call finds its digits
    ending exactly at [max] and reports [ERR_EOF].  With one spare byte
    the same record is written in [size_record] bytes and decodes to
    itself. *)
Theorem Record_encode_date_short :
  encode_date 2024 2 29 = Enc_ok 260428261
  /\ fst (size_record (leap_day false)) = 11
  /\ Record_encode (leap_day false) = Encode_raised eof_on_write
  /\ Record_encode (leap_day true) = Encode_raised eof_on_write
  /\ Record_encode
       (mkRecord datetime_type 0 [mkColumnValue (V_word 1118535637736635552) 0])
     = Encode_raised eof_on_write
  /\ Record_encode (mkRecord time_type 0 [mkColumnValue (V_word 603979776) 0])
     = Encode_raised eof_on_write
  /\ Record_encode
       (mkRecord int_date_type 0
                 [mkColumnValue (V_word 42) 0; mkColumnValue (V_word 260428261) 0])
     = Encode_raised eof_on_write
  /\ write_record (repeat 0 12) 0 12 (leap_day false)
     = Ok [20; 50; 48; 50; 52; 45; 48; 50; 45; 50; 57; 0] 11
  /\ Record_decode (Record_new (date_type false))
                   [20; 50; 48; 50; 52; 45; 48; 50; 45; 50; 57] None
     = Decoded (leap_day false).
Proof. repeat split; vm_compute; reflexivity. Qed.

(** The clean-up loop of [read_record] never touches column 0. *)
Lemma read_record_cleanup_first : forall i record,
  value_at (read_record_cleanup i record) 0 = value_at record 0.
Proof.
  induction i as [|i IH]; intros record; cbn [read_record_cleanup]; [reflexivity|].
  rewrite IH. unfold value_at.
  destruct (data_type (def_at record (S i))); cbn;
    destruct (column_values record); reflexivity.
Qed.

(** C2, at the failing input.  When [read_record] fails on column 1 (or 2),
    the cell of column 0, decoded before, keeps its value: the clean-up loop
    runs from the failing index down to 1.  The cells from index 1 on are
    cleared. *)
Theorem read_record_keeps_first_cell :
  Record_decode (Record_new two_ints) [2] None
  = Decode_raised eof_on_read
      (mkRecord two_ints 0 [mkColumnValue (V_word 1) 0; mkColumnValue (V_word 0) 0])
  /\ Record_decode (Record_new nullable_ints) [0; 2; 0; 4] None
     = Decode_raised eof_on_read
         (mkRecord nullable_ints 0
                   [mkColumnValue (V_word 1) 0;
                    mkColumnValue (V_word 0) (-1);
                    mkColumnValue (V_word 0) (-1)])
  /\ value_at (Record_new nullable_ints) 0 = mkColumnValue (V_word 0) (-1).
Proof. repeat split; vm_compute; reflexivity. Qed.

(** C5, at the failing input.  The loop of [read_digits] tests
    [temp_digits <= max_digits] and so reads up to [max_digits + 1] digits:
    with [max_digits = 3] it consumes four digits of "12345".  The time
    column reader then accepts "09:00:00.1234", and the unscaled 1234
    overflows the ten millisecond bits: the cell holds 09:00:01.210. *)
Theorem read_digits_reads_extra_digit :
  read_digits [49; 50; 51; 52; 53] 0 5 1 3 0 999999 = Ok (1234, 4) 4
  /\ Record_decode (Record_new time_type)
       [26; 48; 57; 58; 48; 48; 58; 48; 48; 46; 49; 50; 51; 52] None
     = Decoded (mkRecord time_type 0
                         [mkColumnValue (V_word (encode_time 9 0 0 1234)) 0])
  /\ encode_time 9 0 0 1234 = encode_time 9 0 1 210
  /\ TIME_SEC (encode_time 9 0 0 1234) = 1
  /\ TIME_MSEC (encode_time 9 0 0 1234) = 210.
Proof. repeat split; vm_compute; reflexivity. Qed.

(** What holds of [read_digits] in general: it reads at most
    [max_digits + 1] digits, stays inside the window, and reports fewer
    than [min_digits] digits as [ERR_EOF] at the end of the window and as
    [ERR_OVERFLOW] elsewhere. *)
Lemma read_digits_loop_bound : forall rem buf max_digits pos temp_i temp_digits,
  0 <= temp_digits ->
  let '(_, digits, pos') :=
    read_digits_loop buf rem max_digits pos temp_i temp_digits in
  pos <= pos' <= pos + Z.of_nat rem
  /\ (temp_digits <= max_digits + 1 -> digits <= max_digits + 1).
Proof.
  induction rem as [|rem IH]; intros buf max_digits pos temp_i temp_digits Hd;
    cbn [read_digits_loop].
  - split; lia.
  - destruct (Z.leb_spec temp_digits max_digits); cbn [andb]; [|split; lia].
    destruct (is_digit (byte_at buf pos)); [|split; lia].
    match goal with
    | |- context [read_digits_loop buf rem max_digits ?p ?i ?d] =>
        specialize (IH buf max_digits p i d);
        destruct (read_digits_loop buf rem max_digits p i d) as [[ti td] p']
    end.
    assert (Hw : 0 <= wrap32u (temp_digits + 1) <= temp_digits + 1).
    { unfold wrap32u. split; [apply Z.mod_pos_bound; lia|].
      apply Z.mod_le; lia. }
    destruct IH as [Hp Hdg]; [lia|]. split; [lia|]. intros _. apply Hdg. lia.
Qed.

(** ** Schemas: decoding *)


Import Sch Host.

Lemma read_long_loop_advance : forall rem buf pos k v l pos',
  read_long_loop buf pos rem k v = Ok l pos' ->
  pos + k < pos' <= pos + k + Z.of_nat rem.
Proof.
  induction rem as [|rem IH]; intros buf pos k v l pos' H; cbn [read_long_loop] in H.
  - discriminate.
  - destruct (Z.land (byte_at buf (pos + k)) 128 =? 0).
    + injection H as _ <-. lia.
    + apply IH in H. lia.
Qed.

Lemma read_long_advance buf pos max l pos' :
  read_long buf pos max = Ok l pos' -> pos < pos' <= max.
Proof.
  unfold read_long. intros H. apply read_long_loop_advance in H.
  destruct (Z.ltb_spec (max - pos) 10); lia.
Qed.

Lemma read_bytes_len_advance buf pos max len pos' :
  read_bytes_len buf pos max = Ok len pos' ->
  pos < pos' /\ 0 <= len /\ pos' + len <= max.
Proof.
  unfold read_bytes_len, read_size, bind. intros H.
  destruct (read_long buf pos max) as [l p| |] eqn:Hl; try discriminate.
  apply read_long_advance in Hl.
  destruct (Z.ltb_spec l 0); [discriminate|].
  destruct (Z.gtb_spec (p + l) max); [discriminate|].
  injection H as <- <-. lia.
Qed.

(** [read_long] looks at no byte outside [pos, pos'). *)
Lemma read_long_loop_local : forall rem buf buf' pos k v l pos',
  read_long_loop buf pos rem k v = Ok l pos' ->
  (forall j, pos + k <= j < pos' -> byte_at buf' j = byte_at buf j) ->
  read_long_loop buf' pos rem k v = Ok l pos'.
Proof.
  induction rem as [|rem IH]; intros buf buf' pos k v l pos' H Hsame;
    cbn [read_long_loop] in *.
  - discriminate.
  - assert (Hk : byte_at buf' (pos + k) = byte_at buf (pos + k)).
    { apply Hsame. destruct (Z.land (byte_at buf (pos + k)) 128 =? 0).
      - injection H as _ <-. lia.
      - apply read_long_loop_advance in H. lia. }
    rewrite Hk.
    destruct (Z.land (byte_at buf (pos + k)) 128 =? 0); [assumption|].
    apply IH with (buf := buf); [assumption|].
    intros j Hj. apply Hsame. lia.
Qed.

Lemma read_bytes_len_local buf buf' pos max len pos' :
  read_bytes_len buf pos max = Ok len pos' ->
  (forall j, pos <= j < pos' -> byte_at buf' j = byte_at buf j) ->
  read_bytes_len buf' pos max = Ok len pos'.
Proof.
  unfold read_bytes_len, read_size, bind, read_long. intros H Hsame.
  destruct (read_long_loop buf pos _ 0 0) as [l p| |] eqn:Hl; try discriminate.
  assert (p = pos').
  { destruct (l <? 0); [discriminate|].
    destruct (p + l >? max); [discriminate|]. injection H as _ <-. reflexivity. }
  subst p.
  rewrite (read_long_loop_local _ buf buf' pos 0 0 l pos' Hl); [assumption|].
  intros j Hj. apply Hsame. lia.
Qed.

Lemma zlength_store buf pos bs :
  0 <= pos -> pos + zlength bs <= zlength buf ->
  zlength (store buf pos bs) = zlength buf.
Proof.
  unfold zlength, store. intros Hp Hfit.
  rewrite !length_app, length_firstn, length_skipn. lia.
Qed.

Lemma byte_at_store_before buf pos bs j :
  0 <= j < pos -> pos <= zlength buf ->
  byte_at (store buf pos bs) j = byte_at buf j.
Proof.
  unfold zlength, byte_at, store. intros Hj Hpos.
  rewrite app_nth1 by (rewrite length_firstn; lia).
  rewrite nth_firstn.
  destruct (Nat.ltb_spec (Z.to_nat j) (Z.to_nat pos)); [reflexivity|lia].
Qed.


Lemma byte_at_store_after buf pos bs j :
  0 <= pos -> pos + zlength bs <= j -> pos + zlength bs <= zlength buf ->
  byte_at (store buf pos bs) j = byte_at buf j.
Proof.
  unfold zlength, byte_at, store. intros Hp Hj Hfit.
  rewrite app_nth2 by (rewrite length_firstn; lia).
  rewrite length_firstn.
  rewrite app_nth2 by lia.
  rewrite nth_skipn. f_equal. lia.
Qed.

Lemma read_int_loop_advance : forall rem buf pos k v i pos',
  read_int_loop buf pos rem k v = Ok i pos' ->
  pos + k < pos' <= pos + k + Z.of_nat rem.
Proof.
  induction rem as [|rem IH]; intros buf pos k v i pos' H; cbn [read_int_loop] in H.
  - discriminate.
  - cbv zeta in H. destruct (Z.land (byte_at buf (pos + k)) 128 =? 0).
    + injection H as _ <-. lia.
    + apply IH in H. lia.
Qed.

Lemma read_int_advance buf pos max i pos' :
  read_int buf pos max = Ok i pos' -> pos < pos' <= max.
Proof.
  unfold read_int. intros H. apply read_int_loop_advance in H.
  destruct (Z.ltb_spec (max - pos) 5); lia.
Qed.

Lemma read_int_loop_local : forall rem buf buf' pos k v i pos',
  read_int_loop buf pos rem k v = Ok i pos' ->
  (forall j, pos + k <= j < pos' -> byte_at buf' j = byte_at buf j) ->
  read_int_loop buf' pos rem k v = Ok i pos'.
Proof.
  induction rem as [|rem IH]; intros buf buf' pos k v i pos' H Hsame;
    cbn [read_int_loop] in *.
  - discriminate.
  - cbv zeta in *.
    assert (Hk : byte_at buf' (pos + k) = byte_at buf (pos + k)).
    { apply Hsame. destruct (Z.land (byte_at buf (pos + k)) 128 =? 0).
      - injection H as _ <-. lia.
      - apply read_int_loop_advance in H. lia. }
    rewrite Hk.
    destruct (Z.land (byte_at buf (pos + k)) 128 =? 0); [assumption|].
    apply IH with (buf := buf); [assumption|].
    intros j Hj. apply Hsame. lia.
Qed.

Lemma read_long_local buf buf' pos max l pos' :
  read_long buf pos max = Ok l pos' ->
  (forall j, pos <= j < pos' -> byte_at buf' j = byte_at buf j) ->
  read_long buf' pos max = Ok l pos'.
Proof.
  unfold read_long. intros H Hsame.
  apply read_long_loop_local with (buf := buf); [assumption|].
  intros j Hj. apply Hsame. lia.
Qed.

Lemma read_int_local buf buf' pos max i pos' :
  read_int buf pos max = Ok i pos' ->
  (forall j, pos <= j < pos' -> byte_at buf' j = byte_at buf j) ->
  read_int buf' pos max = Ok i pos'.
Proof.
  unfold read_int. intros H Hsame.
  apply read_int_loop_local with (buf := buf); [assumption|].
  intros j Hj. apply Hsame. lia.
Qed.

(** Two buffers of the same length with the same bytes in a part have the
    same slice there. *)
Lemma slice_local buf buf' pos len :
  0 <= pos -> 0 <= len -> pos + len <= zlength buf ->
  zlength buf' = zlength buf ->
  (forall j, pos <= j < pos + len -> byte_at buf' j = byte_at buf j) ->
  slice buf' pos len = slice buf pos len.
Proof.
  unfold zlength, slice, byte_at. intros Hp Hl Hfit Hlen Hsame.
  apply nth_ext with (d := 0) (d' := 0).
  - rewrite !length_firstn, !length_skipn. lia.
  - intros n Hn. rewrite length_firstn, length_skipn in Hn.
    rewrite !nth_firstn.
    destruct (Nat.ltb_spec n (Z.to_nat len)); [|reflexivity].
    rewrite !nth_skipn.
    specialize (Hsame (pos + Z.of_nat n) ltac:(lia)).
    replace (Z.to_nat (pos + Z.of_nat n)) with (Z.to_nat pos + n)%nat in Hsame by lia.
    exact Hsame.
Qed.

(** *** Payloads and the parts of a buffer gone through *)

Lemma payload_at_bounds buf max lo hi r :
  payload_at buf max lo hi r ->
  lo < fst r /\ 0 <= snd r /\ fst r + snd r <= hi /\ fst r + snd r <= max.
Proof.
  intros (p & Hp & Hlen & Hend).
  apply read_bytes_len_advance in Hlen. lia.
Qed.

Lemma payload_at_weaken buf max lo lo' hi hi' r :
  lo' <= lo -> hi <= hi' ->
  payload_at buf max lo hi r -> payload_at buf max lo' hi' r.
Proof.
  intros Hlo Hhi (p & Hp & Hlen & Hend). exists p. repeat split; try assumption; lia.
Qed.

Lemma agree_outside_nil lo hi buf buf' :
  agree_outside [] lo hi buf buf' ->
  zlength buf' = zlength buf
  /\ forall j, lo <= j < hi -> byte_at buf' j = byte_at buf j.
Proof.
  intros [Hlen Hsame]. split; [assumption|].
  intros j Hj. apply Hsame; [assumption|]. intros r [].
Qed.

Lemma agree_outside_subset rs rs' lo hi buf buf' :
  (forall r, In r rs' -> In r rs) ->
  agree_outside rs' lo hi buf buf' -> agree_outside rs lo hi buf buf'.
Proof.
  intros Hsub [Hlen Hsame]. split; [assumption|].
  intros j Hj Hout. apply Hsame; [assumption|].
  intros r Hr. apply Hout, Hsub, Hr.
Qed.

Lemma agree_outside_split buf buf' max pos p1 pos' rs1 rs2 :
  pos <= p1 <= pos' ->
  Forall (payload_at buf max pos p1) rs1 ->
  Forall (payload_at buf max p1 pos') rs2 ->
  agree_outside (rs1 ++ rs2) pos pos' buf buf' ->
  agree_outside rs1 pos p1 buf buf' /\ agree_outside rs2 p1 pos' buf buf'.
Proof.
  intros Hp H1 H2 [Hlen Hsame].
  rewrite Forall_forall in H1, H2.
  split; (split; [assumption|]); intros j Hj Hout; (apply Hsame; [lia|]);
    intros r Hr; apply in_app_or in Hr; destruct Hr as [Hr|Hr];
    try (apply Hout; assumption).
  - apply H2 in Hr. apply payload_at_bounds in Hr. unfold inside. lia.
  - apply H1 in Hr. apply payload_at_bounds in Hr. unfold inside. lia.
Qed.

(** Writing other bytes into a payload keeps the rest of the buffer. *)
Lemma agree_outside_store rs lo hi buf start payload :
  0 <= lo -> 0 <= start -> start + zlength payload <= zlength buf ->
  In (start, zlength payload) rs ->
  agree_outside rs lo hi buf (store buf start payload).
Proof.
  intros Hlo Hs Hfit Hin. split.
  - apply zlength_store; assumption.
  - intros j Hj Hout. specialize (Hout _ Hin). unfold inside in Hout. cbn [fst snd] in Hout.
    destruct (Z_lt_le_dec j start).
    + assert (0 <= zlength payload) by (unfold zlength; lia).
      apply byte_at_store_before; lia.
    + apply byte_at_store_after; lia.
Qed.

Lemma goes_past_impl buf max pos pos' rs (R R' : list Z -> Prop) :
  (forall buf', zlength buf' = zlength buf -> R buf' -> R' buf') ->
  goes_past buf max pos pos' rs R -> goes_past buf max pos pos' rs R'.
Proof.
  intros Himpl (Hp & Hall & Hrep). repeat split; try assumption; try lia.
  intros buf' Hag. apply Himpl; [apply Hag|]. apply Hrep, Hag.
Qed.

Lemma goes_past_subset buf max pos pos' rs rs' R :
  (forall r, In r rs' -> In r rs) ->
  goes_past buf max pos pos' rs R -> goes_past buf max pos pos' rs' R.
Proof.
  intros Hsub (Hp & Hall & Hrep). repeat split; try lia.
  - rewrite Forall_forall in *. intros r Hr. apply Hall, Hsub, Hr.
  - intros buf' Hag. apply Hrep.
    apply agree_outside_subset with (rs' := rs'); assumption.
Qed.

Lemma goes_past_here buf max pos (R : list Z -> Prop) :
  pos <= max ->
  (forall buf', zlength buf' = zlength buf -> R buf') ->
  goes_past buf max pos pos [] R.
Proof.
  intros Hp HR. repeat split; try lia; [constructor|].
  intros buf' [Hlen _]. apply HR, Hlen.
Qed.

Lemma goes_past_seq buf max pos p1 pos' rs1 rs2 (R1 R2 R : list Z -> Prop) :
  goes_past buf max pos p1 rs1 R1 ->
  goes_past buf max p1 pos' rs2 R2 ->
  (forall buf', zlength buf' = zlength buf -> R1 buf' -> R2 buf' -> R buf') ->
  goes_past buf max pos pos' (rs1 ++ rs2) R.
Proof.
  intros (Hp1 & Hall1 & Hrep1) (Hp2 & Hall2 & Hrep2) HR. repeat split; try lia.
  - apply Forall_app. split.
    + eapply Forall_impl; [|exact Hall1]. intros r. apply payload_at_weaken; lia.
    + eapply Forall_impl; [|exact Hall2]. intros r. apply payload_at_weaken; lia.
  - intros buf' Hag.
    destruct (agree_outside_split buf buf' max pos p1 pos' rs1 rs2
                ltac:(lia) Hall1 Hall2 Hag) as [Hag1 Hag2].
    apply HR; [apply Hag|apply Hrep1, Hag1|apply Hrep2, Hag2].
Qed.

(** The primitive readers look at the bytes they go over, and at no
    other. *)
Lemma goes_past_long buf pos max l p :
  read_long buf pos max = Ok l p ->
  goes_past buf max pos p [] (fun buf' => read_long buf' pos max = Ok l p).
Proof.
  intros H. pose proof (read_long_advance _ _ _ _ _ H).
  repeat split; try lia; [constructor|].
  intros buf' Hag. apply agree_outside_nil in Hag.
  apply read_long_local with (buf := buf); [assumption|apply Hag].
Qed.

Lemma goes_past_int buf pos max i p :
  read_int buf pos max = Ok i p ->
  goes_past buf max pos p [] (fun buf' => read_int buf' pos max = Ok i p).
Proof.
  intros H. pose proof (read_int_advance _ _ _ _ _ H).
  repeat split; try lia; [constructor|].
  intros buf' Hag. apply agree_outside_nil in Hag.
  apply read_int_local with (buf := buf); [assumption|apply Hag].
Qed.

Lemma goes_past_bytes_len buf pos max len p :
  read_bytes_len buf pos max = Ok len p ->
  goes_past buf max pos p [] (fun buf' => read_bytes_len buf' pos max = Ok len p).
Proof.
  intros H. pose proof (read_bytes_len_advance _ _ _ _ _ H).
  repeat split; try lia; [constructor|].
  intros buf' Hag. apply agree_outside_nil in Hag.
  apply read_bytes_len_local with (buf := buf); [assumption|apply Hag].
Qed.

Lemma goes_past_slice buf max pos len :
  0 <= pos -> 0 <= len -> pos + len <= max -> max <= zlength buf ->
  goes_past buf max pos (pos + len) []
            (fun buf' => slice buf' pos len = slice buf pos len).
Proof.
  intros Hp Hl Hfit Hmax. repeat split; try lia; [constructor|].
  intros buf' Hag. apply agree_outside_nil in Hag. destruct Hag as [Hlen Hsame].
  apply slice_local; try assumption; lia.
Qed.

(** An embedded object: the header is read, the payload is gone past. *)
Lemma goes_past_payload buf pos max len p :
  read_bytes_len buf pos max = Ok len p ->
  goes_past buf max pos (p + len) [(p, len)]
            (fun buf' => read_bytes_len buf' pos max = Ok len p).
Proof.
  intros H. pose proof (read_bytes_len_advance _ _ _ _ _ H) as Hadv.
  repeat split; try lia.
  - constructor; [|constructor]. exists pos. cbn. repeat split; try lia. assumption.
  - intros buf' [Hlen Hsame].
    apply read_bytes_len_local with (buf := buf); [assumption|].
    intros j Hj. apply Hsame; [lia|].
    intros r [<-|[]]. unfold inside. cbn. lia.
Qed.

Section Skipping.
Context {host : HostRuntime}.
Hypothesis Hdict : dict_law.
Hypothesis Hstr : str_law.

Lemma on_read_ok {A} (r : result A) k v p :
  on_read r k = R_ok v p -> exists a q, r = Ok a q /\ k a q = R_ok v p.
Proof.
  unfold on_read. destruct r as [a q|e|]; try discriminate; eauto.
  destruct (handle_read_error e); discriminate.
Qed.

Lemma on_read_fuel {A} (r : result A) k :
  on_read r k = R_fuel -> exists a q, r = Ok a q /\ k a q = R_fuel.
Proof.
  unfold on_read. destruct r as [a q|e|]; try discriminate; eauto.
  destruct (handle_read_error e); discriminate.
Qed.

Lemma bind_read_ok r k v p :
  bind_read r k = R_ok v p -> exists a q, r = R_ok a q /\ k a q = R_ok v p.
Proof.
  unfold bind_read. destruct r as [a q| | |]; try discriminate; eauto.
Qed.

Lemma bind_read_fuel r k :
  bind_read r k = R_fuel ->
  r = R_fuel \/ exists a q, r = R_ok a q /\ k a q = R_fuel.
Proof.
  unfold bind_read. destruct r as [a q| | |]; try discriminate; eauto.
Qed.

(** **** The readers of plain values *)

Lemma read_boolean_skips schema : skips_payloads (read_boolean_schema schema).
Proof.
  intros buf pos max v pos' Hb Hm H. unfold read_boolean_schema in H.
  apply on_read_ok in H. destruct H as (b & p & Hr & H). injection H as <- <-.
  unfold read_boolean in Hr.
  destruct (Z.gtb_spec (pos + 1) max); [discriminate|].
  destruct (negb (byte_at buf pos =? 0) && negb (byte_at buf pos =? 1)) eqn:Hv;
    [discriminate|].
  injection Hr as <- <-. cbn [ranges_of].
  repeat split; try lia; [constructor|].
  intros buf' Hag. apply agree_outside_nil in Hag. destruct Hag as [_ Hsame].
  unfold read_boolean_schema, read_boolean.
  destruct (Z.gtb_spec (pos + 1) max); [lia|].
  rewrite (Hsame pos) by lia. rewrite Hv. reflexivity.
Qed.

Lemma read_bytes_skips schema : skips_payloads (read_bytes_schema schema).
Proof.
  intros buf pos max v pos' Hb Hm H. unfold read_bytes_schema in H.
  apply on_read_ok in H. destruct H as (len & p & Hr & H).
  unfold read_bytes_data in H. injection H as <- <-. cbn [ranges_of].
  pose proof (read_bytes_len_advance _ _ _ _ _ Hr) as Hadv.
  apply (goes_past_seq buf max pos p (p + len) [] [] _ _ _
           (goes_past_bytes_len _ _ _ _ _ Hr)
           (goes_past_slice buf max p len ltac:(lia) ltac:(lia) ltac:(lia) Hm)).
  intros buf' _ H1 H2. unfold read_bytes_schema. rewrite H1. cbn [on_read].
  unfold read_bytes_data. rewrite H2. reflexivity.
Qed.

Lemma read_double_skips schema : skips_payloads (read_double_schema schema).
Proof.
  intros buf pos max v pos' Hb Hm H. unfold read_double_schema in H.
  apply on_read_ok in H. destruct H as (d & p & Hr & H). injection H as <- <-.
  unfold read_double in Hr.
  destruct (Z.gtb_spec (pos + 8) max); [discriminate|].
  injection Hr as <- <-. cbn [ranges_of].
  eapply goes_past_impl;
    [|exact (goes_past_slice buf max pos 8 ltac:(lia) ltac:(lia) ltac:(lia) Hm)].
  intros buf' _ H2. unfold read_double_schema, read_double.
  destruct (Z.gtb_spec (pos + 8) max); [lia|]. rewrite H2. reflexivity.
Qed.

Lemma read_float_skips schema : skips_payloads (read_float_schema schema).
Proof.
  intros buf pos max v pos' Hb Hm H. unfold read_float_schema in H.
  apply on_read_ok in H. destruct H as (d & p & Hr & H). injection H as <- <-.
  unfold read_float in Hr.
  destruct (Z.gtb_spec (pos + 4) max); [discriminate|].
  injection Hr as <- <-. cbn [ranges_of].
  eapply goes_past_impl;
    [|exact (goes_past_slice buf max pos 4 ltac:(lia) ltac:(lia) ltac:(lia) Hm)].
  intros buf' _ H2. unfold read_float_schema, read_float.
  destruct (Z.gtb_spec (pos + 4) max); [lia|]. rewrite H2. reflexivity.
Qed.

Lemma read_int_skips schema : skips_payloads (read_int_schema schema).
Proof.
  intros buf pos max v pos' Hb Hm H. unfold read_int_schema in H.
  apply on_read_ok in H. destruct H as (i & p & Hr & H). injection H as <- <-.
  cbn [ranges_of].
  eapply goes_past_impl; [|exact (goes_past_int _ _ _ _ _ Hr)].
  intros buf' _ H1. unfold read_int_schema. rewrite H1. reflexivity.
Qed.

Lemma read_long_skips schema : skips_payloads (read_long_schema schema).
Proof.
  intros buf pos max v pos' Hb Hm H. unfold read_long_schema in H.
  apply on_read_ok in H. destruct H as (i & p & Hr & H). injection H as <- <-.
  cbn [ranges_of].
  eapply goes_past_impl; [|exact (goes_past_long _ _ _ _ _ Hr)].
  intros buf' _ H1. unfold read_long_schema. rewrite H1. reflexivity.
Qed.

Lemma read_string_skips schema : skips_payloads (read_string_schema schema).
Proof.
  intros buf pos max v pos' Hb Hm H. unfold read_string_schema in H.
  apply on_read_ok in H. destruct H as (len & p & Hr & H).
  unfold read_bytes_data in H.
  destruct (PyUnicode_FromStringAndSize (slice buf p len)) as [s|] eqn:Hs;
    [|discriminate].
  injection H as <- <-.
  destruct (Hstr _ _ Hs) as (utf8 & ->). cbn [ranges_of].
  pose proof (read_bytes_len_advance _ _ _ _ _ Hr) as Hadv.
  apply (goes_past_seq buf max pos p (p + len) [] [] _ _ _
           (goes_past_bytes_len _ _ _ _ _ Hr)
           (goes_past_slice buf max p len ltac:(lia) ltac:(lia) ltac:(lia) Hm)).
  intros buf' _ H1 H2. unfold read_string_schema. rewrite H1. cbn [on_read].
  unfold read_bytes_data. rewrite H2, Hs. reflexivity.
Qed.

Lemma read_object_schema_ok schema buf pos max v pos' :
  read_object_schema schema buf pos max = R_ok v pos' ->
  exists start length,
    v = Py_BufferRange start length
    /\ read_bytes_len buf pos max = Ok length start
    /\ pos' = start + length.
Proof.
  unfold read_object_schema, on_read. intros H.
  destruct (read_bytes_len buf pos max) as [len p|e|] eqn:Hlen.
  - injection H as <- <-. eauto.
  - destruct (handle_read_error e); discriminate.
  - discriminate.
Qed.

Lemma read_object_schema_no_fuel schema buf pos max :
  read_object_schema schema buf pos max <> R_fuel.
Proof.
  unfold read_object_schema, on_read.
  destruct (read_bytes_len buf pos max) as [len p|e|]; try discriminate.
  destruct (handle_read_error e); discriminate.
Qed.

Lemma read_object_skips schema : skips_payloads (read_object_schema schema).
Proof.
  intros buf pos max v pos' Hb Hm H.
  apply read_object_schema_ok in H. destruct H as (s & l & -> & Hlen & ->).
  cbn [ranges_of].
  eapply goes_past_impl; [|exact (goes_past_payload _ _ _ _ _ Hlen)].
  intros buf' _ H1. unfold read_object_schema. rewrite H1. reflexivity.
Qed.


(** **** The item loops of the array readers *)

Section Items.
Variable read_item : list Z -> Z -> Z -> read_result.
Hypothesis Hitem : skips_payloads read_item.

Lemma read_block_skips : forall n buf pos max acc v pos',
  0 <= pos <= max -> max <= zlength buf ->
  read_block read_item n buf pos max acc = R_ok v pos' ->
  exists items,
    v = Py_List (acc ++ items)
    /\ length items = n
    /\ goes_past buf max pos pos' (flat_map ranges_of items)
         (fun buf' => forall acc',
            read_block read_item n buf' pos max acc'
            = R_ok (Py_List (acc' ++ items)) pos').
Proof.
  induction n as [|n IH]; intros buf pos max acc v pos' Hb Hm H;
    cbn [read_block] in H.
  - injection H as <- <-. exists []. rewrite app_nil_r.
    split; [reflexivity|]. split; [reflexivity|].
    apply goes_past_here; [lia|].
    intros buf' _ acc'. cbn [read_block]. rewrite app_nil_r. reflexivity.
  - destruct (read_item buf pos max) as [item p| | |] eqn:Hi; try discriminate.
    pose proof (Hitem _ _ _ _ _ Hb Hm Hi) as G1.
    assert (Hp : 0 <= p <= max) by (destruct G1 as (? & _); lia).
    destruct (IH _ _ _ _ _ _ Hp Hm H) as (items & -> & Hn & G2).
    exists (item :: items). rewrite <- app_assoc.
    split; [reflexivity|]. split; [cbn; lia|]. cbn [flat_map].
    apply (goes_past_seq _ _ _ _ _ _ _ _ _ _ G1 G2).
    intros buf' _ H1 H2 acc'. cbn [read_block]. rewrite H1, H2, <- app_assoc.
    reflexivity.
Qed.

Lemma read_block_no_fuel :
  (forall buf pos max,
     0 <= pos <= max -> max <= zlength buf -> read_item buf pos max <> R_fuel) ->
  forall n buf pos max acc,
    0 <= pos <= max -> max <= zlength buf ->
    read_block read_item n buf pos max acc <> R_fuel.
Proof.
  intros Hnf. induction n as [|n IH]; intros buf pos max acc Hb Hm;
    cbn [read_block]; [discriminate|].
  destruct (read_item buf pos max) as [item p| | |] eqn:Hi; try discriminate.
  - destruct (Hitem _ _ _ _ _ Hb Hm Hi) as (Hp & _). apply IH; [lia|assumption].
  - exfalso. eapply Hnf; eassumption.
Qed.

Lemma read_blocks_skips : forall fuel buf pos max block_count acc v pos',
  0 <= pos <= max -> max <= zlength buf ->
  read_blocks read_item fuel buf pos max block_count acc = R_ok v pos' ->
  exists items,
    v = Py_List (acc ++ items)
    /\ goes_past buf max pos pos' (flat_map ranges_of items)
         (fun buf' => forall acc',
            length acc' = length acc ->
            read_blocks read_item fuel buf' pos max block_count acc'
            = R_ok (Py_List (acc' ++ items)) pos').
Proof.
  induction fuel as [|fuel IH]; intros buf pos max block_count acc v pos' Hb Hm H;
    cbn [read_blocks] in H; [discriminate|].
  destruct (block_count =? 0) eqn:Hz.
  { injection H as <- <-. exists []. rewrite app_nil_r. split; [reflexivity|].
    apply goes_past_here; [lia|].
    intros buf' _ acc' _. cbn [read_blocks]. rewrite Hz, app_nil_r. reflexivity. }
  assert (Hcont : forall bc p,
    0 <= p <= max ->
    (if negb (Z.of_nat (length acc) =? 0) && (Z.of_nat (length acc) + bc >? INT64_MAX)
     then R_undef
     else if negb (Z.of_nat (length acc) =? 0)
             && negb (list_new (Z.of_nat (length acc) + bc))
     then R_error host_error
     else
       bind_read (read_block read_item (Z.to_nat bc) buf p max acc)
         (fun result pos =>
            on_read (read_size buf pos max) (fun block_count pos =>
              read_blocks read_item fuel buf pos max block_count
                          (list_items result)))) = R_ok v pos' ->
    exists items,
      v = Py_List (acc ++ items)
      /\ goes_past buf max p pos' (flat_map ranges_of items)
           (fun buf' => forall acc',
              length acc' = length acc ->
              (if negb (Z.of_nat (length acc') =? 0)
                  && (Z.of_nat (length acc') + bc >? INT64_MAX)
               then R_undef
               else if negb (Z.of_nat (length acc') =? 0)
                       && negb (list_new (Z.of_nat (length acc') + bc))
               then R_error host_error
               else
                 bind_read (read_block read_item (Z.to_nat bc) buf' p max acc')
                   (fun result pos =>
                      on_read (read_size buf' pos max) (fun block_count pos =>
                        read_blocks read_item fuel buf' pos max block_count
                                    (list_items result))))
              = R_ok (Py_List (acc' ++ items)) pos')).
  { intros bc p Hp Hc.
    destruct (negb (Z.of_nat (length acc) =? 0)
              && (Z.of_nat (length acc) + bc >? INT64_MAX)) eqn:Hov;
      [discriminate|].
    destruct (negb (Z.of_nat (length acc) =? 0)
              && negb (list_new (Z.of_nat (length acc) + bc))) eqn:Hnew;
      [discriminate|].
    apply bind_read_ok in Hc. destruct Hc as (blk & p1 & Hblk & Hc).
    destruct (read_block_skips _ _ _ _ _ _ _ Hp Hm Hblk) as (items1 & -> & _ & G1).
    assert (Hp1 : 0 <= p1 <= max) by (destruct G1 as (? & _); lia).
    apply on_read_ok in Hc. destruct Hc as (bc' & p2 & Hsz & Hc).
    unfold read_size in Hsz. pose proof (goes_past_long _ _ _ _ _ Hsz) as G2.
    assert (Hp2 : 0 <= p2 <= max) by (destruct G2 as (? & _); lia).
    cbn [list_items] in Hc.
    destruct (IH _ _ _ _ _ _ _ Hp2 Hm Hc) as (items2 & -> & G3).
    exists (items1 ++ items2). rewrite app_assoc. split; [reflexivity|].
    rewrite flat_map_app.
    eapply goes_past_seq; [exact G1| |].
    { refine (goes_past_seq _ _ _ _ _ [] _ _ _ _ G2 G3 _).
      intros buf' _ H2 H3. exact (conj H2 H3). }
    intros buf' _ H1 [H2 H3] acc' Hlen. rewrite Hlen, Hov, Hnew, H1.
    cbn [bind_read]. unfold read_size. rewrite H2. cbn [on_read list_items].
    rewrite H3 by (rewrite !length_app; lia). rewrite app_assoc. reflexivity. }
  destruct (block_count <? 0) eqn:Hneg.
  - apply on_read_ok in H. destruct H as (sz & p & Hsz & H).
    pose proof (goes_past_long _ _ _ _ _ Hsz) as G0.
    assert (Hp : 0 <= p <= max) by (destruct G0 as (? & _); lia).
    destruct (Hcont _ _ Hp H) as (items & -> & G).
    exists items. split; [reflexivity|].
    apply (goes_past_seq _ _ _ _ _ _ _ _ _ _ G0 G).
    intros buf' _ H0 H1 acc' Hlen. cbn [read_blocks]. rewrite Hz, Hneg, H0.
    cbn [on_read]. apply H1, Hlen.
  - destruct (Hcont _ _ Hb H) as (items & -> & G).
    exists items. split; [reflexivity|].
    eapply goes_past_impl; [|exact G].
    intros buf' _ H1 acc' Hlen. cbn [read_blocks]. rewrite Hz, Hneg.
    apply H1, Hlen.
Qed.

(** The outer loop of the array readers never runs out of the fuel its
    callers give it: every iteration consumes a byte of the window. *)
Lemma read_blocks_fuel :
  (forall buf pos max,
     0 <= pos <= max -> max <= zlength buf -> read_item buf pos max <> R_fuel) ->
  forall fuel buf pos max block_count acc,
    0 <= pos <= max -> max <= zlength buf ->
    (Z.to_nat (max - pos) < fuel)%nat ->
    read_blocks read_item fuel buf pos max block_count acc <> R_fuel.
Proof.
  intros Hnf.
  induction fuel as [|fuel IH]; intros buf pos max block_count acc Hb Hm Hfuel;
    [lia|].
  cbn [read_blocks].
  destruct (block_count =? 0); [discriminate|].
  assert (Hcont : forall bc p,
    pos <= p <= max ->
    (if negb (Z.of_nat (length acc) =? 0) && (Z.of_nat (length acc) + bc >? INT64_MAX)
     then R_undef
     else if negb (Z.of_nat (length acc) =? 0)
             && negb (list_new (Z.of_nat (length acc) + bc))
     then R_error host_error
     else
       bind_read (read_block read_item (Z.to_nat bc) buf p max acc)
         (fun result pos =>
            on_read (read_size buf pos max) (fun block_count pos =>
              read_blocks read_item fuel buf pos max block_count
                          (list_items result)))) <> R_fuel).
  { intros bc p Hp.
    destruct (_ && (_ >? _)); [discriminate|].
    destruct (_ && negb _); [discriminate|].
    intros Hc. apply bind_read_fuel in Hc.
    assert (Hp0 : 0 <= p <= max) by lia.
    destruct Hc as [Hc|(blk & p1 & Hblk & Hc)].
    - revert Hc. apply read_block_no_fuel; assumption.
    - 
      destruct (read_block_skips _ _ _ _ _ _ _ Hp0 Hm Hblk)
        as (items1 & _ & _ & (Hp1 & _)).
      apply on_read_fuel in Hc. destruct Hc as (bc' & p2 & Hsz & Hc).
      unfold read_size in Hsz. apply read_long_advance in Hsz.
      revert Hc. apply IH; lia. }
  destruct (block_count <? 0).
  - intros H. apply on_read_fuel in H. destruct H as (sz & p & Hsz & H).
    apply read_long_advance in Hsz. revert H. apply Hcont. lia.
  - apply Hcont. lia.
Qed.

Lemma read_array_with_skips : skips_payloads (read_array_with read_item).
Proof.
  intros buf pos max v pos' Hb Hm H. unfold read_array_with in H.
  apply on_read_ok in H. destruct H as (bc & p & Hsz & H).
  unfold read_size in Hsz. pose proof (goes_past_long _ _ _ _ _ Hsz) as G0.
  assert (Hp : 0 <= p <= max) by (destruct G0 as (? & _); lia).
  destruct (negb (list_new _)) eqn:Hnew; [discriminate|].
  destruct (read_blocks_skips _ _ _ _ _ _ _ _ Hp Hm H) as (items & -> & G).
  cbn [app ranges_of].
  apply (goes_past_seq _ _ _ _ _ _ _ _ _ _ G0 G).
  intros buf' _ H0 H1. unfold read_array_with, read_size. rewrite H0.
  cbn [on_read]. rewrite Hnew. apply (H1 []). reflexivity.
Qed.

Lemma read_array_with_no_fuel :
  (forall buf pos max,
     0 <= pos <= max -> max <= zlength buf -> read_item buf pos max <> R_fuel) ->
  forall buf pos max,
    0 <= pos <= max -> max <= zlength buf ->
    read_array_with read_item buf pos max <> R_fuel.
Proof.
  intros Hnf buf pos max Hb Hm H. unfold read_array_with in H.
  apply on_read_fuel in H. destruct H as (bc & p & Hsz & H).
  unfold read_size in Hsz. apply read_long_advance in Hsz.
  destruct (negb (list_new _)); [discriminate|].
  revert H. apply read_blocks_fuel; try assumption; lia.
Qed.

End Items.

(** **** The readers that recurse through [read_schema] *)

Lemma ranges_of_dict_in items r :
  In r (ranges_of (Py_Dict items))
  <-> exists k y, In (k, y) items /\ In r (ranges_of y).
Proof.
  cbn [ranges_of]. rewrite in_flat_map. split.
  - intros ([k y] & Hin & Hr). eauto.
  - intros (k & y & Hin & Hr). exists (k, y). auto.
Qed.

Lemma dict_set_ranges items key value items' r :
  PyDict_SetItem items key value = Some items' ->
  In r (ranges_of (Py_Dict items')) ->
  In r (ranges_of (Py_Dict items)) \/ In r (ranges_of value).
Proof.
  intros Hset Hr. apply ranges_of_dict_in in Hr. destruct Hr as (k & y & Hin & Hr).
  destruct (Hdict _ _ _ _ Hset _ _ Hin) as [->|(k' & Hold)].
  - right. assumption.
  - left. apply ranges_of_dict_in. eauto.
Qed.

Lemma height_fields field s :
  In field (fields s) -> (height field < height s)%nat.
Proof.
  destruct s as [dt n d fs]. cbn [fields height].
  induction fs as [|f fs IH]; intros Hin; [destruct Hin|].
  destruct Hin as [->|Hin]; [lia|]. specialize (IH Hin). lia.
Qed.

Section Dispatch.
Variable rec : Schema -> list Z -> Z -> Z -> read_result.
Hypothesis Hrec : forall field, skips_payloads (rec field).

Lemma read_nullable_skips schema : skips_payloads (read_nullable_schema rec schema).
Proof.
  intros buf pos max v pos' Hb Hm H. unfold read_nullable_schema in H.
  apply on_read_ok in H. destruct H as (n & p & Hl & H).
  pose proof (goes_past_long _ _ _ _ _ Hl) as G1.
  assert (Hp : 0 <= p <= max) by (destruct G1 as (? & _); lia).
  destruct (n =? 1) eqn:H1.
  - injection H as <- <-. cbn [ranges_of].
    eapply goes_past_impl; [|exact G1].
    intros buf' _ E. unfold read_nullable_schema. rewrite E. cbn [on_read].
    rewrite H1. reflexivity.
  - destruct (n =? 0) eqn:H0; [|discriminate].
    destruct (fields schema) as [|field rest] eqn:Hf; [discriminate|].
    pose proof (Hrec _ _ _ _ _ _ Hp Hm H) as G2.
    refine (goes_past_seq _ _ _ _ _ [] _ _ _ _ G1 G2 _).
    intros buf' _ E1 E2. unfold read_nullable_schema. rewrite E1. cbn [on_read].
    rewrite H1, H0, Hf. exact E2.
Qed.

Lemma read_array_skips schema : skips_payloads (read_array_schema rec schema).
Proof.
  intros buf pos max v pos' Hb Hm H. unfold read_array_schema in *.
  destruct (fields schema) as [|field rest]; [discriminate|].
  exact (read_array_with_skips _ (Hrec field) _ _ _ _ _ Hb Hm H).
Qed.

Lemma read_map_entry_skips schema field buf pos max result v pos' :
  0 <= pos <= max -> max <= zlength buf ->
  read_map_entry rec schema field buf pos max result = R_ok v pos' ->
  exists items' rs,
    v = Py_Dict items'
    /\ (forall r, In r (ranges_of v) ->
                  In r (ranges_of (Py_Dict result)) \/ In r rs)
    /\ goes_past buf max pos pos' rs
         (fun buf' => read_map_entry rec schema field buf' pos max result
                      = R_ok v pos').
Proof.
  intros Hb Hm H. unfold read_map_entry in H.
  apply bind_read_ok in H. destruct H as (key & p1 & Hk & H).
  pose proof (read_string_skips _ _ _ _ _ _ Hb Hm Hk) as G1.
  assert (Hp1 : 0 <= p1 <= max) by (destruct G1 as (? & _); lia).
  apply bind_read_ok in H. destruct H as (value & p2 & Hv & H).
  pose proof (Hrec _ _ _ _ _ _ Hp1 Hm Hv) as G2.
  destruct (PyDict_SetItem result key value) as [items'|] eqn:Hset; [|discriminate].
  injection H as <- <-.
  exists items', (ranges_of key ++ ranges_of value).
  split; [reflexivity|]. split.
  - intros r Hr. destruct (dict_set_ranges _ _ _ _ _ Hset Hr) as [Ho|Hn].
    + left. assumption.
    + right. apply in_or_app. right. assumption.
  - refine (goes_past_seq _ _ _ _ _ _ _ _ _ _ G1 G2 _).
    intros buf' _ E1 E2. unfold read_map_entry. rewrite E1. cbn [bind_read].
    rewrite E2. cbn [bind_read]. rewrite Hset. reflexivity.
Qed.

Lemma read_map_block_skips schema field :
  forall count buf pos max result v pos',
    0 <= pos <= max -> max <= zlength buf ->
    read_map_block rec schema field count buf pos max result = R_ok v pos' ->
    exists items' rs,
      v = Py_Dict items'
      /\ (forall r, In r (ranges_of v) ->
                    In r (ranges_of (Py_Dict result)) \/ In r rs)
      /\ goes_past buf max pos pos' rs
           (fun buf' => read_map_block rec schema field count buf' pos max result
                        = R_ok v pos').
Proof.
  induction count as [|count IH]; intros buf pos max result v pos' Hb Hm H;
    cbn [read_map_block] in H.
  - injection H as <- <-. exists result, []. split; [reflexivity|]. split.
    + intros r Hr. left. assumption.
    + apply goes_past_here; [lia|]. intros buf' _. reflexivity.
  - apply bind_read_ok in H. destruct H as (d1 & p1 & He & H).
    destruct (read_map_entry_skips _ _ _ _ _ _ _ _ Hb Hm He)
      as (items1 & rs1 & -> & Hsub1 & G1).
    assert (Hp1 : 0 <= p1 <= max) by (destruct G1 as (? & _); lia).
    cbn [dict_items] in H.
    destruct (IH _ _ _ _ _ _ Hp1 Hm H) as (items2 & rs2 & -> & Hsub2 & G2).
    exists items2, (rs1 ++ rs2). split; [reflexivity|]. split.
    + intros r Hr. destruct (Hsub2 _ Hr) as [Hr1|Hr2].
      * destruct (Hsub1 _ Hr1) as [Ho|Hn]; [left; assumption|].
        right. apply in_or_app. left. assumption.
      * right. apply in_or_app. right. assumption.
    + refine (goes_past_seq _ _ _ _ _ _ _ _ _ _ G1 G2 _).
      intros buf' _ E1 E2. cbn [read_map_block]. rewrite E1. cbn [bind_read dict_items].
      exact E2.
Qed.

Lemma read_map_block_no_fuel schema field :
  (forall buf pos max,
     0 <= pos <= max -> max <= zlength buf -> rec field buf pos max <> R_fuel) ->
  forall count buf pos max result,
    0 <= pos <= max -> max <= zlength buf ->
    read_map_block rec schema field count buf pos max result <> R_fuel.
Proof.
  intros Hnf. induction count as [|count IH]; intros buf pos max result Hb Hm;
    cbn [read_map_block]; [discriminate|].
  intros H. apply bind_read_fuel in H. destruct H as [H|(d1 & p1 & He & H)].
  - unfold read_map_entry in H. apply bind_read_fuel in H.
    destruct H as [H|(key & p1 & Hk & H)].
    + unfold read_string_schema in H. apply on_read_fuel in H.
      destruct H as (len & p & _ & H). unfold read_bytes_data in H.
      destruct (PyUnicode_FromStringAndSize _); discriminate.
    + destruct (read_string_skips _ _ _ _ _ _ Hb Hm Hk) as (Hp1 & _).
      apply bind_read_fuel in H. destruct H as [H|(value & p2 & _ & H)].
      * revert H. apply Hnf; [lia|assumption].
      * destruct (PyDict_SetItem _ _ _); discriminate.
  - destruct (read_map_entry_skips _ _ _ _ _ _ _ _ Hb Hm He)
      as (items1 & rs1 & _ & _ & (Hp1 & _)).
    revert H. apply IH; [lia|assumption].
Qed.

Lemma read_map_blocks_skips schema field :
  forall fuel buf pos max result v pos',
    0 <= pos <= max -> max <= zlength buf ->
    read_map_blocks rec schema field fuel buf pos max result = R_ok v pos' ->
    exists items' rs,
      v = Py_Dict items'
      /\ (forall r, In r (ranges_of v) ->
                    In r (ranges_of (Py_Dict result)) \/ In r rs)
      /\ goes_past buf max pos pos' rs
           (fun buf' => read_map_blocks rec schema field fuel buf' pos max result
                        = R_ok v pos').
Proof.
  induction fuel as [|fuel IH]; intros buf pos max result v pos' Hb Hm H;
    cbn [read_map_blocks] in H; [discriminate|].
  apply on_read_ok in H. destruct H as (count & p0 & Hsz & H).
  unfold read_size in Hsz. pose proof (goes_past_long _ _ _ _ _ Hsz) as G0.
  assert (Hp0 : 0 <= p0 <= max) by (destruct G0 as (? & _); lia).
  destruct (count =? 0) eqn:Hz.
  { injection H as <- <-. exists result, []. split; [reflexivity|]. split.
    - intros r Hr. left. assumption.
    - eapply goes_past_impl; [|exact G0].
      intros buf' _ E. cbn [read_map_blocks]. unfold read_size. rewrite E.
      cbn [on_read]. rewrite Hz. reflexivity. }
  assert (Hcont : forall c p,
    0 <= p <= max ->
    bind_read (read_map_block rec schema field (Z.to_nat c) buf p max result)
      (fun result pos =>
         read_map_blocks rec schema field fuel buf pos max (dict_items result))
    = R_ok v pos' ->
    exists items' rs,
      v = Py_Dict items'
      /\ (forall r, In r (ranges_of v) ->
                    In r (ranges_of (Py_Dict result)) \/ In r rs)
      /\ goes_past buf max p pos' rs
           (fun buf' =>
              bind_read
                (read_map_block rec schema field (Z.to_nat c) buf' p max result)
                (fun result pos =>
                   read_map_blocks rec schema field fuel buf' pos max
                                   (dict_items result))
              = R_ok v pos')).
  { intros c p Hp Hc. apply bind_read_ok in Hc.
    destruct Hc as (d1 & p1 & Hblk & Hc).
    destruct (read_map_block_skips _ _ _ _ _ _ _ _ _ Hp Hm Hblk)
      as (items1 & rs1 & -> & Hsub1 & G1).
    assert (Hp1 : 0 <= p1 <= max) by (destruct G1 as (? & _); lia).
    cbn [dict_items] in Hc.
    destruct (IH _ _ _ _ _ _ Hp1 Hm Hc) as (items2 & rs2 & -> & Hsub2 & G2).
    exists items2, (rs1 ++ rs2). split; [reflexivity|]. split.
    - intros r Hr. destruct (Hsub2 _ Hr) as [Hr1|Hr2].
      + destruct (Hsub1 _ Hr1) as [Ho|Hn]; [left; assumption|].
        right. apply in_or_app. left. assumption.
      + right. apply in_or_app. right. assumption.
    - refine (goes_past_seq _ _ _ _ _ _ _ _ _ _ G1 G2 _).
      intros buf' _ E1 E2. rewrite E1. cbn [bind_read dict_items]. exact E2. }
  destruct (count <? 0) eqn:Hneg.
  - apply on_read_ok in H. destruct H as (sz & p & Hl & H).
    pose proof (goes_past_long _ _ _ _ _ Hl) as G1.
    assert (Hp : 0 <= p <= max) by (destruct G1 as (? & _); lia).
    destruct (Hcont _ _ Hp H) as (items' & rs & -> & Hsub & G).
    exists items', rs. split; [reflexivity|]. split; [assumption|].
    refine (goes_past_seq _ _ _ _ _ [] _ _ _ _ G0 _ _).
    { refine (goes_past_seq _ _ _ _ _ [] _ _ _ _ G1 G _).
      intros buf' _ E1 E2. exact (conj E1 E2). }
    intros buf' _ E0 [E1 E2]. cbn [read_map_blocks]. unfold read_size.
    rewrite E0. cbn [on_read]. rewrite Hz, Hneg, E1. cbn [on_read]. exact E2.
  - destruct (Hcont _ _ Hp0 H) as (items' & rs & -> & Hsub & G).
    exists items', rs. split; [reflexivity|]. split; [assumption|].
    refine (goes_past_seq _ _ _ _ _ [] _ _ _ _ G0 G _).
    intros buf' _ E0 E1. cbn [read_map_blocks]. unfold read_size.
    rewrite E0. cbn [on_read]. rewrite Hz, Hneg. exact E1.
Qed.

Lemma read_map_blocks_fuel schema field :
  (forall buf pos max,
     0 <= pos <= max -> max <= zlength buf -> rec field buf pos max <> R_fuel) ->
  forall fuel buf pos max result,
    0 <= pos <= max -> max <= zlength buf ->
    (Z.to_nat (max - pos) < fuel)%nat ->
    read_map_blocks rec schema field fuel buf pos max result <> R_fuel.
Proof.
  intros Hnf.
  induction fuel as [|fuel IH]; intros buf pos max result Hb Hm Hfuel; [lia|].
  cbn [read_map_blocks]. intros H.
  apply on_read_fuel in H. destruct H as (count & p0 & Hsz & H).
  unfold read_size in Hsz. apply read_long_advance in Hsz.
  destruct (count =? 0); [discriminate|].
  assert (Hcont : forall c p,
    p0 <= p <= max ->
    bind_read (read_map_block rec schema field (Z.to_nat c) buf p max result)
      (fun result pos =>
         read_map_blocks rec schema field fuel buf pos max (dict_items result))
    <> R_fuel).
  { intros c p Hp Hc. assert (Hp' : 0 <= p <= max) by lia.
    apply bind_read_fuel in Hc. destruct Hc as [Hc|(d1 & p1 & Hblk & Hc)].
    - revert Hc. apply read_map_block_no_fuel; assumption.
    - destruct (read_map_block_skips _ _ _ _ _ _ _ _ _ Hp' Hm Hblk)
        as (items1 & rs1 & _ & _ & (Hp1 & _)).
      revert Hc. apply IH; [lia|assumption|lia]. }
  destruct (count <? 0).
  - apply on_read_fuel in H. destruct H as (sz & p & Hl & H).
    apply read_long_advance in Hl. revert H. apply Hcont. lia.
  - revert H. apply Hcont. lia.
Qed.

Lemma read_map_skips schema : skips_payloads (read_map_schema rec schema).
Proof.
  intros buf pos max v pos' Hb Hm H. unfold read_map_schema in *.
  destruct (fields schema) as [|field rest]; [discriminate|].
  destruct (read_map_blocks_skips _ _ _ _ _ _ _ _ _ Hb Hm H)
    as (items' & rs & -> & Hsub & G).
  eapply goes_past_subset; [|exact G].
  intros r Hr. destruct (Hsub _ Hr) as [[]|Hin]. assumption.
Qed.

Lemma read_record_fields_skips :
  forall flds buf pos max result v pos',
    0 <= pos <= max -> max <= zlength buf ->
    read_record_fields rec flds buf pos max result = R_ok v pos' ->
    exists items' rs,
      v = Py_Dict items'
      /\ (forall r, In r (ranges_of v) ->
                    In r (ranges_of (Py_Dict result)) \/ In r rs)
      /\ goes_past buf max pos pos' rs
           (fun buf' => read_record_fields rec flds buf' pos max result
                        = R_ok v pos').
Proof.
  induction flds as [|field flds IH]; intros buf pos max result v pos' Hb Hm H;
    cbn [read_record_fields] in H.
  - injection H as <- <-. exists result, []. split; [reflexivity|]. split.
    + intros r Hr. left. assumption.
    + apply goes_past_here; [lia|]. intros buf' _. reflexivity.
  - apply bind_read_ok in H. destruct H as (value & p1 & Hv & H).
    pose proof (Hrec _ _ _ _ _ _ Hb Hm Hv) as G1.
    assert (Hp1 : 0 <= p1 <= max) by (destruct G1 as (? & _); lia).
    destruct (PyDict_SetItem result (name field) value) as [items1|] eqn:Hset;
      [|discriminate].
    destruct (IH _ _ _ _ _ _ Hp1 Hm H) as (items2 & rs2 & -> & Hsub2 & G2).
    exists items2, (ranges_of value ++ rs2). split; [reflexivity|]. split.
    + intros r Hr. destruct (Hsub2 _ Hr) as [Hr1|Hr2].
      * destruct (dict_set_ranges _ _ _ _ _ Hset Hr1) as [Ho|Hn];
          [left; assumption|].
        right. apply in_or_app. left. assumption.
      * right. apply in_or_app. right. assumption.
    + refine (goes_past_seq _ _ _ _ _ _ _ _ _ _ G1 G2 _).
      intros buf' _ E1 E2. cbn [read_record_fields]. rewrite E1. cbn [bind_read].
      rewrite Hset. exact E2.
Qed.

Lemma read_record_fields_no_fuel :
  forall flds,
    (forall field, In field flds ->
       forall buf pos max,
         0 <= pos <= max -> max <= zlength buf -> rec field buf pos max <> R_fuel) ->
    forall buf pos max result,
      0 <= pos <= max -> max <= zlength buf ->
      read_record_fields rec flds buf pos max result <> R_fuel.
Proof.
  induction flds as [|field flds IH]; intros Hnf buf pos max result Hb Hm;
    cbn [read_record_fields]; [discriminate|].
  intros H. apply bind_read_fuel in H. destruct H as [H|(value & p1 & Hv & H)].
  - revert H. apply Hnf; [left; reflexivity|assumption|assumption].
  - destruct (Hrec _ _ _ _ _ _ Hb Hm Hv) as (Hp1 & _).
    destruct (PyDict_SetItem _ _ _); [|discriminate].
    revert H. apply IH; [|lia|assumption].
    intros f Hf. apply Hnf. right. assumption.
Qed.

Lemma read_record_skips schema : skips_payloads (read_record_schema rec schema).
Proof.
  intros buf pos max v pos' Hb Hm H. unfold read_record_schema in *.
  destruct (read_record_fields_skips _ _ _ _ _ _ _ Hb Hm H)
    as (items' & rs & -> & Hsub & G).
  eapply goes_past_subset; [|exact G].
  intros r Hr. destruct (Hsub _ Hr) as [[]|Hin]. assumption.
Qed.

Lemma read_schema_types_skips dt schema :
  skips_payloads (read_schema_types rec dt schema).
Proof.
  destruct dt; cbn [read_schema_types].
  - apply read_nullable_skips.
  - apply read_boolean_skips.
  - apply read_bytes_skips.
  - apply read_double_skips.
  - apply read_float_skips.
  - apply read_int_skips.
  - apply read_long_skips.
  - apply read_string_skips.
  - apply read_array_skips.
  - apply read_map_skips.
  - apply read_record_skips.
  - apply read_object_skips.
  - apply read_array_with_skips, read_object_skips.
Qed.

Lemma read_schema_types_no_fuel dt schema :
  (forall field, In field (fields schema) ->
     forall buf pos max,
       0 <= pos <= max -> max <= zlength buf -> rec field buf pos max <> R_fuel) ->
  forall buf pos max,
    0 <= pos <= max -> max <= zlength buf ->
    read_schema_types rec dt schema buf pos max <> R_fuel.
Proof.
  intros Hnf buf pos max Hb Hm.
  assert (Hplain : forall A (r : result A) k,
            (forall a q, k a q <> R_fuel) -> on_read r k <> R_fuel).
  { intros A r k Hk H. apply on_read_fuel in H. destruct H as (a & q & _ & H).
    exact (Hk _ _ H). }
  destruct dt; cbn [read_schema_types].
  - unfold read_nullable_schema. intros H. apply on_read_fuel in H.
    destruct H as (n & p & Hl & H). apply read_long_advance in Hl.
    destruct (n =? 1); [discriminate|]. destruct (n =? 0); [|discriminate].
    destruct (fields schema) as [|field rest]; [discriminate|].
    revert H. apply Hnf; [left; reflexivity|lia|assumption].
  - apply Hplain. discriminate.
  - apply Hplain. intros a q. unfold read_bytes_data. discriminate.
  - apply Hplain. discriminate.
  - apply Hplain. discriminate.
  - apply Hplain. discriminate.
  - apply Hplain. discriminate.
  - apply Hplain. intros a q. unfold read_bytes_data.
    destruct (PyUnicode_FromStringAndSize _); discriminate.
  - unfold read_array_schema.
    destruct (fields schema) as [|field rest]; [discriminate|].
    apply read_array_with_no_fuel; try assumption; [apply Hrec|].
    apply Hnf. left. reflexivity.
  - unfold read_map_schema.
    destruct (fields schema) as [|field rest]; [discriminate|].
    apply read_map_blocks_fuel; try assumption; [|lia].
    apply Hnf. left. reflexivity.
  - unfold read_record_schema. apply read_record_fields_no_fuel; assumption.
  - apply read_object_schema_no_fuel.
  - apply read_array_with_no_fuel; try assumption; [apply read_object_skips|].
    intros. apply read_object_schema_no_fuel.
Qed.

End Dispatch.

(** [read_schema] goes past every embedded object, at any nesting. *)
Lemma read_schema_skips : forall depth schema,
  skips_payloads (read_schema depth schema).
Proof.
  induction depth as [|depth IH]; intros schema.
  - intros buf pos max v pos' _ _ H. discriminate.
  - cbn [read_schema]. apply read_schema_types_skips. exact IH.
Qed.

(** The nesting of the [read_schema] calls is the height of the schema: a
    depth of that much is never exhausted, and neither is the fuel of the
    loops. *)
Lemma read_schema_no_fuel : forall depth schema buf pos max,
  (height schema <= depth)%nat ->
  0 <= pos <= max -> max <= zlength buf ->
  read_schema depth schema buf pos max <> R_fuel.
Proof.
  induction depth as [|depth IH]; intros schema buf pos max Hh Hb Hm.
  - destruct schema. cbn [height] in Hh. lia.
  - cbn [read_schema]. apply read_schema_types_no_fuel; try assumption.
    + apply read_schema_skips.
    + intros field Hin buf0 pos0 max0 Hb0 Hm0.
      apply IH; try assumption.
      pose proof (height_fields _ _ Hin). lia.
Qed.

(** **** The order of the payloads of an [object_array] *)

Lemma payload_chain_weaken buf max lo lo' hi rs :
  lo' <= lo -> payload_chain buf max lo hi rs -> payload_chain buf max lo' hi rs.
Proof.
  intros Hlo. destruct rs as [|[s l] rs]; cbn [payload_chain]; [lia|].
  intros (p & Hp & Hrest). exists p. split; [lia|assumption].
Qed.

Lemma payload_chain_app buf max : forall rs1 lo mid mid' hi rs2,
  payload_chain buf max lo mid rs1 -> mid <= mid' ->
  payload_chain buf max mid' hi rs2 ->
  payload_chain buf max lo hi (rs1 ++ rs2).
Proof.
  induction rs1 as [|[s l] rs1 IH]; intros lo mid mid' hi rs2 H1 Hmid H2;
    cbn [payload_chain app] in *.
  - apply payload_chain_weaken with (lo := mid'); [lia|assumption].
  - destruct H1 as (p & Hp & Hlen & H1). exists p. repeat split; try assumption.
    eapply IH; eassumption.
Qed.

Lemma read_block_chain schema buf max : forall n pos acc v pos',
  read_block (read_object_schema schema) n buf pos max acc = R_ok v pos' ->
  exists rs,
    v = Py_List (acc ++ map range_object rs)
    /\ payload_chain buf max pos pos' rs.
Proof.
  induction n as [|n IH]; intros pos acc v pos' H; cbn [read_block] in H.
  - injection H as <- <-. exists []. cbn. rewrite app_nil_r. split; [reflexivity|lia].
  - destruct (read_object_schema schema buf pos max) as [item p| | |] eqn:Hitem;
      try discriminate.
    apply read_object_schema_ok in Hitem.
    destruct Hitem as (s & l & -> & Hlen & ->).
    apply IH in H. destruct H as (rs & -> & Hchain).
    exists ((s, l) :: rs). rewrite <- app_assoc. split; [reflexivity|].
    cbn [payload_chain]. exists pos. repeat split; try assumption. lia.
Qed.

Lemma read_blocks_chain schema buf max : forall fuel pos block_count acc v pos',
  read_blocks (read_object_schema schema) fuel buf pos max block_count acc
  = R_ok v pos' ->
  exists rs,
    v = Py_List (acc ++ map range_object rs)
    /\ payload_chain buf max pos pos' rs.
Proof.
  induction fuel as [|fuel IH]; intros pos block_count acc v pos' H;
    cbn [read_blocks] in H; [discriminate|].
  destruct (block_count =? 0).
  { injection H as <- <-. exists []. cbn. rewrite app_nil_r.
    split; [reflexivity|lia]. }
  assert (Hcont : forall bc p,
    pos <= p ->
    (if negb (Z.of_nat (length acc) =? 0) && (Z.of_nat (length acc) + bc >? INT64_MAX)
     then R_undef
     else if negb (Z.of_nat (length acc) =? 0)
             && negb (list_new (Z.of_nat (length acc) + bc))
     then R_error host_error
     else
       bind_read (read_block (read_object_schema schema) (Z.to_nat bc) buf p max acc)
         (fun result pos =>
            on_read (read_size buf pos max) (fun block_count pos =>
              read_blocks (read_object_schema schema) fuel buf pos max block_count
                          (list_items result)))) = R_ok v pos' ->
    exists rs,
      v = Py_List (acc ++ map range_object rs)
      /\ payload_chain buf max pos pos' rs).
  { intros bc p Hp Hc.
    destruct (negb (Z.of_nat (length acc) =? 0)
              && (Z.of_nat (length acc) + bc >? INT64_MAX)); [discriminate|].
    destruct (negb (Z.of_nat (length acc) =? 0)
              && negb (list_new (Z.of_nat (length acc) + bc))); [discriminate|].
    apply bind_read_ok in Hc. destruct Hc as (blk & p1 & Hblk & Hc).
    apply read_block_chain in Hblk. destruct Hblk as (rs1 & -> & Hc1).
    apply on_read_ok in Hc. destruct Hc as (bc' & p2 & Hsz & Hc).
    unfold read_size in Hsz. apply read_long_advance in Hsz.
    cbn [list_items] in Hc. apply IH in Hc. destruct Hc as (rs2 & -> & Hc2).
    exists (rs1 ++ rs2). rewrite map_app, app_assoc. split; [reflexivity|].
    apply payload_chain_weaken with (lo := p); [assumption|].
    apply payload_chain_app with (mid := p1) (mid' := p2); try assumption. lia. }
  destruct (block_count <? 0).
  - apply on_read_ok in H. destruct H as (sz & p & Hsz & H).
    apply read_long_advance in Hsz.
    exact (Hcont _ p ltac:(lia) H).
  - exact (Hcont _ pos ltac:(lia) H).
Qed.

Lemma read_object_array_chain schema buf pos max v pos' :
  read_object_array_schema schema buf pos max = R_ok v pos' ->
  exists rs,
    v = Py_List (map range_object rs)
    /\ payload_chain buf max pos pos' rs.
Proof.
  unfold read_object_array_schema, read_array_with. intros H.
  apply on_read_ok in H. destruct H as (bc & p & Hsz & H).
  unfold read_size in Hsz. apply read_long_advance in Hsz.
  destruct (negb (list_new _)); [discriminate|].
  apply read_blocks_chain in H. destruct H as (rs & -> & Hchain).
  exists rs. split; [reflexivity|].
  apply payload_chain_weaken with (lo := p); [lia|assumption].
Qed.
End Skipping.

(** *** [Schema.decode] *)

Lemma decode_window_ok buffer arg_range pos max :
  decode_window buffer arg_range = Window pos max ->
  0 <= pos <= max /\ max <= zlength buffer
  /\ (forall start length,
        arg_range = Some (start, length) -> pos = start /\ max = start + length)
  /\ (arg_range = None -> pos = 0 /\ max = zlength buffer).
Proof.
  unfold decode_window. destruct arg_range as [[start length]|].
  - destruct (Z.geb_spec start 0); cbn [andb negb]; [|discriminate].
    destruct (Z.leb_spec start (zlength buffer)); cbn [andb negb]; [|discriminate].
    destruct (Z.ltb_spec length 0); [discriminate|].
    destruct (start + length >? INT64_MAX); [discriminate|].
    destruct (Z.leb_spec (start + length) (zlength buffer)); cbn [negb];
      [|discriminate].
    intros Hw. injection Hw as <- <-.
    split; [lia|]. split; [lia|]. split; [|discriminate].
    intros s l E. injection E as <- <-. split; reflexivity.
  - intros Hw. injection Hw as <- <-. unfold zlength.
    split; [lia|]. split; [lia|]. split; [discriminate|].
    intros _. split; reflexivity.
Qed.

Lemma decode_window_length buffer buffer' arg_range :
  zlength buffer' = zlength buffer ->
  decode_window buffer' arg_range = decode_window buffer arg_range.
Proof.
  intros H. unfold decode_window. rewrite H. reflexivity.
Qed.

Lemma Schema_decode_window {host : HostRuntime} depth self buffer arg_range v :
  Schema_decode depth self buffer arg_range = Decoded v ->
  exists pos max pos',
    decode_window buffer arg_range = Window pos max
    /\ read_schema depth self buffer pos max = R_ok v pos'.
Proof.
  unfold Schema_decode. intros H.
  destruct (decode_window buffer arg_range) as [pos max| |]; try discriminate.
  destruct (read_schema depth self buffer pos max) as [r p| | |] eqn:Hr;
    try discriminate.
  injection H as <-. eauto.
Qed.

(** The reference host keeps the two laws. *)
Lemma reference_dict_law : @dict_law reference_host.
Proof.
  intros items key value items' H k y Hin. cbn in H. injection H as <-.
  induction items as [|[k0 v0] items IH]; cbn [dict_set] in Hin.
  - destruct Hin as [E|[]]. injection E as _ <-. left. reflexivity.
  - destruct (key_eqb k0 key).
    + destruct Hin as [E|Hin].
      * injection E as _ <-. left. reflexivity.
      * right. exists k. right. assumption.
    + destruct Hin as [E|Hin].
      * injection E as <- <-. right. exists k0. left. reflexivity.
      * destruct (IH Hin) as [->|(k' & Hk')]; [left; reflexivity|].
        right. exists k'. right. assumption.
Qed.

Lemma reference_str_law : @str_law reference_host.
Proof.
  intros data v H. cbn in H. injection H as <-. eauto.
Qed.



(** ** Schemas: encoding *)

Lemma zlength_nonneg l : 0 <= zlength l.
Proof. unfold zlength. lia. Qed.

Lemma writes_to_Written buf buf' pos' :
  zlength buf' = zlength buf -> writes_to (Written buf' pos') buf pos'.
Proof. intros H. exists buf'. auto. Qed.

Lemma writes_to_trans r buf1 buf pos' :
  zlength buf1 = zlength buf -> writes_to r buf1 pos' -> writes_to r buf pos'.
Proof. intros H (b & -> & Hb). exists b. split; [reflexivity|lia]. Qed.

Lemma write_long_fits buf pos max l :
  0 <= pos -> pos + size_long l <= max -> max <= zlength buf ->
  exists buf', write_long buf pos max l = Ok buf' (pos + size_long l)
               /\ zlength buf' = zlength buf.
Proof.
  intros Hpos Hroom Hmax. rewrite size_long_write_long_bytes in *.
  unfold write_long.
  destruct (Z.gtb_spec (pos + zlength (write_long_bytes l)) max); [lia|].
  eexists. split; [reflexivity|]. apply zlength_store; lia.
Qed.

Lemma on_write_long_fits buf pos max l k pos' :
  0 <= pos -> pos + size_long l <= max -> max <= zlength buf ->
  (forall buf1, zlength buf1 = zlength buf ->
                writes_to (k buf1 (pos + size_long l)) buf1 pos') ->
  writes_to (on_write (write_long buf pos max l) k) buf pos'.
Proof.
  intros Hpos Hroom Hmax Hk.
  destruct (write_long_fits buf pos max l Hpos Hroom Hmax) as (buf1 & -> & Hlen).
  cbn [on_write]. eapply writes_to_trans; [exact Hlen|]. apply Hk. exact Hlen.
Qed.

Lemma bind_write_fits r k buf pos1 pos' :
  writes_to r buf pos1 ->
  (forall buf1, zlength buf1 = zlength buf -> writes_to (k buf1 pos1) buf1 pos') ->
  writes_to (bind_write r k) buf pos'.
Proof.
  intros (buf1 & -> & Hlen) Hk. cbn [bind_write].
  eapply writes_to_trans; [exact Hlen|]. apply Hk. exact Hlen.
Qed.

Lemma size_long_0 : size_long 0 = 1.
Proof. reflexivity. Qed.

Lemma size_long_1 : size_long 1 = 1.
Proof. reflexivity. Qed.

Lemma length_le_split n w : length (le_split n w) = n.
Proof. revert w. induction n as [|n IH]; intros w; cbn; [reflexivity|]. f_equal. apply IH. Qed.

Lemma write_bytes_fits buf pos max b :
  0 <= pos -> pos + (size_long (zlength b) + zlength b) <= max -> max <= zlength buf ->
  writes_to (on_write (write_bytes buf pos max b (zlength b)) Written) buf
            (pos + (size_long (zlength b) + zlength b)).
Proof.
  intros Hpos Hroom Hmax. pose proof (zlength_nonneg b) as Hb.
  pose proof (size_long_range (zlength b)) as Hs.
  unfold write_bytes, write_size, bind.
  destruct (write_long_fits buf pos max (zlength b)) as (buf1 & -> & Hlen); try lia.
  destruct (Z.gtb_spec (pos + size_long (zlength b) + zlength b) max); [lia|].
  cbn [on_write]. rewrite Z.add_assoc.
  apply writes_to_Written. rewrite <- Hlen.
  assert (Hall : firstn (Z.to_nat (zlength b)) b = b).
  { unfold zlength. rewrite Nat2Z.id. apply firstn_all. }
  rewrite Hall. apply zlength_store; lia.
Qed.

Section Agreement.
Context {host : HostRuntime}.
Variable prec : Schema -> PyObject -> Z -> prepare_result.
Variable wrec : Schema -> list Z -> Z -> Z -> PyObject -> write_result.
Hypothesis Hrec : agree prec wrec.

Lemma agree_nullable : agree (prepare_nullable_schema prec) (write_nullable_schema wrec).
Proof.
  intros schema value size prepared size' H. unfold prepare_nullable_schema in H.
  destruct (is_none value) eqn:Hnone.
  - injection H as <- <-. split; [auto|]. intros _. split; [lia|].
    intros buf pos max Hpos Hroom Hmax. unfold write_nullable_schema. cbn [is_none].
    apply on_write_long_fits; rewrite ?size_long_1; try lia.
    intros buf1 Hlen. replace (pos + (size + 1 - size)) with (pos + 1) by lia.
    apply writes_to_Written. reflexivity.
  - destruct (fields schema) as [|field rest] eqn:Hf; [discriminate|].
    destruct (Hrec field value (size + 1) prepared size' H) as [Hn Hw].
    split; [intros Hp; rewrite <- Hnone; exact (Hn Hp)|]. intros Hfit. destruct (Hw Hfit) as [Hle Hwr].
    split; [lia|]. intros buf pos max Hpos Hroom Hmax.
    unfold write_nullable_schema.
    destruct (is_none prepared) eqn:Hp; [rewrite (Hn eq_refl) in Hnone; discriminate|].
    apply on_write_long_fits; rewrite ?size_long_0; try lia.
    intros buf1 Hlen. rewrite Hf.
    replace (pos + (size' - size)) with (pos + 1 + (size' - (size + 1))) by lia.
    apply Hwr; lia.
Qed.

Lemma agree_boolean : agree prepare_boolean_schema write_boolean_schema.
Proof.
  intros schema value size prepared size' H. unfold prepare_boolean_schema in H.
  destruct (PyObject_IsTrue value) as [b|]; [|discriminate].
  injection H as <- <-. split; [discriminate|]. intros _. split; [lia|].
  intros buf pos max Hpos Hroom Hmax. unfold write_boolean_schema, write_boolean.
  replace (pos + (size + 1 - size)) with (pos + 1) by lia.
  destruct (Z.geb_spec pos max); [lia|].
  destruct b; cbn [on_write]; apply writes_to_Written; apply zlength_store;
    unfold zlength in *; cbn [length]; lia.
Qed.

Lemma agree_bytes : agree prepare_bytes_schema write_bytes_schema.
Proof.
  intros schema value size prepared size' H. unfold prepare_bytes_schema in H.
  destruct (PyObject_Bytes value) as [b|]; [|discriminate].
  injection H as <- <-. split; [discriminate|]. intros _.
  pose proof (zlength_nonneg b). pose proof (size_long_range (zlength b)).
  split; [lia|]. intros buf pos max Hpos Hroom Hmax. unfold write_bytes_schema.
  replace (size + (size_long (zlength b) + zlength b) - size)
    with (size_long (zlength b) + zlength b) in * by lia.
  apply write_bytes_fits; assumption.
Qed.

Lemma agree_string : agree prepare_string_schema write_bytes_schema.
Proof.
  intros schema value size prepared size' H. unfold prepare_string_schema in H.
  destruct (PyObject_Str_UTF8 value) as [b|]; [|discriminate].
  injection H as <- <-. split; [discriminate|]. intros _.
  pose proof (zlength_nonneg b). pose proof (size_long_range (zlength b)).
  split; [lia|]. intros buf pos max Hpos Hroom Hmax. unfold write_bytes_schema.
  replace (size + (size_long (zlength b) + zlength b) - size)
    with (size_long (zlength b) + zlength b) in * by lia.
  apply write_bytes_fits; assumption.
Qed.

Lemma agree_double : agree prepare_double_schema write_double_schema.
Proof.
  intros schema value size prepared size' H. unfold prepare_double_schema in H.
  destruct (PyNumber_Float value) as [bits|]; [|discriminate].
  injection H as <- <-. split; [discriminate|]. intros _. split; [lia|].
  intros buf pos max Hpos Hroom Hmax. unfold write_double_schema, write_double.
  replace (pos + (size + 8 - size)) with (pos + 8) in * by lia.
  destruct (Z.gtb_spec (pos + 8) max); [lia|]. cbn [on_write].
  apply writes_to_Written. apply zlength_store; [lia|].
  unfold zlength at 1. rewrite length_le_split. lia.
Qed.

Lemma agree_float : agree prepare_float_schema write_float_schema.
Proof.
  intros schema value size prepared size' H. unfold prepare_float_schema in H.
  destruct (PyNumber_Float value) as [bits|]; [|discriminate].
  injection H as <- <-. split; [discriminate|]. intros _. split; [lia|].
  intros buf pos max Hpos Hroom Hmax. unfold write_float_schema, write_float.
  replace (pos + (size + 4 - size)) with (pos + 4) in * by lia.
  destruct (Z.gtb_spec (pos + 4) max); [lia|]. cbn [on_write].
  apply writes_to_Written. apply zlength_store; [lia|].
  unfold zlength at 1. rewrite length_le_split. lia.
Qed.

Lemma PyLong_AsLong_Some z temp : PyLong_AsLong z = Some temp -> temp = z.
Proof.
  unfold PyLong_AsLong. destruct (_ && _); [|discriminate].
  intros H. injection H as <-. reflexivity.
Qed.

Lemma agree_int : agree prepare_int_schema write_int_schema.
Proof.
  intros schema value size prepared size' H. unfold prepare_int_schema in H.
  destruct (PyNumber_Long value) as [result|]; [|discriminate].
  destruct (PyLong_AsLong result) as [temp|] eqn:Has; [|discriminate].
  destruct (negb _); [discriminate|].
  injection H as <- <-. split; [discriminate|]. intros _.
  pose proof (size_long_range temp). split; [lia|].
  intros buf pos max Hpos Hroom Hmax. unfold write_int_schema, write_int. rewrite Has.
  replace (pos + (size + size_long temp - size)) with (pos + size_long temp) in * by lia.
  apply on_write_long_fits; try lia.
  intros buf1 Hlen. apply writes_to_Written. reflexivity.
Qed.

Lemma agree_long : agree prepare_long_schema write_long_schema.
Proof.
  intros schema value size prepared size' H. unfold prepare_long_schema in H.
  destruct (PyNumber_Long value) as [result|]; [|discriminate].
  destruct (PyLong_AsLong result) as [temp|] eqn:Has; [|discriminate].
  destruct (negb _); [discriminate|].
  injection H as <- <-. split; [discriminate|]. intros _.
  pose proof (size_long_range temp). split; [lia|].
  intros buf pos max Hpos Hroom Hmax. unfold write_long_schema. rewrite Has.
  replace (pos + (size + size_long temp - size)) with (pos + size_long temp) in * by lia.
  apply on_write_long_fits; try lia.
  intros buf1 Hlen. apply writes_to_Written. reflexivity.
Qed.

End Agreement.

Lemma terminator_pos count : 0 < count -> terminator count = 1.
Proof. unfold terminator. intros H. destruct (Z.gtb_spec count 0); [reflexivity|lia]. Qed.

Lemma records_fit_list items : records_fit (Py_List items) -> Forall records_fit items.
Proof. intros H. inversion H. assumption. Qed.

Lemma records_fit_tuple items : records_fit (Py_Tuple items) -> Forall records_fit items.
Proof. intros H. inversion H. assumption. Qed.

Section Agreement.
Context {host : HostRuntime}.
Variable prec : Schema -> PyObject -> Z -> prepare_result.
Variable wrec : Schema -> list Z -> Z -> Z -> PyObject -> write_result.
Hypothesis Hrec : agree prec wrec.

Lemma loop_agrees_nil size write :
  (forall buf pos max, write buf pos max = Written buf pos) ->
  loop_agrees 0 [] size size write.
Proof.
  intros Hw. split; [reflexivity|]. split; [reflexivity|]. intros _. split; [lia|].
  intros buf pos max _ _ _. rewrite Hw.
  replace (pos + (size - size)) with pos by lia.
  apply writes_to_Written. reflexivity.
Qed.

(** One more item in front: [first] writes it in [size1 - size] bytes, the
    loop writes the rest. *)
Lemma loop_agrees_cons n item items size size1 size' first rest write :
  (records_fit item ->
   size <= size1
   /\ forall buf pos max,
        0 <= pos -> pos + (size1 - size) <= max -> max <= zlength buf ->
        writes_to (first buf pos max) buf (pos + (size1 - size))) ->
  loop_agrees n items size1 size' rest ->
  (forall buf pos max,
      write buf pos max
      = bind_write (first buf pos max) (fun buf pos => rest buf pos max)) ->
  loop_agrees (S n) (item :: items) size size' write.
Proof.
  intros Hfirst (Hlen & _ & Hrest) Hw. split; [cbn; lia|]. split; [discriminate|].
  intros Hfit. inversion Hfit as [|? ? Hitem Hitems]; subst.
  destruct (Hfirst Hitem) as [Hle1 Hw1]. destruct (Hrest Hitems) as [Hle2 Hw2].
  split; [lia|]. intros buf pos max Hpos Hroom Hmax. rewrite Hw.
  apply bind_write_fits with (pos1 := pos + (size1 - size)).
  - apply Hw1; lia.
  - intros buf1 Hb1.
    replace (pos + (size' - size)) with (pos + (size1 - size) + (size' - size1)) by lia.
    apply Hw2; lia.
Qed.

Lemma array_items_agree field : forall values i size items size',
  prepare_array_items prec field values i size = Items_ok items size' ->
  loop_agrees (length values) items size size'
              (write_array_items wrec field items).
Proof.
  induction values as [|value values IH]; intros i size items size' H;
    cbn [prepare_array_items] in H.
  - injection H as <- <-. apply loop_agrees_nil. reflexivity.
  - destruct (prec field value size) as [item size1| | |] eqn:Hitem; try discriminate.
    destruct (prepare_array_items prec field values (i + 1) size1)
      as [items1 size2| | |] eqn:Hrest; try discriminate.
    injection H as <- <-. cbn [length].
    eapply loop_agrees_cons with (first := fun buf pos max => wrec field buf pos max item).
    + apply (Hrec _ _ _ _ _ Hitem).
    + apply (IH _ _ _ _ Hrest).
    + reflexivity.
Qed.

(** The frame of an Avro array: the count, the items, and the terminating
    zero when there are items. *)
Lemma framed_items_fit n size size1 buf pos max write (zero : bool) :
  (n = 0%nat -> size1 = size) ->
  zero = (Z.of_nat n =? 0) ->
  size <= size1 ->
  (forall buf pos max,
      0 <= pos -> pos + (size1 - size) <= max -> max <= zlength buf ->
      writes_to (write buf pos max) buf (pos + (size1 - size))) ->
  0 <= pos ->
  pos + (size1 + (size_long (Z.of_nat n) + terminator (Z.of_nat n)) - size) <= max ->
  max <= zlength buf ->
  writes_to
    (on_write (write_size buf pos max (Z.of_nat n)) (fun buf pos =>
       if zero then Written buf pos
       else bind_write (write buf pos max)
                       (fun buf pos => on_write (write_size buf pos max 0) Written)))
    buf (pos + (size1 + (size_long (Z.of_nat n) + terminator (Z.of_nat n)) - size)).
Proof.
  intros Hzero -> Hle Hw Hpos Hroom Hmax.
  pose proof (size_long_range (Z.of_nat n)) as Hs.
  assert (Ht : 0 <= terminator (Z.of_nat n) <= 1).
  { unfold terminator. destruct (_ >? _); lia. }
  unfold write_size. apply on_write_long_fits; try lia.
  intros buf1 Hb1.
  destruct (Z.eqb_spec (Z.of_nat n) 0) as [Hz|Hnz].
  - assert (Hn : n = 0%nat) by lia.
    rewrite (Hzero Hn) in *. clear Hzero Hw. subst n.
    change (terminator (Z.of_nat 0)) with 0.
    replace (pos + (size + (size_long (Z.of_nat 0) + 0) - size))
      with (pos + size_long (Z.of_nat 0)) by lia.
    apply writes_to_Written. reflexivity.
  - rewrite terminator_pos in * by lia.
    apply bind_write_fits with (pos1 := pos + size_long (Z.of_nat n) + (size1 - size)).
    + apply Hw; lia.
    + intros buf2 Hb2. apply on_write_long_fits; rewrite ?size_long_0; try lia.
      intros buf3 Hb3.
      replace (pos + (size1 + (size_long (Z.of_nat n) + 1) - size))
        with (pos + size_long (Z.of_nat n) + (size1 - size) + 1) by lia.
      apply writes_to_Written. reflexivity.
Qed.

Lemma agree_array : agree (prepare_array_schema prec) (write_array_schema wrec).
Proof.
  intros schema value size prepared size' H. unfold prepare_array_schema in H.
  destruct (PySequence_Fast value) as [value_seq|]; [|discriminate].
  destruct (fields schema) as [|field rest] eqn:Hf; [discriminate|].
  destruct (prepare_array_items prec field value_seq 0 size)
    as [items size1| | |] eqn:Hitems; try discriminate.
  injection H as <- <-. split; [discriminate|]. intros Hfit.
  apply records_fit_list in Hfit.
  pose proof (array_items_agree _ _ _ _ _ _ Hitems) as (Hlen & Hzero & Hl).
  destruct (Hl Hfit) as [Hle Hw].
  pose proof (size_long_range (Z.of_nat (length value_seq))).
  assert (0 <= terminator (Z.of_nat (length value_seq))).
  { unfold terminator. destruct (_ >? _); lia. }
  split; [lia|]. intros buf pos max Hpos Hroom Hmax.
  unfold write_array_schema. rewrite Hf, Hlen.
  apply framed_items_fit; try assumption. reflexivity.
Qed.

Lemma map_entries_agree schema field : forall items size entries size',
  prepare_map_entries prec schema field items size = Entries_ok entries size' ->
  loop_agrees (2 * length items) entries size size'
              (write_map_entries wrec schema field entries).
Proof.
  induction items as [|item items IH]; intros size entries size' H;
    cbn [prepare_map_entries] in H.
  - injection H as <- <-. apply loop_agrees_nil. reflexivity.
  - destruct item as [| | | | | | |tuple| | | | |]; try discriminate.
    destruct tuple as [|key [|value [|? ?]]]; try discriminate.
    destruct (prepare_string_schema schema key size) as [pkey size1| | |] eqn:Hkey;
      try discriminate.
    destruct (prec field value size1) as [pvalue size2| | |] eqn:Hvalue;
      try discriminate.
    destruct (prepare_map_entries prec schema field items size2)
      as [entries1 size3| | |] eqn:Hrest; try discriminate.
    injection H as <- <-.
    replace (2 * length (Py_Tuple [key; value] :: items))%nat
      with (S (S (2 * length items))) by (cbn [length]; lia).
    eapply loop_agrees_cons
      with (first := fun buf pos max => write_bytes_schema schema buf pos max pkey)
           (rest := fun buf pos max =>
                      bind_write (wrec field buf pos max pvalue)
                        (fun buf pos => write_map_entries wrec schema field entries1
                                                          buf pos max)).
    + apply (agree_string _ _ _ _ _ Hkey).
    + eapply loop_agrees_cons
        with (first := fun buf pos max => wrec field buf pos max pvalue).
      * apply (Hrec _ _ _ _ _ Hvalue).
      * apply (IH _ _ _ Hrest).
      * reflexivity.
    + reflexivity.
Qed.

Lemma agree_map : agree (prepare_map_schema prec) (write_map_schema wrec).
Proof.
  intros schema value size prepared size' H. unfold prepare_map_schema in H.
  destruct (negb (PyMapping_Check value)); [discriminate|].
  destruct (PyMapping_Items value) as [items_seq|]; [|discriminate].
  destruct (fields schema) as [|field rest] eqn:Hf; [discriminate|].
  destruct (prepare_map_entries prec schema field items_seq size)
    as [entries size1| | |] eqn:Hentries; try discriminate.
  injection H as <- <-. split; [discriminate|]. intros Hfit.
  apply records_fit_list in Hfit.
  pose proof (map_entries_agree _ _ _ _ _ _ Hentries) as (Hlen & Hzero & Hl).
  destruct (Hl Hfit) as [Hle Hw].
  set (n := length items_seq) in *.
  pose proof (size_long_range (Z.of_nat n)).
  assert (0 <= terminator (Z.of_nat n)).
  { unfold terminator. destruct (_ >? _); lia. }
  split; [lia|]. intros buf pos max Hpos Hroom Hmax.
  unfold write_map_schema. rewrite Hf, Hlen.
  replace (Z.quot (Z.of_nat (2 * n)) 2) with (Z.of_nat n).
  2:{ rewrite Nat2Z.inj_mul. change (Z.of_nat 2) with 2.
      rewrite Z.mul_comm, Z.quot_mul by lia. reflexivity. }
  apply framed_items_fit; try assumption.
  - intros Hn. apply Hzero. lia.
  - destruct (Z.eqb_spec (Z.of_nat n) 0), (Z.eqb_spec (Z.of_nat (2 * n)) 0);
      try reflexivity; lia.
Qed.

Lemma record_fields_agree value : forall flds count size values count' size',
  prepare_record_fields prec flds value count size = Fields_ok values count' size' ->
  loop_agrees (length flds) values size size'
              (write_record_fields wrec flds values).
Proof.
  induction flds as [|field flds IH]; intros count size values count' size' H;
    cbn [prepare_record_fields] in H.
  - injection H as <- _ <-. apply loop_agrees_nil. reflexivity.
  - assert (Hstep : forall r c,
      match r with
      | Prepared prepared_field_value size0 =>
          match prepare_record_fields prec flds value c size0 with
          | Fields_ok values0 count0 size1 =>
              Fields_ok (prepared_field_value :: values0) count0 size1
          | other => other
          end
      | Prepare_error e path size0 =>
          Fields_error e (extend path (Value_of_record_field (name field))) size0
      | Prepare_undef => Fields_undef
      | Prepare_fuel => Fields_fuel
      end = Fields_ok values count' size' ->
      (exists v, r = prec field v size) ->
      loop_agrees (length (field :: flds)) values size size'
                  (write_record_fields wrec (field :: flds) values)).
    { intros r c Hr [v Hv].
      destruct r as [pfv size1| | |]; try discriminate.
      destruct (prepare_record_fields prec flds value c size1)
        as [values1 count1 size2| | |] eqn:Hrest; try discriminate.
      injection Hr as <- _ <-. cbn [length].
      eapply loop_agrees_cons
        with (first := fun buf pos max => wrec field buf pos max pfv).
      - apply (Hrec field v size pfv size1). symmetry. exact Hv.
      - apply (IH _ _ _ _ _ Hrest).
      - reflexivity. }
    destruct (PyMapping_HasKey value (name field)).
    + destruct (PyObject_GetItem value (name field)) as [field_value|]; [|discriminate].
      destruct (is_none field_value).
      * destruct (negb (has_default field)); [discriminate|].
        eapply Hstep; [exact H|eauto].
      * eapply Hstep; [exact H|eauto].
    + destruct (negb (has_default field)); [discriminate|].
      eapply Hstep; [exact H|eauto].
Qed.

Lemma agree_record : agree (prepare_record_schema prec) (write_record_schema wrec).
Proof.
  intros schema value size prepared size' H. unfold prepare_record_schema in H.
  destruct (negb (PyMapping_Check value)); [discriminate|].
  destruct (PyMapping_Length value) as [count|]; [|discriminate].
  destruct (prepare_record_fields prec (fields schema) value count size)
    as [values count1 size1| | |] eqn:Hfields; try discriminate.
  destruct (negb (count1 =? 0)); [discriminate|].
  injection H as <- <-. split; [discriminate|]. intros Hfit.
  apply records_fit_list in Hfit.
  pose proof (record_fields_agree _ _ _ _ _ _ _ Hfields) as (_ & _ & Hl).
  exact (Hl Hfit).
Qed.

End Agreement.

Section Objects.
Context {host : HostRuntime}.
Variable prec : Schema -> PyObject -> Z -> prepare_result.
Variable wrec : Schema -> list Z -> Z -> Z -> PyObject -> write_result.
Hypothesis Hrec : agree prec wrec.

(** An embedded object prepared with a schema: the size header and the
    object take [object_size + size_long object_size] bytes. *)
Lemma sized_object_fits type_schema object prepared object_size :
  prec type_schema object 0 = Prepared prepared object_size ->
  records_fit (Py_Tuple [Py_Long object_size; prepared]) ->
  0 <= object_size
  /\ forall buf pos max,
       0 <= pos -> pos + (object_size + size_long object_size) <= max ->
       max <= zlength buf ->
       writes_to (write_sized_object wrec type_schema
                    (Py_Tuple [Py_Long object_size; prepared]) buf pos max)
                 buf (pos + (object_size + size_long object_size)).
Proof.
  intros Hp Hfit. apply records_fit_tuple in Hfit.
  inversion Hfit as [|? ? _ Hfit1]; subst. inversion Hfit1 as [|? ? Hobj _]; subst.
  destruct (Hrec _ _ _ _ _ Hp) as [_ Hw]. destruct (Hw Hobj) as [Hle Hwr].
  split; [lia|]. intros buf pos max Hpos Hroom Hmax.
  pose proof (size_long_range object_size).
  unfold write_sized_object, write_size. apply on_write_long_fits; try lia.
  intros buf1 Hb1.
  replace (pos + (object_size + size_long object_size))
    with (pos + size_long object_size + (object_size - 0)) by lia.
  apply Hwr; lia.
Qed.

(** An embedded record that fits. *)
Lemma sized_record_fits record :
  record_fits record ->
  let record_size := fst (size_record record) in
  0 <= record_size
  /\ forall buf pos max,
       0 <= pos -> pos + (record_size + size_long record_size) <= max ->
       max <= zlength buf ->
       writes_to (write_sized_record (Py_Record record) buf pos max)
                 buf (pos + (record_size + size_long record_size)).
Proof.
  intros [Hnn Hfit] record_size. split; [exact Hnn|].
  intros buf pos max Hpos Hroom Hmax.
  pose proof (size_long_range record_size).
  unfold write_sized_record.
  destruct (size_record record) as [sz record'] eqn:Hsz.
  cbn [fst snd] in *. subst record_size.
  unfold write_size. apply on_write_long_fits; try lia.
  intros buf1 Hb1.
  destruct (Hfit buf1 (pos + size_long sz) max) as (buf2 & Hw & Hb2); try lia.
  rewrite Hw. cbn [on_write].
  replace (pos + (sz + size_long sz)) with (pos + size_long sz + sz) by lia.
  apply writes_to_Written. exact Hb2.
Qed.

Lemma agree_object : agree (prepare_object_schema prec) (write_object_schema wrec).
Proof.
  intros schema value size prepared size' H. unfold prepare_object_schema in H.
  destruct value as [| | | | | | |tuple| | | | |]; try discriminate.
  destruct tuple as [|type [|object rest]]; try discriminate.
  - injection H as <- <-. split; [discriminate|]. intros _. split; [lia|].
    intros buf pos max Hpos Hroom Hmax. unfold write_object_schema, write_size.
    replace (pos + (size + 1 - size)) with (pos + size_long 0) by (rewrite size_long_0; lia).
    apply on_write_long_fits; rewrite ?size_long_0; try lia.
    intros buf1 Hb1. apply writes_to_Written. reflexivity.
  - destruct type as [| | | | | | | | | |type_schema|record_type|]; try discriminate.
    + destruct (prec type_schema object 0) as [pobj object_size| | |] eqn:Hobj;
        try discriminate.
      injection H as <- <-. split; [discriminate|]. intros Hfit.
      apply records_fit_tuple in Hfit.
      inversion Hfit as [|? ? _ Hfit1]; subst. inversion Hfit1 as [|? ? Htup _]; subst.
      destruct (sized_object_fits _ _ _ _ Hobj Htup) as [Hnn Hw].
      pose proof (size_long_range object_size).
      split; [lia|]. intros buf pos max Hpos Hroom Hmax.
      unfold write_object_schema.
      replace (pos + (size + (object_size + size_long object_size) - size))
        with (pos + (object_size + size_long object_size)) in * by lia.
      apply Hw; assumption.
    + destruct object as [| | | | | | | | | | | |record]; try discriminate.
      destruct (negb (same_type (Rec.type record) record_type)); [discriminate|].
      injection H as <- <-. split; [discriminate|]. intros Hfit.
      apply records_fit_tuple in Hfit.
      inversion Hfit as [|? ? _ Hfit1]; subst. inversion Hfit1 as [|? ? Hr _]; subst.
      inversion Hr as [r Hrf| | | | | | | | | | | |]; subst.
      destruct (sized_record_fits _ Hrf) as [Hnn Hw].
      pose proof (size_long_range (fst (size_record record))).
      split; [lia|]. intros buf pos max Hpos Hroom Hmax.
      unfold write_object_schema.
      replace (pos + (size + (fst (size_record record)
                              + size_long (fst (size_record record))) - size))
        with (pos + (fst (size_record record)
                     + size_long (fst (size_record record)))) in * by lia.
      apply Hw; assumption.
Qed.

Lemma schema_objects_agree type type_schema : forall objects i size items size',
  prepare_schema_objects prec type type_schema objects i size = Items_ok items size' ->
  loop_agrees (length objects) items size size'
              (write_schema_objects wrec type_schema items).
Proof.
  induction objects as [|object objects IH]; intros i size items size' H;
    cbn [prepare_schema_objects] in H.
  - injection H as <- <-. apply loop_agrees_nil. reflexivity.
  - destruct (prec type_schema object 0) as [pobj object_size| | |] eqn:Hobj;
      try discriminate.
    destruct (prepare_schema_objects prec type type_schema objects (i + 1)
                (size + (object_size + size_long object_size)))
      as [items1 size2| | |] eqn:Hrest; try discriminate.
    injection H as <- <-. cbn [length].
    eapply loop_agrees_cons
      with (size1 := size + (object_size + size_long object_size))
           (first := fun buf pos max =>
                       write_sized_object wrec type_schema
                         (Py_Tuple [Py_Long object_size; pobj]) buf pos max).
    + intros Hfit. destruct (sized_object_fits _ _ _ _ Hobj Hfit) as [Hnn Hw].
      pose proof (size_long_range object_size).
      split; [lia|]. intros buf pos max Hpos Hroom Hmax.
      replace (pos + (size + (object_size + size_long object_size) - size))
        with (pos + (object_size + size_long object_size)) in * by lia.
      apply Hw; assumption.
    + apply (IH _ _ _ _ Hrest).
    + reflexivity.
Qed.

Lemma record_objects_agree record_type : forall objects i size items size',
  prepare_record_objects record_type objects i size = Items_ok items size' ->
  loop_agrees (length objects) items size size' (write_record_objects items).
Proof.
  induction objects as [|object objects IH]; intros i size items size' H;
    cbn [prepare_record_objects] in H.
  - injection H as <- <-. apply loop_agrees_nil. reflexivity.
  - destruct object as [| | | | | | | | | | | |record]; try discriminate.
    destruct (negb (same_type (Rec.type record) record_type)); [discriminate|].
    destruct (prepare_record_objects record_type objects (i + 1) _)
      as [items1 size2| | |] eqn:Hrest; try discriminate.
    injection H as <- <-. cbn [length].
    eapply loop_agrees_cons
      with (size1 := size + (fst (size_record record)
                             + size_long (fst (size_record record))))
           (first := fun buf pos max => write_sized_record (Py_Record record) buf pos max).
    + intros Hfit. inversion Hfit as [r Hrf| | | | | | | | | | | |]; subst.
      destruct (sized_record_fits _ Hrf) as [Hnn Hw].
      pose proof (size_long_range (fst (size_record record))).
      split; [lia|]. intros buf pos max Hpos Hroom Hmax.
      replace (pos + (size + (fst (size_record record)
                              + size_long (fst (size_record record))) - size))
        with (pos + (fst (size_record record)
                     + size_long (fst (size_record record)))) in * by lia.
      apply Hw; assumption.
    + apply (IH _ _ _ _ Hrest).
    + reflexivity.
Qed.

Lemma agree_object_array :
  agree (prepare_object_array_schema prec) (write_object_array_schema wrec).
Proof.
  intros schema value size prepared size' H. unfold prepare_object_array_schema in H.
  destruct value as [| | | | | | |tuple| | | | |]; try discriminate.
  destruct tuple as [|type [|objects [|? ?]]]; try discriminate.
  - injection H as <- <-. split; [discriminate|]. intros _. split; [lia|].
    intros buf pos max Hpos Hroom Hmax. unfold write_object_array_schema, write_size.
    replace (pos + (size + 1 - size)) with (pos + size_long 0) by (rewrite size_long_0; lia).
    apply on_write_long_fits; rewrite ?size_long_0; try lia.
    intros buf1 Hb1. apply writes_to_Written. reflexivity.
  - assert (Hframe : forall n items size1 write,
      loop_agrees n items size size1 write ->
      Prepared (Py_Tuple [type; Py_List items])
               (size1 + (size_long (Z.of_nat n) + terminator (Z.of_nat n)))
      = Prepared prepared size' ->
      (is_none prepared = true -> false = true)
      /\ (records_fit prepared ->
          size <= size'
          /\ forall buf pos max,
               0 <= pos -> pos + (size' - size) <= max -> max <= zlength buf ->
               writes_to
                 (on_write (write_size buf pos max (Z.of_nat (length items)))
                    (fun buf pos =>
                       if Z.of_nat (length items) =? 0 then Written buf pos
                       else bind_write (write buf pos max)
                              (fun buf pos =>
                                 on_write (write_size buf pos max 0) Written)))
                 buf (pos + (size' - size)))).
    { intros n items size1 write (Hlen & Hzero & Hl) Heq.
      injection Heq as <- <-. split; [discriminate|]. intros Hfit.
      apply records_fit_tuple in Hfit.
      inversion Hfit as [|? ? _ Hfit1]; subst. inversion Hfit1 as [|? ? Hlist _]; subst.
      apply records_fit_list in Hlist. destruct (Hl Hlist) as [Hle Hw].
      pose proof (size_long_range (Z.of_nat (length items))).
      assert (0 <= terminator (Z.of_nat (length items))).
      { unfold terminator. destruct (_ >? _); lia. }
      split; [lia|]. intros buf pos max Hpos Hroom Hmax.
      apply framed_items_fit; try assumption. reflexivity. }
    destruct type as [| | | | | | | | | |type_schema|record_type|]; try discriminate.
    + destruct (PySequence_Fast objects) as [object_seq|]; [|discriminate].
      destruct (prepare_schema_objects prec (Py_Schema type_schema) type_schema
                  object_seq 0 size) as [items size1| | |] eqn:Hitems;
        try discriminate.
      pose proof (schema_objects_agree _ _ _ _ _ _ _ Hitems) as Hloop.
      destruct (Hframe _ _ _ _ Hloop H) as [Hn Hw].
      split; [intros Hp; discriminate (Hn Hp)|]. intros Hfit.
      destruct (Hw Hfit) as [Hle Hwr]. split; [exact Hle|].
      intros buf pos max Hpos Hroom Hmax.
      injection H as <- _. unfold write_object_array_schema.
      apply Hwr; assumption.
    + destruct (PySequence_Fast objects) as [object_seq|]; [|discriminate].
      destruct (prepare_record_objects record_type object_seq 0 size)
        as [items size1| | |] eqn:Hitems; try discriminate.
      pose proof (record_objects_agree _ _ _ _ _ _ Hitems) as Hloop.
      destruct (Hframe _ _ _ _ Hloop H) as [Hn Hw].
      split; [intros Hp; discriminate (Hn Hp)|]. intros Hfit.
      destruct (Hw Hfit) as [Hle Hwr]. split; [exact Hle|].
      intros buf pos max Hpos Hroom Hmax.
      injection H as <- _. unfold write_object_array_schema.
      apply Hwr; assumption.
Qed.

End Objects.

(** For a prepared value of a schema, the size reported by the prepare
    pass is the cursor advance of the write pass, on every window with that
    much room, provided the records embedded in the value are written in
    [size_record] bytes.  (C3 fails on the records that are not: those
    whose last column is a date, a datetime or a time.) *)
Lemma prepare_write_agree {host : HostRuntime} : forall depth,
  agree (prepare_schema depth) (write_schema depth).
Proof.
  induction depth as [|depth IH].
  - intros schema value size prepared size' H. discriminate.
  - intros schema value size prepared size' H. cbn [prepare_schema write_schema] in *.
    destruct (data_type schema); cbn [prepare_schema_types write_schema_types] in *.
    + exact (agree_nullable _ _ IH _ _ _ _ _ H).
    + exact (agree_boolean _ _ _ _ _ H).
    + exact (agree_bytes _ _ _ _ _ H).
    + exact (agree_double _ _ _ _ _ H).
    + exact (agree_float _ _ _ _ _ H).
    + exact (agree_int _ _ _ _ _ H).
    + exact (agree_long _ _ _ _ _ H).
    + exact (agree_string _ _ _ _ _ H).
    + exact (agree_array _ _ IH _ _ _ _ _ H).
    + exact (agree_map _ _ IH _ _ _ _ _ H).
    + exact (agree_record _ _ IH _ _ _ _ _ H).
    + exact (agree_object _ _ IH _ _ _ _ _ H).
    + exact (agree_object_array _ _ IH _ _ _ _ _ H).
Qed.

Lemma write_plain_column dt cv buf pos max :
  plain_kind dt = true ->
  0 <= pos -> pos + size_column dt cv <= max -> max <= zlength buf ->
  1 <= size_column dt cv
  /\ exists buf', write_column dt buf pos max cv = Ok buf' (pos + size_column dt cv)
                  /\ zlength buf' = zlength buf.
Proof.
  intros Hk Hpos Hroom Hmax.
  destruct dt; try discriminate; cbn [size_column write_column] in *;
    unfold size_int_column, size_long_column, size_timestamp_column,
      size_double_column, size_float_column, write_int_column, write_long_column,
      write_timestamp_column, write_double_column, write_float_column,
      write_int in *.
  - (* double *)
    split; [lia|]. unfold write_double. destruct (Z.gtb_spec (pos + 8) max); [lia|].
    eexists. split; [reflexivity|]. apply zlength_store; [lia|].
    unfold zlength at 1, value_bytes. rewrite length_firstn, length_le_split.
    unfold zlength in *. lia.
  - (* float *)
    split; [lia|]. unfold write_float. destruct (Z.gtb_spec (pos + 4) max); [lia|].
    eexists. split; [reflexivity|]. apply zlength_store; [lia|].
    unfold zlength at 1, value_bytes. rewrite length_firstn, length_le_split.
    unfold zlength in *. lia.
  - split; [apply size_long_range|]. apply write_long_fits; assumption.
  - split; [apply size_long_range|]. apply write_long_fits; assumption.
  - split; [apply size_long_range|]. apply write_long_fits; assumption.
  - split; [apply size_long_range|]. apply write_long_fits; assumption.
  - (* timestamp: the size is taken of the stored value, the write replaces a
       zero cell by the default first *)
    split; [apply size_long_range|].
    destruct (Z.eqb_spec (value_l (value cv)) 0) as [Hz|Hnz].
    + rewrite Hz in *.
      change (size_long (DT.datetime_to_epoch_ms 0))
        with (size_long (DT.datetime_to_epoch_ms DT.DT_DEFAULT)) in *.
      apply write_long_fits; assumption.
    + apply write_long_fits; assumption.
Qed.

Lemma size_plain_column dt cv : plain_kind dt = true -> 1 <= size_column dt cv.
Proof.
  intros Hk. destruct dt; try discriminate; cbn [size_column];
    unfold size_int_column, size_long_column, size_timestamp_column,
      size_double_column, size_float_column;
    try lia; apply size_long_range.
Qed.

Lemma size_plain_columns : forall defs vals,
  Forall (fun d => plain_kind (Rec.data_type d) = true) defs ->
  0 <= size_columns defs vals 0.
Proof.
  induction defs as [|d defs IH]; intros vals Hplain; destruct vals as [|v vals];
    cbn [size_columns]; try lia.
  inversion Hplain as [|? ? Hd Hdefs]; subst.
  pose proof (size_plain_column _ v Hd). specialize (IH vals Hdefs).
  destruct (is_nullable d); [destruct (len v <? 0)|];
    rewrite !size_columns_shift; lia.
Qed.

Lemma write_plain_columns : forall defs vals buf pos max,
  Forall (fun d => plain_kind (Rec.data_type d) = true) defs ->
  0 <= pos -> pos + size_columns defs vals 0 <= max -> max <= zlength buf ->
  exists buf',
    write_columns defs vals buf pos max = Ok buf' (pos + size_columns defs vals 0)
    /\ zlength buf' = zlength buf.
Proof.
  induction defs as [|d defs IH]; intros vals buf pos max Hplain Hpos Hroom Hmax;
    destruct vals as [|v vals]; cbn [size_columns write_columns] in *;
    try (exists buf; rewrite Z.add_0_r; auto; fail).
  inversion Hplain as [|? ? Hd Hdefs]; subst.
  pose proof (size_plain_columns defs vals Hdefs) as Hnn.
  pose proof (size_plain_column _ v Hd) as Hc.
  set (c := size_column (Rec.data_type d) v) in *.
  destruct (is_nullable d).
  - destruct (Z.ltb_spec (len v) 0); rewrite !size_columns_shift in *.
    + destruct (write_long_fits buf pos max 1) as (buf1 & Hw1 & Hb1);
        rewrite ?size_long_1; try lia.
      rewrite Hw1, size_long_1. cbn [bind].
      destruct (IH vals buf1 (pos + 1) max Hdefs) as (buf2 & Hw & Hb2); try lia.
      exists buf2. rewrite Hw. split; [f_equal; lia|lia].
    + destruct (write_long_fits buf pos max 0) as (buf1 & Hw1 & Hb1);
        rewrite ?size_long_0; try lia.
      rewrite Hw1, size_long_0. cbn [bind].
      destruct (write_plain_column (Rec.data_type d) v buf1 (pos + 1) max Hd)
        as (_ & buf2 & Hw2 & Hb2); fold c; try lia.
      rewrite Hw2. cbn [bind]. fold c.
      destruct (IH vals buf2 (pos + 1 + c) max Hdefs) as (buf3 & Hw & Hb3); try lia.
      exists buf3. rewrite Hw. split; [f_equal; lia|lia].
  - rewrite !size_columns_shift in *.
    destruct (write_plain_column (Rec.data_type d) v buf pos max Hd)
      as (_ & buf2 & Hw2 & Hb2); fold c; try lia.
    rewrite Hw2. cbn [bind]. fold c.
    destruct (IH vals buf2 (pos + c) max Hdefs) as (buf3 & Hw & Hb3); try lia.
    exists buf3. rewrite Hw. split; [f_equal; lia|lia].
Qed.

(** A record of plain columns whose size is not cached, or is cached
    right, fits. *)
Lemma plain_record_fits record :
  Forall (fun d => plain_kind (Rec.data_type d) = true) (column_defs (type record)) ->
  size record = 0
  \/ size record = size_columns (column_defs (type record)) (column_values record) 0 ->
  record_fits record.
Proof.
  intros Hplain Hsize.
  pose proof (size_plain_columns _ (column_values record) Hplain) as Hnn.
  assert (Hs : fst (size_record record)
               = size_columns (column_defs (type record)) (column_values record) 0
               /\ type (snd (size_record record)) = type record
               /\ column_values (snd (size_record record)) = column_values record).
  { unfold size_record. destruct (Z.eqb_spec (size record) 0) as [Hz|Hnz]; cbn.
    - auto.
    - destruct Hsize; [contradiction|auto]. }
  destruct Hs as (Hsz & Ht & Hv). split; [lia|].
  intros buf pos max Hpos Hroom Hmax. unfold write_record.
  rewrite Ht, Hv, Hsz in *. apply write_plain_columns; assumption.
Qed.

(** The agreement at work: an [object] holding a record of two ints is
    prepared to 3 bytes and written in 3 bytes on every window with room. *)
Example write_embedded_ints buf pos max :
  0 <= pos -> pos + 3 <= max -> max <= zlength buf ->
  writes_to (write_schema 1 object_schema buf pos max embedded_ints) buf (pos + 3).
Proof.
  intros Hpos Hroom Hmax.
  assert (Hp : prepare_schema 1 object_schema embedded_ints 0 = Prepared embedded_ints 3)
    by reflexivity.
  destruct (prepare_write_agree 1 _ _ _ _ _ Hp) as [_ Hw].
  destruct Hw as [_ Hw].
  - apply fit_tuple. constructor; [apply fit_record_type|].
    constructor; [|constructor]. apply fit_record.
    apply plain_record_fits; [repeat constructor|left; reflexivity].
  - apply Hw; assumption.
Qed.

(** C3, at the failing input.  For an [object] holding a record whose last
    column is a date, prepare reports 12 bytes (the length header and the
    11 bytes of the record); the write pass on a window of exactly 12 bytes
    fails with [EOFError] where the claim has it advance by 12, and
    [Schema.encode] raises.  One more byte of window and the cursor advances
    by 12. *)
Theorem prepare_size_write_short :
  prepare_schema 1 object_schema embedded_leap_day 0 = Prepared embedded_leap_day 12
  /\ write_schema 1 object_schema (repeat 0 12) 0 12 embedded_leap_day
     = Write_error eof_on_write
  /\ Schema_encode 1 object_schema embedded_leap_day
     = Sch.Encode_raised eof_on_write None
  /\ write_schema 1 object_schema (repeat 0 13) 0 13 embedded_leap_day
     = Written [22; 20; 50; 48; 50; 52; 45; 48; 50; 45; 50; 57; 0] 12.
Proof. repeat split; vm_compute; reflexivity. Qed.

(** [Schema.encode] continues to the write pass whenever the preparation
    fails without a path. *)
Lemma Schema_encode_without_path {host : HostRuntime} depth self value e size :
  prepare_schema depth self value 0 = Prepare_error e None size ->
  Schema_encode depth self value = Encode_write_null size.
Proof. unfold Schema_encode. intros ->. reflexivity. Qed.

(** C6, at the failing input.  A preparation that fails at the top level of
    an [object], [int] or [bytes] node sets no path; [Schema.encode] then
    skips its [goto error], allocates the buffer and calls [write_schema]
    with the null prepared object, instead of returning the error.  A
    failure below the top level sets a path and is raised. *)
Theorem Schema_encode_null_prepared :
  prepare_schema 1 object_schema (Py_Long 5) 0
  = Prepare_error (PyExc_TypeError, "value must be tuple"%string) None 0
  /\ Schema_encode 1 object_schema (Py_Long 5) = Encode_write_null 0
  /\ Schema_encode 1 int_schema (Py_Unicode [97; 98; 99]) = Encode_write_null 0
  /\ Schema_encode 1 bytes_schema (Py_Long 5) = Encode_write_null 0
  /\ Schema_encode 2 int_array_schema (Py_List [Py_Unicode [97]])
     = Sch.Encode_raised host_error (Some [Array_item 0]).
Proof. repeat split; vm_compute; reflexivity. Qed.


(** ** Packed dates and times: fields *)

(** A field of [n] bits at bit [k], read through its mask. *)
Lemma shiftr_land_field S k n :
  0 <= k -> 0 <= n ->
  Z.shiftr (Z.land S (Z.shiftl (Z.ones n) k)) k = (S / 2 ^ k) mod 2 ^ n.
Proof.
  intros Hk Hn. rewrite Z.shiftr_land, Z.shiftr_shiftl_l by lia.
  rewrite Z.sub_diag, Z.shiftl_0_r, Z.land_ones, Z.shiftr_div_pow2 by lia.
  reflexivity.
Qed.

(** The topmost field, whose mask has the sign bit set. *)
Lemma shiftr_land_top S k :
  0 <= k -> Z.shiftr (Z.land S (- 2 ^ k)) k = S / 2 ^ k.
Proof.
  intros Hk.
  replace (- 2 ^ k) with (Z.shiftl (-1) k) by (rewrite Z.shiftl_mul_pow2 by lia; lia).
  rewrite Z.shiftr_land, Z.shiftr_shiftl_l by lia.
  rewrite Z.sub_diag, Z.shiftl_0_r, Z.land_m1_r, Z.shiftr_div_pow2 by lia.
  reflexivity.
Qed.

Lemma field_of_sum hi f lo P N :
  0 < P -> 0 < N -> 0 <= lo < P -> 0 <= f < N ->
  ((hi * N + f) * P + lo) / P mod N = f.
Proof.
  intros HP HN Hlo Hf.
  rewrite <- (Z.div_unique_pos ((hi * N + f) * P + lo) P (hi * N + f) lo);
    [|lia|ring].
  symmetry. apply (Z.mod_unique_pos _ N hi f); [lia|ring].
Qed.

Lemma top_of_sum hi lo P : 0 < P -> 0 <= lo < P -> (hi * P + lo) / P = hi.
Proof. intros HP Hlo. symmetry. apply (Z.div_unique_pos _ P hi lo); [lia|ring]. Qed.

Lemma TIME_fields h m s ms :
  0 <= h < 32 -> 0 <= m < 64 -> 0 <= s < 64 -> 0 <= ms < 1024 ->
  TIME_HOUR (encode_time h m s ms) = h
  /\ TIME_MINUTE (encode_time h m s ms) = m
  /\ TIME_SEC (encode_time h m s ms) = s
  /\ TIME_MSEC (encode_time h m s ms) = ms.
Proof.
  intros Hh Hm Hs Hms.
  unfold encode_time.
  change TIME_SHIFT_HOUR with 26. change TIME_SHIFT_MINUTE with 20.
  change TIME_SHIFT_SEC with 14. change TIME_SHIFT_MSEC with 4.
  rewrite !Z.shiftl_mul_pow2 by lia.
  change (2 ^ 26) with 67108864. change (2 ^ 20) with 1048576.
  change (2 ^ 14) with 16384. change (2 ^ 4) with 16.
  rewrite wrap32s_small by (change (2 ^ 31) with 2147483648; lia).
  unfold TIME_HOUR, TIME_MINUTE, TIME_SEC, TIME_MSEC.
  change TIME_SHIFT_HOUR with 26. change TIME_SHIFT_MINUTE with 20.
  change TIME_SHIFT_SEC with 14. change TIME_SHIFT_MSEC with 4.
  change TIME_MASK_HOUR with (Z.shiftl (Z.ones 5) 26).
  change TIME_MASK_MINUTE with (Z.shiftl (Z.ones 6) 20).
  change TIME_MASK_SEC with (Z.shiftl (Z.ones 6) 14).
  change TIME_MASK_MSEC with (Z.shiftl (Z.ones 10) 4).
  rewrite !shiftr_land_field by lia.
  change (2 ^ 26) with 67108864. change (2 ^ 20) with 1048576.
  change (2 ^ 14) with 16384. change (2 ^ 4) with 16.
  change (2 ^ 5) with 32. change (2 ^ 6) with 64. change (2 ^ 10) with 1024.
  repeat split.
  - replace (h * 67108864 + m * 1048576 + s * 16384 + ms * 16)
      with ((0 * 32 + h) * 67108864 + (m * 1048576 + s * 16384 + ms * 16)) by lia.
    apply field_of_sum; lia.
  - replace (h * 67108864 + m * 1048576 + s * 16384 + ms * 16)
      with ((h * 64 + m) * 1048576 + (s * 16384 + ms * 16)) by lia.
    apply field_of_sum; lia.
  - replace (h * 67108864 + m * 1048576 + s * 16384 + ms * 16)
      with (((h * 64 + m) * 64 + s) * 16384 + ms * 16) by lia.
    apply field_of_sum; lia.
  - replace (h * 67108864 + m * 1048576 + s * 16384 + ms * 16)
      with ((((h * 64 + m) * 64 + s) * 1024 + ms) * 16 + 0) by lia.
    apply field_of_sum; lia.
Qed.

Lemma DATE_fields y m d yd wd :
  - 1024 <= y - DATE_BASE_YEAR < 1024 ->
  0 <= m < 16 ->
  0 <= d < 32 ->
  0 <= yd < 512 ->
  0 <= wd < 8 ->
  let packed :=
    wrap32s
      (Z.shiftl (y - DATE_BASE_YEAR) DATE_SHIFT_YEAR
       + Z.shiftl m DATE_SHIFT_MONTH
       + Z.shiftl d DATE_SHIFT_DAY
       + Z.shiftl yd DATE_SHIFT_YDAY
       + Z.shiftl wd DATE_SHIFT_WDAY) in
  DATE_YEAR packed = y
  /\ DATE_MONTH packed = m
  /\ DATE_DAY packed = d
  /\ DATE_YDAY packed = yd
  /\ DATE_WDAY packed = wd.
Proof.
  intros Hy Hm Hd Hyd Hwd packed. subst packed.
  change DATE_SHIFT_YEAR with 21. change DATE_SHIFT_MONTH with 17. change DATE_SHIFT_DAY with 12. change DATE_SHIFT_YDAY with 3. change DATE_SHIFT_WDAY with 0.
  change DATE_BASE_YEAR with 1900 in *.
  rewrite !Z.shiftl_mul_pow2 by lia.
  change (2 ^ 31) with 2147483648. change (2 ^ 21) with 2097152. change (2 ^ 17) with 131072. change (2 ^ 12) with 4096. change (2 ^ 9) with 512. change (2 ^ 5) with 32. change (2 ^ 4) with 16. change (2 ^ 3) with 8. change (2 ^ 0) with 1.
  rewrite wrap32s_small by (change (2 ^ 31) with 2147483648; lia).
  set (S := (y - 1900) * 2097152 + m * 131072 + d * 4096 + yd * 8 + wd * 1).
  unfold DATE_YEAR, DATE_MONTH, DATE_DAY, DATE_YDAY, DATE_WDAY.
  change DATE_SHIFT_YEAR with 21. change DATE_SHIFT_MONTH with 17. change DATE_SHIFT_DAY with 12. change DATE_SHIFT_YDAY with 3. change DATE_SHIFT_WDAY with 0.
  change DATE_MASK_YEAR with (- 2 ^ 21).
  change DATE_MASK_MONTH with (Z.shiftl (Z.ones 4) 17).
  change DATE_MASK_DAY with (Z.shiftl (Z.ones 5) 12).
  change DATE_MASK_YDAY with (Z.shiftl (Z.ones 9) 3).
  change DATE_MASK_WDAY with (Z.shiftl (Z.ones 3) 0).
  change DATE_BASE_YEAR with 1900 in *.
  rewrite shiftr_land_top, !shiftr_land_field by lia.
  change (2 ^ 31) with 2147483648. change (2 ^ 21) with 2097152. change (2 ^ 17) with 131072. change (2 ^ 12) with 4096. change (2 ^ 9) with 512. change (2 ^ 5) with 32. change (2 ^ 4) with 16. change (2 ^ 3) with 8. change (2 ^ 0) with 1.
  repeat split.
  - replace S with ((y - 1900) * 2097152 + (m * 131072 + d * 4096 + yd * 8 + wd * 1)) by (subst S; lia).
    rewrite top_of_sum by lia. lia.
  - replace S with ((((y - 1900) * 1) * 16 + m) * 131072 + (d * 4096 + yd * 8 + wd * 1)) by (subst S; lia).
    apply field_of_sum; lia.
  - replace S with ((((y - 1900) * 16 + m * 1) * 32 + d) * 4096 + (yd * 8 + wd * 1)) by (subst S; lia).
    apply field_of_sum; lia.
  - replace S with ((((y - 1900) * 512 + m * 32 + d * 1) * 512 + yd) * 8 + (wd * 1)) by (subst S; lia).
    apply field_of_sum; lia.
  - replace S with ((((y - 1900) * 262144 + m * 16384 + d * 512 + yd * 1) * 8 + wd) * 1 + (0)) by (subst S; lia).
    apply field_of_sum; lia.
Qed.

Lemma DT_fields y m d h mi s ms yd wd :
  - 1024 <= y - DT_BASE_YEAR < 1024 ->
  0 <= m < 16 ->
  0 <= d < 32 ->
  0 <= h < 32 ->
  0 <= mi < 64 ->
  0 <= s < 64 ->
  0 <= ms < 1024 ->
  0 <= yd < 512 ->
  0 <= wd < 8 ->
  let packed :=
    wrap64s
      (Z.shiftl (y - DT_BASE_YEAR) DT_SHIFT_YEAR
       + Z.shiftl m DT_SHIFT_MONTH
       + Z.shiftl d DT_SHIFT_DAY
       + Z.shiftl h DT_SHIFT_HOUR
       + Z.shiftl mi DT_SHIFT_MINUTE
       + Z.shiftl s DT_SHIFT_SEC
       + Z.shiftl ms DT_SHIFT_MSEC
       + Z.shiftl yd DT_SHIFT_YDAY
       + Z.shiftl wd DT_SHIFT_WDAY) in
  DT_YEAR packed = y
  /\ DT_MONTH packed = m
  /\ DT_DAY packed = d
  /\ DT_HOUR packed = h
  /\ DT_MINUTE packed = mi
  /\ DT_SEC packed = s
  /\ DT_MSEC packed = ms
  /\ DT_YDAY packed = yd
  /\ DT_WDAY packed = wd.
Proof.
  intros Hy Hm Hd Hh Hmi Hs Hms Hyd Hwd packed. subst packed.
  change DT_SHIFT_YEAR with 53. change DT_SHIFT_MONTH with 49. change DT_SHIFT_DAY with 44. change DT_SHIFT_HOUR with 39. change DT_SHIFT_MINUTE with 33. change DT_SHIFT_SEC with 27. change DT_SHIFT_MSEC with 17. change DT_SHIFT_YDAY with 8. change DT_SHIFT_WDAY with 5.
  change DT_BASE_YEAR with 1900 in *.
  rewrite !Z.shiftl_mul_pow2 by lia.
  change (2 ^ 63) with 9223372036854775808. change (2 ^ 53) with 9007199254740992. change (2 ^ 49) with 562949953421312. change (2 ^ 44) with 17592186044416. change (2 ^ 39) with 549755813888. change (2 ^ 33) with 8589934592. change (2 ^ 27) with 134217728. change (2 ^ 17) with 131072. change (2 ^ 10) with 1024. change (2 ^ 9) with 512. change (2 ^ 8) with 256. change (2 ^ 6) with 64. change (2 ^ 5) with 32. change (2 ^ 4) with 16. change (2 ^ 3) with 8.
  rewrite wrap64s_small by (change (2 ^ 63) with 9223372036854775808; lia).
  set (S := (y - 1900) * 9007199254740992 + m * 562949953421312 + d * 17592186044416 + h * 549755813888 + mi * 8589934592 + s * 134217728 + ms * 131072 + yd * 256 + wd * 32).
  unfold DT_YEAR, DT_MONTH, DT_DAY, DT_HOUR, DT_MINUTE, DT_SEC, DT_MSEC, DT_YDAY, DT_WDAY.
  change DT_SHIFT_YEAR with 53. change DT_SHIFT_MONTH with 49. change DT_SHIFT_DAY with 44. change DT_SHIFT_HOUR with 39. change DT_SHIFT_MINUTE with 33. change DT_SHIFT_SEC with 27. change DT_SHIFT_MSEC with 17. change DT_SHIFT_YDAY with 8. change DT_SHIFT_WDAY with 5.
  change DT_MASK_YEAR with (- 2 ^ 53).
  change DT_MASK_MONTH with (Z.shiftl (Z.ones 4) 49).
  change DT_MASK_DAY with (Z.shiftl (Z.ones 5) 44).
  change DT_MASK_HOUR with (Z.shiftl (Z.ones 5) 39).
  change DT_MASK_MINUTE with (Z.shiftl (Z.ones 6) 33).
  change DT_MASK_SEC with (Z.shiftl (Z.ones 6) 27).
  change DT_MASK_MSEC with (Z.shiftl (Z.ones 10) 17).
  change DT_MASK_YDAY with (Z.shiftl (Z.ones 9) 8).
  change DT_MASK_WDAY with (Z.shiftl (Z.ones 3) 5).
  change DT_BASE_YEAR with 1900 in *.
  rewrite shiftr_land_top, !shiftr_land_field by lia.
  change (2 ^ 63) with 9223372036854775808. change (2 ^ 53) with 9007199254740992. change (2 ^ 49) with 562949953421312. change (2 ^ 44) with 17592186044416. change (2 ^ 39) with 549755813888. change (2 ^ 33) with 8589934592. change (2 ^ 27) with 134217728. change (2 ^ 17) with 131072. change (2 ^ 10) with 1024. change (2 ^ 9) with 512. change (2 ^ 8) with 256. change (2 ^ 6) with 64. change (2 ^ 5) with 32. change (2 ^ 4) with 16. change (2 ^ 3) with 8.
  repeat split.
  - replace S with ((y - 1900) * 9007199254740992 + (m * 562949953421312 + d * 17592186044416 + h * 549755813888 + mi * 8589934592 + s * 134217728 + ms * 131072 + yd * 256 + wd * 32)) by (subst S; lia).
    rewrite top_of_sum by lia. lia.
  - replace S with ((((y - 1900) * 1) * 16 + m) * 562949953421312 + (d * 17592186044416 + h * 549755813888 + mi * 8589934592 + s * 134217728 + ms * 131072 + yd * 256 + wd * 32)) by (subst S; lia).
    apply field_of_sum; lia.
  - replace S with ((((y - 1900) * 16 + m * 1) * 32 + d) * 17592186044416 + (h * 549755813888 + mi * 8589934592 + s * 134217728 + ms * 131072 + yd * 256 + wd * 32)) by (subst S; lia).
    apply field_of_sum; lia.
  - replace S with ((((y - 1900) * 512 + m * 32 + d * 1) * 32 + h) * 549755813888 + (mi * 8589934592 + s * 134217728 + ms * 131072 + yd * 256 + wd * 32)) by (subst S; lia).
    apply field_of_sum; lia.
  - replace S with ((((y - 1900) * 16384 + m * 1024 + d * 32 + h * 1) * 64 + mi) * 8589934592 + (s * 134217728 + ms * 131072 + yd * 256 + wd * 32)) by (subst S; lia).
    apply field_of_sum; lia.
  - replace S with ((((y - 1900) * 1048576 + m * 65536 + d * 2048 + h * 64 + mi * 1) * 64 + s) * 134217728 + (ms * 131072 + yd * 256 + wd * 32)) by (subst S; lia).
    apply field_of_sum; lia.
  - replace S with ((((y - 1900) * 67108864 + m * 4194304 + d * 131072 + h * 4096 + mi * 64 + s * 1) * 1024 + ms) * 131072 + (yd * 256 + wd * 32)) by (subst S; lia).
    apply field_of_sum; lia.
  - replace S with ((((y - 1900) * 68719476736 + m * 4294967296 + d * 134217728 + h * 4194304 + mi * 65536 + s * 1024 + ms * 1) * 512 + yd) * 256 + (wd * 32)) by (subst S; lia).
    apply field_of_sum; lia.
  - replace S with ((((y - 1900) * 35184372088832 + m * 2199023255552 + d * 68719476736 + h * 2147483648 + mi * 33554432 + s * 524288 + ms * 512 + yd * 1) * 8 + wd) * 32 + (0)) by (subst S; lia).
    apply field_of_sum; lia.
Qed.

(** ** Epoch milliseconds and packed datetimes *)

Import Epoch.

(** The loop of [epoch_ms_to_datetime] over the months from March: the
    month reached and the days left in it. *)
Lemma month_walk_march r4 :
  0 <= r4 <= 365 ->
  exists M d0,
    month_walk days_in_month_march 0 r4 = (M, d0)
    /\ 0 <= M <= 11
    /\ r4 = table_at days_before_month_march M + d0
    /\ 0 <= d0 < table_at days_in_month_march M.
Proof.
  intros Hr. unfold days_in_month_march at 1. cbn [month_walk].
  repeat match goal with
         | |- context [?a <=? ?b] => destruct (Z.leb_spec a b)
         end;
    try lia;
    (eexists; eexists; split; [reflexivity|]);
    (split; [lia|]);
    repeat match goal with
           | |- context [table_at ?t ?i] =>
               let v := eval vm_compute in (table_at t i) in
               change (table_at t i) with v
           end; lia.
Qed.

(** The divisions of [epoch_ms_to_datetime] on a day of the cycle of 400
    years: the century [c], the leap period [l] and the year [s] in it, and
    the day [r4] of the year counted from March. *)
Lemma civil_of_days_parts r :
  0 <= r < 146097 ->
  exists c l s r4 M d0,
    0 <= c <= 3 /\ 0 <= l <= 24 /\ 0 <= s <= 3 /\ 0 <= r4
    /\ r = 36524 * c + 1461 * l + 365 * s + r4
    /\ r4 <= 364 + (if (s =? 3) && (negb (l =? 24) || (c =? 3)) then 1 else 0)
    /\ 0 <= M <= 11
    /\ r4 = table_at days_before_month_march M + d0
    /\ 0 <= d0 < table_at days_in_month_march M
    /\ civil_of_days r
       = (100 * c + 4 * l + s + (if M + 3 >? 12 then 1 else 0),
          (if M + 3 >? 12 then M + 3 - 12 else M + 3),
          d0 + 1,
          (let is_leap := Z.b2z ((s =? 0) && (negb (l =? 0) || (c =? 0))) in
           if r4 + 59 + is_leap >=? 365 + is_leap
           then r4 + 59 + is_leap - (365 + is_leap) else r4 + 59 + is_leap) + 1,
          (r + 3) mod 7 + 1).
Proof.
  intros Hr. unfold civil_of_days.
  unfold DAYS_PER_WEEK, DAYS_PER_CYCLE, DAYS_PER_CENTURY, DAYS_PER_LEAP, DAYS_PER_YEAR,
    YEARS_PER_CYCLE, YEARS_PER_CENTURY, YEARS_PER_LEAP, CENTURIES_PER_CYCLE,
    MONTHS_PER_YEAR.
  rewrite (Z.quot_small r 146097), (Z.rem_small r 146097) by lia.
  rewrite (Z.rem_mod_nonneg (r + 3) 7) by lia.
  cbv zeta.
  set (c0 := Z.quot r 36524).
  assert (Hc0 : 36524 * c0 <= r < 36524 * c0 + 36524 /\ 0 <= c0 <= 4).
  { subst c0. rewrite Z.quot_div_nonneg by lia.
    pose proof (Z.div_mod r 36524 ltac:(lia)).
    pose proof (Z.mod_pos_bound r 36524 ltac:(lia)). lia. }
  clearbody c0.
  set (c := if c0 =? 4 then c0 - 1 else c0).
  assert (Hc : 0 <= c <= 3 /\ 36524 * c <= r <= 36524 * c + 36524
               /\ (r = 36524 * c + 36524 -> c = 3)).
  { subst c. destruct (Z.eqb_spec c0 4); lia. }
  clearbody c. clear c0 Hc0.
  set (r2 := r - c * 36524).
  assert (Hr2 : 0 <= r2 <= 36524 /\ r = 36524 * c + r2) by (subst r2; lia).
  clearbody r2.
  set (l := Z.quot r2 1461).
  assert (Hl : 1461 * l <= r2 < 1461 * l + 1461 /\ 0 <= l <= 24).
  { subst l. rewrite Z.quot_div_nonneg by lia.
    pose proof (Z.div_mod r2 1461 ltac:(lia)).
    pose proof (Z.mod_pos_bound r2 1461 ltac:(lia)). lia. }
  clearbody l.
  set (r3 := r2 - l * 1461).
  assert (Hr3 : 0 <= r3 <= 1460 /\ r2 = 1461 * l + r3) by (subst r3; lia).
  clearbody r3.
  set (s0 := Z.quot r3 365).
  assert (Hs0 : 365 * s0 <= r3 < 365 * s0 + 365 /\ 0 <= s0 <= 4).
  { subst s0. rewrite Z.quot_div_nonneg by lia.
    pose proof (Z.div_mod r3 365 ltac:(lia)).
    pose proof (Z.mod_pos_bound r3 365 ltac:(lia)). lia. }
  clearbody s0.
  set (s := if s0 =? 4 then s0 - 1 else s0).
  assert (Hs : 0 <= s <= 3 /\ 365 * s <= r3 <= 365 * s + 365
               /\ (r3 = 365 * s + 365 -> s = 3)).
  { subst s. destruct (Z.eqb_spec s0 4); lia. }
  clearbody s. clear s0 Hs0.
  set (r4 := r3 - s * 365).
  assert (Hr4 : 0 <= r4 <= 365 /\ r3 = 365 * s + r4) by (subst r4; lia).
  clearbody r4.
  destruct (month_walk_march r4 ltac:(lia)) as (M & d0 & Hwalk & HM & Hsum & Hd0).
  rewrite Hwalk.
  exists c, l, s, r4, M, d0.
  split; [lia|]. split; [lia|]. split; [lia|]. split; [lia|]. split; [lia|].
  split.
  { destruct (Z.eqb_spec s 3); destruct (Z.eqb_spec l 24); destruct (Z.eqb_spec c 3);
      cbn [andb orb negb]; lia. }
  split; [lia|]. split; [assumption|]. split; [assumption|].
  replace (0 * 400 + c * 100 + l * 4 + s) with (100 * c + 4 * l + s) by lia.
  destruct (M + 3 >? 12); rewrite ?Z.add_0_r; reflexivity.
Qed.

Lemma days_of_civil_march y m d :
  0 <= y -> 3 <= m \/ 1 <= y -> 1 <= m <= 12 ->
  let Y := if m <? 3 then y - 1 else y in
  days_of_civil y m d
  = Y * 365 + Y / 4 - Y / 100 + Y / 400
    + table_at days_before_month_march (if m <? 3 then m + 9 else m - 3) + d - 1.
Proof.
  intros Hy Hy1 Hm. unfold days_of_civil.
  unfold MONTHS_PER_YEAR, DAYS_PER_YEAR, YEARS_PER_LEAP, YEARS_PER_CENTURY, YEARS_PER_CYCLE.
  destruct (Z.ltb_spec m 3); destruct (Z.ltb_spec (m - 3) 0); try lia; cbv zeta.
  - rewrite !Z.quot_div_nonneg by lia. replace (m - 3 + 12) with (m + 9) by lia.
    reflexivity.
  - rewrite !Z.quot_div_nonneg by lia. reflexivity.
Qed.

(** The year [100 c + 4 l + s] of a cycle, divided as the code divides it. *)
Lemma year_parts c l s :
  0 <= c <= 3 -> 0 <= l <= 24 -> 0 <= s <= 3 ->
  let Y := 100 * c + 4 * l + s in
  Y / 4 = 25 * c + l /\ Y / 100 = c /\ Y / 400 = 0
  /\ Y mod 4 = s /\ Y mod 100 = 4 * l + s /\ Y mod 400 = Y.
Proof.
  intros Hc Hl Hs Y. subst Y. repeat split.
  - symmetry. apply (Z.div_unique_pos _ 4 _ s); lia.
  - symmetry. apply (Z.div_unique_pos _ 100 _ (4 * l + s)); lia.
  - apply Z.div_small. lia.
  - symmetry. apply (Z.mod_unique_pos _ 4 (25 * c + l) s); lia.
  - symmetry. apply (Z.mod_unique_pos _ 100 c (4 * l + s)); lia.
  - apply Z.mod_small. lia.
Qed.

Lemma leap_year_parts c l s :
  0 <= c <= 3 -> 0 <= l <= 24 -> 0 <= s <= 3 ->
  leap_year (100 * c + 4 * l + s) = (s =? 0) && (negb (l =? 0) || (c =? 0)).
Proof.
  intros Hc Hl Hs. unfold leap_year.
  destruct (year_parts c l s Hc Hl Hs) as (_ & _ & _ & -> & -> & ->).
  destruct (Z.eqb_spec s 0); destruct (Z.eqb_spec l 0); destruct (Z.eqb_spec c 0);
    destruct (Z.eqb_spec (4 * l + s) 0);
    destruct (Z.eqb_spec (100 * c + 4 * l + s) 0); cbn [andb orb negb];
    try reflexivity; lia.
Qed.

Lemma leap_year_next c l s :
  0 <= c <= 3 -> 0 <= l <= 24 -> 0 <= s <= 3 ->
  leap_year (100 * c + 4 * l + s + 1) = (s =? 3) && (negb (l =? 24) || (c =? 3)).
Proof.
  intros Hc Hl Hs. unfold leap_year.
  set (Y1 := 100 * c + 4 * l + s + 1).
  pose proof (Z.div_mod Y1 4 ltac:(lia)). pose proof (Z.mod_pos_bound Y1 4 ltac:(lia)).
  pose proof (Z.div_mod Y1 100 ltac:(lia)). pose proof (Z.mod_pos_bound Y1 100 ltac:(lia)).
  pose proof (Z.div_mod Y1 400 ltac:(lia)). pose proof (Z.mod_pos_bound Y1 400 ltac:(lia)).
  destruct (Z.eqb_spec s 3); destruct (Z.eqb_spec l 24); destruct (Z.eqb_spec c 3);
    destruct (Z.eqb_spec (Y1 mod 4) 0);
    destruct (Z.eqb_spec (Y1 mod 100) 0);
    destruct (Z.eqb_spec (Y1 mod 400) 0); cbn [andb orb negb];
    try reflexivity; subst Y1; lia.
Qed.

(** [compute_days] past its test of the year, on a date of the calendar:
    the day of the year from the table of the days before each month, and
    the day of the week from the year counted from March. *)
Lemma compute_days_body_march y m d :
  0 <= y -> 3 <= m \/ 1 <= y -> 1 <= m <= 12 -> 1 <= d <= days_in_month m y ->
  let Y := if m <? 3 then y - 1 else y in
  compute_days_body y m d
  = Days_ok
      (table_at days_before_month (m - 1) + d
       - (if (3 <=? m) && negb (leap_year y) then 1 else 0))
      ((d + table_at day_of_week_offset (m - 1) + Y + Y / 4 - Y / 100 + Y / 400)
         mod 7 + 1).
Proof.
  intros Hy Hy1 Hm Hd Y. subst Y. unfold compute_days_body.
  rewrite (Z.rem_mod_nonneg y 4), (Z.rem_mod_nonneg y 100), (Z.rem_mod_nonneg y 400)
    by lia.
  assert (Hnl : negb (y mod 4 =? 0) || (y mod 100 =? 0) && negb (y mod 400 =? 0)
                = negb (leap_year y)).
  { unfold leap_year. destruct (y mod 4 =? 0); destruct (y mod 100 =? 0);
      destruct (y mod 400 =? 0); reflexivity. }
  rewrite Hnl. unfold days_in_month in Hd.
  assert (Hnn : forall a, 0 <= a -> 0 <= a / 4 - a / 100 + a / 400).
  { intros a Ha.
    pose proof (Z.div_mod a 4 ltac:(lia)). pose proof (Z.mod_pos_bound a 4 ltac:(lia)).
    pose proof (Z.div_mod a 100 ltac:(lia)).
    pose proof (Z.mod_pos_bound a 100 ltac:(lia)).
    pose proof (Z.div_mod a 400 ltac:(lia)).
    pose proof (Z.mod_pos_bound a 400 ltac:(lia)). lia. }
  assert (Hcases : m = 1 \/ m = 2 \/ m = 3 \/ m = 4 \/ m = 5 \/ m = 6 \/ m = 7
                   \/ m = 8 \/ m = 9 \/ m = 10 \/ m = 11 \/ m = 12) by lia.
  repeat (destruct Hcases as [Hc|Hcases]; [subst m|]); try subst m;
    cbn [Z.eqb Pos.eqb orb Z.ltb Z.leb Z.compare Pos.compare Pos.compare_cont
         andb] in *;
    table_lookup; cbv iota;
    repeat match goal with
           | |- context [table_at ?t ?i] =>
               let v := eval vm_compute in (table_at t i) in
               change (table_at t i) with v
           end;
    destruct (leap_year y); cbn [negb andb Z.b2z] in *;
    repeat match goal with
           | |- context [?a >? ?b] => destruct (Z.gtb_spec a b); [lia|]
           | |- context [?a =? ?b] => destruct (Z.eqb_spec a b); [lia|]
           end;
    rewrite !Z.quot_div_nonneg by lia;
    (rewrite Z.rem_mod_nonneg;
     [f_equal; lia
     |first [pose proof (Hnn (y - 1) ltac:(lia)); lia | pose proof (Hnn y Hy); lia]
     |lia]).
Qed.

(** Every day of the cycle of 400 years that starts on 1 March 0000 passes
    the test. *)
Lemma cycle_days_ok r : 0 <= r < 146097 -> day_ok r = true.
Proof.
  intros Hr.
  destruct (civil_of_days_parts r Hr)
    as (c & l & s & r4 & M & d0 & Hc & Hl & Hs & Hr4 & Hsum & Hlen & HM & Hoff & Hd0
        & Hciv).
  unfold day_ok. rewrite Hciv. clear Hciv.
  destruct (year_parts c l s Hc Hl Hs) as (HY4 & HY100 & HY400 & _).
  pose proof (leap_year_parts c l s Hc Hl Hs) as Hleap.
  pose proof (leap_year_next c l s Hc Hl Hs) as Hnext.
  cbv zeta in HY4, HY100, HY400.
  set (Y := 100 * c + 4 * l + s) in *.
  assert (HY : 0 <= Y <= 399) by (subst Y; lia).
  set (il := (s =? 0) && (negb (l =? 0) || (c =? 0))) in *.
  set (nl := (s =? 3) && (negb (l =? 24) || (c =? 3))) in *.
  assert (Hwd : forall a b, 0 <= a -> 0 <= b -> (exists k, a = b + 7 * k) ->
                            a mod 7 + 1 = b mod 7 + 1).
  { intros a b Ha Hb (k & ->). f_equal.
    rewrite (Z.mul_comm 7 k). apply Z_mod_plus_full. }
  clearbody il nl.
  assert (HMc : M = 0 \/ M = 1 \/ M = 2 \/ M = 3 \/ M = 4 \/ M = 5 \/ M = 6
                \/ M = 7 \/ M = 8 \/ M = 9 \/ M = 10 \/ M = 11) by lia.
  cbv zeta.
  repeat (destruct HMc as [HMc|HMc]; [subst M|]); try subst M;
    repeat match goal with
           | H : context [table_at ?t ?i] |- _ =>
               let v := eval vm_compute in (table_at t i) in
               change (table_at t i) with v in H
           end;
    closed_tests; cbv iota; closed_tests; rewrite ?Z.add_0_r;
    match goal with
    | |- context [compute_days_body ?y ?m ?d] =>
        assert (Hvalid : 1 <= d <= Calendar.days_in_month m y)
          by (unfold Calendar.days_in_month; closed_tests; cbn [orb];
              cbv iota; try rewrite Hnext; destruct nl; lia);
        assert (Hy0 : 0 <= y) by lia;
        assert (Hy1 : 3 <= m \/ 1 <= y) by lia;
        pose proof (compute_days_body_march y m d Hy0 Hy1 ltac:(lia) Hvalid) as Hcd;
        pose proof (days_of_civil_march y m d Hy0 Hy1 ltac:(lia)) as Hdc;
        cbv zeta in Hcd, Hdc; rewrite Hcd, Hdc; clear Hcd Hdc
    end;
    closed_tests; cbv iota; closed_tests;
    replace (Y + 1 - 1) with Y by lia;
    rewrite ?Hleap, HY4, HY100, HY400;
    subst Y; clear Hleap Hnext HY4 HY100 HY400 Hwd;
    destruct il; cbn [Z.b2z negb andb orb];
    match goal with
    | |- context [?a >=? ?b] => destruct (Z.geb_spec a b); try lia
    end;
    destruct (Z.ltb_spec r 72989); destruct (Z.ltb_spec 36829 r); cbn [orb];
    repeat (apply andb_true_intro; split);
    first [reflexivity
          |apply Z.leb_le; first [lia|apply Hvalid]
          |apply Z.eqb_eq; first [lia|Z.to_euclidean_division_equations; lia]].
Qed.

Lemma civil_of_days_cycle c r :
  0 <= c -> 0 <= r < 146097 ->
  civil_of_days (146097 * c + r)
  = let '(y, m, d, yd, wd) := civil_of_days r in (y + 400 * c, m, d, yd, wd).
Proof.
  intros Hc Hr. unfold civil_of_days.
  unfold DAYS_PER_WEEK, DAYS_PER_CYCLE, DAYS_PER_CENTURY, DAYS_PER_LEAP, DAYS_PER_YEAR,
    YEARS_PER_CYCLE, YEARS_PER_CENTURY, YEARS_PER_LEAP, CENTURIES_PER_CYCLE,
    MONTHS_PER_YEAR.
  assert (Hq : Z.quot (146097 * c + r) 146097 = c).
  { rewrite Z.quot_div_nonneg by lia. symmetry. apply (Z.div_unique_pos _ 146097 c r); lia. }
  assert (Hm : Z.rem (146097 * c + r) 146097 = r).
  { rewrite Z.rem_mod_nonneg by lia. symmetry. apply (Z.mod_unique_pos _ 146097 c r); lia. }
  assert (Hq0 : Z.quot r 146097 = 0).
  { rewrite Z.quot_div_nonneg by lia. apply Z.div_small. lia. }
  assert (Hm0 : Z.rem r 146097 = r).
  { rewrite Z.rem_mod_nonneg by lia. apply Z.mod_small. lia. }
  assert (Hw : Z.rem (146097 * c + r + 3) 7 = Z.rem (r + 3) 7).
  { rewrite !Z.rem_mod_nonneg by lia.
    replace (146097 * c + r + 3) with (r + 3 + (20871 * c) * 7) by lia.
    apply Z_mod_plus_full. }
  rewrite Hq, Hm, Hq0, Hm0, Hw. cbv zeta.
  destruct (month_walk days_in_month_march 0 _) as [mo dd].
  destruct (mo + 3 >? 12); f_equal; f_equal; f_equal; f_equal; lia.
Qed.

Lemma quot400 y c k :
  0 <= y -> 0 <= c -> 0 < k -> (k | 400) ->
  Z.quot (y + 400 * c) k = Z.quot y k + (400 / k) * c.
Proof.
  intros Hy Hc Hk [q Hq].
  rewrite !Z.quot_div_nonneg by lia.
  assert (H400 : 400 / k = q) by (rewrite Hq; apply Z.div_mul; lia).
  rewrite H400. replace (y + 400 * c) with (y + (q * c) * k) by (rewrite Hq; ring).
  rewrite Z.div_add by lia. reflexivity.
Qed.

Lemma rem400 y c k :
  0 <= y -> 0 <= c -> 0 < k -> (k | 400) -> Z.rem (y + 400 * c) k = Z.rem y k.
Proof.
  intros Hy Hc Hk [q Hq].
  rewrite !Z.rem_mod_nonneg by lia.
  replace (y + 400 * c) with (y + (q * c) * k) by (rewrite Hq; ring).
  apply Z_mod_plus_full.
Qed.

Lemma leap_days_nonneg y :
  0 <= y -> 0 <= Z.quot y 4 - Z.quot y 100 + Z.quot y 400.
Proof.
  intros Hy. rewrite !Z.quot_div_nonneg by lia.
  assert (y / 100 <= y / 4) by (apply Z.div_le_compat_l; lia).
  assert (0 <= y / 400) by (apply Z.div_pos; lia). lia.
Qed.

Lemma days_of_civil_cycle y m d c :
  0 <= y -> 0 <= c -> 3 <= m \/ 1 <= y ->
  days_of_civil (y + 400 * c) m d = days_of_civil y m d + 146097 * c.
Proof.
  intros Hy Hc Hm. unfold days_of_civil.
  unfold MONTHS_PER_YEAR, DAYS_PER_YEAR, YEARS_PER_LEAP, YEARS_PER_CENTURY, YEARS_PER_CYCLE.
  destruct (Z.ltb_spec (m - 3) 0).
  - replace (y + 400 * c - 1) with (y - 1 + 400 * c) by lia.
    rewrite !quot400 by (try lia; try (exists 100; reflexivity);
                         try (exists 4; reflexivity); try (exists 1; reflexivity)).
    change (400 / 4) with 100. change (400 / 100) with 4. change (400 / 400) with 1. lia.
  - rewrite !quot400 by (try lia; try (exists 100; reflexivity);
                         try (exists 4; reflexivity); try (exists 1; reflexivity)).
    change (400 / 4) with 100. change (400 / 100) with 4. change (400 / 400) with 1. lia.
Qed.

Lemma leap_year_cycle y c : leap_year (y + 400 * c) = leap_year y.
Proof.
  unfold leap_year.
  replace (y + 400 * c) with (y + (100 * c) * 4) at 1 by ring.
  replace (y + 400 * c) with (y + (4 * c) * 100) at 1 by ring.
  replace (y + 400 * c) with (y + c * 400) by ring.
  rewrite !Z_mod_plus_full. reflexivity.
Qed.

Lemma days_in_month_cycle m y c :
  Calendar.days_in_month m (y + 400 * c) = Calendar.days_in_month m y.
Proof. unfold Calendar.days_in_month. rewrite leap_year_cycle. reflexivity. Qed.

Lemma compute_days_body_cycle y m d c yd wd :
  0 <= y -> 0 <= c -> 3 <= m \/ 1 <= y -> 1 <= m <= 12 -> 1 <= d ->
  compute_days_body y m d = Days_ok yd wd ->
  compute_days_body (y + 400 * c) m d = Days_ok yd wd.
Proof.
  intros Hy Hc Hm3 Hm Hd. unfold compute_days_body.
  rewrite !rem400 by (try lia; try (exists 100; reflexivity);
                      try (exists 4; reflexivity); try (exists 1; reflexivity)).
  destruct (table_get DT.days_in_month (m - 1)) as [dim|]; [|discriminate].
  destruct (d >? dim); [discriminate|].
  destruct (_ && (d =? 29)); [discriminate|].
  destruct (table_get days_before_month (m - 1)) as [before|] eqn:Hb; [|discriminate].
  destruct (table_get day_of_week_offset (m - 1)) as [offset|] eqn:Ho; [|discriminate].
  assert (Hoff : 0 <= offset).
  { assert (Hcases : m = 1 \/ m = 2 \/ m = 3 \/ m = 4 \/ m = 5 \/ m = 6 \/ m = 7
                     \/ m = 8 \/ m = 9 \/ m = 10 \/ m = 11 \/ m = 12) by lia.
    repeat (destruct Hcases as [->|Hcases]; [vm_compute in Ho; injection Ho as <-; lia|]).
    subst m. vm_compute in Ho. injection Ho as <-. lia. }
  destruct (Z.ltb_spec m 3) as [Hlt|Hge]; intros H; injection H as <- <-; f_equal.
  - replace (y + 400 * c - 1) with (y - 1 + 400 * c) by lia.
    rewrite !quot400 by (try lia; try (exists 100; reflexivity);
                         try (exists 4; reflexivity); try (exists 1; reflexivity)).
    change (400 / 4) with 100. change (400 / 100) with 4. change (400 / 400) with 1.
    f_equal.
    pose proof (leap_days_nonneg (y - 1) ltac:(lia)).
    rewrite !Z.rem_mod_nonneg by lia.
    replace (d + offset + (y - 1 + 400 * c) + (Z.quot (y - 1) 4 + 100 * c)
             - (Z.quot (y - 1) 100 + 4 * c) + (Z.quot (y - 1) 400 + 1 * c))
      with (d + offset + (y - 1) + Z.quot (y - 1) 4 - Z.quot (y - 1) 100
            + Z.quot (y - 1) 400 + (71 * c) * 7) by lia.
    apply Z_mod_plus_full.
  - rewrite !quot400 by (try lia; try (exists 100; reflexivity);
                         try (exists 4; reflexivity); try (exists 1; reflexivity)).
    change (400 / 4) with 100. change (400 / 100) with 4. change (400 / 400) with 1.
    f_equal.
    pose proof (leap_days_nonneg y Hy).
    rewrite !Z.rem_mod_nonneg by lia.
    replace (d + offset + (y + 400 * c) + (Z.quot y 4 + 100 * c)
             - (Z.quot y 100 + 4 * c) + (Z.quot y 400 + 1 * c))
      with (d + offset + y + Z.quot y 4 - Z.quot y 100 + Z.quot y 400 + (71 * c) * 7) by lia.
    apply Z_mod_plus_full.
Qed.

Lemma compute_days_in_range y m d :
  1000 <= y <= 2900 -> compute_days y m d = compute_days_body y m d.
Proof.
  intros Hy. unfold compute_days, compute_days_body, MIN_YEAR, MAX_YEAR.
  destruct (Z.ltb_spec y 1000); [lia|]. destruct (Z.gtb_spec y 2900); [lia|].
  reflexivity.
Qed.

(** [datetime_to_epoch_ms] in terms of the day count. *)
Lemma datetime_to_epoch_ms_days datetime :
  datetime_to_epoch_ms datetime
  = wrap64s
      (BASE_EPOCH_MS
       + days_of_civil (DT_YEAR datetime) (DT_MONTH datetime) (DT_DAY datetime)
         * MSEC_PER_DAY
       + DT_HOUR datetime * MSEC_PER_HOUR
       + DT_MINUTE datetime * MSEC_PER_MINUTE
       + DT_SEC datetime * MSEC_PER_SEC
       + DT_MSEC datetime).
Proof.
  unfold datetime_to_epoch_ms, days_of_civil.
  destruct (DT_MONTH datetime - 3 <? 0); reflexivity.
Qed.

(** [epoch_ms_to_datetime] in terms of the date of the day count. *)
Lemma epoch_ms_to_datetime_days epoch_ms :
  epoch_ms_to_datetime epoch_ms
  = pack_datetime (civil_of_days (Z.quot (epoch_ms - BASE_EPOCH_MS) MSEC_PER_DAY))
                  (Z.rem (epoch_ms - BASE_EPOCH_MS) MSEC_PER_DAY).
Proof.
  unfold epoch_ms_to_datetime, civil_of_days, pack_datetime. cbv zeta.
  destruct (month_walk days_in_month_march 0 _) as [mo dd].
  destruct (mo + 3 >? MONTHS_PER_YEAR); reflexivity.
Qed.

Lemma Days_ok_inj a b c d : Days_ok a b = Days_ok c d -> a = c /\ b = d.
Proof. intros H. injection H as -> ->. split; reflexivity. Qed.

Lemma compute_days_body_bounds y m d yd wd :
  0 <= y -> 3 <= m \/ 1 <= y -> 1 <= m <= 12 -> 1 <= d ->
  compute_days_body y m d = Days_ok yd wd ->
  1 <= yd <= 366 /\ 1 <= wd <= 7.
Proof.
  intros Hy Hm3 Hm Hd. unfold compute_days_body.
  assert (Hcases : m = 1 \/ m = 2 \/ m = 3 \/ m = 4 \/ m = 5 \/ m = 6 \/ m = 7
                   \/ m = 8 \/ m = 9 \/ m = 10 \/ m = 11 \/ m = 12) by lia.
  set (nl := negb (Z.rem y 4 =? 0) || ((Z.rem y 100 =? 0) && negb (Z.rem y 400 =? 0))).
  assert (Hnl : 0 <= Z.b2z nl <= 1) by (destruct nl; cbn; lia).
  assert (Hwd : forall x, 0 <= x -> 1 <= Z.rem x 7 + 1 <= 7).
  { intros x Hx. rewrite Z.rem_mod_nonneg by lia.
    pose proof (Z.mod_pos_bound x 7 ltac:(lia)). lia. }
  pose proof (leap_days_nonneg y Hy) as Hl0.
  repeat (destruct Hcases as [Hc|Hcases]; [subst m|]); try subst m;
    table_lookup; cbv iota;
    match goal with |- context [d >? ?dim] => destruct (Z.gtb_spec d dim) end;
    try discriminate;
    match goal with |- context [if ?c then Days_invalid else _] => destruct c end;
    try discriminate;
    match goal with |- context [?a <? 3] => destruct (Z.ltb_spec a 3); try lia end;
    intros Hok; apply Days_ok_inj in Hok; destruct Hok as [<- <-];
    (split; [lia|]); apply Hwd;
    try (pose proof (leap_days_nonneg (y - 1) ltac:(lia)); lia); lia.
Qed.

(** The time of day [epoch_ms_to_datetime] takes from the milliseconds of
    the day. *)
Lemma time_of_day_split msd :
  0 <= msd < 86400000 ->
  let h := Z.quot msd MSEC_PER_HOUR in
  let mi := Z.rem (Z.quot msd MSEC_PER_MINUTE) MINUTES_PER_HOUR in
  let s := Z.rem (Z.quot msd MSEC_PER_SEC) SEC_PER_MINUTE in
  let ms := Z.rem msd MSEC_PER_SEC in
  0 <= h < 24 /\ 0 <= mi < 60 /\ 0 <= s < 60 /\ 0 <= ms < 1000
  /\ h * MSEC_PER_HOUR + mi * MSEC_PER_MINUTE + s * MSEC_PER_SEC + ms = msd.
Proof.
  intros Hmsd. unfold MSEC_PER_HOUR, MSEC_PER_MINUTE, MSEC_PER_SEC, MINUTES_PER_HOUR,
    SEC_PER_MINUTE. cbv zeta.
  assert (Ha : 0 <= msd / 1000) by (apply Z.div_pos; lia).
  assert (Hb : 0 <= msd / 60000) by (apply Z.div_pos; lia).
  rewrite !Z.quot_div_nonneg, !Z.rem_mod_nonneg by lia.
  replace (msd / 60000) with (msd / 1000 / 60) in * by (rewrite Z.div_div; [reflexivity|lia|lia]).
  replace (msd / 3600000) with (msd / 1000 / 60 / 60)
    by (rewrite !Z.div_div; [reflexivity|lia..]).
  pose proof (Z.div_mod msd 1000 ltac:(lia)) as E1.
  pose proof (Z.mod_pos_bound msd 1000 ltac:(lia)) as B1.
  pose proof (Z.div_mod (msd / 1000) 60 ltac:(lia)) as E2.
  pose proof (Z.mod_pos_bound (msd / 1000) 60 ltac:(lia)) as B2.
  pose proof (Z.div_mod (msd / 1000 / 60) 60 ltac:(lia)) as E3.
  pose proof (Z.mod_pos_bound (msd / 1000 / 60) 60 ltac:(lia)) as B3.
  set (a := msd / 1000) in *. set (b := a / 60) in *. set (h := b / 60) in *.
  set (x1 := msd mod 1000) in *. set (x2 := a mod 60) in *. set (x3 := b mod 60) in *.
  lia.
Qed.

(** The facts [day_ok] collects, for a day count of the valid range. *)
Lemma civil_of_days_valid days :
  365183 <= days <= 1059508 ->
  exists y m d yd wd,
    civil_of_days days = (y, m, d, yd, wd)
    /\ days_of_civil y m d = days
    /\ valid_date y m d = true
    /\ compute_days y m d = Days_ok yd wd
    /\ 1 <= yd <= 366 /\ 1 <= wd <= 7.
Proof.
  intros Hd.
  pose proof (Z.div_mod days 146097 ltac:(lia)) as Hdm.
  pose proof (Z.mod_pos_bound days 146097 ltac:(lia)) as Hr.
  set (c := days / 146097) in *. set (r := days mod 146097) in *.
  assert (Hc : 2 <= c <= 7) by lia.
  assert (Hdays : days = 146097 * c + r) by lia. clearbody c r. subst days.
  rewrite civil_of_days_cycle by lia.
  pose proof (cycle_days_ok r Hr) as Hok. unfold day_ok in Hok.
  destruct (civil_of_days r) as [[[[y m] d] yd] wd].
  repeat (apply andb_prop in Hok; destruct Hok as [Hok ?]).
  destruct (compute_days_body y m d) as [| |yd' wd'] eqn:Hcd; try discriminate.
  repeat match goal with
         | H : _ && _ = true |- _ => apply andb_prop in H; destruct H
         | H : _ || _ = true |- _ => apply orb_prop in H
         | H : (_ =? _) = true |- _ => apply Z.eqb_eq in H
         | H : (_ <=? _) = true |- _ => apply Z.leb_le in H
         | H : (_ <? _) = true |- _ => apply Z.ltb_lt in H
         end.
  subst yd' wd'.
  assert (Hy : 1000 <= y + 400 * c <= 2900).
  { repeat match goal with
           | H : _ \/ _ |- _ =>
               destruct H as [H|H];
               [first [apply Z.ltb_lt in H | apply Z.leb_le in H]
               |first [apply Z.ltb_lt in H | apply Z.leb_le in H]]
           end; lia. }
  assert (Hm3 : 3 <= m \/ 1 <= y).
  { repeat match goal with
           | H : (3 <=? m) = true \/ _ |- _ =>
               destruct H as [H|H]; apply Z.leb_le in H
           end; lia. }
  exists (y + 400 * c), m, d, yd, wd.
  split; [reflexivity|]. split; [rewrite days_of_civil_cycle by lia; lia|].
  split.
  { unfold valid_date. rewrite days_in_month_cycle.
    repeat (apply andb_true_intro; split); apply Z.leb_le; lia. }
  split.
  { rewrite compute_days_in_range by lia. apply compute_days_body_cycle; try lia.
    exact Hcd. }
  apply (compute_days_body_bounds y m d yd wd); auto; lia.
Qed.

(** The days before 1 March grow by 365 or 366 from a year to the next,
    by 366 when the year that ends is a leap year. *)
Lemma march_year_length Y :
  0 <= Y ->
  (Y + 1) * 365 + (Y + 1) / 4 - (Y + 1) / 100 + (Y + 1) / 400
  = Y * 365 + Y / 4 - Y / 100 + Y / 400
    + 365 + (if leap_year (Y + 1) then 1 else 0).
Proof.
  intros HY. unfold leap_year.
  pose proof (Z.div_mod Y 4 ltac:(lia)). pose proof (Z.mod_pos_bound Y 4 ltac:(lia)).
  pose proof (Z.div_mod Y 100 ltac:(lia)). pose proof (Z.mod_pos_bound Y 100 ltac:(lia)).
  pose proof (Z.div_mod Y 400 ltac:(lia)). pose proof (Z.mod_pos_bound Y 400 ltac:(lia)).
  pose proof (Z.div_mod (Y + 1) 4 ltac:(lia)).
  pose proof (Z.mod_pos_bound (Y + 1) 4 ltac:(lia)).
  pose proof (Z.div_mod (Y + 1) 100 ltac:(lia)).
  pose proof (Z.mod_pos_bound (Y + 1) 100 ltac:(lia)).
  pose proof (Z.div_mod (Y + 1) 400 ltac:(lia)).
  pose proof (Z.mod_pos_bound (Y + 1) 400 ltac:(lia)).
  destruct (Z.eqb_spec ((Y + 1) mod 4) 0);
    destruct (Z.eqb_spec ((Y + 1) mod 100) 0);
    destruct (Z.eqb_spec ((Y + 1) mod 400) 0); cbn [andb negb orb]; lia.
Qed.

Lemma march_year_mono a b :
  0 <= a <= b ->
  a * 365 + a / 4 - a / 100 + a / 400 <= b * 365 + b / 4 - b / 100 + b / 400.
Proof.
  intros H.
  pose proof (Z.div_mod a 4 ltac:(lia)). pose proof (Z.mod_pos_bound a 4 ltac:(lia)).
  pose proof (Z.div_mod a 100 ltac:(lia)). pose proof (Z.mod_pos_bound a 100 ltac:(lia)).
  pose proof (Z.div_mod a 400 ltac:(lia)). pose proof (Z.mod_pos_bound a 400 ltac:(lia)).
  pose proof (Z.div_mod b 4 ltac:(lia)). pose proof (Z.mod_pos_bound b 4 ltac:(lia)).
  pose proof (Z.div_mod b 100 ltac:(lia)). pose proof (Z.mod_pos_bound b 100 ltac:(lia)).
  pose proof (Z.div_mod b 400 ltac:(lia)). pose proof (Z.mod_pos_bound b 400 ltac:(lia)).
  lia.
Qed.

(** A date of the calendar lies in its year counted from March. *)
Lemma days_of_civil_in_year y m d :
  1 <= y -> 1 <= m <= 12 -> 1 <= d <= days_in_month m y ->
  let Y := if m <? 3 then y - 1 else y in
  Y * 365 + Y / 4 - Y / 100 + Y / 400 <= days_of_civil y m d
  /\ days_of_civil y m d
     < (Y + 1) * 365 + (Y + 1) / 4 - (Y + 1) / 100 + (Y + 1) / 400.
Proof.
  intros Hy Hm Hd Y. subst Y.
  rewrite days_of_civil_march by (assumption || lia). cbv zeta.
  rewrite march_year_length by (destruct (m <? 3); lia).
  unfold days_in_month in Hd.
  assert (Hcases : m = 1 \/ m = 2 \/ m = 3 \/ m = 4 \/ m = 5 \/ m = 6 \/ m = 7
                   \/ m = 8 \/ m = 9 \/ m = 10 \/ m = 11 \/ m = 12) by lia.
  repeat (destruct Hcases as [->|Hcases]); try subst m;
    cbn [Z.ltb Z.compare Pos.compare Pos.compare_cont Z.eqb Pos.eqb orb] in *;
    repeat match goal with
           | |- context [table_at ?t ?i] =>
               let v := eval vm_compute in (table_at t i) in
               change (table_at t i) with v
           end;
    try (replace (y - 1 + 1) with y by lia);
    destruct (leap_year _); lia.
Qed.

(** Two dates of the calendar with the same day count are the same date. *)
Lemma days_of_civil_inj y m d y' m' d' :
  1 <= y -> 1 <= m <= 12 -> 1 <= d <= days_in_month m y ->
  1 <= y' -> 1 <= m' <= 12 -> 1 <= d' <= days_in_month m' y' ->
  days_of_civil y m d = days_of_civil y' m' d' ->
  y = y' /\ m = m' /\ d = d'.
Proof.
  intros Hy Hm Hd Hy' Hm' Hd' Heq.
  pose proof (days_of_civil_in_year y m d Hy Hm Hd) as [Hlo Hhi].
  pose proof (days_of_civil_in_year y' m' d' Hy' Hm' Hd') as [Hlo' Hhi'].
  cbv zeta in *.
  set (Y := if m <? 3 then y - 1 else y) in *.
  set (Y' := if m' <? 3 then y' - 1 else y') in *.
  assert (HY : 0 <= Y) by (subst Y; destruct (m <? 3); lia).
  assert (HY' : 0 <= Y') by (subst Y'; destruct (m' <? 3); lia).
  assert (HYY : Y = Y').
  { destruct (Z.lt_trichotomy Y Y') as [Hlt|[Heq'|Hgt]]; [|assumption|].
    - pose proof (march_year_mono (Y + 1) Y' ltac:(lia)). lia.
    - pose proof (march_year_mono (Y' + 1) Y ltac:(lia)). lia. }
  rewrite (days_of_civil_march y m d), (days_of_civil_march y' m' d') in Heq
    by (assumption || lia).
  cbv zeta in Heq. fold Y Y' in Heq. rewrite <- HYY in Heq.
  assert (Hoff : table_at days_before_month_march (if m <? 3 then m + 9 else m - 3) + d
                 = table_at days_before_month_march
                     (if m' <? 3 then m' + 9 else m' - 3) + d') by lia.
  clear Heq Hlo Hhi Hlo' Hhi'.
  assert (Hd31 : d <= (if m =? 2 then 29
                       else if (m =? 4) || (m =? 6) || (m =? 9) || (m =? 11)
                            then 30 else 31)).
  { unfold days_in_month in Hd. destruct (m =? 2); [destruct (leap_year y); lia|].
    lia. }
  assert (Hd31' : d' <= (if m' =? 2 then 29
                         else if (m' =? 4) || (m' =? 6) || (m' =? 9) || (m' =? 11)
                              then 30 else 31)).
  { unfold days_in_month in Hd'. destruct (m' =? 2); [destruct (leap_year y'); lia|].
    lia. }
  assert (Hmm : m = m' /\ d = d').
  { assert (Hc : m = 1 \/ m = 2 \/ m = 3 \/ m = 4 \/ m = 5 \/ m = 6 \/ m = 7
                 \/ m = 8 \/ m = 9 \/ m = 10 \/ m = 11 \/ m = 12) by lia.
    assert (Hc' : m' = 1 \/ m' = 2 \/ m' = 3 \/ m' = 4 \/ m' = 5 \/ m' = 6 \/ m' = 7
                  \/ m' = 8 \/ m' = 9 \/ m' = 10 \/ m' = 11 \/ m' = 12) by lia.
    clear HYY HY HY'. clearbody Y Y'.
    repeat (destruct Hc as [->|Hc]); try subst m;
      repeat (destruct Hc' as [->|Hc']); try subst m';
      repeat match goal with
             | H : context [table_at ?t ?i] |- _ =>
                 let v := eval vm_compute in (table_at t i) in
                 change (table_at t i) with v in H
             end;
      cbn [Z.eqb Pos.eqb orb] in Hd31, Hd31'; lia. }
  destruct Hmm as [<- <-]. subst Y Y'.
  destruct (m <? 3); repeat split; lia.
Qed.

(** The date of the day count of a valid date is that date, and the day
    count lies in the range of the valid timestamps. *)
Lemma civil_of_days_of_civil y m d :
  valid_date y m d = true ->
  365183 <= days_of_civil y m d <= 1059508
  /\ exists yd wd, civil_of_days (days_of_civil y m d) = (y, m, d, yd, wd).
Proof.
  intros Hv. pose proof Hv as Hv0. unfold valid_date in Hv.
  repeat (apply andb_prop in Hv; destruct Hv as [Hv ?]).
  repeat match goal with
         | H : (_ <=? _) = true |- _ => apply Z.leb_le in H
         end.
  assert (Hrange : 365183 <= days_of_civil y m d <= 1059508).
  { pose proof (days_of_civil_in_year y m d ltac:(lia) ltac:(lia) ltac:(lia))
      as [Hlo Hhi].
    cbv zeta in *.
    rewrite (days_of_civil_march y m d) in * by lia. cbv zeta in *.
    destruct (Z.ltb_spec m 3).
    - pose proof (march_year_mono 999 (y - 1) ltac:(lia)) as Hmin.
      pose proof (march_year_mono (y - 1 + 1) 2900 ltac:(lia)) as Hmax.
      change (999 * 365 + 999 / 4 - 999 / 100 + 999 / 400) with 364877 in Hmin.
      change (2900 * 365 + 2900 / 4 - 2900 / 100 + 2900 / 400) with 1059203 in Hmax.
      assert (Hc : m = 1 \/ m = 2) by lia.
      destruct Hc as [-> | ->]; repeat match goal with
                                     | H : context [table_at ?t ?i] |- _ =>
                                         let v := eval vm_compute in (table_at t i) in
                                         change (table_at t i) with v in H
                                     | |- context [table_at ?t ?i] =>
                                         let v := eval vm_compute in (table_at t i) in
                                         change (table_at t i) with v
                                     end; lia.
    - pose proof (march_year_mono 1000 y ltac:(lia)) as Hmin.
      pose proof (march_year_mono y 2900 ltac:(lia)) as Hmax.
      change (1000 * 365 + 1000 / 4 - 1000 / 100 + 1000 / 400) with 365242 in Hmin.
      change (2900 * 365 + 2900 / 4 - 2900 / 100 + 2900 / 400) with 1059203 in Hmax.
      assert (Hc : m = 3 \/ m = 4 \/ m = 5 \/ m = 6 \/ m = 7
                   \/ m = 8 \/ m = 9 \/ m = 10 \/ m = 11 \/ m = 12) by lia.
      repeat (destruct Hc as [->|Hc]); try subst m;
        unfold days_in_month in *;
        repeat match goal with
               | H : context [table_at ?t ?i] |- _ =>
                   let v := eval vm_compute in (table_at t i) in
                   change (table_at t i) with v in H
               | |- context [table_at ?t ?i] =>
                   let v := eval vm_compute in (table_at t i) in
                   change (table_at t i) with v
               end;
        cbn [Z.eqb Pos.eqb orb] in *; lia. }
  split; [exact Hrange|].
  destruct (civil_of_days_valid _ Hrange)
    as (y2 & m2 & d2 & yd2 & wd2 & Hciv2 & Hdays2 & Hv2 & _).
  unfold valid_date in Hv2.
  repeat (apply andb_prop in Hv2; destruct Hv2 as [Hv2 ?]).
  repeat match goal with
         | H : (_ <=? _) = true |- _ => apply Z.leb_le in H
         end.
  destruct (days_of_civil_inj y2 m2 d2 y m d) as (-> & -> & ->); try lia.
  exists yd2, wd2. exact Hciv2.
Qed.

Lemma valid_date_bounds y m d :
  valid_date y m d = true ->
  1000 <= y <= 2900 /\ 1 <= m <= 12 /\ 1 <= d <= 31.
Proof.
  unfold valid_date. intros Hv.
  repeat (apply andb_prop in Hv; destruct Hv as [Hv ?]).
  repeat match goal with
         | H : (_ <=? _) = true |- _ => apply Z.leb_le in H
         end.
  assert (days_in_month m y <= 31).
  { unfold days_in_month.
    destruct (m =? 2); [destruct (leap_year _); lia|].
    destruct (_ || _); lia. }
  lia.
Qed.

(** On a valid date [compute_days] succeeds, and returns the two fields
    [epoch_ms_to_datetime] derives from the day count of that date. *)
Lemma valid_date_compute_days y m d :
  valid_date y m d = true ->
  exists yd wd,
    compute_days y m d = Days_ok yd wd
    /\ 1 <= yd <= 366 /\ 1 <= wd <= 7
    /\ 365183 <= days_of_civil y m d <= 1059508
    /\ civil_of_days (days_of_civil y m d) = (y, m, d, yd, wd).
Proof.
  intros Hv.
  destruct (civil_of_days_of_civil y m d Hv) as (Hr & yd & wd & Hciv).
  destruct (civil_of_days_valid _ Hr)
    as (y2 & m2 & d2 & yd2 & wd2 & Hciv2 & _ & _ & Hcd & Hyd & Hwd).
  rewrite Hciv in Hciv2. injection Hciv2 as <- <- <- <- <-.
  exists yd, wd. auto.
Qed.

(** The inverse of [time_of_day_split]. *)
Lemma time_of_day_join h mi s ms :
  0 <= h < 24 -> 0 <= mi < 60 -> 0 <= s < 60 -> 0 <= ms < 1000 ->
  let tod := h * MSEC_PER_HOUR + mi * MSEC_PER_MINUTE + s * MSEC_PER_SEC + ms in
  0 <= tod < 86400000
  /\ Z.quot tod MSEC_PER_HOUR = h
  /\ Z.rem (Z.quot tod MSEC_PER_MINUTE) MINUTES_PER_HOUR = mi
  /\ Z.rem (Z.quot tod MSEC_PER_SEC) SEC_PER_MINUTE = s
  /\ Z.rem tod MSEC_PER_SEC = ms.
Proof.
  intros Hh Hmi Hs Hms.
  unfold MSEC_PER_HOUR, MSEC_PER_MINUTE, MSEC_PER_SEC, MINUTES_PER_HOUR, SEC_PER_MINUTE.
  cbv zeta.
  set (tod := h * 3600000 + mi * 60000 + s * 1000 + ms).
  assert (Ht : 0 <= tod < 86400000) by (subst tod; lia).
  assert (E1 : tod / 3600000 = h).
  { symmetry. apply (Z.div_unique_pos tod 3600000 h (mi * 60000 + s * 1000 + ms));
      subst tod; lia. }
  assert (E2 : tod / 60000 = h * 60 + mi).
  { symmetry. apply (Z.div_unique_pos tod 60000 _ (s * 1000 + ms)); subst tod; lia. }
  assert (E3 : tod / 1000 = (h * 60 + mi) * 60 + s).
  { symmetry. apply (Z.div_unique_pos tod 1000 _ ms); subst tod; lia. }
  assert (E4 : tod mod 1000 = ms).
  { symmetry. apply (Z.mod_unique_pos tod 1000 ((h * 60 + mi) * 60 + s) ms);
      subst tod; lia. }
  rewrite !Z.quot_div_nonneg by lia. rewrite E1, E2, E3.
  rewrite !Z.rem_mod_nonneg by lia. rewrite E4.
  repeat split; try lia.
  - symmetry. apply (Z.mod_unique_pos _ 60 h mi); lia.
  - symmetry. apply (Z.mod_unique_pos _ 60 (h * 60 + mi) s); lia.
Qed.

(** What [epoch_ms_to_datetime] returns on a timestamp of the valid range:
    the packed value of a date of the calendar and a time of day that count
    back to the timestamp. *)
Lemma epoch_ms_to_datetime_fields epoch_ms :
  MIN_EPOCH_MS <= epoch_ms <= MAX_EPOCH_MS ->
  exists y m d h mi s ms yd wd,
    epoch_ms_to_datetime epoch_ms
    = pack_datetime (y, m, d, yd, wd)
        (h * MSEC_PER_HOUR + mi * MSEC_PER_MINUTE + s * MSEC_PER_SEC + ms)
    /\ valid_date y m d = true
    /\ compute_days y m d = Days_ok yd wd
    /\ 1 <= yd <= 366 /\ 1 <= wd <= 7
    /\ 0 <= h < 24 /\ 0 <= mi < 60 /\ 0 <= s < 60 /\ 0 <= ms < 1000
    /\ BASE_EPOCH_MS + days_of_civil y m d * MSEC_PER_DAY
       + h * MSEC_PER_HOUR + mi * MSEC_PER_MINUTE + s * MSEC_PER_SEC + ms
       = epoch_ms.
Proof.
  unfold MIN_EPOCH_MS, MAX_EPOCH_MS. intros Hms.
  rewrite epoch_ms_to_datetime_days.
  unfold BASE_EPOCH_MS, MSEC_PER_DAY.
  set (base := epoch_ms - -62162035200000).
  assert (Hbase : 31551811200000 <= base <= 91541577599999) by (subst base; lia).
  rewrite Z.quot_div_nonneg, Z.rem_mod_nonneg by lia.
  pose proof (Z.div_mod base 86400000 ltac:(lia)) as Hdm.
  pose proof (Z.mod_pos_bound base 86400000 ltac:(lia)) as Hb.
  set (days := base / 86400000) in *. set (msd := base mod 86400000) in *.
  assert (Hdays : 365183 <= days <= 1059508) by lia.
  destruct (civil_of_days_valid days Hdays)
    as (y & m & d & yd & wd & Hciv & Hback & Hv & Hcd & Hyd & Hwd).
  destruct (time_of_day_split msd Hb) as (Hh & Hmi & Hs & Hmsf & Hsum).
  exists y, m, d, (Z.quot msd MSEC_PER_HOUR),
    (Z.rem (Z.quot msd MSEC_PER_MINUTE) MINUTES_PER_HOUR),
    (Z.rem (Z.quot msd MSEC_PER_SEC) SEC_PER_MINUTE),
    (Z.rem msd MSEC_PER_SEC), yd, wd.
  rewrite Hsum, Hciv, Hback.
  repeat (split; [assumption || reflexivity || lia|]).
  subst base. lia.
Qed.

(** The fields of the value [pack_datetime] builds. *)
Lemma pack_datetime_fields y m d h mi s ms yd wd :
  valid_date y m d = true ->
  1 <= yd <= 366 -> 1 <= wd <= 7 ->
  0 <= h < 24 -> 0 <= mi < 60 -> 0 <= s < 60 -> 0 <= ms < 1000 ->
  let packed :=
    pack_datetime (y, m, d, yd, wd)
      (h * MSEC_PER_HOUR + mi * MSEC_PER_MINUTE + s * MSEC_PER_SEC + ms) in
  packed
  = wrap64s
      (Z.shiftl (y - DT_BASE_YEAR) DT_SHIFT_YEAR
       + Z.shiftl m DT_SHIFT_MONTH
       + Z.shiftl d DT_SHIFT_DAY
       + Z.shiftl h DT_SHIFT_HOUR
       + Z.shiftl mi DT_SHIFT_MINUTE
       + Z.shiftl s DT_SHIFT_SEC
       + Z.shiftl ms DT_SHIFT_MSEC
       + Z.shiftl yd DT_SHIFT_YDAY
       + Z.shiftl wd DT_SHIFT_WDAY)
  /\ DT_YEAR packed = y /\ DT_MONTH packed = m /\ DT_DAY packed = d
  /\ DT_HOUR packed = h /\ DT_MINUTE packed = mi /\ DT_SEC packed = s
  /\ DT_MSEC packed = ms /\ DT_YDAY packed = yd /\ DT_WDAY packed = wd.
Proof.
  intros Hv Hyd Hwd Hh Hmi Hs Hms packed. subst packed.
  destruct (valid_date_bounds y m d Hv) as (Hy & Hm & Hd).
  destruct (time_of_day_join h mi s ms Hh Hmi Hs Hms) as (_ & E1 & E2 & E3 & E4).
  unfold pack_datetime. rewrite E1, E2, E3, E4.
  split; [reflexivity|].
  apply DT_fields; unfold DT_BASE_YEAR; lia.
Qed.

(** X1. The accessor macros of dt.h invert [encode_time]: on an hour below
    32, a minute and a second below 64 and a millisecond below 1024 (all
    non-negative) the four fields read from the packed time are the four
    arguments. *)
Theorem encode_time_fields hour minute second millisecond :
  0 <= hour < 32 -> 0 <= minute < 64 -> 0 <= second < 64 ->
  0 <= millisecond < 1024 ->
  TIME_HOUR (encode_time hour minute second millisecond) = hour
  /\ TIME_MINUTE (encode_time hour minute second millisecond) = minute
  /\ TIME_SEC (encode_time hour minute second millisecond) = second
  /\ TIME_MSEC (encode_time hour minute second millisecond) = millisecond.
Proof. apply TIME_fields. Qed.

Lemma encode_time_fields_witness :
  TIME_HOUR (encode_time 23 59 58 999) = 23
  /\ TIME_MINUTE (encode_time 23 59 58 999) = 59
  /\ TIME_SEC (encode_time 23 59 58 999) = 58
  /\ TIME_MSEC (encode_time 23 59 58 999) = 999.
Proof. apply (encode_time_fields 23 59 58 999); lia. Defined.

(** X2. On every date of the calendar with a year in 1000..2900
    [encode_date] succeeds, and the accessor macros read the year, the
    month and the day back from the packed date; the day of the year it
    stores lies in 1..366 and the day of the week in 1..7. *)
Theorem encode_date_fields year month day :
  valid_date year month day = true ->
  exists date,
    encode_date year month day = Enc_ok date
    /\ DATE_YEAR date = year /\ DATE_MONTH date = month /\ DATE_DAY date = day
    /\ 1 <= DATE_YDAY date <= 366 /\ 1 <= DATE_WDAY date <= 7.
Proof.
  intros Hv.
  destruct (valid_date_compute_days year month day Hv) as (yd & wd & Hcd & Hyd & Hwd & _).
  destruct (valid_date_bounds year month day Hv) as (Hy & Hm & Hd).
  unfold encode_date. rewrite Hcd. eexists. split; [reflexivity|].
  destruct (DATE_fields year month day yd wd) as (E1 & E2 & E3 & E4 & E5);
    try (unfold DATE_BASE_YEAR; lia).
  rewrite E1, E2, E3, E4, E5. auto.
Qed.

Lemma encode_date_fields_witness :
  exists date,
    encode_date 2024 2 29 = Enc_ok date
    /\ DATE_YEAR date = 2024 /\ DATE_MONTH date = 2 /\ DATE_DAY date = 29
    /\ 1 <= DATE_YDAY date <= 366 /\ 1 <= DATE_WDAY date <= 7.
Proof. apply (encode_date_fields 2024 2 29). reflexivity. Defined.

(** X3. On every valid date and every time of day [encode_datetime]
    succeeds, the accessor macros read the seven arguments back from the
    packed datetime, and its day of the year and day of the week are those
    [encode_date] stores for the same date. *)
Theorem encode_datetime_fields year month day hour minute second millisecond :
  valid_date year month day = true ->
  0 <= hour < 24 -> 0 <= minute < 60 -> 0 <= second < 60 ->
  0 <= millisecond < 1000 ->
  exists datetime date,
    encode_datetime year month day hour minute second millisecond = Enc_ok datetime
    /\ encode_date year month day = Enc_ok date
    /\ DT_YEAR datetime = year /\ DT_MONTH datetime = month
    /\ DT_DAY datetime = day /\ DT_HOUR datetime = hour
    /\ DT_MINUTE datetime = minute /\ DT_SEC datetime = second
    /\ DT_MSEC datetime = millisecond
    /\ DT_YDAY datetime = DATE_YDAY date
    /\ DT_WDAY datetime = DATE_WDAY date.
Proof.
  intros Hv Hh Hmi Hs Hms.
  destruct (valid_date_compute_days year month day Hv) as (yd & wd & Hcd & Hyd & Hwd & _).
  destruct (valid_date_bounds year month day Hv) as (Hy & Hm & Hd).
  unfold encode_datetime, encode_date. rewrite Hcd.
  eexists. eexists. split; [reflexivity|]. split; [reflexivity|].
  destruct (DATE_fields year month day yd wd) as (_ & _ & _ & E4 & E5);
    try (unfold DATE_BASE_YEAR; lia).
  destruct (DT_fields year month day hour minute second millisecond yd wd)
    as (F1 & F2 & F3 & F4 & F5 & F6 & F7 & F8 & F9);
    try (unfold DT_BASE_YEAR; lia).
  rewrite E4, E5, F1, F2, F3, F4, F5, F6, F7, F8, F9.
  repeat split; reflexivity.
Qed.

Lemma encode_datetime_fields_witness :
  exists datetime date,
    encode_datetime 1999 12 31 23 59 59 999 = Enc_ok datetime
    /\ encode_date 1999 12 31 = Enc_ok date
    /\ DT_YEAR datetime = 1999 /\ DT_MONTH datetime = 12
    /\ DT_DAY datetime = 31 /\ DT_HOUR datetime = 23
    /\ DT_MINUTE datetime = 59 /\ DT_SEC datetime = 59
    /\ DT_MSEC datetime = 999
    /\ DT_YDAY datetime = DATE_YDAY date
    /\ DT_WDAY datetime = DATE_WDAY date.
Proof. apply (encode_datetime_fields 1999 12 31 23 59 59 999); [reflexivity|lia..]. Defined.

(** X4. A timestamp of the valid range survives the two conversions of
    dt.c: [datetime_to_epoch_ms] gives back the milliseconds
    [epoch_ms_to_datetime] was called with. *)
Theorem epoch_ms_round_trip epoch_ms :
  MIN_EPOCH_MS <= epoch_ms <= MAX_EPOCH_MS ->
  datetime_to_epoch_ms (epoch_ms_to_datetime epoch_ms) = epoch_ms.
Proof.
  intros Hrange.
  destruct (epoch_ms_to_datetime_fields epoch_ms Hrange)
    as (y & m & d & h & mi & s & ms & yd & wd & Hdt & Hv & Hcd & Hyd & Hwd
        & Hh & Hmi & Hs & Hms & Hsum).
  destruct (pack_datetime_fields y m d h mi s ms yd wd Hv Hyd Hwd Hh Hmi Hs Hms)
    as (_ & F1 & F2 & F3 & F4 & F5 & F6 & F7 & _).
  rewrite datetime_to_epoch_ms_days, Hdt, F1, F2, F3, F4, F5, F6, F7, Hsum.
  apply wrap64s_small. unfold MIN_EPOCH_MS, MAX_EPOCH_MS in Hrange.
  change (2 ^ 63) with 9223372036854775808. lia.
Qed.

Lemma epoch_ms_round_trip_witness :
  datetime_to_epoch_ms (epoch_ms_to_datetime 1700000000123) = 1700000000123.
Proof. apply (epoch_ms_round_trip 1700000000123). unfold MIN_EPOCH_MS, MAX_EPOCH_MS. lia. Defined.

(** X5. The datetime [epoch_ms_to_datetime] returns for a timestamp of the
    valid range holds a valid date and a time of day, and is the value
    [encode_datetime] packs from its own seven fields. *)
Theorem epoch_ms_to_datetime_encodes epoch_ms :
  MIN_EPOCH_MS <= epoch_ms <= MAX_EPOCH_MS ->
  let datetime := epoch_ms_to_datetime epoch_ms in
  valid_date (DT_YEAR datetime) (DT_MONTH datetime) (DT_DAY datetime) = true
  /\ 0 <= DT_HOUR datetime < 24 /\ 0 <= DT_MINUTE datetime < 60
  /\ 0 <= DT_SEC datetime < 60 /\ 0 <= DT_MSEC datetime < 1000
  /\ encode_datetime (DT_YEAR datetime) (DT_MONTH datetime) (DT_DAY datetime)
       (DT_HOUR datetime) (DT_MINUTE datetime) (DT_SEC datetime)
       (DT_MSEC datetime)
     = Enc_ok datetime.
Proof.
  intros Hrange datetime. subst datetime.
  destruct (epoch_ms_to_datetime_fields epoch_ms Hrange)
    as (y & m & d & h & mi & s & ms & yd & wd & Hdt & Hv & Hcd & Hyd & Hwd
        & Hh & Hmi & Hs & Hms & Hsum).
  destruct (pack_datetime_fields y m d h mi s ms yd wd Hv Hyd Hwd Hh Hmi Hs Hms)
    as (Hpack & F1 & F2 & F3 & F4 & F5 & F6 & F7 & _).
  rewrite Hdt, F1, F2, F3, F4, F5, F6, F7.
  repeat (split; [assumption || lia|]).
  unfold encode_datetime. rewrite Hcd, Hpack. reflexivity.
Qed.

Lemma epoch_ms_to_datetime_encodes_witness :
  let datetime := epoch_ms_to_datetime 0 in
  valid_date (DT_YEAR datetime) (DT_MONTH datetime) (DT_DAY datetime) = true
  /\ 0 <= DT_HOUR datetime < 24 /\ 0 <= DT_MINUTE datetime < 60
  /\ 0 <= DT_SEC datetime < 60 /\ 0 <= DT_MSEC datetime < 1000
  /\ encode_datetime (DT_YEAR datetime) (DT_MONTH datetime) (DT_DAY datetime)
       (DT_HOUR datetime) (DT_MINUTE datetime) (DT_SEC datetime)
       (DT_MSEC datetime)
     = Enc_ok datetime.
Proof. apply (epoch_ms_to_datetime_encodes 0). unfold MIN_EPOCH_MS, MAX_EPOCH_MS. lia. Defined.

(** X6. A packed datetime of a valid date and a time of day converts to a
    timestamp of the valid range, and [epoch_ms_to_datetime] gives the
    packed datetime back, with its day of the year and day of the week. *)
Theorem datetime_round_trip year month day hour minute second millisecond datetime :
  valid_date year month day = true ->
  0 <= hour < 24 -> 0 <= minute < 60 -> 0 <= second < 60 ->
  0 <= millisecond < 1000 ->
  encode_datetime year month day hour minute second millisecond = Enc_ok datetime ->
  MIN_EPOCH_MS <= datetime_to_epoch_ms datetime <= MAX_EPOCH_MS
  /\ epoch_ms_to_datetime (datetime_to_epoch_ms datetime) = datetime.
Proof.
  intros Hv Hh Hmi Hs Hms Henc.
  destruct (valid_date_compute_days year month day Hv)
    as (yd & wd & Hcd & Hyd & Hwd & Hdays & Hciv).
  destruct (pack_datetime_fields year month day hour minute second millisecond yd wd
              Hv Hyd Hwd Hh Hmi Hs Hms)
    as (Hpack & F1 & F2 & F3 & F4 & F5 & F6 & F7 & _).
  destruct (time_of_day_join hour minute second millisecond Hh Hmi Hs Hms)
    as (Htod & _).
  unfold encode_datetime in Henc. rewrite Hcd, <- Hpack in Henc.
  assert (Hdt : datetime
                = pack_datetime (year, month, day, yd, wd)
                    (hour * MSEC_PER_HOUR + minute * MSEC_PER_MINUTE
                     + second * MSEC_PER_SEC + millisecond)) by congruence.
  clear Henc. subst datetime.
  set (tod := hour * MSEC_PER_HOUR + minute * MSEC_PER_MINUTE
              + second * MSEC_PER_SEC + millisecond) in *.
  assert (Hms_eq : datetime_to_epoch_ms (pack_datetime (year, month, day, yd, wd) tod)
                   = BASE_EPOCH_MS + days_of_civil year month day * MSEC_PER_DAY + tod).
  { rewrite datetime_to_epoch_ms_days, F1, F2, F3, F4, F5, F6, F7.
    unfold BASE_EPOCH_MS, MSEC_PER_DAY.
    rewrite wrap64s_small by (change (2 ^ 63) with 9223372036854775808; lia).
    subst tod. lia. }
  rewrite Hms_eq. split.
  { unfold MIN_EPOCH_MS, MAX_EPOCH_MS, BASE_EPOCH_MS, MSEC_PER_DAY. lia. }
  rewrite epoch_ms_to_datetime_days.
  replace (BASE_EPOCH_MS + days_of_civil year month day * MSEC_PER_DAY + tod
           - BASE_EPOCH_MS)
    with (days_of_civil year month day * MSEC_PER_DAY + tod) by lia.
  unfold MSEC_PER_DAY.
  rewrite Z.quot_div_nonneg, Z.rem_mod_nonneg by lia.
  replace ((days_of_civil year month day * 86400000 + tod) / 86400000)
    with (days_of_civil year month day)
    by (apply (Z.div_unique_pos _ 86400000 _ tod); lia).
  replace ((days_of_civil year month day * 86400000 + tod) mod 86400000)
    with tod
    by (apply (Z.mod_unique_pos _ 86400000 (days_of_civil year month day) tod); lia).
  rewrite Hciv. reflexivity.
Qed.

Lemma datetime_round_trip_witness :
  MIN_EPOCH_MS <= datetime_to_epoch_ms 1042078345841423200 <= MAX_EPOCH_MS
  /\ epoch_ms_to_datetime (datetime_to_epoch_ms 1042078345841423200)
     = 1042078345841423200.
Proof.
  apply (datetime_round_trip 2015 11 3 9 30 0 0); [reflexivity|lia..|reflexivity].
Defined.
